(* ===== verification/_CoqProject ===== *)
-Q . S2P
Prelude.v
Js.v
Borsh.v
BorshSpec.v
BorshTyping.v
Schemas.v
Borshify.v
Effects.v
NearDecoder.v
BorshifySpec.v
Instances.v
Samples.v
CodecTheorems.v
BorshifyTheorems.v
NearBridge.v
NearBridgeSpec.v
NearBridgeInv.v
NearBridgeHistory.v
NearBridgeStakes.v
NearBridgeTheorems.v
NearProver.v
NearProverTheorems.v
Robust.v
RobustSpec.v
CallSpec.v
RobustTheorems.v
NearTx.v
NearTxSpec.v
NearTxTheorems.v
Config.v
ConfigTheorems.v
Traces.v
Eth2NearRelay.v
Eth2NearSpec.v
Eth2NearTheorems.v
Near2EthRelay.v
Near2EthSpec.v
Near2EthTheorems.v
Watchdog.v
WatchdogTheorems.v
BridgeCompose.v
EthClient.v
EthClientSpec.v
EthClientInv.v
EthClientTheorems.v
EthProver.v
EthProverTheorems.v
Accounts.v
InitContracts.v
InitTheorems.v
Cli.v
CliTheorems.v
TransferLog.v
ToNear.v
TransferSpec.v
ToNearSpec.v
TransferTheorems.v
Utils.v
UtilsTheorems.v
FromNear.v
Adapter.v
AdapterTheorems.v
Processes.v
ProcessesTheorems.v
Status.v
StatusTheorems.v
Dump.v
DumpTheorems.v
FromNearSpec.v
FromNearTheorems.v
FromNearLiveness.v
MintableToken.v
MintableSpec.v
MintableWorld.v
MintableTheorems.v
Modules.v
ModulesTheorems.v
SolBorsh.v
EthDag.v
