(* ===== verification/Prelude.v ===== *)
(** * Rainbow Bridge CLI: a verification library

    The program is a set of JavaScript packages and contracts that make a
    trustless bridge between Ethereum and NEAR: relays that carry block headers from each chain
    to a light client contract on the other, a watchdog that challenges NEAR
    blocks with invalid signatures, commands that deploy and initialize the
    contracts, a configuration store that the commands share, and token
    transfers over the bridge.  All of them talk to the nodes through a few
    modules of [src/utils]: a Borsh codec, encoders for NEAR light client data,
    and wrappers that retry, reconnect and resend.

    ** The shape of the model

    A pure JavaScript function is a Rocq function that returns an [outcome]:
    a value, a thrown exception, the end of the process ([process.exit]) or,
    for a loop that the source does not bound, the end of the fuel.  An
    effectful function is a computation of the monad [M]: it passes a [world],
    which is the program's own state, the state of the outside and the trace of
    the interactions so far.  The outside (Ethereum and NEAR nodes, timers,
    files, child processes) is a parameter: each service is a function from the
    outside's state to its next state and an answer, so the theorems hold for
    every behaviour of nodes, contracts and other processes.  Every interaction
    appends an [event] to the trace, and the safety theorems are statements
    about traces.  Third-party packages (bn.js, bs58, near-api-js, web3,
    change-case, ethereumjs-util, eth-object) are type classes; what a theorem
    needs of them is a separate class of laws or a named hypothesis, and
    {!Instances} has concrete implementations that satisfy the laws.

    ** Files

    - {!Prelude}: exceptions, outcomes, the monad [M], its program logic and
      the stepping lemmas; {!Js}: strings, buffers, little-endian integers,
      dynamically typed values and objects; {!Effects}: floats, promises, the
      events and the service classes; {!Traces}: which events a computation can
      emit, and triples over an automaton that reads the trace.
    - {!Borsh}, {!Schemas}: [serializeField], [deserializeField],
      [BinaryReader], [serialize], [deserialize] of [utils/borsh.js] and the
      schemas of the NEAR contracts ([eth-on-near-client.js],
      [eth-on-near-prover.js], [near-mintable-token.js]).  {!BorshSpec} states
      the format as a relation between types, values and bytes, {!BorshTyping}
      the types of the values that are read; {!CodecTheorems} has the round
      trip, the refinement of the format, the behaviour on arbitrary bytes and
      that whatever is read from them is well typed.
    - {!Borshify}: [borshify], [borshifyInitialValidators] and
      [borshifyOutcomeProof]; {!NearDecoder}: the Solidity decoders [Borsh.sol],
      [NearDecoder.sol] and [ProofDecoder.sol].  {!BorshifySpec} says which
      on-chain record a JSON object means; {!BorshifyTheorems} shows that what
      the relays encode the contracts decode to that record, and where they do
      not.
    - {!Robust}: [backoff], [RobustWeb3] with [callContract], and
      [normalizeEthKey] of [utils/robust.js], with {!RobustSpec}, {!CallSpec}
      and {!RobustTheorems}: which transactions a call sends and resends, the
      bound on the resends, the events of a receipt, the bounds on retries.
    - {!NearTx}: [signAndSendTransaction] and [nearJsonContractFunctionCall] of
      [utils/robust.js] and the transactions of [BorshContract] in
      [utils/borsh.js].  {!NearTxSpec} is the protocol as an automaton on
      signatures, broadcasts and status queries; {!NearTxTheorems} shows that
      every run follows it and what a returned result means.
    - {!Config}, {!ConfigTheorems}: [RainbowConfig] of [utils/config/index.js]:
      priorities of the sources of a value, and persistence of the values that a
      command returns.
    - {!Eth2NearRelay}, {!Eth2NearSpec}, {!Eth2NearTheorems}: the relay of
      Ethereum blocks ([eth2near-block-relay]): the fork search, the window of
      submitted blocks, the layout of the submitted proofs.
    - {!Near2EthRelay}, {!Near2EthSpec}, {!Near2EthTheorems}: the relay of NEAR
      blocks ([near2eth-block-relay/index.js]): a block is only sent when the
      last answers of the contract and of the node allow it; delays;
      initialization.
    - {!Watchdog}, {!WatchdogTheorems}: [near2eth/watchdog/index.js]: only the
      signature that the contract called invalid is challenged, once.
    - {!Accounts}, {!InitContracts}, {!InitTheorems}: [utils/helpers.js], the
      deployment commands of [cli/init] and [deploy-token.js].
    - {!Utils}, {!UtilsTheorems}: [utils/utils.js] and [utils/get-config.js]: what
      a set-up does to the configuration object it shares with its caller, and
      which configurations can be set up.
    - {!TransferLog}, {!ToNear}, {!TransferSpec}, {!ToNearSpec},
      {!TransferTheorems}: the transfer of tokens to NEAR
      ([testing/transfer-eth-erc20/to-near.js]): its log file, its stages, and an
      automaton that says what may be sent and recorded at which stage.
    - {!FromNear}, {!FromNearSpec}, {!FromNearTheorems}, {!FromNearLiveness}: the
      transfer from NEAR ([from-near.js]): the same for the withdrawal, and that
      the stage that waits for the light client ends when the relay works.
    - {!Adapter}, {!AdapterTheorems}: [testing/adapter/index.js] and the command
      [eth-to-near-find-proof]: the output that other programs read, and that its
      own copy of the search gives the proof that the next stage of a transfer
      makes of what the stage [findProof] records.
    - {!Cli}, {!CliTheorems}: the options and commands that [cli/index.js]
      registers: they fit together, which parameters of the handlers no option
      gives, and a deployed token is found by its name.
    - {!Processes}, {!ProcessesTheorems}: [cli/commands/start], [stop], [clean.js],
      [prepare.js]: a daemon is the same command, services are started once and
      all of them are stopped.
    - {!Status}, {!StatusTheorems}: [cli/commands/status.js]: the checks and the
      printed report.
    - {!Dump}, {!DumpTheorems}: [near-dump.js] and [eth-dump.js]: the range of
      blocks, the end of the dump, and the saved proofs.
    - {!Modules}, {!ModulesTheorems}: what every module requires and exports, the
      loader of Node.js that links them, that it ends, and which imports of the
      program are undefined.
    - {!NearBridge}: the contract [NearBridge.sol] with every function.
      {!NearBridgeSpec} and {!NearBridgeInv} have the invariants of the bonds and
      of the two heads and the chain of calls with passing time,
      {!NearBridgeHistory} where the shown blocks come from, {!NearBridgeStakes}
      the stakes behind approvals; {!NearBridgeTheorems} shows that the contract
      can pay every bond, that a shown hash is final and was open to challenge for
      the whole period, that invalid signatures can be challenged, and that two
      quorums of an epoch overlap.  {!SolBorsh} has the readers of [Borsh.sol]
      that no contract uses.
    - {!NearProver}, {!NearProverTheorems}: [NearProver.sol]: without collisions an
      accepted outcome is a leaf of the tree of a shard, and honest Merkle paths of
      an outcome without logs are accepted.
    - {!BridgeCompose}: the JavaScript components against the contracts: a round of
      the relay gets a block with enough approvals into the contract, what the
      watchdog sends removes the block, and an accepted outcome proof stays
      accepted.
    - {!EthClient}, {!EthClientSpec}, {!EthClientInv}, {!EthClientTheorems}:
      [contracts/near/eth-client]: in the window of kept headers the canonical
      hashes are the ancestors of the heaviest header, safe hashes have their
      confirmations, and a range of valid blocks is accepted; below the window a
      canonical hash can be of another fork.  {!EthDag}: the Merkle proofs of the ethash data set that
      come with a header.
    - {!EthProver}, {!EthProverTheorems}: [contracts/near/eth-prover]: an accepted
      log entry is in a receipt that the trie of a header holds, and the header is
      confirmed unless the call of the client is skipped; which honest proofs are accepted and which are not.
    - {!MintableToken}, {!MintableSpec}: [contracts/near/mintable-fungible-token].
      {!MintableWorld} joins the token, the prover and the client with the
      promises between them; {!MintableTheorems} shows that the supply is backed
      by claims of proved events, that an honest mint completes, and two flaws: an event can
      be blocked by a failed mint, and minted for twice.
    - {!Samples}, {!Instances}: sample objects and library instances for the
      witnesses.

    ** Bounds and fuel

    Integers are [Z]; where a width matters (the [writeUInt8] of the writer, the
    little-endian encodings, the Solidity integers) it is written out.
    JavaScript numbers that are computed with fractions (delays) are IEEE 754
    binary64 numbers of the standard library's [SpecFloat].  The codec recurses
    on the types of a schema and has a fuel; [schema_fuel] is enough for the
    schemas of the program, which the theorems assume as a decidable condition
    on the schema and the witnesses evaluate.  [callContract] loops until the
    gas price reaches a limit; [callContract_terminates] bounds its rounds.  The
    relays and the watchdog loop forever: their theorems hold for every number
    of rounds.  The loops of [EthClient] go down from a block number, which is their
    fuel; the module loader has the number of modules as fuel, which is proved to
    be enough for every program.  The integers of the contracts are checked at
    their width: 256 bits with SafeMath in Solidity, 64, 128 and 256 bits with
    panics on overflow in Rust, whose [usize] has 32 bits.  The fork search of the Ethereum relay is proved to end when the
    client knows a block below; the wait of a withdrawal for the light client and
    the dump of NEAR headers are proved to return, with a bound on their rounds,
    when time passes and the chain advances.

    ** What is not modelled

    Output on the console, except the lines that the theorems speak of; strings
    with code units of 256 and more; concurrency inside a process: the branches
    of a [Promise.all] run in order, and a promise that lost a race with a timer
    has no later effect.  Set-up of connections (wallets, key stores, providers)
    is reduced to the values it passes on.  The packages that the program calls
    ([commander], [pm2], [web3], [near-api-js]) are parameters, as are the crates
    and host functions of the contracts: hashes, signature recovery, [rlp],
    [ethash], [ethabi], [hex] and the size of the storage.  [Ed25519.sol], a
    signature check in unrolled field arithmetic, is a parameter of [NearBridge].
    Gas is not modelled: a promise of the NEAR contracts may fail at any of its
    calls only by a panic.  The configuration of the build tools and the shell
    scripts hold no logic to model. *)

From stdpp Require Import base list strings gmap.
From Stdlib Require Import ZArith Lia.

(** ** JavaScript exceptions and the outcome of a computation *)

(** A thrown value, with the fields the code inspects: [e.name], [e.message],
    [e.type], [e.reason] and [e.signature].  The empty string stands for an
    absent (or empty, hence falsy) field. *)
Record exn := mkExn {
  e_name : string;
  e_message : string;
  e_type : string;
  e_reason : string;
  e_signature : string
}.

Definition Error (msg : string) : exn := mkExn "Error" msg "" "" "".
Definition TypeError (msg : string) : exn := mkExn "TypeError" msg "" "" "".
Definition RangeError (msg : string) : exn := mkExn "RangeError" msg "" "" "".

(** [Error.prototype.toString]: the name alone when the message is empty. *)
Definition exn_toString (e : exn) : string :=
  if String.eqb (e_message e) "" then e_name e
  else if String.eqb (e_name e) "" then e_message e
  else e_name e +:+ ": " +:+ e_message e.

(** How a computation ends: with a value, with a thrown exception, with
    [process.exit(code)], or without an end within the fuel given to the
    model of an unbounded loop. *)
Inductive outcome (A : Type) : Type :=
| Ok (a : A)
| Throw (e : exn)
| Exit (code : Z)
| OutOfFuel.
Arguments Ok {_} _.
Arguments Throw {_} _.
Arguments Exit {_} _.
Arguments OutOfFuel {_}.

#[export] Instance exn_eq_dec : EqDecision exn.
Proof. solve_decision. Defined.
#[export] Instance outcome_eq_dec {A} `{EqDecision A} : EqDecision (outcome A).
Proof. solve_decision. Defined.

#[export] Instance outcome_ret : MRet outcome := fun A a => Ok a.
#[export] Instance outcome_bind : MBind outcome := fun A B f m =>
  match m with
  | Ok a => f a
  | Throw e => Throw e
  | Exit c => Exit c
  | OutOfFuel => OutOfFuel
  end.

Definition of_sum {A} (r : exn + A) : outcome A :=
  match r with inl e => Throw e | inr a => Ok a end.

(** [try m catch (e) h] on outcomes: only exceptions are caught. *)
Definition try_pure {A} (m : outcome A) (h : exn -> outcome A) : outcome A :=
  match m with Throw e => h e | _ => m end.

(** Left-to-right traversal, as [Array.prototype.map] with a throwing callback. *)
Fixpoint mapM_out {A B} (f : A -> outcome B) (l : list A) : outcome (list B) :=
  match l with
  | [] => Ok []
  | x :: l => y ← f x; ys ← mapM_out f l; Ok (y :: ys)
  end.

(** The value of a computation that succeeds. *)
Definition is_ok {A} (o : outcome A) : bool := match o with Ok _ => true | _ => false end.
Definition from_ok {A} (d : A) (o : outcome A) : A := match o with Ok a => a | _ => d end.
Lemma from_ok_spec {A} (d : A) (o : outcome A) : is_ok o = true -> o = Ok (from_ok d o).
Proof. by destruct o. Qed.

Lemma obind_ok {A B} (m : outcome A) (f : A -> outcome B) b :
  (m ≫= f) = Ok b -> exists a, m = Ok a /\ f a = Ok b.
Proof. destruct m; simpl; intros Hm; try done. eauto. Qed.
Lemma mapM_out_ok {A B} (f : A -> outcome B) (l : list A) (l' : list B) :
  Forall2 (fun x y => f x = Ok y) l l' -> mapM_out f l = Ok l'.
Proof.
  induction 1 as [|x y l l' Hxy _ IH]; simpl; [done|].
  rewrite Hxy; simpl. by rewrite IH.
Qed.

Lemma mapM_out_inv {A B} (f : A -> outcome B) (l : list A) (l' : list B) :
  mapM_out f l = Ok l' -> Forall2 (fun x y => f x = Ok y) l l'.
Proof.
  revert l'. induction l as [|x l IH]; simpl; intros l'; [by intros [= <-]|].
  destruct (f x) eqn:Hx; simpl; try done.
  destruct (mapM_out f l) eqn:Hl; simpl; try done. intros [= <-]; auto.
Qed.

Lemma mapM_out_throw {A B} (f : A -> outcome B) (l1 l2 : list A) (x : A) :
  Forall (fun y => is_Some (match f y with Ok b => Some b | _ => None end)) l1 ->
  (exists e, f x = Throw e) -> exists e, mapM_out f (l1 ++ x :: l2) = Throw e.
Proof.
  intros Hl [e He]. induction Hl as [|y l [b Hb] _ IH]; simpl.
  - rewrite He. eauto.
  - destruct (f y); try done. destruct IH as [e' ->]. simpl. eauto.
Qed.

(** The events keep only whether a call succeeded. *)
Definition sum_void {E A} (r : E + A) : E + unit :=
  match r with inl e => inl e | inr _ => inr tt end.

(** ** Two-list relations *)

(** Two relations on the same left list, joined on the right element of one. *)
Lemma Forall2_common {A B C} (P : A -> B -> Prop) (Q : A -> C -> Prop) la lb lc :
  Forall2 P la lb -> Forall2 Q la lc ->
  Forall2 (fun a b => P a b /\ exists c, c ∈ lc /\ Q a c) la lb.
Proof.
  intros HP. revert lc. induction HP as [|a b la lb Hab _ IH]; intros lc HQ; [done|].
  inversion HQ as [|? c ? lc' Hac HQ']; simplify_eq. constructor.
  - split; [done|]. exists c. split; [by left|done].
  - eapply Forall2_impl; [by apply IH|]. intros a' b' [? (c' & ? & ?)].
    split; [done|]. exists c'. split; [by right|done].
Qed.

Lemma Forall2_flip_l {A B} (P : A -> B -> Prop) (Q : A -> Prop) (R : B -> A -> Prop) l k :
  Forall2 P l k -> Forall Q l -> (forall x y, P x y -> Q x -> R y x) -> Forall2 R k l.
Proof.
  intros HP HQ HR. induction HP as [|x y l k Hxy _ IH]; [done|].
  apply Forall_cons in HQ as [? ?]. constructor; auto.
Qed.

(** ** The effect monad

    Asynchronous code is modelled by explicit state passing.  A [world] holds
    the mutable objects of the component ([store]), the state of everything
    outside the process ([net]: nodes, contracts, file system, clock) and the
    trace of the interactions so far, oldest first.  What the outside does is
    a parameter of each component: a function from the outside's state to its
    next state and an answer or an exception. *)
Section effects.
Context {S N Ev : Type}.

Record world := mkWorld { store : S; net : N; trace : list Ev }.

Definition M (A : Type) : Type := world -> world * outcome A.

#[export] Instance M_ret : MRet M := fun A a w => (w, Ok a).
#[export] Instance M_bind : MBind M := fun A B f m w =>
  match m w with
  | (w', Ok a) => f a w'
  | (w', Throw e) => (w', Throw e)
  | (w', Exit c) => (w', Exit c)
  | (w', OutOfFuel) => (w', OutOfFuel)
  end.

Definition throw {A} (e : exn) : M A := fun w => (w, Throw e).
Definition exit {A} (c : Z) : M A := fun w => (w, Exit c).
Definition out_of_fuel {A} : M A := fun w => (w, OutOfFuel).
Definition lift {A} (o : outcome A) : M A := fun w => (w, o).

(** [try { m } catch (e) { h e }] *)
Definition catch {A} (m : M A) (h : exn -> M A) : M A := fun w =>
  match m w with
  | (w', Throw e) => h e w'
  | r => r
  end.

(** The outcome of a [try] block as a value, for handlers that go on. *)
Definition attempt {A} (m : M A) : M (exn + A) := fun w =>
  match m w with
  | (w', Ok a) => (w', Ok (inr a))
  | (w', Throw e) => (w', Ok (inl e))
  | (w', Exit c) => (w', Exit c)
  | (w', OutOfFuel) => (w', OutOfFuel)
  end.

Definition get_store : M S := fun w => (w, Ok (store w)).
Definition put_store (s : S) : M unit := fun w =>
  (mkWorld s (net w) (trace w), Ok tt).
Definition emit (ev : Ev) : M unit := fun w =>
  (mkWorld (store w) (net w) (trace w ++ [ev]), Ok tt).

(** A call to the outside; the event records the call and its answer. *)
Definition rpc {A} (f : N -> N * (exn + A)) (ev : exn + A -> Ev) : M A := fun w =>
  let '(n', r) := f (net w) in
  (mkWorld (store w) n' (trace w ++ [ev r]), of_sum r).

(** *** A small program logic *)

(** [wp m Q w]: run from [w], [m] ends with an outcome and world in [Q]. *)
Definition wp {A} (m : M A) (Q : outcome A -> world -> Prop) (w : world) : Prop :=
  Q (m w).2 (m w).1.

Lemma wp_mono {A} (m : M A) (Q Q' : outcome A -> world -> Prop) w :
  (forall o w', Q o w' -> Q' o w') -> wp m Q w -> wp m Q' w.
Proof. unfold wp. auto. Qed.

Lemma wp_ret {A} (a : A) Q w : Q (Ok a) w -> wp (mret a) Q w.
Proof. done. Qed.

Lemma wp_bind {A B} (m : M A) (f : A -> M B) Q w :
  wp m (fun o w' => match o with
    | Ok a => wp (f a) Q w'
    | Throw e => Q (Throw e) w'
    | Exit c => Q (Exit c) w'
    | OutOfFuel => Q OutOfFuel w'
    end) w -> wp (m ≫= f) Q w.
Proof. unfold wp, mbind, M_bind. destruct (m w) as [w' []]; done. Qed.

Lemma wp_catch {A} (m : M A) h Q w :
  wp m (fun o w' => match o with Throw e => wp (h e) Q w' | _ => Q o w' end) w ->
  wp (catch m h) Q w.
Proof. unfold wp, catch. destruct (m w) as [w' []]; done. Qed.

Lemma wp_rpc {A} (f : N -> N * (exn + A)) ev Q w :
  (forall n' r, f (net w) = (n', r) ->
     Q (of_sum r) (mkWorld (store w) n' (trace w ++ [ev r]))) ->
  wp (rpc f ev) Q w.
Proof. unfold wp, rpc. intros H. destruct (f (net w)) as [n' r]. by apply H. Qed.

(** [keeps I m]: every run of [m] preserves the world predicate [I],
    whatever its outcome. *)
Definition keeps (I : world -> Prop) {A} (m : M A) : Prop :=
  forall w, I w -> I (m w).1.

Lemma keeps_ret I {A} (a : A) : keeps I (mret a).
Proof. by intros w. Qed.
Lemma keeps_throw I {A} e : keeps I (throw (A := A) e).
Proof. by intros w. Qed.
Lemma keeps_exit I {A} c : keeps I (exit (A := A) c).
Proof. by intros w. Qed.
Lemma keeps_out_of_fuel I {A} : keeps I (out_of_fuel (A := A)).
Proof. by intros w. Qed.
Lemma keeps_lift I {A} (o : outcome A) : keeps I (lift o).
Proof. by intros w. Qed.
Lemma keeps_get I : keeps I get_store.
Proof. by intros w. Qed.
Lemma keeps_bind I {A B} (m : M A) (f : A -> M B) :
  keeps I m -> (forall a, keeps I (f a)) -> keeps I (m ≫= f).
Proof.
  intros Hm Hf w Hw. specialize (Hm w Hw). unfold mbind, M_bind.
  destruct (m w) as [w' []]; simpl in *; try done. by apply Hf.
Qed.
Lemma keeps_catch I {A} (m : M A) h :
  keeps I m -> (forall e, keeps I (h e)) -> keeps I (catch m h).
Proof.
  intros Hm Hh w Hw. specialize (Hm w Hw). unfold catch.
  destruct (m w) as [w' []]; simpl in *; try done. by apply Hh.
Qed.
Lemma keeps_attempt I {A} (m : M A) : keeps I m -> keeps I (attempt m).
Proof.
  intros Hm w Hw. specialize (Hm w Hw). unfold attempt. by destruct (m w) as [w' []].
Qed.
Lemma keeps_emit (I : world -> Prop) ev :
  (forall s n tr, I (mkWorld s n tr) -> I (mkWorld s n (tr ++ [ev]))) -> keeps I (emit ev).
Proof. intros H [s n tr]. apply H. Qed.
Lemma keeps_rpc (I : world -> Prop) {A} (f : N -> N * (exn + A)) ev :
  (forall s n tr r, I (mkWorld s n tr) -> I (mkWorld s (f n).1 (tr ++ [ev r]))) ->
  keeps I (rpc f ev).
Proof.
  intros H [s n tr] Hw. unfold rpc; simpl. specialize (H s n tr (f n).2 Hw).
  by destruct (f n).
Qed.
(** Stepping through a run. *)
Lemma bind_run {A B} (m : M A) (f : A -> M B) w w1 a :
  m w = (w1, Ok a) -> (m ≫= f) w = f a w1.
Proof. unfold mbind, M_bind. by intros ->. Qed.
Lemma bind_throw {A B} (m : M A) (f : A -> M B) w w1 e :
  m w = (w1, Throw e) -> (m ≫= f) w = (w1, Throw e).
Proof. unfold mbind, M_bind. by intros ->. Qed.
Lemma bind_exit {A B} (m : M A) (f : A -> M B) w w1 c :
  m w = (w1, Exit c) -> (m ≫= f) w = (w1, Exit c).
Proof. unfold mbind, M_bind. by intros ->. Qed.
Lemma attempt_run {A} (m : M A) w w1 a :
  m w = (w1, Ok a) -> attempt m w = (w1, Ok (inr a)).
Proof. unfold attempt. by intros ->. Qed.
Lemma attempt_throw {A} (m : M A) w w1 e :
  m w = (w1, Throw e) -> attempt m w = (w1, Ok (inl e)).
Proof. unfold attempt. by intros ->. Qed.

Lemma attempt_sum {A} (m : M A) w w1 r :
  m w = (w1, of_sum r) -> attempt m w = (w1, Ok r).
Proof. unfold attempt. intros ->. by destruct r. Qed.
Lemma rpc_run {A} (f : N -> N * (exn + A)) ev w n' a :
  f (net w) = (n', inr a) -> rpc f ev w = (mkWorld (store w) n' (trace w ++ [ev (inr a)]), Ok a).
Proof. unfold rpc. by intros ->. Qed.
Lemma rpc_throw {A} (f : N -> N * (exn + A)) ev w n' e :
  f (net w) = (n', inl e) -> rpc f ev w = (mkWorld (store w) n' (trace w ++ [ev (inl e)]), Throw e).
Proof. unfold rpc. by intros ->. Qed.

(** A run that ends in [Ok] runs every step to [Ok]. *)
Lemma bind_ok {A B} (m : M A) (f : A -> M B) w w' b :
  (m ≫= f) w = (w', Ok b) -> exists a w1, m w = (w1, Ok a) /\ f a w1 = (w', Ok b).
Proof.
  unfold mbind, M_bind. destruct (m w) as [w1 [a|e|c|]] eqn:E; intros H; simplify_eq; eauto.
Qed.

Lemma rpc_ok {A} (f : N -> N * (exn + A)) ev w w' a :
  rpc f ev w = (w', Ok a) -> exists n', w' = mkWorld (store w) n' (trace w ++ [ev (inr a)]).
Proof. unfold rpc. destruct (f (net w)) as [n' [e|x]]; intros [=]; subst. by exists n'. Qed.

Lemma catch_ok {A} (m : M A) h w w' a :
  catch m h w = (w', Ok a) ->
  m w = (w', Ok a) \/ exists e w1, m w = (w1, Throw e) /\ h e w1 = (w', Ok a).
Proof. unfold catch. destruct (m w) as [w1 []] eqn:E; intros H; simplify_eq; eauto. Qed.
End effects.
Arguments world : clear implicits.
Arguments M : clear implicits.

(** Proof search for [keeps]: the structure of the program is followed, the
    calls to the outside are left to the invariant's own lemmas. *)
Create HintDb keeps.
#[export] Hint Resolve keeps_ret keeps_throw keeps_exit keeps_out_of_fuel keeps_lift
  keeps_get : keeps.

Ltac keeps_step :=
  first
    [ solve [auto with keeps]
    | apply keeps_bind; [|intros ?]
    | apply keeps_catch; [|intros ?]
    | apply keeps_attempt
    | case_match
    | progress cbn beta iota zeta ].
Ltac keeps_auto := repeat keeps_step.

(** [run_ok H]: take apart a run [H : (m ≫= f) w = (w', Ok b)] step by step. *)
Ltac run_ok H :=
  let a := fresh "a" in let w1 := fresh "w1" in let H1 := fresh "Hrun" in
  apply bind_ok in H as (a & w1 & H1 & H).
