(* ===== verification/Js.v ===== *)
(** * The part of JavaScript and Node that the code uses

    Strings, byte buffers and little-endian integers.  A JavaScript string is
    a sequence of UTF-16 code units; the model covers the code units below
    256, one [ascii] each, which is enough to tell the UTF-16 length of a
    string from the length of its UTF-8 encoding.  A [Buffer] or
    [Uint8Array] is a [list byte]. *)

From Stdlib Require Import Ascii Strings.Byte.
From stdpp Require Import base list strings pretty.
From Stdlib Require Import ZArith Lia.
From S2P Require Import Prelude.
Local Open Scope Z_scope.

(** ** Strings *)

(** [s.startsWith(p)] *)
Definition startsWith (p s : string) : bool := String.prefix p s.

(** [s.substr(n)], [s.slice(n)] and [s.substring(n, s.length)]: the code
    units from position [n] on. *)
Fixpoint substr_from (n : nat) (s : string) : string :=
  match n, s with
  | O, _ => s
  | S n, String _ s => substr_from n s
  | S _, EmptyString => EmptyString
  end.

(** [s.substr(0, n)] and [s.slice(0, n)] *)
Fixpoint substr_to (n : nat) (s : string) : string :=
  match n, s with
  | S n, String c s => String c (substr_to n s)
  | _, _ => EmptyString
  end.

(** [s.includes(p)] and [s.indexOf(p) >= 0] *)
Fixpoint includes (p s : string) : bool :=
  startsWith p s || match s with String _ s => includes p s | EmptyString => false end.

(** [s.toLowerCase()] on one code unit: A..Z and the upper-case letters of
    the second half of Latin-1 (192..222 without 215). *)
Definition lower_ascii (c : ascii) : ascii :=
  let n := nat_of_ascii c in
  if ((65 <=? n) && (n <=? 90) || (192 <=? n) && (n <=? 222) && negb (n =? 215))%nat
  then ascii_of_nat (n + 32) else c.

Fixpoint toLowerCase (s : string) : string :=
  match s with
  | EmptyString => EmptyString
  | String c s => String (lower_ascii c) (toLowerCase s)
  end.

(** [Number(s)] for a string of decimal digits ([Number('')] is 0); other
    strings give no number here. *)
Fixpoint decimal_from (acc : Z) (s : string) : option Z :=
  match s with
  | EmptyString => Some acc
  | String c s =>
      let d := Z.of_nat (nat_of_ascii c) - 48 in
      if (0 <=? d) && (d <=? 9) then decimal_from (10 * acc + d) s else None
  end.
Definition decimal (s : string) : option Z := decimal_from 0 s.

(** [arr.join(sep)] on strings *)
Fixpoint join (sep : string) (l : list string) : string :=
  match l with
  | [] => ""
  | [s] => s
  | s :: l => s +:+ sep +:+ join sep l
  end.

(** A string is truthy when it is not empty. *)
Definition truthy (s : string) : bool := negb (String.eqb s "").

Lemma lower_ascii_idem c : lower_ascii (lower_ascii c) = lower_ascii c.
Proof. destruct c as [[] [] [] [] [] [] [] []]; vm_compute; reflexivity. Qed.

Lemma toLowerCase_idem s : toLowerCase (toLowerCase s) = toLowerCase s.
Proof. induction s as [|c s IH]; simpl; [done|]. by rewrite lower_ascii_idem, IH. Qed.

Lemma startsWith_app p s : startsWith p (p +:+ s) = true.
Proof.
  unfold startsWith. induction p as [|c p IH]; [by destruct s|]; simpl.
  destruct (ascii_dec c c); [|done]. apply IH.
Qed.

Lemma string_length_app s t : String.length (s +:+ t) = (String.length s + String.length t)%nat.
Proof. induction s as [|c s IH]; simpl; [done|]. by rewrite IH. Qed.
Lemma substr_from_app p s : substr_from (String.length p) (p +:+ s) = s.
Proof. induction p as [|c p IH]; simpl; [done|]. apply IH. Qed.

Lemma startsWith_inv p s : startsWith p s = true -> exists t, s = p +:+ t.
Proof.
  unfold startsWith. revert s. induction p as [|c p IH]; intros s; [by exists s|].
  destruct s as [|d s]; simpl; [done|]. destruct (ascii_dec c d); [|done].
  subst. intros [t ->]%IH. by exists t.
Qed.

(** ** Bytes and buffers *)

#[export] Instance byte_eq_dec : EqDecision byte := Byte.byte_eq_dec.

Definition Z_of_byte (b : byte) : Z := Z.of_N (Byte.to_N b).

(** Storing a number in a byte buffer keeps it modulo 256. *)
Definition byte_of_Z (z : Z) : byte :=
  match Byte.of_N (Z.to_N (z mod 256)) with Some b => b | None => x00 end.

Lemma Z_of_byte_range b : 0 <= Z_of_byte b < 256.
Proof. unfold Z_of_byte. pose proof (Byte.to_N_bounded b). lia. Qed.

Lemma byte_of_Z_of_byte b : byte_of_Z (Z_of_byte b) = b.
Proof.
  unfold byte_of_Z. rewrite Z.mod_small by apply Z_of_byte_range.
  unfold Z_of_byte. by rewrite N2Z.id, Byte.of_to_N.
Qed.

Lemma Z_of_byte_of_Z z : Z_of_byte (byte_of_Z z) = z mod 256.
Proof.
  unfold byte_of_Z, Z_of_byte. pose proof (Z.mod_pos_bound z 256 ltac:(lia)).
  destruct (Byte.of_N (Z.to_N (z mod 256))) eqn:E.
  - apply Byte.to_of_N in E. rewrite E. lia.
  - apply Byte.of_N_None_iff in E. lia.
Qed.

(** Little-endian encoding on [n] bytes and its inverse. *)
Fixpoint le_bytes (n : nat) (z : Z) : list byte :=
  match n with
  | O => []
  | S n => byte_of_Z z :: le_bytes n (z / 256)
  end.

Fixpoint Z_of_le (bs : list byte) : Z :=
  match bs with
  | [] => 0
  | b :: bs => Z_of_byte b + 256 * Z_of_le bs
  end.

Definition byte_width (n : nat) : Z := 256 ^ Z.of_nat n.

Lemma byte_width_S n : byte_width (S n) = 256 * byte_width n.
Proof. unfold byte_width. rewrite Nat2Z.inj_succ, Z.pow_succ_r; lia. Qed.

Lemma byte_width_pos n : 0 < byte_width n.
Proof. apply Z.pow_pos_nonneg; lia. Qed.

Lemma length_le_bytes n z : length (le_bytes n z) = n.
Proof. revert z. induction n as [|n IH]; simpl; intros; [done|]. by rewrite IH. Qed.

Lemma Z_of_le_bytes n z : 0 <= z < byte_width n -> Z_of_le (le_bytes n z) = z.
Proof.
  revert z. induction n as [|n IH]; simpl; intros z Hz.
  - unfold byte_width in Hz; simpl in Hz; lia.
  - rewrite byte_width_S in Hz. rewrite Z_of_byte_of_Z, IH.
    + pose proof (Z.div_mod z 256 ltac:(lia)). lia.
    + split; [apply Z.div_pos; lia|]. apply Z.div_lt_upper_bound; lia.
Qed.

Lemma Z_of_le_range bs : 0 <= Z_of_le bs < byte_width (length bs).
Proof.
  induction bs as [|b bs IH]; simpl; [unfold byte_width; simpl; lia|].
  rewrite byte_width_S. pose proof (Z_of_byte_range b). lia.
Qed.

Lemma Z_of_le_app bs bs' :
  Z_of_le (bs ++ bs') = Z_of_le bs + byte_width (length bs) * Z_of_le bs'.
Proof.
  induction bs as [|b bs IH]; simpl; [unfold byte_width; simpl; lia|].
  rewrite IH, byte_width_S. lia.
Qed.

Lemma le_bytes_Z_of_le bs : le_bytes (length bs) (Z_of_le bs) = bs.
Proof.
  induction bs as [|b bs IH]; simpl; [done|]. pose proof (Z_of_byte_range b).
  f_equal.
  - rewrite <- (byte_of_Z_of_byte b) at 2. unfold byte_of_Z.
    by rewrite (Z.mul_comm 256), Z.mod_add by lia.
  - rewrite (Z.mul_comm 256), Z.div_add, Z.div_small by lia. apply IH.
Qed.

#[global] Arguments le_bytes : simpl never.
#[global] Arguments byte_width : simpl never.

(** [buf.readUInt8(offset)] and [buf.readUInt32LE(offset)] of Node: a
    [RangeError] when the access is not within the buffer. *)
Definition readUInt8 (buf : list byte) (offset : nat) : outcome Z :=
  match buf !! offset with
  | Some b => Ok (Z_of_byte b)
  | None => Throw (RangeError "ERR_OUT_OF_RANGE")
  end.

Definition readUInt32LE (buf : list byte) (offset : nat) : outcome Z :=
  if decide (offset + 4 <= length buf)%nat
  then Ok (Z_of_le (take 4 (drop offset buf)))
  else Throw (RangeError "ERR_OUT_OF_RANGE").

(** [buf.slice(from, to)] *)
Definition slice {A} (from to : nat) (buf : list A) : list A :=
  take (to - from) (drop from buf).

(** [Buffer.from(s)] with the default [utf8] encoding, on code units below 256. *)
Definition utf8_unit (c : ascii) : list byte :=
  let n := Z.of_nat (nat_of_ascii c) in
  if n <? 128 then [byte_of_Z n]
  else [byte_of_Z (Z.lor 192 (Z.shiftr n 6)); byte_of_Z (Z.lor 128 (Z.land n 63))].

Fixpoint utf8 (s : string) : list byte :=
  match s with
  | EmptyString => []
  | String c s => utf8_unit c ++ utf8 s
  end.

(** 7-bit strings, on which the UTF-16 length is the UTF-8 length. *)
Fixpoint is_ascii (s : string) : bool :=
  match s with
  | EmptyString => true
  | String c s => (nat_of_ascii c <? 128)%nat && is_ascii s
  end.

Lemma length_utf8_unit c :
  length (utf8_unit c) = if (nat_of_ascii c <? 128)%nat then 1%nat else 2%nat.
Proof.
  unfold utf8_unit. destruct (Nat.ltb_spec (nat_of_ascii c) 128);
    destruct (Z.ltb_spec (Z.of_nat (nat_of_ascii c)) 128); simpl; lia.
Qed.

Lemma length_utf8_ge s : (String.length s <= length (utf8 s))%nat.
Proof.
  induction s as [|c s IH]; simpl; [done|]. rewrite length_app, length_utf8_unit.
  destruct (_ <? _)%nat; lia.
Qed.

Lemma length_utf8 s :
  length (utf8 s) = String.length s <-> is_ascii s = true.
Proof.
  induction s as [|c s IH]; simpl; [done|].
  rewrite length_app, length_utf8_unit. pose proof (length_utf8_ge s).
  destruct (nat_of_ascii c <? 128)%nat; simpl; [rewrite <- IH; lia|].
  split; [lia|done].
Qed.

(** The characters of a 7-bit string, read back from its bytes. *)
Definition ascii_of_byte (b : byte) : ascii := ascii_of_N (Byte.to_N b).
Definition string_of_bytes (bs : list byte) : string := String.string_of_list_ascii (map ascii_of_byte bs).

Lemma ascii_of_utf8_unit c :
  (nat_of_ascii c <? 128)%nat = true -> map ascii_of_byte (utf8_unit c) = [c].
Proof. destruct c as [[] [] [] [] [] [] [] []]; vm_compute; congruence. Qed.

Lemma string_of_utf8 s : is_ascii s = true -> string_of_bytes (utf8 s) = s.
Proof.
  unfold string_of_bytes. induction s as [|c s IH]; simpl; [done|].
  intros [Hc Hs]%andb_true_iff. rewrite map_app, ascii_of_utf8_unit by done.
  simpl. by rewrite IH.
Qed.

(** ** Dynamically typed values *)

(** The values handled by the generic serializer.  [VBN] is a [bn.js]
    number, [VBytes] a [Buffer] or [Uint8Array]; an object is the list of its
    own properties in insertion order. *)
#[warnings="-register-all"]
Inductive jsval :=
| VUndef
| VNull
| VNum (z : Z)
| VBN (z : Z)
| VBool (b : bool)
| VStr (s : string)
| VBytes (bs : list byte)
| VArr (l : list jsval)
| VObj (props : list (string * jsval)).

(** [!!v] *)
Definition js_truthy (v : jsval) : bool :=
  match v with
  | VUndef | VNull => false
  | VNum z => negb (z =? 0)
  | VBool b => b
  | VStr s => truthy s
  | VBN _ | VBytes _ | VArr _ | VObj _ => true
  end.

Fixpoint assoc {A} (k : string) (l : list (string * A)) : option A :=
  match l with
  | [] => None
  | (k', x) :: l => if String.eqb k k' then Some x else assoc k l
  end.

(** [v[k]] for a property name that no built-in prototype defines. *)
Definition js_get (v : jsval) (k : string) : outcome jsval :=
  match v with
  | VUndef | VNull => Throw (TypeError ("Cannot read property '" +:+ k +:+ "'"))
  | VObj props => Ok (default VUndef (assoc k props))
  | _ => Ok VUndef
  end.

(** [v.length]: [None] is [undefined]. *)
Definition js_length (v : jsval) : outcome (option nat) :=
  match v with
  | VUndef | VNull => Throw (TypeError "Cannot read property 'length'")
  | VStr s => Ok (Some (String.length s))
  | VBytes bs => Ok (Some (length bs))
  | VArr l => Ok (Some (length l))
  | _ => Ok None
  end.

(** The elements a [for (const x of v)] loop visits, for arrays and buffers. *)
Definition js_elems (v : jsval) : option (list jsval) :=
  match v with
  | VArr l => Some l
  | VBytes bs => Some (map (fun b => VNum (Z_of_byte b)) bs)
  | _ => None
  end.

(** A number or a [bn.js] number, as an integer. *)
Definition js_int (v : jsval) : option Z :=
  match v with VNum z | VBN z => Some z | _ => None end.

Lemma assoc_elem {A} k (l : list (string * A)) x : assoc k l = Some x -> (k, x) ∈ l.
Proof.
  induction l as [|[k' y] l IH]; simpl; [done|].
  destruct (String.eqb_spec k k') as [->|]; [intros [= ->]; by left|]. intros ?. right. auto.
Qed.

Lemma assoc_nodup {A} (l : list (string * A)) (k : string) (x : A) :
  NoDup (map fst l) -> (k, x) ∈ l -> assoc k l = Some x.
Proof.
  induction l as [|[k' y] l IH]; simpl; intros Hnd Hin; [by apply elem_of_nil in Hin|].
  apply NoDup_cons in Hnd as [Hk Hnd].
  apply elem_of_cons in Hin as [[= -> ->]|Hin]; [by rewrite String.eqb_refl|].
  destruct (String.eqb_spec k k') as [->|]; [|auto].
  exfalso. apply Hk. apply list_elem_of_fmap. by exists (k', x).
Qed.

(** ** Objects used as dictionaries *)

(** [o[k] = v] and [delete o[k]] on the list of own properties *)
Fixpoint set_prop {A} (k : string) (v : A) (props : list (string * A)) : list (string * A) :=
  match props with
  | [] => [(k, v)]
  | (k', x) :: props => if String.eqb k k' then (k, v) :: props else (k', x) :: set_prop k v props
  end.
Definition delete_prop {A} (k : string) (props : list (string * A)) : list (string * A) :=
  filter (fun p => p.1 <> k) props.

Lemma assoc_set_prop {A} k k' (v : A) props :
  assoc k (set_prop k' v props) = if String.eqb k k' then Some v else assoc k props.
Proof.
  induction props as [|[k0 x] props IH]; simpl; [done|].
  destruct (String.eqb_spec k' k0) as [->|Hk0]; simpl; [by destruct (String.eqb k k0)|].
  rewrite IH. destruct (String.eqb_spec k k0) as [->|]; [|done].
  destruct (String.eqb_spec k0 k') as [->|]; congruence.
Qed.

Lemma assoc_delete_eq {A} k (props : list (string * A)) : assoc k (delete_prop k props) = None.
Proof.
  unfold delete_prop. induction props as [|[k0 x] props IH]; [done|].
  rewrite filter_cons. case_decide as Hd; [|done]. simpl in *.
  by rewrite (proj2 (String.eqb_neq k k0)).
Qed.
Lemma assoc_delete_ne {A} k k' (props : list (string * A)) : k <> k' -> assoc k (delete_prop k' props) = assoc k props.
Proof.
  intros Hk. unfold delete_prop. induction props as [|[k0 x] props IH]; [done|].
  rewrite filter_cons. case_decide as Hd; simpl; [by rewrite IH|].
  destruct (String.eqb_spec k k0) as [->|]; [|done]. by destruct Hd.
Qed.
