(* ===== verification/Borsh.v ===== *)
(** * The generic Borsh codec of [utils/borsh.js]

    [serializeField], [deserializeField], [BinaryReader], [serialize] and
    [deserialize], over the dynamically typed values of {!Js}.  The writer is
    the [BinaryWriter] of [near-api-js] and the big integers are [bn.js]:
    both are parameters, given as type classes with their documented
    behaviour as separate classes of laws. *)

From Stdlib Require Import Strings.Byte.
From stdpp Require Import base list strings gmap pretty.
From Stdlib Require Import ZArith Lia.
From S2P Require Import Prelude Js.
Local Open Scope Z_scope.

(** ** Interfaces to third-party code *)

(** [bn.js]: [new BN(buf, 'le')] and [bn.toBuffer('le', n)]. *)
Class BNLib := {
  bn_of_le : list byte -> Z;
  bn_toBuffer_le : Z -> nat -> outcome (list byte)
}.

Class BNLaws `{BNLib} : Prop := {
  bn_of_le_spec bs : bn_of_le bs = Z_of_le bs;
  bn_toBuffer_le_fit n z :
    0 <= z < byte_width n -> bn_toBuffer_le z n = Ok (le_bytes n z);
  bn_toBuffer_le_overflow n z :
    byte_width n <= z -> exists e, bn_toBuffer_le z n = Throw e
}.

(** [nearAPI.utils.serialize.BinaryWriter] *)
Class BinaryWriter (W : Type) := {
  bw_new : W;
  bw_toArray : W -> list byte;
  write_u8 : jsval -> W -> outcome W;
  write_u64 : jsval -> W -> outcome W;
  write_u128 : jsval -> W -> outcome W;
  write_string : jsval -> W -> outcome W;
  write_buffer : list byte -> W -> W;
  write_fixed_array : jsval -> W -> outcome W;
  write_array : jsval -> (jsval -> W -> outcome W) -> W -> outcome W
}.

(** A write succeeds and appends exactly [bs]. *)
Definition appends {W} `{BinaryWriter W} (bs : list byte) (f : W -> outcome W) : Prop :=
  forall w, exists w', f w = Ok w' /\ bw_toArray w' = bw_toArray w ++ bs.

Fixpoint fold_writes {W} (fn : jsval -> W -> outcome W) (l : list jsval) (w : W) : outcome W :=
  match l with
  | [] => Ok w
  | x :: l => w' ← fn x w; fold_writes fn l w'
  end.

Class BinaryWriterLaws (W : Type) `{BinaryWriter W} : Prop := {
  bw_new_empty : bw_toArray bw_new = [];
  write_u8_spec z : 0 <= z < 256 -> appends [byte_of_Z z] (write_u8 (VNum z));
  write_u64_spec v z : js_int v = Some z -> 0 <= z < byte_width 8 ->
    appends (le_bytes 8 z) (write_u64 v);
  write_u128_spec v z : js_int v = Some z -> 0 <= z < byte_width 16 ->
    appends (le_bytes 16 z) (write_u128 v);
  write_string_spec s : Z.of_nat (length (utf8 s)) < byte_width 4 ->
    appends (le_bytes 4 (Z.of_nat (length (utf8 s))) ++ utf8 s) (write_string (VStr s));
  write_buffer_spec bs (w : W) : bw_toArray (write_buffer bs w) = bw_toArray w ++ bs;
  write_fixed_array_spec bs : appends bs (write_fixed_array (VBytes bs));
  write_array_spec v xs : js_elems v = Some xs -> Z.of_nat (length xs) < byte_width 4 ->
    forall w, exists w0,
      bw_toArray w0 = bw_toArray w ++ le_bytes 4 (Z.of_nat (length xs)) /\
      forall fn, write_array v fn w = fold_writes fn xs w0
}.

(** ** Schemas *)

(** A field type is the name of a type, the array [[n]] of a fixed number of
    bytes, or the array [[t]] of elements of type [t]. *)
Inductive ftype :=
| FName (s : string)
| FFixed (n : nat)
| FArr (t : ftype).

(** ** [class BinaryReader] *)

Record reader := mkReader { r_buf : list byte; r_offset : nat }.

Definition R (A : Type) : Type := reader -> outcome (A * reader).
#[export] Instance R_ret : MRet R := fun A a r => Ok (a, r).
#[export] Instance R_bind : MBind R := fun A B f m r =>
  '(a, r') ← m r; f a r'.
Definition R_throw {A} (e : exn) : R A := fun _ => Throw e.
Definition R_lift {A} (o : outcome A) : R A := fun r => a ← o; Ok (a, r).

Definition BorshError (msg : string) : exn := mkExn "BorshError" msg "" "" "".

Definition readU8 : R Z := fun r =>
  value ← readUInt8 (r_buf r) (r_offset r);
  Ok (value, mkReader (r_buf r) (r_offset r + 1)).

Definition readU32 : R Z := fun r =>
  value ← readUInt32LE (r_buf r) (r_offset r);
  Ok (value, mkReader (r_buf r) (r_offset r + 4)).

Definition readBuffer (len : nat) : R (list byte) := fun r =>
  if decide (length (r_buf r) < r_offset r + len)%nat
  then Throw (BorshError ("Expected buffer length " +:+ pretty len +:+ " isn't within bounds"))
  else Ok (slice (r_offset r) (r_offset r + len) (r_buf r),
           mkReader (r_buf r) (r_offset r + len)).

Definition readU64 `{BNLib} : R Z := buf ← readBuffer 8; mret (bn_of_le buf).
Definition readU128 `{BNLib} : R Z := buf ← readBuffer 16; mret (bn_of_le buf).

(** [TextDecoder()] is a call of a class constructor without [new], which
    throws before the [try] block is entered. *)
Definition TextDecoder_call : outcome (list byte -> outcome string) :=
  Throw (TypeError "Class constructor TextDecoder cannot be invoked without 'new'").

Definition readString : R string :=
  len ← readU32;
  buf ← readBuffer (Z.to_nat len);
  textDecoder ← R_lift TextDecoder_call;
  R_lift (try_pure (textDecoder buf)
    (fun e => Throw (BorshError ("Error decoding UTF-8 string: " +:+ exn_toString e)))).

Definition readFixedArray (len : nat) : R (list byte) := readBuffer len.

Fixpoint read_times {A} (n : nat) (fn : R A) : R (list A) :=
  match n with
  | O => mret []
  | S n => x ← fn; xs ← read_times n fn; mret (x :: xs)
  end.

Definition readArray {A} (fn : R A) : R (list A) :=
  len ← readU32; read_times (Z.to_nat len) fn.

(** The entry of a schema: its [kind] with the data that goes with it. *)
Inductive skind :=
| KOption (type : ftype)
| KStruct (fields : list (string * ftype))
| KFunction (ser : jsval -> outcome (list byte)) (deser : R jsval)
| KOther (kind : string).

Section codec.
Context {W : Type} `{BinaryWriter W} `{BNLib}.
Variable schema : gmap string skind.

Definition missing (s : string) : exn :=
  Error ("Schema type " +:+ s +:+ " is missing in schema").
Definition unexpected_kind (kind s : string) : exn :=
  Error ("Unexpected schema kind: " +:+ kind +:+ " for " +:+ s).

(** [structSchema.fields.map(([fieldName, fieldType]) => ...)] *)
Fixpoint fold_fields (fn : jsval -> ftype -> W -> outcome W) (value : jsval)
    (fields : list (string * ftype)) (writer : W) : outcome W :=
  match fields with
  | [] => Ok writer
  | (fieldName, fieldType) :: fields =>
      x ← js_get value fieldName;
      writer' ← fn x fieldType writer;
      fold_fields fn value fields writer'
  end.

(** [serializeField(schema, value, fieldType, writer)]; the fuel bounds the
    nesting of the schema. *)
Fixpoint serializeField (fuel : nat) (value : jsval) (fieldType : ftype) (writer : W)
    : outcome W :=
  match fuel with
  | O => OutOfFuel
  | S fuel =>
    match fieldType with
    | FFixed n =>
        len ← js_length value;
        if decide (len = Some n) then write_fixed_array value writer
        else Throw (Error ("Expecting byte array of length " +:+ pretty n +:+ ", but got "
               +:+ match len with Some k => pretty k | None => "undefined" end +:+ " bytes"))
    | FArr t => write_array value (fun item => serializeField fuel item t) writer
    | FName s =>
        if String.eqb s "u8" then write_u8 value writer
        else if String.eqb s "u64" then write_u64 value writer
        else if String.eqb s "u128" then write_u128 value writer
        else if String.eqb s "bool" then write_u8 (VNum (if js_truthy value then 1 else 0)) writer
        else if String.eqb s "string" then write_string value writer
        else match schema !! s with
        | None => Throw (missing s)
        | Some (KOption t) =>
            match value with
            | VNull => write_u8 (VNum 0) writer
            | _ => writer' ← write_u8 (VNum 1) writer; serializeField fuel value t writer'
            end
        | Some (KStruct fields) =>
            fold_fields (fun x t => serializeField fuel x t) value fields writer
        | Some (KFunction ser _) => bs ← ser value; Ok (write_buffer bs writer)
        | Some (KOther k) => Throw (unexpected_kind k s)
        end
    end
  end.

(** [for (const [fieldName, fieldType] of structSchema.fields) result[fieldName] = ...] *)
Fixpoint read_fields (fn : ftype -> R jsval) (fields : list (string * ftype))
    : R (list (string * jsval)) :=
  match fields with
  | [] => mret []
  | (fieldName, fieldType) :: fields =>
      x ← fn fieldType;
      rest ← read_fields fn fields;
      mret ((fieldName, x) :: rest)
  end.

Fixpoint deserializeField (fuel : nat) (fieldType : ftype) : R jsval :=
  match fuel with
  | O => fun _ => OutOfFuel
  | S fuel =>
    match fieldType with
    | FFixed n => bs ← readFixedArray n; mret (VBytes bs)
    | FArr t => xs ← readArray (deserializeField fuel t); mret (VArr xs)
    | FName s =>
        if String.eqb s "u8" then z ← readU8; mret (VNum z)
        else if String.eqb s "u64" then z ← readU64; mret (VBN z)
        else if String.eqb s "u128" then z ← readU128; mret (VBN z)
        else if String.eqb s "bool" then z ← readU8; mret (VBool (negb (z =? 0)))
        else if String.eqb s "string" then str ← readString; mret (VStr str)
        else match schema !! s with
        | None => R_throw (missing s)
        | Some (KOption t) =>
            optionRes ← readU8;
            if optionRes =? 0 then mret VNull
            else if optionRes =? 1 then deserializeField fuel t
            else R_throw (Error ("Unexpected option flag: " +:+ pretty optionRes))
        | Some (KStruct fields) =>
            props ← read_fields (deserializeField fuel) fields; mret (VObj props)
        | Some (KFunction _ deser) => deser
        | Some (KOther k) => R_throw (unexpected_kind k s)
        end
    end
  end.

(** [serialize(schema, fieldType, obj)]; [None] is [null]. *)
Definition serialize (fuel : nat) (fieldType : option ftype) (obj : jsval)
    : outcome (list byte) :=
  match fieldType with
  | None => Ok []
  | Some t => writer ← serializeField fuel obj t bw_new; Ok (bw_toArray writer)
  end.

(** [deserialize(schema, fieldType, buffer)] *)
Definition deserialize (fuel : nat) (fieldType : option ftype) (buffer : list byte)
    : outcome jsval :=
  match fieldType with
  | None => Ok VNull
  | Some t =>
      '(result, r) ← deserializeField fuel t (mkReader buffer 0);
      if decide (r_offset r < length buffer)%nat
      then Throw (Error ("Unexpected " +:+ pretty (length buffer - r_offset r)%nat
                         +:+ " bytes after deserialized data"))
      else Ok result
  end.
End codec.
