(* ===== verification/BorshSpec.v ===== *)
(** * Specification of the Borsh codec and its correctness

    [writes] is the format: which bytes stand for which value at which field
    type.  [serializeField] refines it, [deserializeField] inverts it on
    [canonical] values.  The file ends with the error behaviour of the reader
    and with the fuel that is enough for a schema. *)

From Stdlib Require Import Strings.Byte.
From stdpp Require Import base list strings gmap pretty.
From Stdlib Require Import ZArith Lia.
From S2P Require Import Prelude Js Borsh.
Local Open Scope Z_scope.

(** ** Reading exactly a given block of bytes *)

(** Wherever the block [bs] lies in the buffer, [m] started at its first byte
    returns [a] and stops right after its last byte. *)
Definition reads_at {A} (m : R A) (bs : list byte) (a : A) : Prop :=
  forall pre post,
    m (mkReader (pre ++ bs ++ post) (length pre)) =
    Ok (a, mkReader (pre ++ bs ++ post) (length pre + length bs)).

Lemma reads_at_ret {A} (a : A) : reads_at (mret a) [] a.
Proof. intros pre post. simpl. by rewrite Nat.add_0_r. Qed.

Lemma reads_at_bind {A B} (m : R A) (f : A -> R B) bs bs' a b :
  reads_at m bs a -> reads_at (f a) bs' b -> reads_at (m ≫= f) (bs ++ bs') b.
Proof.
  intros Hm Hf pre post. unfold mbind, R_bind.
  rewrite <- app_assoc. rewrite Hm. unfold mbind, outcome_bind.
  specialize (Hf (pre ++ bs) post). rewrite length_app, <- app_assoc in Hf.
  rewrite Hf, length_app. by rewrite Nat.add_assoc.
Qed.

Lemma reads_at_map {A B} (m : R A) (f : A -> B) bs a :
  reads_at m bs a -> reads_at (x ← m; mret (f x)) bs (f a).
Proof.
  intros Hm. rewrite <- (app_nil_r bs). by eapply reads_at_bind, reads_at_ret.
Qed.

Lemma reads_at_readU8 b : reads_at readU8 [b] (Z_of_byte b).
Proof.
  intros pre post. unfold readU8, readUInt8. cbn [r_buf r_offset].
  rewrite lookup_app_r, Nat.sub_diag by lia. done.
Qed.

Lemma reads_at_readBuffer bs : reads_at (readBuffer (length bs)) bs bs.
Proof.
  intros pre post. unfold readBuffer. cbn [r_buf r_offset].
  rewrite decide_False by (rewrite !length_app; lia).
  unfold slice. rewrite drop_app_length.
  replace (length pre + length bs - length pre)%nat with (length bs) by lia.
  by rewrite take_app_length.
Qed.

Lemma reads_at_readU32 z : 0 <= z < byte_width 4 -> reads_at readU32 (le_bytes 4 z) z.
Proof.
  intros Hz pre post. unfold readU32, readUInt32LE. cbn [r_buf r_offset].
  rewrite decide_True by (rewrite !length_app, length_le_bytes; lia).
  rewrite drop_app_length, length_le_bytes.
  rewrite (take_app_length' _ _ 4) by (by rewrite length_le_bytes).
  by rewrite Z_of_le_bytes.
Qed.

Lemma reads_at_bn `{BNLaws} n z : 0 <= z < byte_width n ->
  reads_at (buf ← readBuffer n; mret (bn_of_le buf)) (le_bytes n z) z.
Proof.
  intros Hz. rewrite <- (Z_of_le_bytes n z Hz) at 2. rewrite <- bn_of_le_spec.
  apply reads_at_map. rewrite <- (length_le_bytes n z) at 1.
  apply reads_at_readBuffer.
Qed.

Lemma reads_at_times {A} (fn : R A) bss xs :
  Forall2 (reads_at fn) bss xs -> reads_at (read_times (length xs) fn) (concat bss) xs.
Proof.
  induction 1 as [|bs x bss xs Hx _ IH]; simpl; [apply reads_at_ret|].
  eapply reads_at_bind; [done|]. by apply reads_at_map.
Qed.

Lemma reads_at_readArray {A} (fn : R A) bss (xs : list A) :
  Z.of_nat (length xs) < byte_width 4 -> Forall2 (reads_at fn) bss xs ->
  reads_at (readArray fn) (le_bytes 4 (Z.of_nat (length xs)) ++ concat bss) xs.
Proof.
  intros Hlen Hxs. eapply reads_at_bind; [apply reads_at_readU32; lia|].
  rewrite Nat2Z.id. by apply reads_at_times.
Qed.

Create HintDb reads.
#[export] Hint Resolve reads_at_ret reads_at_map reads_at_readU8 reads_at_readU32
  reads_at_bn reads_at_readBuffer : reads.

(** ** The format *)

(** Case analysis on a named field type, in the order of the code's tests. *)
Ltac field_cases s :=
  repeat match goal with
  | |- context [String.eqb s ?n] => destruct (String.eqb s n)
  end;
  try match goal with
  | |- context [?m !! s] => destruct (m !! s) as [[type|fields|ser deser|kind]|] eqn:?
  end.

Section spec.
Context {W : Type} `{BWL : BinaryWriterLaws W} `{BNL : BNLaws}.
Variable schema : gmap string skind.

(** [writes n ft v bs]: at nesting at most [n], the value [v] has type [ft]
    and [bs] is its encoding. *)
Fixpoint writes (n : nat) (ft : ftype) (v : jsval) (bs : list byte) : Prop :=
  match n with
  | O => False
  | S n =>
    match ft with
    | FFixed k => v = VBytes bs /\ length bs = k
    | FArr t => exists xs bss, js_elems v = Some xs /\
        Z.of_nat (length xs) < byte_width 4 /\
        Forall2 (writes n t) xs bss /\
        bs = le_bytes 4 (Z.of_nat (length xs)) ++ concat bss
    | FName s =>
        if String.eqb s "u8" then
          exists z, v = VNum z /\ 0 <= z < 256 /\ bs = [byte_of_Z z]
        else if String.eqb s "u64" then
          exists z, js_int v = Some z /\ 0 <= z < byte_width 8 /\ bs = le_bytes 8 z
        else if String.eqb s "u128" then
          exists z, js_int v = Some z /\ 0 <= z < byte_width 16 /\ bs = le_bytes 16 z
        else if String.eqb s "bool" then bs = [if js_truthy v then x01 else x00]
        else if String.eqb s "string" then
          exists str, v = VStr str /\ Z.of_nat (length (utf8 str)) < byte_width 4 /\
            bs = le_bytes 4 (Z.of_nat (length (utf8 str))) ++ utf8 str
        else match schema !! s with
        | Some (KOption t) =>
            (v = VNull /\ bs = [x00]) \/
            (v <> VNull /\ exists bs', writes n t v bs' /\ bs = x01 :: bs')
        | Some (KStruct fields) => exists bss,
            Forall2 (fun f b => exists x, js_get v f.1 = Ok x /\ writes n f.2 x b) fields bss /\
            bs = concat bss
        | Some (KFunction ser _) => ser v = Ok bs
        | _ => False
        end
    end
  end.

(** The values the reader produces: [bn.js] numbers for [u64] and [u128],
    booleans, arrays, objects with exactly the fields of the schema in
    order; no string is readable, and a schema function must read back what
    it wrote. *)
Fixpoint canonical (n : nat) (ft : ftype) (v : jsval) : Prop :=
  match n with
  | O => False
  | S n =>
    match ft with
    | FFixed _ => True
    | FArr t => exists xs, v = VArr xs /\ Forall (canonical n t) xs
    | FName s =>
        if String.eqb s "u8" then True
        else if String.eqb s "u64" then exists z, v = VBN z
        else if String.eqb s "u128" then exists z, v = VBN z
        else if String.eqb s "bool" then exists b, v = VBool b
        else if String.eqb s "string" then False
        else match schema !! s with
        | Some (KOption t) => v = VNull \/ canonical n t v
        | Some (KStruct fields) => exists props, v = VObj props /\ NoDup (map fst props) /\
            Forall2 (fun f p => f.1 = p.1 /\ canonical n f.2 p.2) fields props
        | Some (KFunction ser deser) => forall bs, ser v = Ok bs -> reads_at deser bs v
        | _ => False
        end
    end
  end.

(** Unfolding at a name of the schema that is not a built-in type. *)
Definition builtin (s : string) : bool :=
  String.eqb s "u8" || String.eqb s "u64" || String.eqb s "u128" ||
  String.eqb s "bool" || String.eqb s "string".

Lemma writes_struct n s fields v bss :
  builtin s = false -> schema !! s = Some (KStruct fields) ->
  Forall2 (fun f b => exists x, js_get v f.1 = Ok x /\ writes n f.2 x b) fields bss ->
  writes (S n) (FName s) v (concat bss).
Proof.
  unfold builtin. intros Hs Hk Hf. simpl.
  repeat (destruct (String.eqb s _); [done|]). rewrite Hk. eauto.
Qed.

Lemma writes_function n s ser deser v bs :
  builtin s = false -> schema !! s = Some (KFunction ser deser) ->
  ser v = Ok bs -> writes (S n) (FName s) v bs.
Proof.
  unfold builtin. intros Hs Hk Hser. simpl.
  repeat (destruct (String.eqb s _); [done|]). by rewrite Hk.
Qed.

Lemma canonical_struct n s fields props :
  builtin s = false -> schema !! s = Some (KStruct fields) -> NoDup (map fst props) ->
  Forall2 (fun f p => f.1 = p.1 /\ canonical n f.2 p.2) fields props ->
  canonical (S n) (FName s) (VObj props).
Proof.
  unfold builtin. intros Hs Hk Hnd Hf. simpl.
  repeat (destruct (String.eqb s _); [done|]). rewrite Hk. eauto.
Qed.

Lemma canonical_function n s ser deser v :
  builtin s = false -> schema !! s = Some (KFunction ser deser) ->
  (forall bs, ser v = Ok bs -> reads_at deser bs v) -> canonical (S n) (FName s) v.
Proof.
  unfold builtin. intros Hs Hk Hr. simpl.
  repeat (destruct (String.eqb s _); [done|]). by rewrite Hk.
Qed.

(** *** The serializer refines the format *)

Lemma fold_writes_appends fn xs bss :
  Forall2 (fun x b => appends b (fn x)) xs bss -> appends (concat bss) (fold_writes fn xs).
Proof.
  induction 1 as [|x b xs bss Hx _ IH]; intros w; simpl.
  - exists w. by rewrite app_nil_r.
  - destruct (Hx w) as (w1 & -> & Hw1). simpl. destruct (IH w1) as (w2 & -> & Hw2).
    exists w2. by rewrite Hw2, Hw1, <- app_assoc.
Qed.

Lemma fold_fields_appends fn v fields bss :
  Forall2 (fun f b => exists x, js_get v f.1 = Ok x /\ appends b (fn x f.2)) fields bss ->
  appends (concat bss) (fold_fields fn v fields).
Proof.
  induction 1 as [|[k t] b fields bss (x & Hx & Hb) _ IH]; intros w; simpl in *.
  - exists w. by rewrite app_nil_r.
  - rewrite Hx. simpl. destruct (Hb w) as (w1 & -> & Hw1). simpl.
    destruct (IH w1) as (w2 & -> & Hw2).
    exists w2. by rewrite Hw2, Hw1, <- app_assoc.
Qed.

Lemma write_array_appends v xs bss fn :
  js_elems v = Some xs -> Z.of_nat (length xs) < byte_width 4 ->
  Forall2 (fun x b => appends b (fn x)) xs bss ->
  appends (le_bytes 4 (Z.of_nat (length xs)) ++ concat bss) (write_array v fn).
Proof.
  intros Hv Hlen Hxs w. destruct (write_array_spec v xs Hv Hlen w) as (w0 & Hw0 & ->).
  destruct (fold_writes_appends _ _ _ Hxs w0) as (w' & -> & Hw').
  exists w'. by rewrite Hw', Hw0, <- app_assoc.
Qed.

Lemma appends_cons b bs (f g : W -> outcome W) :
  appends [b] f -> appends bs g -> appends (b :: bs) (fun w => w' ← f w; g w').
Proof.
  intros Hf Hg w. destruct (Hf w) as (w1 & -> & Hw1). simpl.
  destruct (Hg w1) as (w2 & -> & Hw2). exists w2. by rewrite Hw2, Hw1, <- app_assoc.
Qed.

Lemma appends_ext bs (f g : W -> outcome W) :
  (forall w, f w = g w) -> appends bs g -> appends bs f.
Proof. intros Hfg Hg w. rewrite Hfg. apply Hg. Qed.

Lemma serializeField_appends n ft v bs :
  writes n ft v bs -> appends bs (serializeField schema n v ft).
Proof.
  revert ft v bs. induction n as [|n IH]; intros ft v bs; [done|].
  destruct ft as [s|k|t]; simpl.
  - field_cases s; try done.
    + intros (z & -> & Hz & ->). by apply write_u8_spec.
    + intros (z & Hv & Hz & ->). by apply write_u64_spec.
    + intros (z & Hv & Hz & ->). by apply write_u128_spec.
    + intros ->. destruct (js_truthy v); [apply (write_u8_spec 1)|apply (write_u8_spec 0)]; lia.
    + intros (str & -> & Hl & ->). by apply write_string_spec.
    + intros [[-> ->]|(Hv & bs' & Hb & ->)]; [apply (write_u8_spec 0); lia|].
      apply appends_ext with (g := fun w => w' ← write_u8 (VNum 1) w; serializeField schema n v type w').
      { intros w. by destruct v. }
      apply appends_cons; [apply (write_u8_spec 1); lia|auto].
    + intros (bss & Hf & ->). apply fold_fields_appends.
      eapply Forall2_impl; [exact Hf|]. intros f b (x & Hx & Hb); eauto.
    + intros Hser w. rewrite Hser. simpl. eexists. split; [done|].
      apply write_buffer_spec.
  - intros [-> <-] w. simpl. rewrite decide_True by done. apply write_fixed_array_spec.
  - intros (xs & bss & Hv & Hlen & Hxs & ->). apply write_array_appends; [done..|].
    eapply Forall2_impl; [exact Hxs|]. auto.
Qed.

(** *** The reader inverts the format on canonical values *)

Lemma read_fields_reads fn fields props bss :
  Forall2 (fun f b => exists x, assoc f.1 props = Some x /\ reads_at (fn f.2) b x) fields bss ->
  reads_at (read_fields fn fields)  (concat bss)
    (map (fun f => (f.1, default VUndef (assoc f.1 props))) fields).
Proof.
  induction 1 as [|[k t] b fields bss (x & Hx & Hb) _ IH]; simpl in *; [apply reads_at_ret|].
  rewrite Hx. simpl. eapply reads_at_bind; [done|]. by apply reads_at_map.
Qed.

Lemma props_of_fields (P : ftype -> jsval -> Prop) (fields : list (string * ftype)) props all :
  (forall p, p ∈ props -> assoc p.1 all = Some p.2) ->
  Forall2 (fun f p => f.1 = p.1 /\ P f.2 p.2) fields props ->
  map (fun f => (f.1, default VUndef (assoc f.1 all))) fields = props.
Proof.
  intros Hall Hf. induction Hf as [|[k t] [k' x] fields props [Hk _] _ IH]; simpl in *; [done|].
  subst k'. pose proof (Hall (k, x) ltac:(by left)) as Hkx. simpl in Hkx.
  rewrite Hkx. simpl. f_equal. apply IH. intros p Hp. apply Hall. by right.
Qed.

Lemma reads_at_bool b :
  reads_at (z ← readU8; mret (VBool (negb (z =? 0)))) [if b : bool then x01 else x00] (VBool b).
Proof.
  destruct b.
  - apply (reads_at_map readU8 (fun z => VBool (negb (z =? 0))) [x01] 1), reads_at_readU8.
  - apply (reads_at_map readU8 (fun z => VBool (negb (z =? 0))) [x00] 0), reads_at_readU8.
Qed.

Lemma deserializeField_reads n ft v bs :
  writes n ft v bs -> canonical n ft v -> reads_at (deserializeField schema n ft) bs v.
Proof.
  revert ft v bs. induction n as [|n IH]; intros ft v bs; [done|].
  destruct ft as [s|k|t]; simpl.
  - field_cases s; try done.
    + intros (z & -> & Hz & ->) _. apply (reads_at_map _ VNum).
      pose proof (reads_at_readU8 (byte_of_Z z)) as Hr.
      by rewrite Z_of_byte_of_Z, Z.mod_small in Hr by done.
    + intros (z & Hv & Hz & ->) [z' ->]. simplify_eq/=.
      by apply (reads_at_map readU64 VBN), reads_at_bn.
    + intros (z & Hv & Hz & ->) [z' ->]. simplify_eq/=.
      by apply (reads_at_map readU128 VBN), reads_at_bn.
    + intros -> [b ->]. apply reads_at_bool.
    + intros [[-> ->]|(Hv & bs' & Hb & ->)] Hc.
      * apply (reads_at_bind readU8 _ [x00] [] (Z_of_byte x00));
          [apply reads_at_readU8|exact (reads_at_ret VNull)].
      * destruct Hc as [->|Hc]; [done|].
        apply (reads_at_bind readU8 _ [x01] bs' (Z_of_byte x01));
          [apply reads_at_readU8|exact (IH type v bs' Hb Hc)].
    + intros (bss & Hf & ->) (props & -> & Hnd & Hc).
      assert (forall p, p ∈ props -> assoc p.1 props = Some p.2) as Hall.
      { intros [k x] Hin. by apply assoc_nodup. }
      erewrite <- (props_of_fields (canonical n) fields props props Hall Hc).
      apply reads_at_map, read_fields_reads.
      eapply Forall2_impl; [exact (Forall2_common _ _ _ _ _ Hf Hc)|].
      intros [k t] b [(x & Hx & Hb) ([k' x'] & Hin & Hk & Hcx)]; simpl in *; subst k'.
      specialize (Hall _ Hin). simpl in Hall. rewrite Hall in Hx. simplify_eq/=. eauto.
    + intros Hser Hc. by apply Hc.
  - intros [-> <-] _. apply reads_at_map, reads_at_readBuffer.
  - intros (xs & bss & Hv & Hlen & Hxs & ->) (xs' & -> & Hc). simplify_eq/=.
    apply reads_at_map, reads_at_readArray; [done|].
    by eapply Forall2_flip_l; [exact Hxs|exact Hc|]; eauto.
Qed.

Lemma serialize_writes n ft v bs :
  writes n ft v bs -> serialize schema n (Some ft) v = Ok bs.
Proof.
  intros Hw. unfold serialize.
  destruct (serializeField_appends _ _ _ _ Hw bw_new) as (w & -> & Hw'). simpl.
  by rewrite Hw', bw_new_empty.
Qed.

Lemma deserialize_writes n ft v bs :
  writes n ft v bs -> canonical n ft v -> deserialize schema n (Some ft) bs = Ok v.
Proof.
  intros Hw Hc. unfold deserialize.
  pose proof (deserializeField_reads _ _ _ _ Hw Hc [] []) as Hr. simpl in Hr.
  rewrite !app_nil_r in Hr. rewrite Hr. simpl. by rewrite decide_False by lia.
Qed.
End spec.

(** ** The reader on arbitrary bytes *)

(** [m] leaves the buffer alone and moves the offset forward, inside it. *)
Definition bounded {A} (m : R A) : Prop := forall r a r',
  (r_offset r <= length (r_buf r))%nat -> m r = Ok (a, r') ->
  r_buf r' = r_buf r /\ (r_offset r <= r_offset r' <= length (r_buf r))%nat.

(** [m] ends with a value or an exception. *)
Definition settles {A} (m : R A) : Prop := forall r,
  (exists p, m r = Ok p) \/ (exists e, m r = Throw e).

Definition safe_reader {A} (m : R A) : Prop := bounded m /\ settles m.

Lemma safe_ret {A} (a : A) : safe_reader (mret a).
Proof. split; [intros r ? ? ? [= <- <-]; split; [done|lia]|left; by eexists]. Qed.

Lemma safe_throw {A} e : safe_reader (R_throw (A := A) e).
Proof. split; [done|right; by eexists]. Qed.

Lemma safe_bind {A B} (m : R A) (f : A -> R B) :
  safe_reader m -> (forall a, safe_reader (f a)) -> safe_reader (m ≫= f).
Proof.
  intros [Hb Hs] Hf. split.
  - intros r b r'' Hr. unfold mbind, R_bind. destruct (Hs r) as [[[a r'] Hm]|[e Hm]];
      rewrite Hm; simpl; [|done]. intros Hfa.
    destruct (Hb r a r' Hr Hm) as [Hbuf Hoff].
    destruct (Hf a) as [Hfb _]. destruct (Hfb r' b r'') as [Hbuf' Hoff']; [rewrite Hbuf; lia|done|].
    rewrite Hbuf', Hbuf. rewrite Hbuf in Hoff'. split; [done|lia].
  - intros r. unfold mbind, R_bind. destruct (Hs r) as [[[a r'] ->]|[e ->]]; simpl; [|by eauto].
    apply Hf.
Qed.

Lemma safe_readU8 : safe_reader readU8.
Proof.
  split.
  - intros r a r' Hr. unfold readU8, readUInt8.
    destruct (r_buf r !! r_offset r) eqn:E; simpl; [|done]. intros [= <- <-]; simpl.
    apply lookup_lt_Some in E. split; [done|lia].
  - intros r. unfold readU8, readUInt8. destruct (_ !! _); simpl; eauto.
Qed.

Lemma safe_readU32 : safe_reader readU32.
Proof.
  split.
  - intros r a r' Hr. unfold readU32, readUInt32LE.
    case_decide; simpl; [|done]. intros [= <- <-]; simpl. split; [done|lia].
  - intros r. unfold readU32, readUInt32LE. case_decide; simpl; eauto.
Qed.

Lemma safe_readBuffer n : safe_reader (readBuffer n).
Proof.
  split.
  - intros r a r' Hr. unfold readBuffer. case_decide; [done|]. intros [= <- <-]; simpl.
    split; [done|lia].
  - intros r. unfold readBuffer. case_decide; eauto.
Qed.

(** [readString] never returns. *)
Lemma readString_throws r : exists e, readString r = Throw e.
Proof.
  unfold readString, mbind, R_bind.
  destruct (proj2 safe_readU32 r) as [[[len r1] ->]|[e ->]]; [|by eexists].
  unfold mbind at 1, outcome_bind at 1.
  destruct (proj2 (safe_readBuffer (Z.to_nat len)) r1) as [[[buf r2] ->]|[e ->]]; by eexists.
Qed.

Lemma safe_readString : safe_reader readString.
Proof.
  split; intros r; [|by right; apply readString_throws].
  intros a r' _ Hr. destruct (readString_throws r) as [e He]. congruence.
Qed.

Lemma safe_times {A} n (fn : R A) : safe_reader fn -> safe_reader (read_times n fn).
Proof.
  intros Hfn. induction n as [|n IH]; simpl; [apply safe_ret|].
  apply safe_bind; [done|intros x]. apply safe_bind; [done|intros xs]. apply safe_ret.
Qed.

#[export] Hint Resolve safe_ret safe_throw safe_bind safe_readU8 safe_readU32 safe_readBuffer
  safe_readString safe_times : reads.

Section safety.
Context `{BNLib}.
Variable schema : gmap string skind.

(** The schema unfolds from [ft] within [n] levels. *)
Fixpoint unfolds (n : nat) (ft : ftype) : bool :=
  match n with
  | O => false
  | S n =>
    match ft with
    | FFixed _ => true
    | FArr t => unfolds n t
    | FName s =>
        if String.eqb s "u8" then true
        else if String.eqb s "u64" then true
        else if String.eqb s "u128" then true
        else if String.eqb s "bool" then true
        else if String.eqb s "string" then true
        else match schema !! s with
        | Some (KOption t) => unfolds n t
        | Some (KStruct fields) => forallb (fun f => unfolds n f.2) fields
        | _ => true
        end
    end
  end.

(** Every function of the schema is a safe reader. *)
Definition safe_schema : Prop := forall s ser deser,
  schema !! s = Some (KFunction ser deser) -> safe_reader deser.

Lemma safe_read_fields fn fields :
  Forall (fun f => safe_reader (fn f.2)) fields -> safe_reader (read_fields fn fields).
Proof.
  induction 1 as [|[k t] fields Ht _ IH]; simpl in *; auto 6 with reads.
Qed.

Lemma safe_deserializeField n ft :
  safe_schema -> unfolds n ft = true -> safe_reader (deserializeField schema n ft).
Proof.
  intros Hs. revert ft. induction n as [|n IH]; intros ft; [done|].
  destruct ft as [s|k|t]; simpl.
  - field_cases s; unfold readU64, readU128; auto 6 with reads.
    + intros Ht. apply safe_bind; [auto with reads|intros z].
      destruct (z =? 0); [|destruct (z =? 1)]; auto with reads.
    + intros Hf%Is_true_true%forallb_True. apply safe_bind; [|auto with reads].
      apply safe_read_fields. eapply Forall_impl; [exact Hf|].
      intros f Hu%Is_true_true. auto.
    + intros _. by eapply Hs.
  - intros _. unfold readFixedArray. auto with reads.
  - intros Ht. unfold readArray. auto 6 with reads.
Qed.
End safety.
