(* ===== verification/BorshTyping.v ===== *)
(** * The values that the Borsh reader returns

    [deserialize] is applied to bytes that come from a contract.  Whatever they
    are, a returned value has the requested type: it is canonical and has an
    encoding. *)

From Stdlib Require Import Strings.Byte.
From stdpp Require Import base list strings gmap.
From Stdlib Require Import ZArith Lia.
From S2P Require Import Prelude Js Borsh BorshSpec.
Local Open Scope Z_scope.

(** Every value that [m] returns satisfies [P]. *)
Definition yields {A} (P : A -> Prop) (m : R A) : Prop := forall r a r', m r = Ok (a, r') -> P a.

Lemma yields_ret {A} (P : A -> Prop) a : P a -> yields P (mret a).
Proof. by intros Ha r b r' [= <- _]. Qed.
Lemma yields_throw {A} (P : A -> Prop) e : yields P (R_throw e).
Proof. done. Qed.
Lemma yields_bind {A B} (P : A -> Prop) (Q : B -> Prop) (m : R A) (f : A -> R B) :
  yields P m -> (forall a, P a -> yields Q (f a)) -> yields Q (m ≫= f).
Proof.
  intros Hm Hf r b r'. unfold mbind, R_bind.
  destruct (m r) as [[a r1]|e|z|] eqn:E; simpl; try done. apply Hf. by eapply Hm.
Qed.
Lemma yields_map {A B} (P : A -> Prop) (Q : B -> Prop) (m : R A) (f : A -> B) :
  yields P m -> (forall a, P a -> Q (f a)) -> yields Q (a ← m; mret (f a)).
Proof. intros Hm Hf. eapply yields_bind; [done|]. intros a Ha. by apply yields_ret, Hf. Qed.

Lemma yields_readU8 : yields (fun z => 0 <= z < 256) readU8.
Proof.
  intros r z r'. unfold readU8, readUInt8. destruct (_ !! _); simpl; [|done].
  intros [= <- _]. apply Z_of_byte_range.
Qed.

Lemma yields_readU32 : yields (fun z => 0 <= z < byte_width 4) readU32.
Proof.
  intros r z r'. unfold readU32, readUInt32LE. case_decide as Hd; simpl; [|done]. intros [= <- _].
  pose proof (Z_of_le_range (take 4 (drop (r_offset r) (r_buf r)))) as Hz.
  rewrite length_take, length_drop, Nat.min_l in Hz by lia. done.
Qed.

Lemma yields_readBuffer n : yields (fun bs => length bs = n) (readBuffer n).
Proof.
  intros r bs r'. unfold readBuffer. case_decide; [done|]. intros [= <- _].
  unfold slice. rewrite length_take, length_drop. lia.
Qed.

Lemma yields_bn `{BNLaws} n :
  yields (fun z => 0 <= z < byte_width n) (buf ← readBuffer n; mret (bn_of_le buf)).
Proof.
  eapply yields_map; [apply yields_readBuffer|]. intros bs <-. rewrite bn_of_le_spec. apply Z_of_le_range.
Qed.

Lemma yields_readString (P : string -> Prop) : yields P readString.
Proof. intros r s r' E. destruct (readString_throws r) as [e He]. congruence. Qed.

Lemma yields_times {A} (P : A -> Prop) n (fn : R A) :
  yields P fn -> yields (fun xs => length xs = n /\ Forall P xs) (read_times n fn).
Proof.
  intros Hfn. induction n as [|n IH]; simpl; [by apply yields_ret|].
  eapply yields_bind; [done|]. intros x Hx. eapply yields_map; [done|].
  intros xs [<- Hxs]. split; [done|by constructor].
Qed.

Lemma yields_readArray {A} (P : A -> Prop) (fn : R A) :
  yields P fn -> yields (fun xs => Z.of_nat (length xs) < byte_width 4 /\ Forall P xs) (readArray fn).
Proof.
  intros Hfn. eapply yields_bind; [apply yields_readU32|]. intros z Hz r xs r' E. cbn beta in Hz.
  destruct (yields_times P (Z.to_nat z) fn Hfn r xs r' E) as [Hl Hxs]. split; [lia|done].
Qed.

Lemma yields_read_fields (P : ftype -> jsval -> Prop) fn fields :
  (forall f, f ∈ fields -> yields (P f.2) (fn f.2)) ->
  yields (Forall2 (fun f p => f.1 = p.1 /\ P f.2 p.2) fields) (read_fields fn fields).
Proof.
  induction fields as [|[k t] fields IH]; intros Hfn; simpl; [by apply yields_ret|].
  eapply yields_bind; [apply (Hfn (k, t)); by left|]. intros x Hx.
  eapply yields_map; [apply IH; intros f Hf; apply Hfn; by right|]. intros props Hp. by constructor.
Qed.

#[export] Hint Resolve yields_readU8 yields_readU32 yields_readBuffer yields_bn yields_readString
  yields_throw : reads.

Section typing.
Context `{BNL : BNLaws}.
Variable schema : gmap string skind.

(** The value [v] is canonical at type [ft] and has an encoding. *)
Definition well_typed (n : nat) (ft : ftype) (v : jsval) : Prop :=
  canonical schema n ft v /\ exists bs, writes schema n ft v bs.

(** The fields of a struct have distinct names, and the functions of the
    schema can write what they read. *)
Record typed_schema : Prop := {
  typed_fields s fields : schema !! s = Some (KStruct fields) -> NoDup (map fst fields);
  typed_functions s ser deser : builtin s = false -> schema !! s = Some (KFunction ser deser) ->
    yields (fun v => exists bs, ser v = Ok bs /\ reads_at deser bs v) deser
}.

Lemma Forall2_encodings {A B} (P : A -> B -> list byte -> Prop) (l : list A) (l' : list B) :
  Forall2 (fun a b => exists bs, P a b bs) l l' ->
  exists bss, Forall2 (fun a bs => exists b, b ∈ l' /\ P a b bs) l bss.
Proof.
  induction 1 as [|a b l l' [bs Hb] _ [bss Hs]]; [by exists []|].
  exists (bs :: bss). constructor; [exists b; split; [by left|done]|].
  eapply Forall2_impl; [exact Hs|]. intros a' bs' (b' & Hin & Hb'). exists b'. split; [by right|done].
Qed.

Lemma well_typed_struct n (fields : list (string * ftype)) props :
  NoDup (map fst fields) ->
  Forall2 (fun f p => f.1 = p.1 /\ well_typed n f.2 p.2) fields props ->
  (NoDup (map fst props) /\ Forall2 (fun f p => f.1 = p.1 /\ canonical schema n f.2 p.2) fields props) /\
  exists bss, Forall2 (fun f b => exists x, js_get (VObj props) f.1 = Ok x /\ writes schema n f.2 x b) fields bss.
Proof.
  intros Hnd Hp.
  assert (Hkeys : map fst props = map fst fields).
  { clear Hnd. induction Hp as [|f p fields props [Hk _] _ IH]; simpl; congruence. }
  rewrite <- Hkeys in Hnd. split.
  { split; [done|]. eapply Forall2_impl; [exact Hp|]. intros f p (? & ? & _). done. }
  destruct (Forall2_encodings (fun f p bs => f.1 = p.1 /\ writes schema n f.2 p.2 bs) fields props) as [bss Hb].
  { eapply Forall2_impl; [exact Hp|]. intros f p (? & _ & bs & ?). by exists bs. }
  exists bss. eapply Forall2_impl; [exact Hb|]. intros f bs ([k x] & Hin & Hk & Hw). simpl in *.
  exists x. split; [|done]. by rewrite Hk, (assoc_nodup _ _ _ Hnd Hin).
Qed.

Lemma well_typed_array n t xs :
  Z.of_nat (length xs) < byte_width 4 -> Forall (well_typed n t) xs -> well_typed (S n) (FArr t) (VArr xs).
Proof.
  intros Hl Hxs. split.
  - exists xs. split; [done|]. eapply Forall_impl; [exact Hxs|]. by intros x [? _].
  - assert (exists bss, Forall2 (writes schema n t) xs bss) as [bss Hb].
    { clear Hl. induction Hxs as [|x xs [_ [bs Hx]] _ [bss IH]]; [by exists []|]. exists (bs :: bss). by constructor. }
    eexists _, xs, bss. by split_and!.
Qed.

Lemma deserializeField_typed n ft :
  typed_schema -> yields (well_typed n ft) (deserializeField schema n ft).
Proof.
  intros [Hfields Hfun]. revert ft. induction n as [|n IH]; intros ft; [done|].
  destruct ft as [s|k|t].
  - unfold well_typed. simpl. pose proof (eq_refl : builtin s = builtin s) as Hb. unfold builtin at 2 in Hb.
    field_cases s; simpl in Hb; try apply yields_throw.
    + eapply yields_map; [apply yields_readU8|]. intros z Hz. split; [done|]. exists [byte_of_Z z], z. split; [reflexivity|by split].
    + eapply yields_map; [apply (yields_bn 8)|]. intros z Hz. split; [by exists z|]. exists (le_bytes 8 z), z. split; [reflexivity|by split].
    + eapply yields_map; [apply (yields_bn 16)|]. intros z Hz. split; [by exists z|]. exists (le_bytes 16 z), z. split; [reflexivity|by split].
    + eapply yields_map; [apply yields_readU8|]. intros z Hz. split; [by eexists|by eexists].
    + eapply yields_map; [apply (yields_readString (fun _ => False))|done].
    + eapply yields_bind; [apply yields_readU8|]. intros z _.
      destruct (z =? 0); [apply yields_ret; split; [by left|eexists; by left]|].
      destruct (z =? 1); [|apply yields_throw].
      intros r v r' E. destruct (IH type r v r' E) as [Hc [bs Hw]]. split; [by right|].
      assert (v = VNull \/ v <> VNull) as [->|Hv] by (destruct v; auto); [eexists; by left|]. eexists. right. split; [done|]. by exists bs.
    + eapply yields_map; [apply (yields_read_fields (well_typed n)); intros f _; apply IH|]. intros props Hp.
      edestruct (well_typed_struct n fields props) as [[? ?] [bss ?]]; [by eapply Hfields|done|].
      split; [by exists props|]. by exists (concat bss), bss.
    + intros r v r' E. destruct (Hfun s ser deser Hb ltac:(done) r v r' E) as (bs & Hs & Hr).
      split; [|by exists bs]. intros bs' Hs'. rewrite Hs in Hs'. by injection Hs' as <-.
  - eapply yields_map; [apply yields_readBuffer|]. intros bs <-. split; [done|]. by exists bs.
  - eapply yields_map; [apply yields_readArray, IH|]. intros xs [Hl Hxs]. by apply well_typed_array.
Qed.
End typing.
