(* ===== verification/Schemas.v ===== *)
(** * The Borsh schemas of the NEAR contracts

    The schemas and method tables of [eth-on-near-client.js],
    [eth-on-near-prover.js] and [near-mintable-token.js], with the hex helpers
    of [utils/borsh.js] they use. *)

From Stdlib Require Import Strings.Byte.
From stdpp Require Import base list strings gmap.
From Stdlib Require Import ZArith Lia.
From S2P Require Import Prelude Js Borsh BorshSpec BorshTyping.
Local Open Scope Z_scope.

(** [Web3.utils.hexToBytes] and [Web3.utils.bytesToHex]. *)
Class HexUtils := {
  hexToBytes : jsval -> outcome (list byte);
  bytesToHex : list byte -> string
}.
Class HexLaws `{HexUtils} : Prop := {
  hexToBytes_bytesToHex bs : hexToBytes (VStr (bytesToHex bs)) = Ok bs
}.

(** Nesting that is enough for every schema of this file; the deepest type,
    [addBlockHeaderInput], needs five levels. *)
Definition schema_fuel : nat := 8.

Record method := mkMethod {
  methodName : string;
  inputFieldType : option ftype;
  outputFieldType : option ftype
}.

Section schemas.
Context `{HexUtils}.

Definition hexToBuffer (hex : jsval) : outcome (list byte) := hexToBytes hex.

Definition readerToHex (len : nat) : R jsval :=
  bs ← readFixedArray len; mret (VStr (bytesToHex bs)).

Definition hash_kind (len : nat) : skind := KFunction hexToBuffer (readerToHex len).

(** The [bool] entry of a schema; [serializeField] and [deserializeField]
    test for the built-in name [bool] first, so it is never looked up. *)
Definition bool_kind : skind :=
  KFunction (fun b => hexToBytes (VStr (if js_truthy b then "0x01" else "0x00")))
            (z ← readerToHex 1;
             mret (VBool (match z with VStr s => String.eqb s "0x01" | _ => false end))).

(** *** [eth-on-near-client.js] *)
Definition client_schema : gmap string skind :=
  list_to_map [
    ("bool", bool_kind);
    ("initInput", KStruct [
      ("validate_ethash", FName "bool");
      ("dags_start_epoch", FName "u64");
      ("dags_merkle_roots", FArr (FName "H128"));
      ("first_header", FArr (FName "u8"));
      ("hashes_gc_threshold", FName "u64");
      ("finalized_gc_threshold", FName "u64");
      ("num_confirmations", FName "u64");
      ("trusted_signer", FName "?AccountId")]);
    ("dagMerkleRootInput", KStruct [("epoch", FName "u64")]);
    ("addBlockHeaderInput", KStruct [
      ("block_header", FArr (FName "u8"));
      ("dag_nodes", FArr (FName "DoubleNodeWithMerkleProof"))]);
    ("DoubleNodeWithMerkleProof", KStruct [
      ("dag_nodes", FArr (FName "H512"));
      ("proof", FArr (FName "H128"))]);
    ("H128", hash_kind 16);
    ("H256", hash_kind 32);
    ("H512", hash_kind 64);
    ("?H256", KOption (FName "H256"));
    ("?AccountId", KOption (FName "string"))].

Definition client_viewMethods : list method := [
  mkMethod "initialized" None (Some (FName "bool"));
  mkMethod "dag_merkle_root" (Some (FName "dagMerkleRootInput")) (Some (FName "H128"));
  mkMethod "last_block_number" None (Some (FName "u64"));
  mkMethod "block_hash" (Some (FName "u64")) (Some (FName "?H256"));
  mkMethod "known_hashes" (Some (FName "u64")) (Some (FArr (FName "H256")));
  mkMethod "block_hash_safe" (Some (FName "u64")) (Some (FName "?H256"))].

Definition client_changeMethods : list method := [
  mkMethod "init" (Some (FName "initInput")) None;
  mkMethod "add_block_header" (Some (FName "addBlockHeaderInput")) None].

(** *** [eth-on-near-prover.js] *)
Definition prover_schema : gmap string skind :=
  list_to_map [
    ("initInput", KStruct [("bridge_smart_contract", FName "string")]);
    ("assertEthbridgeHashInput", KStruct [
      ("block_number", FName "u64");
      ("expected_block_hash", FName "H256")]);
    ("H256", hash_kind 32);
    ("verifyLogEntry", KStruct [
      ("log_index", FName "u64");
      ("log_entry_data", FArr (FName "u8"));
      ("receipt_index", FName "u64");
      ("receipt_data", FArr (FName "u8"));
      ("header_data", FArr (FName "u8"));
      ("proof", FArr (FArr (FName "u8")));
      ("skip_bridge_call", FName "bool")])].

Definition prover_changeMethods : list method := [
  mkMethod "verify_log_entry" (Some (FName "verifyLogEntry")) (Some (FName "bool"));
  mkMethod "init" (Some (FName "initInput")) None;
  mkMethod "assert_ethbridge_hash" (Some (FName "assertEthbridgeHashInput")) (Some (FName "bool"))].

(** *** [near-mintable-token.js] *)
Definition token_schema : gmap string skind :=
  list_to_map [
    ("bool", bool_kind);
    ("Proof", KStruct [
      ("log_index", FName "u64");
      ("log_entry_data", FArr (FName "u8"));
      ("receipt_index", FName "u64");
      ("receipt_data", FArr (FName "u8"));
      ("header_data", FArr (FName "u8"));
      ("proof", FArr (FArr (FName "u8")))])].

Definition token_changeMethods : list method := [
  mkMethod "deposit" (Some (FName "Proof")) None].

(** ** Facts about the schemas *)

Lemma safe_readerToHex n : safe_reader (readerToHex n).
Proof. unfold readerToHex, readFixedArray. auto with reads. Qed.

Lemma reads_at_readerToHex bs :
  reads_at (readerToHex (length bs)) bs (VStr (bytesToHex bs)).
Proof. apply (reads_at_map _ (fun b => VStr (bytesToHex b))), reads_at_readBuffer. Qed.

(** The type names of a schema's methods. *)
Definition method_types (ms : list method) : list ftype :=
  omap inputFieldType ms ++ omap outputFieldType ms.

Lemma client_unfolds :
  forallb (unfolds client_schema schema_fuel)
    (method_types (client_viewMethods ++ client_changeMethods)) = true.
Proof. vm_compute. reflexivity. Qed.

Lemma safe_list_schema (l : list (string * skind)) :
  Forall (fun p => match p.2 with KFunction _ deser => safe_reader deser | _ => True end) l ->
  safe_schema (list_to_map l).
Proof.
  intros Hl s ser deser Hs%elem_of_list_to_map_2.
  by apply (proj1 (Forall_forall _ _) Hl (s, KFunction ser deser)).
Qed.

Lemma safe_bool_kind :
  match bool_kind with KFunction _ deser => safe_reader deser | _ => True end.
Proof. simpl. apply safe_bind; [apply safe_readerToHex|auto with reads]. Qed.

Lemma client_schema_safe : safe_schema client_schema.
Proof.
  apply safe_list_schema.
  repeat (apply Forall_cons; split); try apply safe_readerToHex; try done.
  apply safe_bool_kind.
Qed.

Definition typed_kind (p : string * skind) : Prop :=
  match p.2 with
  | KFunction ser deser => builtin p.1 = false ->
      yields (fun v => exists bs, ser v = Ok bs /\ reads_at deser bs v) deser
  | KStruct fields => NoDup (map fst fields)
  | _ => True
  end.

Lemma typed_list_schema (l : list (string * skind)) :
  Forall typed_kind l -> typed_schema (list_to_map l).
Proof.
  intros Hl. rewrite Forall_forall in Hl.
  split; intros s; [intros fields|intros ser deser Hb]; intros Hs%elem_of_list_to_map_2;
    [exact (Hl _ Hs)|exact (Hl _ Hs Hb)].
Qed.

Lemma typed_hash_kind `{!HexLaws} s n : typed_kind (s, hash_kind n).
Proof.
  intros _. eapply yields_map; [apply yields_readBuffer|]. intros bs <-. exists bs.
  split; [apply hexToBytes_bytesToHex|apply reads_at_readerToHex].
Qed.

Ltac typed_schemas :=
  apply typed_list_schema; repeat (apply Forall_cons; split);
  try apply Forall_nil_2; try apply typed_hash_kind; try exact I; try done; compute_done.

Lemma client_schema_typed `{!HexLaws} : typed_schema client_schema.
Proof. typed_schemas. Qed.
Lemma prover_schema_typed `{!HexLaws} : typed_schema prover_schema.
Proof. typed_schemas. Qed.
Lemma token_schema_typed : typed_schema token_schema.
Proof. typed_schemas. Qed.
End schemas.
