(* ===== verification/Borshify.v ===== *)
(** * Hand-written Borsh encoders of NEAR light client data

    [borshify] and [borshifyInitialValidators] of [utils/borsh.js] and
    [borshifyOutcomeProof] of [utils/borshify-proof.js], over the JSON objects
    that a NEAR node returns. *)

From Stdlib Require Import Strings.Byte.
From stdpp Require Import base list strings.
From Stdlib Require Import ZArith Lia.
From S2P Require Import Prelude Js Borsh.
Local Open Scope Z_scope.

(** A JSON number or a string of digits. *)
Inductive jsnum := JNum (z : Z) | JStr (s : string).

Definition jsnum_truthy (x : jsnum) : bool :=
  match x with JNum z => negb (z =? 0) | JStr s => truthy s end.

(** [bs58.decode], [Web3.utils.toBN] and [Buffer.from(s, 'base64')]. *)
Class EncLib := {
  bs58_decode : string -> outcome (list byte);
  toBN : jsnum -> outcome Z;
  base64_decode : string -> list byte
}.
Class EncLaws `{EncLib} : Prop := {
  toBN_number z : 0 <= z < 2 ^ 53 -> toBN (JNum z) = Ok z
}.

(** ** The JSON objects *)

Record InnerLite := mkInnerLite {
  height : jsnum;
  epoch_id : string;
  next_epoch_id : string;
  prev_state_root : string;
  outcome_root : string;
  timestamp_nanosec : option jsnum;
  timestamp : jsnum;
  next_bp_hash : string;
  block_merkle_root : string
}.

Record ValidatorView := mkValidatorView {
  account_id : string;
  public_key : string;
  stake : jsnum
}.

(** [next_bps] is [null] when the block does not announce a validator set. *)
Record LightClientBlockView := mkLightClientBlockView {
  prev_block_hash : string;
  next_block_inner_hash : string;
  inner_lite : InnerLite;
  inner_rest_hash : string;
  next_bps : option (list ValidatorView);
  approvals_after_next : list (option string)
}.

Record MerklePathItem := mkMerklePathItem { mp_hash : string; direction : string }.

(** The fields of an execution status that the code looks for. *)
Record ExecutionStatus := mkExecutionStatus {
  SuccessValue : option string;
  SuccessReceiptId : option string
}.

Record Outcome := mkOutcome {
  logs : list string;
  receipt_ids : list string;
  gas_burnt : jsnum;
  tokens_burnt : jsnum;
  executor_id : string;
  status : ExecutionStatus
}.

Record OutcomeProof := mkOutcomeProof {
  op_proof : list MerklePathItem;
  op_block_hash : string;
  op_id : string;
  op_outcome : Outcome
}.

Record BlockHeaderLite := mkBlockHeaderLite {
  bh_prev_block_hash : string;
  bh_inner_rest_hash : string;
  bh_inner_lite : InnerLite
}.

Record FinalProof := mkFinalProof {
  outcome_proof : OutcomeProof;
  block_header_lite : BlockHeaderLite;
  block_proof : list MerklePathItem
}.

Section borshify.
Context `{BNLib} `{EncLib}.

(** [Web3.utils.toBN(x).toBuffer('le', n)] *)
Definition bn_le (x : jsnum) (n : nat) : outcome (list byte) :=
  z ← toBN x; bn_toBuffer_le z n.

Definition len_le {A} (l : list A) : outcome (list byte) :=
  bn_le (JNum (Z.of_nat (length l))) 4.

(** [Buffer.concat(parts)], the parts being evaluated from left to right. *)
Definition concat_parts (parts : list (outcome (list byte))) : outcome (list byte) :=
  bss ← mapM_out id parts; Ok (concat bss).

(** [timestamp_nanosec || timestamp] *)
Definition block_timestamp (i : InnerLite) : jsnum :=
  match timestamp_nanosec i with
  | Some t => if jsnum_truthy t then t else timestamp i
  | None => timestamp i
  end.

(** The key type byte and the decoded key or signature of [type:base58]. *)
Definition key_type (s : string) : list byte :=
  if String.eqb (substr_to 8 s) "ed25519:" then [x00] else [x01].
Definition key_data (s : string) : outcome (list byte) := bs58_decode (substr_from 8 s).

Definition borshify_inner_lite (i : InnerLite) : list (outcome (list byte)) := [
  bn_le (height i) 8;
  bs58_decode (epoch_id i);
  bs58_decode (next_epoch_id i);
  bs58_decode (prev_state_root i);
  bs58_decode (outcome_root i);
  bn_le (block_timestamp i) 8;
  bs58_decode (next_bp_hash i);
  bs58_decode (block_merkle_root i)].

Definition borshify_validator (nextBp : ValidatorView) : outcome (list byte) :=
  concat_parts [
    bn_le (JNum (Z.of_nat (String.length (account_id nextBp)))) 4;
    Ok (utf8 (account_id nextBp));
    Ok (key_type (public_key nextBp));
    key_data (public_key nextBp);
    bn_le (stake nextBp) 16].

Definition borshify_approval (signature : option string) : outcome (list byte) :=
  match signature with
  | None => Ok [x00]
  | Some signature =>
      concat_parts [Ok [x01]; Ok (key_type signature); key_data signature]
  end.

(** [Buffer.concat(l.map(f))] *)
Definition concat_map {A} (f : A -> outcome (list byte)) (l : list A) : outcome (list byte) :=
  bss ← mapM_out f l; Ok (concat bss).

Definition borshify (block : LightClientBlockView) : outcome (list byte) :=
  concat_parts [
    bs58_decode (prev_block_hash block);
    bs58_decode (next_block_inner_hash block);
    concat_parts (borshify_inner_lite (inner_lite block));
    bs58_decode (inner_rest_hash block);
    Ok [x01];
    match next_bps block with
    | None => Throw (TypeError "Cannot read property 'length' of null")
    | Some bps => len_le bps
    end;
    match next_bps block with
    | None => Throw (TypeError "Cannot read property 'map' of null")
    | Some bps => concat_map borshify_validator bps
    end;
    len_le (approvals_after_next block);
    concat_map borshify_approval (approvals_after_next block)].

Definition borshifyInitialValidators (initialValidators : list ValidatorView)
    : outcome (list byte) :=
  concat_parts [
    len_le initialValidators;
    concat_map borshify_validator initialValidators].

Definition statusToBuffer (status : ExecutionStatus) : outcome (list byte) :=
  match SuccessValue status with
  | Some v =>
      let data := base64_decode v in
      concat_parts [Ok [x02]; len_le data; Ok data]
  | None =>
      match SuccessReceiptId status with
      | Some r => concat_parts [Ok [x03]; bs58_decode r]
      | None => Throw (Error "status not supported")
      end
  end.

Definition borshify_path_item (p : MerklePathItem) : outcome (list byte) :=
  concat_parts [
    bs58_decode (mp_hash p);
    Ok [if String.eqb (direction p) "Right" then x01 else x00]].

Definition borshifyOutcomeProof (proof : FinalProof) : outcome (list byte) :=
  let op := outcome_proof proof in
  let o := op_outcome op in
  let bh := block_header_lite proof in
  concat_parts [
    len_le (op_proof op);
    concat_map borshify_path_item (op_proof op);
    bs58_decode (op_block_hash op);
    bs58_decode (op_id op);
    concat_parts ([
      len_le (logs o);
      len_le (receipt_ids o);
      concat_map bs58_decode (receipt_ids o);
      bn_le (gas_burnt o) 8;
      bn_le (tokens_burnt o) 16;
      bn_le (JNum (Z.of_nat (String.length (executor_id o)))) 4;
      Ok (utf8 (executor_id o));
      statusToBuffer (status o);
      bn_le (JNum 0) 4;
      bs58_decode (bh_prev_block_hash bh);
      bs58_decode (bh_inner_rest_hash bh)] ++
      borshify_inner_lite (bh_inner_lite bh) ++ [
      len_le (block_proof proof);
      concat_map borshify_path_item (block_proof proof)])].

(** ** Generic facts *)

Lemma concat_parts_ok parts bss :
  Forall2 (fun p b => p = Ok b) parts bss -> concat_parts parts = Ok (concat bss).
Proof. intros Hp. unfold concat_parts. by rewrite (mapM_out_ok id parts bss Hp). Qed.

Lemma concat_map_ok {A} (f : A -> outcome (list byte)) l bss :
  Forall2 (fun x b => f x = Ok b) l bss -> concat_map f l = Ok (concat bss).
Proof. intros Hl. unfold concat_map. by rewrite (mapM_out_ok f l bss Hl). Qed.

Context `{!BNLaws} `{!EncLaws}.

Lemma bn_le_ok x z n : toBN x = Ok z -> 0 <= z < byte_width n -> bn_le x n = Ok (le_bytes n z).
Proof. intros Hx Hz. unfold bn_le. rewrite Hx. simpl. by apply bn_toBuffer_le_fit. Qed.

Lemma bn_le_num z n : 0 <= z < byte_width n -> z < 2 ^ 53 -> bn_le (JNum z) n = Ok (le_bytes n z).
Proof. intros Hz Hz'. apply bn_le_ok; [|done]. apply toBN_number. lia. Qed.

Lemma len_le_ok {A} (l : list A) : Z.of_nat (length l) < byte_width 4 ->
  len_le l = Ok (le_bytes 4 (Z.of_nat (length l))).
Proof. intros Hl. change (byte_width 4) with (2 ^ 32) in *. apply bn_le_num; [change (byte_width 4) with (2 ^ 32)|]; lia. Qed.
End borshify.
