(* ===== verification/Effects.v ===== *)
(** * The outside world of the bridge programs

    Ethereum and NEAR nodes, timers and promises as the code sees them.  What
    a node answers is a parameter: each service is a function from the state
    of the outside to its next state and an answer, so that every theorem
    holds for every behaviour of the nodes, of the other relays and of the
    contracts.  Every interaction leaves an event in the trace. *)

From Stdlib Require Import Strings.Byte.
From stdpp Require Import base list strings.
From Stdlib Require Import ZArith Lia SpecFloat.
From S2P Require Import Prelude Js Borshify.
Local Open Scope Z_scope.

(** ** Numbers as JavaScript has them: IEEE 754 doubles *)

Definition float := spec_float.
Definition f_of_Z (z : Z) : float := binary_normalize 53 1024 z 0 false.
Definition f_mul : float -> float -> float := SFmul 53 1024.
Definition f_leb (x y : float) : bool := SFleb x y.

(** ** Promises

    A promise as the program that waits for it sees it: the milliseconds after
    which it settles and with what, or that it never settles. *)
Definition promise (A : Type) : Type := option (Z * (exn + A)).

(** ** Transactions *)

(** The object given to [web3.eth.sendTransaction]. *)
Record ethtx := mkEthTx {
  tx_from : string;
  tx_to : string;
  tx_handleRevert : bool;
  tx_gas : string;
  tx_gasPrice : string;
  tx_nonce : string;
  tx_data : string
}.

(** What [provider.txStatus] gives for a NEAR transaction: the fields
    [status.SuccessValue] (base64), [status.Failure] (as [JSON.stringify]
    prints it) and the logs of the outcomes; and the whole object. *)
Record txresult := mkTxResult {
  SuccessValue : option string;
  Failure : option string;
  transaction_logs : list string;
  receipts_logs : list (list string);
  tx_json : jsval
}.

(** What [provider.query] gives for a call of a view method. *)
Record queryresult := mkQueryResult {
  q_logs : option (list string);
  q_result : option (list byte)
}.

(** ** Events *)

Inductive event :=
(** [sleep(d)], in milliseconds *)
| EvSleep (d : float)
(** Ethereum node *)
| EvSetProvider (url : string)
| EvCloseConnection
| EvGetBlockNumber (r : exn + Z)
| EvGetBlock (b : jsval) (r : exn + jsval)
| EvGetReceipt (t : jsval) (r : exn + jsval)
| EvGasPrice (r : exn + Z)
| EvTransactionCount (from : string) (r : exn + Z)
| EvEthCall (tx : ethtx)
| EvSend (tx : ethtx) (r : exn + unit)
| EvView (address method : string) (args : list jsval) (r : exn + jsval)
| EvContractSend (address method : string) (args : list jsval) (opts : list (string * jsval))
    (r : exn + unit)
| EvRawSend (nonce gasPrice : Z) (data : string) (r : exn + unit)
(** NEAR node *)
| EvNearStatus (r : exn + string)
| EvNearHeight (r : exn + Z)
| EvSign (receiver : string) (nonce : Z) (r : exn + string * list byte)
| EvBroadcast (bytes : list byte) (r : exn + unit)
| EvTxStatus (hash : string) (r : exn + txresult)
| EvQuery (path : string) (data : list byte) (r : exn + queryresult)
| EvFindAccessKey (account : string) (found : bool)
| EvNearBlock (height : Z) (r : exn + string)
| EvValidators (hash : string) (r : exn + option (list ValidatorView))
| EvNextBlock (hash : string) (r : exn + option LightClientBlockView)
(** accounts, deployments and files *)
| EvFetchState (account : string) (r : exn + unit)
| EvCreateAccount (master account publicKey : string) (balance : Z) (r : exn + unit)
| EvDeployNear (account : string) (code : list byte) (r : exn + unit)
| EvAccessKeys (account : string) (r : exn + list string)
| EvReadFile (path : string) (r : exn + list byte)
| EvDeployEth (sender : string) (data : list byte) (args : list jsval) (gas gasPrice : Z) (r : exn + string)
| EvNearChange (contract method : string) (args : jsval) (gas : Z) (amount : option Z) (r : exn + unit)
(** token transfers: the log file, view methods called with JSON, NEAR blocks
    by hash ([None] is the last final block) and proofs of outcomes *)
| EvWriteLog (obj : jsval) (r : exn + unit)
| EvNearView (contract method : string) (args : jsval) (r : exn + jsval)
| EvNearHeader (blockId : option jsval) (r : exn + jsval)
| EvLightClientProof (params : jsval) (r : exn + jsval)
(** output of the program and other processes *)
| EvPrintLogs (logs : list string)
| EvExec (command : string)
(** the line [Submitting block n to EthClient] of the Ethereum relay *)
| EvSubmitBlock (blockNumber : Z)
(** [console.log] of the commands whose output is read by other programs *)
| EvPrint (line : list jsval)
(** processes: what [pm2] is asked to do, with whether it did, and [execSync] *)
| EvProcess (op name : string) (ok : bool)
| EvSpawn (name script : string) (args : list jsval) (ok : bool)
| EvShell (command : string) (ok : bool)
(** requests to a node by [fetch], and files other than the log *)
| EvFetch (url : string) (body : jsval) (r : exn + jsval)
| EvSaveFile (path : string) (content : jsval) (r : exn + unit).

(** ** Timers *)

(** Time passes for the outside while the program sleeps. *)
Class Clock (N : Type) := pass : float -> N -> N.

Section timers.
Context {S N : Type} `{Clock N}.

(** [sleep(duration)] *)
Definition sleep (duration : float) : M S N event unit := fun w =>
  (mkWorld (store w) (pass duration (net w)) (trace w ++ [EvSleep duration]), Ok tt).

Lemma keeps_sleep (I : world S N event -> Prop) d :
  (forall s n tr, I (mkWorld s n tr) -> I (mkWorld s (pass d n) (tr ++ [EvSleep d]))) ->
  keeps I (sleep d).
Proof. intros HI [s n tr]. apply HI. Qed.
End timers.

(** [promiseWithTimeout(timeoutMs, promise, failureMessage)]: the race of the
    promise with a timer; a promise that settles when the timer fires, or
    later, has lost. *)
Definition promiseWithTimeout {A} (timeoutMs : Z) (p : promise A) (failureMessage : string)
    : exn + A :=
  match p with
  | Some (t, r) => if t <? timeoutMs then r else inl (Error failureMessage)
  | None => inl (Error failureMessage)
  end.

(** ** The nodes *)

(** [web3.eth] and the provider below it. *)
Class EthNode (N : Type) := {
  eth_setProvider : string -> N -> N;
  eth_close : option (N -> N);
  eth_getBlockNumber : N -> N * (exn + Z);
  eth_getBlock : jsval -> N -> N * (exn + jsval);
  eth_getTransactionReceipt : jsval -> N -> N * (exn + jsval);
  eth_getGasPrice : N -> N * (exn + Z);
  eth_getTransactionCount : string -> N -> N * (exn + Z);
  eth_call : ethtx -> N -> N * (exn + unit);
  eth_sendTransaction : ethtx -> N -> N * promise jsval
}.

(** Calls of a contract's methods: [contract.methods[m](...args).call()] and
    [contract.methods[m](...args).send(opts)]. *)
Class EthContracts (N : Type) := {
  eth_view : string -> string -> list jsval -> N -> N * (exn + jsval);
  eth_contract_send : string -> string -> list jsval -> list (string * jsval) -> N -> N * (exn + unit)
}.

(** The light client queries of a NEAR node: the height of the last block, the
    field [header.last_final_block] of a block, [EXPERIMENTAL_validators_ordered]
    and [next_light_client_block]. *)
Class NearLightClient (N : Type) := {
  near_latest_height : N -> N * (exn + Z);
  near_last_final_block : Z -> N -> N * (exn + string);
  near_validators_ordered : string -> N -> N * (exn + option (list ValidatorView));
  near_next_light_client_block : string -> N -> N * (exn + option LightClientBlockView)
}.

(** [Math.floor(n * Math.random())] *)
Class Random (N : Type) := random_index : nat -> N -> N * nat.

(** The provider of a NEAR connection, the signer with its key store, and the
    functions of [near-api-js] that only compute. *)
Class NearNode (N actions : Type) := {
  near_status : N -> N * (exn + string);
  near_signTransaction :
    string -> Z -> actions -> list byte -> string -> N -> N * (exn + string * list byte);
  near_broadcast_tx_async : list byte -> N -> N * (exn + unit);
  near_txStatus : string -> string -> N -> N * (exn + txresult);
  near_query : string -> list byte -> N -> N * (exn + queryresult);
  near_findAccessKey : string -> N -> N * (exn + option Z);
  near_base_decode : string -> exn + list byte;
  near_functionCall : string -> list byte -> Z -> option Z -> actions
}.

(** [child_process.exec]: what a command prints; a failed command is logged. *)
Class Shell (N : Type) := exec_stdout : string -> N -> N * string.

(** Accounts and contracts of a NEAR connection: [account.fetchState()],
    [createAccount], [deployContract], [getAccessKeys] (the public keys) and
    the change methods of a [nearAPI.Contract]. *)
Class NearAccounts (N : Type) := {
  near_fetchState : string -> N -> N * (exn + unit);
  near_createAccount : string -> string -> string -> Z -> N -> N * (exn + unit);
  near_deployContract : string -> list byte -> N -> N * (exn + unit);
  near_getAccessKeys : string -> N -> N * (exn + list string);
  near_change : string -> string -> jsval -> Z -> option Z -> N -> N * (exn + unit)
}.

(** [fs.readFileSync] *)
Class Files (N : Type) := readFileSync : string -> N -> N * (exn + list byte).

(** [new web3.eth.Contract(abi).deploy({data, arguments}).send(...)], which gives
    the address of the new contract. *)
Class EthDeploy (N : Type) :=
  eth_deploy : list byte -> string -> list byte -> list jsval -> Z -> Z -> N -> N * (exn + string).

(** [fs.writeFileSync] of the log of a transfer. *)
Class Disk (N : Type) := disk_write : jsval -> N -> N * (exn + unit).

(** What the transfers ask of a NEAR node besides: a view method of a
    [nearAPI.Contract], [provider.block] by hash or for the last final block,
    and the call [light_client_proof]. *)
Class NearQueries (N : Type) := {
  near_view : string -> string -> jsval -> N -> N * (exn + jsval);
  near_block : option jsval -> N -> N * (exn + jsval);
  near_light_client_proof : jsval -> N -> N * (exn + jsval)
}.

(** The process manager [pm2], whose callbacks get an error and a result, and
    the commands that are run in a shell. *)
Record managed := mkManaged { pm2_args : list jsval }.
Class ProcessManager (N : Type) := {
  pm_connect : N -> N * option exn;
  pm_describe : string -> N -> N * (option exn * option (list managed));
  pm_start : string -> string -> list jsval -> N -> N * option exn;
  pm_delete : string -> N -> N * (exn + unit);
  pm_killDaemon : N -> N * option exn;
  pm_disconnect : N -> N * (exn + unit);
  execSync : string -> N -> N * (exn + string)
}.

(** [node-fetch]: the JSON value of the answer to a request; [fs.writeFile]. *)
Class Fetch (N : Type) := fetch_json : string -> jsval -> N -> N * (exn + jsval).
Class SaveFiles (N : Type) := save_file : string -> jsval -> N -> N * (exn + unit).
