(* ===== verification/NearDecoder.v ===== *)
(** * The on-chain decoders of NEAR light client data

    [Borsh.sol], [NearDecoder.sol] and [ProofDecoder.sol]: what the Ethereum
    contracts read from the bytes that {!Borshify} writes.  A [Borsh.Data] is
    the [reader] of {!Borsh}; a failed [require] or a [revert] is a thrown
    error.  [bytes32] values are lists of 32 bytes, [uintN] values integers.
    SHA-256 is a precompiled contract, hence a parameter. *)

From Stdlib Require Import Strings.Byte.
From stdpp Require Import base list strings.
From Stdlib Require Import ZArith Lia.
From S2P Require Import Prelude Js Borsh BorshSpec.
Local Open Scope Z_scope.

(** ** [library Borsh] *)

(** [modifier shift(data, size)] around a read of [size] bytes at the offset. *)
Definition shift_read (size : nat) : R (list byte) := fun data =>
  if decide (r_offset data + size <= length (r_buf data))%nat
  then Ok (take size (drop (r_offset data) (r_buf data)),
           mkReader (r_buf data) (r_offset data + size))
  else Throw (Error "Borsh: Out of range").

Definition sol_finished (data : reader) : bool :=
  (r_offset data =? length (r_buf data))%nat.

Definition decodeU8 : R Z := bs ← shift_read 1; mret (Z_of_le bs).

Definition decodeU16 : R Z :=
  lo ← decodeU8; hi ← decodeU8; mret (Z.lor lo (Z.shiftl hi 8)).
Definition decodeU32 : R Z :=
  lo ← decodeU16; hi ← decodeU16; mret (Z.lor lo (Z.shiftl hi 16)).
Definition decodeU64 : R Z :=
  lo ← decodeU32; hi ← decodeU32; mret (Z.lor lo (Z.shiftl hi 32)).
Definition decodeU128 : R Z :=
  lo ← decodeU64; hi ← decodeU64; mret (Z.lor lo (Z.shiftl hi 64)).
Definition decodeU256 : R Z :=
  lo ← decodeU128; hi ← decodeU128; mret (Z.lor lo (Z.shiftl hi 128)).

Definition decodeBytes : R (list byte) :=
  len ← decodeU32;
  zs ← read_times (Z.to_nat len) decodeU8;
  mret (map byte_of_Z zs).

Definition decodeBytes32 : R (list byte) := shift_read 32.

Definition zero32 : list byte := replicate 32 x00.

(** ** [library NearDecoder] *)

Record PublicKey := mkPublicKey {
  pk_enumIndex : Z;
  pk_ed25519 : list byte;
  pk_secp256k1 : Z * Z
}.

Definition decodePublicKey : R PublicKey :=
  enumIndex ← decodeU8;
  if enumIndex =? 0 then
    xy ← decodeBytes32; mret (mkPublicKey enumIndex xy (0, 0))
  else if enumIndex =? 1 then
    x ← decodeU256; y ← decodeU256; mret (mkPublicKey enumIndex zero32 (x, y))
  else R_throw (Error "NearBridge: Only ED25519 and SECP256K1 public keys are supported").

Record ValidatorStake := mkValidatorStake {
  vs_account_id : list byte;
  vs_public_key : PublicKey;
  vs_stake : Z
}.

Definition decodeValidatorStake : R ValidatorStake :=
  account_id ← decodeBytes;
  public_key ← decodePublicKey;
  stake ← decodeU128;
  mret (mkValidatorStake account_id public_key stake).

Record Signature := mkSignature {
  sig_enumIndex : Z;
  sig_ed25519 : list byte * list byte;
  sig_secp256k1 : list byte * list byte * Z
}.
Definition no_signature : Signature := mkSignature 0 (zero32, zero32) (zero32, zero32, 0).

Definition decodeSignature : R Signature :=
  enumIndex ← decodeU8;
  if enumIndex =? 0 then
    r ← decodeBytes32; s ← decodeBytes32;
    mret (mkSignature enumIndex (r, s) (zero32, zero32, 0))
  else if enumIndex =? 1 then
    r ← decodeBytes32; s ← decodeBytes32; v ← decodeU8;
    mret (mkSignature enumIndex (zero32, zero32) (r, s, v))
  else R_throw (Error "NearBridge: Only ED25519 and SECP256K1 signatures are supported").

Record OptionalSignature := mkOptionalSignature { os_none : bool; os_signature : Signature }.

Definition decodeOptionalSignature : R OptionalSignature :=
  flag ← decodeU8;
  if flag =? 0 then mret (mkOptionalSignature true no_signature)
  else sig ← decodeSignature; mret (mkOptionalSignature false sig).

Record BlockHeaderInnerLite := mkBlockHeaderInnerLite {
  il_height : Z;
  il_epoch_id : list byte;
  il_next_epoch_id : list byte;
  il_prev_state_root : list byte;
  il_outcome_root : list byte;
  il_timestamp : Z;
  il_next_bp_hash : list byte;
  il_block_merkle_root : list byte;
  il_hash : list byte
}.

Record OptionalValidatorStakes := mkOptionalValidatorStakes {
  ovs_none : bool;
  ovs_validatorStakes : list ValidatorStake;
  ovs_hash : list byte
}.

Record LightClientBlock := mkLightClientBlock {
  lc_prev_block_hash : list byte;
  lc_next_block_inner_hash : list byte;
  lc_inner_lite : BlockHeaderInnerLite;
  lc_inner_rest_hash : list byte;
  lc_next_bps : OptionalValidatorStakes;
  lc_approvals_after_next : list OptionalSignature;
  lc_hash : list byte;
  lc_next_hash : list byte
}.

Section near_decoder.
Context (sha256 : list byte -> list byte).

(** [peekSha256(length)]: the hash of the next [length] bytes. *)
Definition peekSha256 (length : nat) : R (list byte) := fun data =>
  Ok (sha256 (slice (r_offset data) (r_offset data + length) (r_buf data)), data).

(** A read, with the hash of the bytes it consumed: the pattern
    [start = offset; ...; stop = offset; offset = start;
     peekSha256(stop - start); offset = stop]. *)
Definition with_hash {A} (m : R A) : R (A * list byte) := fun data =>
  '(a, data') ← m data;
  '(h, _) ← peekSha256 (r_offset data' - r_offset data)
              (mkReader (r_buf data') (r_offset data));
  Ok ((a, h), data').

Definition decodeOptionalValidatorStakes : R OptionalValidatorStakes :=
  flag ← decodeU8;
  if flag =? 0 then mret (mkOptionalValidatorStakes true [] zero32)
  else
    p ← with_hash (len ← decodeU32; read_times (Z.to_nat len) decodeValidatorStake);
    mret (mkOptionalValidatorStakes false p.1 p.2).

Definition decodeInitialValidators : R (list ValidatorStake) :=
  len ← decodeU32; read_times (Z.to_nat len) decodeValidatorStake.

Definition decodeBlockHeaderInnerLite : R BlockHeaderInnerLite :=
  hash ← peekSha256 208;
  height ← decodeU64;
  epoch_id ← decodeBytes32;
  next_epoch_id ← decodeBytes32;
  prev_state_root ← decodeBytes32;
  outcome_root ← decodeBytes32;
  timestamp ← decodeU64;
  next_bp_hash ← decodeBytes32;
  block_merkle_root ← decodeBytes32;
  mret (mkBlockHeaderInnerLite height epoch_id next_epoch_id prev_state_root outcome_root
          timestamp next_bp_hash block_merkle_root hash).

(** [sha256(abi.encodePacked(sha256(abi.encodePacked(inner_lite.hash,
    inner_rest_hash)), prev_block_hash))] *)
Definition header_hash (inner_lite_hash inner_rest_hash prev_block_hash : list byte)
    : list byte :=
  sha256 (sha256 (inner_lite_hash ++ inner_rest_hash) ++ prev_block_hash).

Definition decodeLightClientBlock : R LightClientBlock :=
  prev_block_hash ← decodeBytes32;
  next_block_inner_hash ← decodeBytes32;
  inner_lite ← decodeBlockHeaderInnerLite;
  inner_rest_hash ← decodeBytes32;
  next_bps ← decodeOptionalValidatorStakes;
  len ← decodeU32;
  approvals_after_next ← read_times (Z.to_nat len) decodeOptionalSignature;
  let hash := header_hash (il_hash inner_lite) inner_rest_hash prev_block_hash in
  mret (mkLightClientBlock prev_block_hash next_block_inner_hash inner_lite inner_rest_hash
          next_bps approvals_after_next hash (sha256 (next_block_inner_hash ++ hash))).

(** ** [library ProofDecoder] *)

Record MerkleItem := mkMerkleItem { mi_hash : list byte; mi_direction : Z }.

Definition decodeMerklePathItem : R MerkleItem :=
  hash ← decodeBytes32;
  direction ← decodeU8;
  if direction <? 2 then mret (mkMerkleItem hash direction)
  else R_throw (Error "ProofDecoder: MerklePathItem direction should be 0 or 1").

Definition decodeMerklePath : R (list MerkleItem) :=
  len ← decodeU32; read_times (Z.to_nat len) decodeMerklePathItem.

Record SolExecutionStatus := mkSolExecutionStatus {
  es_enumIndex : Z;
  es_unknown : bool;
  es_failed : bool;
  es_successValue : list byte;
  es_successReceiptId : list byte
}.

Definition decodeExecutionStatus : R SolExecutionStatus :=
  enumIndex ← decodeU8;
  if enumIndex =? 0 then mret (mkSolExecutionStatus enumIndex true false [] zero32)
  else if enumIndex =? 1 then mret (mkSolExecutionStatus enumIndex false true [] zero32)
  else if enumIndex =? 2 then
    v ← decodeBytes; mret (mkSolExecutionStatus enumIndex false false v zero32)
  else if enumIndex =? 3 then
    r ← decodeBytes32; mret (mkSolExecutionStatus enumIndex false false [] r)
  else R_throw (Error "NearDecoder: decodeExecutionStatus index out of range").

Record ExecutionOutcome := mkExecutionOutcome {
  eo_logs : list (list byte);
  eo_receipt_ids : list (list byte);
  eo_gas_burnt : Z;
  eo_tokens_burnt : Z;
  eo_executor_id : list byte;
  eo_status : SolExecutionStatus;
  eo_merkelization_hashes : list (list byte)
}.

(** The part of the outcome after the logs, which is hashed as a whole. *)
Definition decodeOutcomeBody : R (list (list byte) * Z * Z * list byte * SolExecutionStatus) :=
  len ← decodeU32;
  receipt_ids ← read_times (Z.to_nat len) decodeBytes32;
  gas_burnt ← decodeU64;
  tokens_burnt ← decodeU128;
  executor_id ← decodeBytes;
  status ← decodeExecutionStatus;
  mret (receipt_ids, gas_burnt, tokens_burnt, executor_id, status).

Definition decodeExecutionOutcome : R ExecutionOutcome :=
  len ← decodeU32;
  logs ← read_times (Z.to_nat len) decodeBytes;
  p ← with_hash decodeOutcomeBody;
  let '((receipt_ids, gas_burnt, tokens_burnt, executor_id, status), hash) := p in
  mret (mkExecutionOutcome logs receipt_ids gas_burnt tokens_burnt executor_id status
          (hash :: map sha256 logs)).

Record ExecutionOutcomeWithId := mkExecutionOutcomeWithId {
  eoi_id : list byte;
  eoi_outcome : ExecutionOutcome;
  eoi_hash : list byte
}.

Definition decodeExecutionOutcomeWithId : R ExecutionOutcomeWithId :=
  id ← decodeBytes32;
  outcome ← decodeExecutionOutcome;
  let len := 1 + Z.of_nat (length (eo_merkelization_hashes outcome)) in
  mret (mkExecutionOutcomeWithId id outcome
    (sha256 (le_bytes 4 len ++ id ++ concat (eo_merkelization_hashes outcome)))).

Record ExecutionOutcomeWithIdAndProof := mkExecutionOutcomeWithIdAndProof {
  eop_proof : list MerkleItem;
  eop_block_hash : list byte;
  eop_outcome_with_id : ExecutionOutcomeWithId
}.

Definition decodeExecutionOutcomeWithIdAndProof : R ExecutionOutcomeWithIdAndProof :=
  proof ← decodeMerklePath;
  block_hash ← decodeBytes32;
  outcome_with_id ← decodeExecutionOutcomeWithId;
  mret (mkExecutionOutcomeWithIdAndProof proof block_hash outcome_with_id).

Record BlockHeaderLight := mkBlockHeaderLight {
  bl_prev_block_hash : list byte;
  bl_inner_rest_hash : list byte;
  bl_inner_lite : BlockHeaderInnerLite;
  bl_hash : list byte
}.

Definition decodeBlockHeaderLight : R BlockHeaderLight :=
  prev_block_hash ← decodeBytes32;
  inner_rest_hash ← decodeBytes32;
  inner_lite ← decodeBlockHeaderInnerLite;
  mret (mkBlockHeaderLight prev_block_hash inner_rest_hash inner_lite
          (header_hash (il_hash inner_lite) inner_rest_hash prev_block_hash)).

Record FullOutcomeProof := mkFullOutcomeProof {
  fp_outcome_proof : ExecutionOutcomeWithIdAndProof;
  fp_outcome_root_proof : list MerkleItem;
  fp_block_header_lite : BlockHeaderLight;
  fp_block_proof : list MerkleItem
}.

Definition decodeFullOutcomeProof : R FullOutcomeProof :=
  outcome_proof ← decodeExecutionOutcomeWithIdAndProof;
  outcome_root_proof ← decodeMerklePath;
  block_header_lite ← decodeBlockHeaderLight;
  block_proof ← decodeMerklePath;
  mret (mkFullOutcomeProof outcome_proof outcome_root_proof block_header_lite block_proof).
End near_decoder.
