(* ===== verification/BorshifySpec.v ===== *)
(** * What the NEAR encoders mean and how the contracts read them

    The relations [..._means] say which on-chain record a JSON object stands
    for, field by field, without mentioning bytes or offsets.  The lemmas show
    that the encoder of {!Borshify} succeeds on a meaningful object and that
    the decoder of {!NearDecoder} reads the meant record back. *)

From Stdlib Require Import Strings.Byte.
From stdpp Require Import base list strings.
From Stdlib Require Import ZArith Lia.
From S2P Require Import Prelude Js Borsh BorshSpec Borshify NearDecoder.
Local Open Scope Z_scope.

#[local] Opaque le_bytes.

(** ** Reading integers and byte strings *)

Lemma reads_at_shift bs : reads_at (shift_read (length bs)) bs bs.
Proof.
  intros pre post. unfold shift_read. cbn [r_buf r_offset].
  rewrite decide_True by (rewrite !length_app; lia).
  by rewrite drop_app_length, take_app_length.
Qed.

Lemma reads_at_shift' n bs : length bs = n -> reads_at (shift_read n) bs bs.
Proof. intros <-. apply reads_at_shift. Qed.

Lemma lor_shiftl_add lo hi k :
  0 <= k -> 0 <= lo < 2 ^ k -> Z.lor lo (Z.shiftl hi k) = lo + 2 ^ k * hi.
Proof.
  intros Hk Hlo. pose proof (Z.add_lor_land lo (Z.shiftl hi k)) as Hadd.
  assert (Z.land lo (Z.shiftl hi k) = 0) as Hland.
  { apply Z.bits_inj'. intros i Hi. rewrite Z.land_spec, Z.bits_0.
    destruct (Z.ltb_spec i k).
    - rewrite Z.shiftl_spec_low by lia. apply andb_false_r.
    - destruct (Z.eq_dec lo 0) as [->|]; [by rewrite Z.bits_0|].
      rewrite (Z.bits_above_log2 lo i); [done|lia|].
      apply Z.log2_lt_pow2; [lia|]. eapply Z.lt_le_trans; [apply Hlo|].
      apply Z.pow_le_mono_r; lia. }
  rewrite Hland, Z.shiftl_mul_pow2 in Hadd by lia.
  rewrite Z.shiftl_mul_pow2 by lia. lia.
Qed.

(** A decoder of an unsigned integer of [n] bytes. *)
Definition decodes_uint (m : R Z) (n : nat) : Prop :=
  forall bs, length bs = n -> reads_at m bs (Z_of_le bs).

Lemma decodes_uint_double m n k :
  decodes_uint m n -> k = 8 * Z.of_nat n ->
  decodes_uint (lo ← m; hi ← m; mret (Z.lor lo (Z.shiftl hi k))) (n + n).
Proof.
  intros Hm Hk bs Hbs. rewrite <- (take_drop n bs).
  assert (length (take n bs) = n) as Hl by (rewrite length_take; lia).
  assert (2 ^ k = byte_width n) as Hw.
  { unfold byte_width. rewrite Hk, Z.pow_mul_r by lia. done. }
  rewrite Z_of_le_app, Hl, <- Hw, <- lor_shiftl_add; [|lia|].
  - eapply reads_at_bind; [by apply Hm|].
    apply (reads_at_map m (fun hi => Z.lor (Z_of_le (take n bs)) (Z.shiftl hi k))).
    apply Hm. rewrite length_drop. lia.
  - pose proof (Z_of_le_range (take n bs)) as Hr. by rewrite Hl, <- Hw in Hr.
Qed.

Lemma decodes_U8 : decodes_uint decodeU8 1.
Proof. intros bs Hbs. apply (reads_at_map _ Z_of_le), reads_at_shift'. done. Qed.
Lemma decodes_U16 : decodes_uint decodeU16 2.
Proof. by apply (decodes_uint_double decodeU8 1), eq_refl; apply decodes_U8. Qed.
Lemma decodes_U32 : decodes_uint decodeU32 4.
Proof. by apply (decodes_uint_double decodeU16 2), eq_refl; apply decodes_U16. Qed.
Lemma decodes_U64 : decodes_uint decodeU64 8.
Proof. by apply (decodes_uint_double decodeU32 4), eq_refl; apply decodes_U32. Qed.
Lemma decodes_U128 : decodes_uint decodeU128 16.
Proof. by apply (decodes_uint_double decodeU64 8), eq_refl; apply decodes_U64. Qed.

Lemma decodes_le m n z :
  decodes_uint m n -> 0 <= z < byte_width n -> reads_at m (le_bytes n z) z.
Proof.
  intros Hm Hz. rewrite <- (Z_of_le_bytes n z Hz) at 2. apply Hm, length_le_bytes.
Qed.

Lemma reads_at_flag (b : byte) : reads_at decodeU8 [b] (Z_of_byte b).
Proof.
  replace (Z_of_byte b) with (Z_of_le [b]) by (simpl; lia). by apply decodes_U8.
Qed.

Lemma reads_at_vec {A} (m : R A) bss (xs : list A) :
  Z.of_nat (length xs) < byte_width 4 -> Forall2 (reads_at m) bss xs ->
  reads_at (len ← decodeU32; read_times (Z.to_nat len) m)
    (le_bytes 4 (Z.of_nat (length xs)) ++ concat bss) xs.
Proof.
  intros Hlen Hxs. eapply reads_at_bind; [apply decodes_le; [apply decodes_U32|lia]|].
  rewrite Nat2Z.id. by apply reads_at_times.
Qed.

Lemma reads_at_u8s bs :
  reads_at (read_times (length bs) decodeU8) bs (map Z_of_byte bs).
Proof.
  rewrite <- (length_map Z_of_byte bs). replace bs with (concat (map (fun b => [b]) bs)) at 2
    by (induction bs as [|b bs IH]; simpl; congruence).
  apply reads_at_times. induction bs as [|b bs IH]; simpl; constructor; auto using reads_at_flag.
Qed.

Lemma map_byte_of_byte bs : map byte_of_Z (map Z_of_byte bs) = bs.
Proof. induction bs as [|b bs IH]; simpl; [done|]. by rewrite byte_of_Z_of_byte, IH. Qed.

Lemma reads_at_decodeBytes bs : Z.of_nat (length bs) < byte_width 4 ->
  reads_at decodeBytes (le_bytes 4 (Z.of_nat (length bs)) ++ bs) bs.
Proof.
  intros Hlen. unfold decodeBytes.
  eapply reads_at_bind; [apply decodes_le; [apply decodes_U32|lia]|].
  rewrite Nat2Z.id. rewrite <- (map_byte_of_byte bs) at 3.
  apply reads_at_map, reads_at_u8s.
Qed.

Section hashes.
Context (sha256 : list byte -> list byte).

Lemma reads_at_with_hash {A} (m : R A) bs a :
  reads_at m bs a -> reads_at (with_hash sha256 m) bs (a, sha256 bs).
Proof.
  intros Hm pre post. unfold with_hash. rewrite Hm. simpl.
  replace (length pre + length bs - length pre)%nat with (length bs) by lia.
  unfold slice. rewrite drop_app_length.
  replace (length pre + length bs - length pre)%nat with (length bs) by lia.
  by rewrite take_app_length.
Qed.

(** Peeking is only correct when the peeked bytes are all there. *)
Lemma reads_at_peek {B} n (f : list byte -> R B) bs b :
  length bs = n -> reads_at (f (sha256 bs)) bs b ->
  reads_at (h ← peekSha256 sha256 n; f h) bs b.
Proof.
  intros Hn Hf pre post. unfold mbind, R_bind, peekSha256. cbn [r_buf r_offset].
  unfold slice. rewrite drop_app_length.
  replace (length pre + n - length pre)%nat with (length bs) by lia.
  rewrite take_app_length. apply Hf.
Qed.
End hashes.

(** ** Meanings *)

Section means.
Context `{BNL : BNLaws} `{ENL : EncLaws}.
Context (sha256 : list byte -> list byte).

(** A base58 string of 32 bytes; a number that fits [n] bytes. *)
Definition hash_means (s : string) (h : list byte) : Prop :=
  bs58_decode s = Ok h /\ length h = 32%nat.
Definition num_means (n : nat) (x : jsnum) (z : Z) : Prop :=
  toBN x = Ok z /\ 0 <= z < byte_width n.
Definition fits {A} (l : list A) : Prop := Z.of_nat (length l) < byte_width 4.

(** A 7-bit string, which stands for its bytes. *)
Definition text_means (s : string) (bs : list byte) : Prop :=
  is_ascii s = true /\ bs = utf8 s /\ fits bs.

Definition enc_inner_lite (l : BlockHeaderInnerLite) : list byte :=
  le_bytes 8 (il_height l) ++ il_epoch_id l ++ il_next_epoch_id l ++ il_prev_state_root l ++
  il_outcome_root l ++ le_bytes 8 (il_timestamp l) ++ il_next_bp_hash l ++ il_block_merkle_root l.

Definition inner_lite_means (i : InnerLite) (l : BlockHeaderInnerLite) : Prop :=
  num_means 8 (height i) (il_height l) /\
  hash_means (epoch_id i) (il_epoch_id l) /\
  hash_means (next_epoch_id i) (il_next_epoch_id l) /\
  hash_means (prev_state_root i) (il_prev_state_root l) /\
  hash_means (outcome_root i) (il_outcome_root l) /\
  num_means 8 (block_timestamp i) (il_timestamp l) /\
  hash_means (next_bp_hash i) (il_next_bp_hash l) /\
  hash_means (block_merkle_root i) (il_block_merkle_root l) /\
  il_hash l = sha256 (enc_inner_lite l).

(** An ED25519 key ["ed25519:" ++ base58]. *)
Definition key_means (s : string) (len : nat) (data : list byte) : Prop :=
  exists k, s = "ed25519:" +:+ k /\ bs58_decode k = Ok data /\ length data = len.

Definition validator_means (v : ValidatorView) (s : ValidatorStake) : Prop :=
  text_means (account_id v) (vs_account_id s) /\
  (exists xy, key_means (public_key v) 32 xy /\ vs_public_key s = mkPublicKey 0 xy (0, 0)) /\
  num_means 16 (stake v) (vs_stake s).

Definition enc_validator (s : ValidatorStake) : list byte :=
  le_bytes 4 (Z.of_nat (length (vs_account_id s))) ++ vs_account_id s ++
  x00 :: pk_ed25519 (vs_public_key s) ++ le_bytes 16 (vs_stake s).

Definition enc_vec {A} (enc : A -> list byte) (l : list A) : list byte :=
  le_bytes 4 (Z.of_nat (length l)) ++ concat (map enc l).

Definition approval_means (a : option string) (o : OptionalSignature) : Prop :=
  match a with
  | None => o = mkOptionalSignature true no_signature
  | Some sg => exists r s, key_means sg 64 (r ++ s) /\ length r = 32%nat /\ length s = 32%nat /\
      o = mkOptionalSignature false (mkSignature 0 (r, s) (zero32, zero32, 0))
  end.

Definition enc_approval (o : OptionalSignature) : list byte :=
  if os_none o then [x00]
  else x01 :: x00 :: (sig_ed25519 (os_signature o)).1 ++ (sig_ed25519 (os_signature o)).2.

Definition block_means (b : LightClientBlockView) (l : LightClientBlock) : Prop :=
  hash_means (prev_block_hash b) (lc_prev_block_hash l) /\
  hash_means (next_block_inner_hash b) (lc_next_block_inner_hash l) /\
  inner_lite_means (inner_lite b) (lc_inner_lite l) /\
  hash_means (inner_rest_hash b) (lc_inner_rest_hash l) /\
  (exists bps stakes, next_bps b = Some bps /\ fits bps /\ Forall2 validator_means bps stakes /\
     lc_next_bps l = mkOptionalValidatorStakes false stakes (sha256 (enc_vec enc_validator stakes))) /\
  fits (approvals_after_next b) /\
  Forall2 approval_means (approvals_after_next b) (lc_approvals_after_next l) /\
  lc_hash l = header_hash sha256 (il_hash (lc_inner_lite l)) (lc_inner_rest_hash l) (lc_prev_block_hash l) /\
  lc_next_hash l = sha256 (lc_next_block_inner_hash l ++ lc_hash l).

Definition enc_block (l : LightClientBlock) : list byte :=
  lc_prev_block_hash l ++ lc_next_block_inner_hash l ++ enc_inner_lite (lc_inner_lite l) ++
  lc_inner_rest_hash l ++ (x01 :: enc_vec enc_validator (ovs_validatorStakes (lc_next_bps l))) ++
  enc_vec enc_approval (lc_approvals_after_next l).

(** *** Encoding *)

Lemma key_means_enc s n data : key_means s n data -> key_type s = [x00] /\ key_data s = Ok data.
Proof.
  intros (k & -> & Hd & _). split; [done|]. unfold key_data.
  change 8%nat with (String.length "ed25519:"). by rewrite substr_from_app.
Qed.

Lemma text_means_len s bs : text_means s bs ->
  bn_le (JNum (Z.of_nat (String.length s))) 4 = Ok (le_bytes 4 (Z.of_nat (length bs))).
Proof.
  intros (Ha & -> & Hf). apply length_utf8 in Ha. rewrite <- Ha.
  unfold fits in Hf. change (byte_width 4) with (2 ^ 32) in Hf.
  apply bn_le_num; [change (byte_width 4) with (2 ^ 32)|]; lia.
Qed.

Lemma num_means_enc n x z : num_means n x z -> bn_le x n = Ok (le_bytes n z).
Proof. intros [? ?]. by apply bn_le_ok. Qed.

Lemma hash_means_enc s h : hash_means s h -> bs58_decode s = Ok h.
Proof. by intros [? _]. Qed.

Lemma enc_parts parts bss bs :
  Forall2 (fun p b => p = Ok b) parts bss -> concat bss = bs -> concat_parts parts = Ok bs.
Proof. intros Hp <-. by apply concat_parts_ok. Qed.

Lemma borshify_validator_ok v s :
  validator_means v s -> borshify_validator v = Ok (enc_validator s).
Proof.
  intros (Ha & (xy & Hk & Hpk) & Hst). destruct (key_means_enc _ _ _ Hk) as [Ht Hd].
  eapply enc_parts; [repeat apply Forall2_cons_2; [by apply text_means_len| | | | |by apply Forall2_nil]|].
  - destruct Ha as (_ & <- & _). done.
  - by rewrite Ht.
  - done.
  - by apply num_means_enc.
  - unfold enc_validator. rewrite Hpk. simpl. by rewrite app_nil_r.
Qed.

Lemma borshify_approval_ok a o : approval_means a o -> borshify_approval a = Ok (enc_approval o).
Proof.
  destruct a as [sg|]; simpl; [|by intros ->].
  intros (r & s & Hk & _ & _ & ->). destruct (key_means_enc _ _ _ Hk) as [Ht Hd].
  rewrite Ht, Hd. unfold concat_parts; simpl. by rewrite app_nil_r.
Qed.

Lemma enc_map_ok {A B} (f : A -> outcome (list byte)) (P : A -> B -> Prop) (enc : B -> list byte) l k :
  (forall x y, P x y -> f x = Ok (enc y)) -> Forall2 P l k ->
  concat_map f l = Ok (concat (map enc k)).
Proof.
  intros Hf HP. apply concat_map_ok. apply Forall2_fmap_r.
  eapply Forall2_impl; [exact HP|]. auto.
Qed.

Lemma len_le_means {A B} (P : A -> B -> Prop) (l : list A) (k : list B) : fits l ->
  Forall2 P l k -> len_le l = Ok (le_bytes 4 (Z.of_nat (length k))).
Proof. intros Hf HP. rewrite <- (Forall2_length _ _ _ HP). by apply len_le_ok. Qed.

Lemma inner_lite_parts i l : inner_lite_means i l -> exists bss,
  Forall2 (fun p b => p = Ok b) (borshify_inner_lite i) bss /\ concat bss = enc_inner_lite l.
Proof.
  intros (Hh & He & Hn & Hp & Ho & Ht & Hb & Hm & _). eexists. split.
  - repeat apply Forall2_cons_2; [..|by apply Forall2_nil];
      eauto using num_means_enc, hash_means_enc.
  - simpl. by rewrite app_nil_r.
Qed.

Lemma borshify_block_ok b l : block_means b l -> borshify b = Ok (enc_block l).
Proof.
  intros (Hp & Hn & Hi & Hr & (bps & stakes & Hb & Hfb & Hv & Hnb) & Hfa & Ha & _).
  destruct (inner_lite_parts _ _ Hi) as (bss & Hbss & Hil).
  unfold borshify. rewrite Hb. eapply enc_parts.
  - repeat apply Forall2_cons_2; [..|by apply Forall2_nil];
      eauto using num_means_enc, hash_means_enc, enc_parts, len_le_means.
    + by eapply enc_map_ok, Hv; apply borshify_validator_ok.
    + by eapply enc_map_ok, Ha; apply borshify_approval_ok.
  - unfold enc_block, enc_vec. rewrite Hnb. simpl. by rewrite <- !app_assoc, app_nil_r.
Qed.

Lemma borshify_validators_ok vs stakes : fits vs -> Forall2 validator_means vs stakes ->
  borshifyInitialValidators vs = Ok (enc_vec enc_validator stakes).
Proof.
  intros Hf Hv. eapply enc_parts.
  - repeat apply Forall2_cons_2; [..|by apply Forall2_nil]; [by eapply len_le_means|].
    by eapply enc_map_ok, Hv; apply borshify_validator_ok.
  - simpl. by rewrite app_nil_r.
Qed.

(** *** Decoding *)

Lemma reads_hash s h : hash_means s h -> reads_at decodeBytes32 h h.
Proof. intros [_ Hl]. by apply reads_at_shift'. Qed.

Lemma reads_u64 x z : num_means 8 x z -> reads_at decodeU64 (le_bytes 8 z) z.
Proof. intros [_ Hz]. by apply decodes_le; [apply decodes_U64|]. Qed.

Lemma reads_u128 x z : num_means 16 x z -> reads_at decodeU128 (le_bytes 16 z) z.
Proof. intros [_ Hz]. by apply decodes_le; [apply decodes_U128|]. Qed.

Lemma length_enc_inner_lite i l : inner_lite_means i l -> length (enc_inner_lite l) = 208%nat.
Proof.
  intros ([_ _] & [_ He] & [_ Hn] & [_ Hp] & [_ Ho] & [_ _] & [_ Hb] & [_ Hm] & _).
  unfold enc_inner_lite. rewrite !length_app, !length_le_bytes. lia.
Qed.

Lemma reads_inner_lite i l : inner_lite_means i l ->
  reads_at (decodeBlockHeaderInnerLite sha256) (enc_inner_lite l) l.
Proof.
  intros Hi. apply reads_at_peek; [by eapply length_enc_inner_lite|].
  destruct Hi as (Hh & He & Hn & Hp & Ho & Ht & Hb & Hm & Hs). rewrite <- Hs.
  do 7 (eapply reads_at_bind; [by eauto using reads_hash, reads_u64|]).
  destruct l as [h e n p o t b m hs]; simpl in *.
  apply (reads_at_map _ (fun x => mkBlockHeaderInnerLite h e n p o t b x hs)).
  by eapply reads_hash.
Qed.

Lemma reads_validator v s : validator_means v s ->
  reads_at decodeValidatorStake (enc_validator s) s.
Proof.
  intros ((_ & Ha & Hf) & (xy & (k & _ & _ & Hxy) & Hpk) & Hst).
  unfold enc_validator. rewrite app_assoc.
  eapply reads_at_bind; [by apply reads_at_decodeBytes|].
  change (reads_at (public_key ← decodePublicKey; stake ← decodeU128;
    mret (mkValidatorStake (vs_account_id s) public_key stake))
    ((x00 :: pk_ed25519 (vs_public_key s)) ++ le_bytes 16 (vs_stake s)) s).
  eapply reads_at_bind.
  - apply (reads_at_bind _ _ [x00] (pk_ed25519 (vs_public_key s)) (Z_of_byte x00));
      [apply reads_at_flag|].
    apply (reads_at_map _ (fun xy => mkPublicKey 0 xy (0, 0))), reads_at_shift'. by rewrite Hpk.
  - destruct s as [aid pk st]; simpl in *. rewrite Hpk. simpl.
    apply (reads_at_map _ (mkValidatorStake aid (mkPublicKey 0 xy (0, 0)))). by eapply reads_u128.
Qed.

Lemma reads_approval a o : approval_means a o -> reads_at decodeOptionalSignature (enc_approval o) o.
Proof.
  destruct a as [sg|]; simpl.
  - intros (r & s & _ & Hr & Hs & ->). unfold enc_approval. simpl.
    apply (reads_at_bind _ _ [x01] (x00 :: r ++ s) (Z_of_byte x01)); [apply reads_at_flag|].
    apply reads_at_map.
    apply (reads_at_bind _ _ [x00] (r ++ s) (Z_of_byte x00)); [apply reads_at_flag|].
    eapply reads_at_bind; [by apply reads_at_shift'|].
    apply (reads_at_map _ (fun x => mkSignature 0 (r, x) (zero32, zero32, 0))).
    by apply reads_at_shift'.
  - intros ->. apply (reads_at_bind _ _ [x00] [] (Z_of_byte x00)); [apply reads_at_flag|].
    apply reads_at_ret.
Qed.

Lemma reads_all {A B} (m : R B) (P : A -> B -> Prop) (enc : B -> list byte) l k :
  (forall x y, P x y -> reads_at m (enc y) y) -> Forall2 P l k ->
  Forall2 (reads_at m) (map enc k) k.
Proof.
  intros Hm HP. apply Forall2_fmap_l.
  induction HP as [|x y l k Hxy _ IH]; constructor; eauto.
Qed.

Lemma reads_vec {A B} (m : R B) (P : A -> B -> Prop) (enc : B -> list byte) l k :
  (forall x y, P x y -> reads_at m (enc y) y) -> fits l -> Forall2 P l k ->
  reads_at (len ← decodeU32; read_times (Z.to_nat len) m) (enc_vec enc k) k.
Proof.
  intros Hm Hf HP. apply reads_at_vec; [|by eapply reads_all].
  unfold fits in Hf. by rewrite <- (Forall2_length _ _ _ HP).
Qed.

Lemma reads_block b l : block_means b l -> reads_at (decodeLightClientBlock sha256) (enc_block l) l.
Proof.
  intros (Hp & Hn & Hi & Hr & (bps & stakes & Hb & Hfb & Hv & Hnb) & Hfa & Ha & Hh & Hnh).
  unfold enc_block, decodeLightClientBlock.
  eapply reads_at_bind; [by eapply reads_hash|].
  eapply reads_at_bind; [by eapply reads_hash|].
  eapply reads_at_bind; [by eapply reads_inner_lite|].
  eapply reads_at_bind; [by eapply reads_hash|].
  eapply reads_at_bind.
  - apply (reads_at_bind _ _ [x01] (enc_vec enc_validator (ovs_validatorStakes (lc_next_bps l)))
             (Z_of_byte x01)); [apply reads_at_flag|].
    apply reads_at_map, reads_at_with_hash. rewrite Hnb. simpl.
    by eapply (reads_vec _ validator_means), Hv; [apply reads_validator|].
  - unfold enc_vec. unfold fits in Hfa. rewrite (Forall2_length _ _ _ Ha) in Hfa.
    eapply reads_at_bind; [apply decodes_le; [apply decodes_U32|lia]|].
    rewrite Nat2Z.id. destruct l as [p n i r nb ap h nh]; simpl in *. subst.
    apply (reads_at_map _ (fun x => mkLightClientBlock p n i r _ x _ _)).
    apply reads_at_times. by eapply (reads_all _ approval_means), Ha; apply reads_approval.
Qed.

(** *** Outcome proofs *)

Definition path_item_means (p : MerklePathItem) (i : MerkleItem) : Prop :=
  hash_means (mp_hash p) (mi_hash i) /\
  mi_direction i = (if String.eqb (direction p) "Right" then 1 else 0).

Definition enc_path_item (i : MerkleItem) : list byte := mi_hash i ++ [byte_of_Z (mi_direction i)].

Definition status_means (st : ExecutionStatus) (es : SolExecutionStatus) : Prop :=
  match SuccessValue st, SuccessReceiptId st with
  | Some v, _ => fits (base64_decode v) /\
      es = mkSolExecutionStatus 2 false false (base64_decode v) zero32
  | None, Some r => hash_means r (es_successReceiptId es) /\
      es = mkSolExecutionStatus 3 false false [] (es_successReceiptId es)
  | None, None => False
  end.

Definition enc_status (es : SolExecutionStatus) : list byte :=
  if es_enumIndex es =? 2
  then x02 :: le_bytes 4 (Z.of_nat (length (es_successValue es))) ++ es_successValue es
  else x03 :: es_successReceiptId es.

Definition enc_outcome_body (eo : ExecutionOutcome) : list byte :=
  enc_vec id (eo_receipt_ids eo) ++ le_bytes 8 (eo_gas_burnt eo) ++ le_bytes 16 (eo_tokens_burnt eo) ++
  (le_bytes 4 (Z.of_nat (length (eo_executor_id eo))) ++ eo_executor_id eo) ++ enc_status (eo_status eo).

(** The outcome of a receipt that wrote no log. *)
Definition outcome_means (o : Outcome) (eo : ExecutionOutcome) : Prop :=
  logs o = [] /\ eo_logs eo = [] /\
  fits (receipt_ids o) /\ Forall2 hash_means (receipt_ids o) (eo_receipt_ids eo) /\
  num_means 8 (gas_burnt o) (eo_gas_burnt eo) /\
  num_means 16 (tokens_burnt o) (eo_tokens_burnt eo) /\
  text_means (executor_id o) (eo_executor_id eo) /\
  status_means (status o) (eo_status eo) /\
  eo_merkelization_hashes eo = [sha256 (enc_outcome_body eo)].

Definition path_means (ps : list MerklePathItem) (items : list MerkleItem) : Prop :=
  fits ps /\ Forall2 path_item_means ps items.

Definition outcome_with_id_means (op : OutcomeProof) (e : ExecutionOutcomeWithIdAndProof) : Prop :=
  let w := eop_outcome_with_id e in
  path_means (op_proof op) (eop_proof e) /\
  hash_means (op_block_hash op) (eop_block_hash e) /\
  hash_means (op_id op) (eoi_id w) /\
  outcome_means (op_outcome op) (eoi_outcome w) /\
  eoi_hash w = sha256 (le_bytes 4 2 ++ eoi_id w ++ concat (eo_merkelization_hashes (eoi_outcome w))).

Definition header_means (bh : BlockHeaderLite) (bl : BlockHeaderLight) : Prop :=
  hash_means (bh_prev_block_hash bh) (bl_prev_block_hash bl) /\
  hash_means (bh_inner_rest_hash bh) (bl_inner_rest_hash bl) /\
  inner_lite_means (bh_inner_lite bh) (bl_inner_lite bl) /\
  bl_hash bl = header_hash sha256 (il_hash (bl_inner_lite bl)) (bl_inner_rest_hash bl) (bl_prev_block_hash bl).

Definition proof_means (p : FinalProof) (f : FullOutcomeProof) : Prop :=
  outcome_with_id_means (outcome_proof p) (fp_outcome_proof f) /\
  fp_outcome_root_proof f = [] /\
  header_means (block_header_lite p) (fp_block_header_lite f) /\
  path_means (block_proof p) (fp_block_proof f).

Definition enc_outcome_with_id (e : ExecutionOutcomeWithIdAndProof) : list byte :=
  let w := eop_outcome_with_id e in
  enc_vec enc_path_item (eop_proof e) ++ eop_block_hash e ++ eoi_id w ++
  le_bytes 4 0 ++ enc_outcome_body (eoi_outcome w).

Definition enc_header (bl : BlockHeaderLight) : list byte :=
  bl_prev_block_hash bl ++ bl_inner_rest_hash bl ++ enc_inner_lite (bl_inner_lite bl).

Definition enc_proof (f : FullOutcomeProof) : list byte :=
  enc_outcome_with_id (fp_outcome_proof f) ++ le_bytes 4 0 ++
  enc_header (fp_block_header_lite f) ++ enc_vec enc_path_item (fp_block_proof f).

Lemma path_item_ok p i : path_item_means p i -> borshify_path_item p = Ok (enc_path_item i).
Proof.
  intros [[Hh _] Hd]. unfold borshify_path_item, enc_path_item. rewrite Hd.
  eapply enc_parts; [repeat apply Forall2_cons_2; [done|done|by apply Forall2_nil]|].
  by destruct (String.eqb (direction p) "Right").
Qed.

Lemma status_ok st es : status_means st es -> statusToBuffer st = Ok (enc_status es).
Proof.
  unfold status_means, statusToBuffer.
  destruct (SuccessValue st) as [v|]; [|destruct (SuccessReceiptId st) as [r|]; [|done]].
  - intros [Hf ->]. eapply enc_parts;
      [repeat apply Forall2_cons_2; [done|by apply len_le_ok|done|by apply Forall2_nil]|].
    simpl. by rewrite app_nil_r.
  - intros [[Hr _] ->]. eapply enc_parts;
      [repeat apply Forall2_cons_2; [done|done|by apply Forall2_nil]|].
    simpl. by rewrite app_nil_r.
Qed.

Lemma path_ok ps items : path_means ps items ->
  len_le ps = Ok (le_bytes 4 (Z.of_nat (length items))) /\
  concat_map borshify_path_item ps = Ok (concat (map enc_path_item items)).
Proof.
  intros [Hf Hp]. split; [by eapply len_le_means|].
  by eapply enc_map_ok, Hp; apply path_item_ok.
Qed.

Lemma concat_map_id {A} (l : list (list A)) : concat (map id l) = concat l.
Proof. by rewrite map_id. Qed.

Lemma borshify_proof_ok p f : proof_means p f -> borshifyOutcomeProof p = Ok (enc_proof f).
Proof.
  intros ((Hpp & Hbh & Hid & (Hl & _ & Hfr & Hr & Hg & Ht & Htx & Hst & _) & _) & _ &
          (Hpb & Hir & Hil & _) & Hbp).
  destruct (inner_lite_parts _ _ Hil) as (ibs & Hibs & Hie).
  destruct (path_ok _ _ Hpp) as [Hpl Hpc]. destruct (path_ok _ _ Hbp) as [Hbl Hbc].
  pose proof (len_le_ok (logs (op_outcome (outcome_proof p)))) as Hll. rewrite Hl in Hll.
  specialize (Hll eq_refl).
  pose proof (concat_map_ok bs58_decode _ _ (Forall2_impl _ _ _ _ Hr hash_means_enc)) as Hrc.
  unfold borshifyOutcomeProof. rewrite Hl. eapply enc_parts.
  - repeat apply Forall2_cons_2; [by eauto using hash_means_enc..| |by apply Forall2_nil].
    eapply enc_parts; [|reflexivity].
    apply Forall2_app; [|apply Forall2_app; [exact Hibs|]];
      (repeat apply Forall2_cons_2); try apply Forall2_nil_2;
      eauto using num_means_enc, hash_means_enc, text_means_len, status_ok, len_le_means.
  - unfold enc_proof, enc_outcome_with_id, enc_outcome_body, enc_header, enc_vec.
    destruct Htx as (_ & -> & _). rewrite concat_map_id. simpl. rewrite concat_app, Hie. simpl.
    by rewrite !app_nil_r, <- !app_assoc.
Qed.

Lemma reads_path_item p i : path_item_means p i -> reads_at decodeMerklePathItem (enc_path_item i) i.
Proof.
  intros [Hh Hd]. destruct i as [h d]; unfold enc_path_item; simpl in *.
  eapply reads_at_bind; [by eapply reads_hash|].
  assert (d = 0 \/ d = 1) as [->| ->] by (destruct (String.eqb _ _); auto).
  - apply (reads_at_bind _ _ [x00] [] 0); [apply (reads_at_flag x00)|apply reads_at_ret].
  - apply (reads_at_bind _ _ [x01] [] 1); [apply (reads_at_flag x01)|apply reads_at_ret].
Qed.

Lemma reads_path ps items : path_means ps items ->
  reads_at decodeMerklePath (enc_vec enc_path_item items) items.
Proof. intros [Hf Hp]. by eapply (reads_vec _ path_item_means), Hp; [apply reads_path_item|]. Qed.

Lemma reads_status st es : status_means st es -> reads_at decodeExecutionStatus (enc_status es) es.
Proof.
  unfold status_means.
  destruct (SuccessValue st) as [v|]; [|destruct (SuccessReceiptId st) as [r|]; [|done]].
  - intros [Hf ->]. unfold enc_status. simpl.
    apply (reads_at_bind _ _ [x02] _ 2); [apply (reads_at_flag x02)|]. simpl.
    apply (reads_at_map _ (fun v => mkSolExecutionStatus 2 false false v zero32)).
    by apply reads_at_decodeBytes.
  - destruct es as [e u f sv rid]; simpl. intros [Hr Heq]. simplify_eq. unfold enc_status. simpl.
    apply (reads_at_bind _ _ [x03] _ 3); [apply (reads_at_flag x03)|]. simpl.
    apply (reads_at_map _ (mkSolExecutionStatus 3 false false [])). by eapply reads_hash.
Qed.

Lemma reads_outcome_body o eo : outcome_means o eo ->
  reads_at decodeOutcomeBody (enc_outcome_body eo)
    (eo_receipt_ids eo, eo_gas_burnt eo, eo_tokens_burnt eo, eo_executor_id eo, eo_status eo).
Proof.
  intros (_ & _ & Hfr & Hr & Hg & Ht & (_ & Htx & Hfx) & Hst & _).
  unfold enc_outcome_body, decodeOutcomeBody, enc_vec. rewrite <- app_assoc.
  unfold fits in Hfr. rewrite (Forall2_length _ _ _ Hr) in Hfr.
  eapply reads_at_bind; [apply decodes_le; [apply decodes_U32|lia]|]. rewrite Nat2Z.id.
  eapply reads_at_bind; [apply reads_at_times; eapply (reads_all _ hash_means id), Hr; apply reads_hash|].
  eapply reads_at_bind; [by eapply reads_u64|].
  eapply reads_at_bind; [by eapply reads_u128|].
  eapply reads_at_bind; [by apply reads_at_decodeBytes|].
  apply (reads_at_map _ (fun st => (_, _, _, _, st))). by eapply reads_status.
Qed.

Lemma reads_outcome o eo : outcome_means o eo ->
  reads_at (decodeExecutionOutcome sha256) (le_bytes 4 0 ++ enc_outcome_body eo) eo.
Proof.
  intros Ho. pose proof (reads_outcome_body _ _ Ho) as Hb.
  destruct Ho as (_ & Hlogs & _ & _ & _ & _ & _ & _ & Hm).
  eapply reads_at_bind; [apply (decodes_le _ 4 0); [apply decodes_U32|done]|].
  apply (reads_at_bind _ _ [] (enc_outcome_body eo) []); [apply reads_at_ret|].
  rewrite <- (app_nil_r (enc_outcome_body eo)).
  eapply reads_at_bind; [apply reads_at_with_hash, Hb|]. simpl. rewrite <- Hm.
  destruct eo; simpl in *. subst. apply reads_at_ret.
Qed.

Lemma reads_outcome_with_id op e : outcome_with_id_means op e ->
  reads_at (decodeExecutionOutcomeWithIdAndProof sha256) (enc_outcome_with_id e) e.
Proof.
  intros (Hp & Hb & Hid & Ho & Hh). unfold enc_outcome_with_id.
  eapply reads_at_bind; [by eapply reads_path|].
  eapply reads_at_bind; [by eapply reads_hash|].
  destruct e as [p b [i o h]]; simpl in *.
  apply (reads_at_map _ (mkExecutionOutcomeWithIdAndProof p b)).
  eapply reads_at_bind; [by eapply reads_hash|].
  rewrite <- (app_nil_r (_ ++ enc_outcome_body o)).
  eapply reads_at_bind; [by eapply reads_outcome|].
  destruct Ho as (_ & _ & _ & _ & _ & _ & _ & _ & Hm). rewrite Hh, Hm.
  exact (reads_at_ret _).
Qed.

Lemma reads_header bh bl : header_means bh bl ->
  reads_at (decodeBlockHeaderLight sha256) (enc_header bl) bl.
Proof.
  intros (Hp & Hr & Hi & Hh). unfold enc_header.
  eapply reads_at_bind; [by eapply reads_hash|].
  eapply reads_at_bind; [by eapply reads_hash|].
  destruct bl as [p r i h]; simpl in *. rewrite Hh.
  apply (reads_at_map _ (fun i => mkBlockHeaderLight p r i (header_hash sha256 (il_hash i) r p))).
  by eapply reads_inner_lite.
Qed.

Lemma reads_proof p f : proof_means p f ->
  reads_at (decodeFullOutcomeProof sha256) (enc_proof f) f.
Proof.
  intros (Ho & Hr & Hh & Hb). unfold enc_proof.
  eapply reads_at_bind; [by eapply reads_outcome_with_id|].
  eapply reads_at_bind.
  { rewrite <- (app_nil_r (le_bytes 4 0)).
    eapply reads_at_bind; [apply (decodes_le _ 4 0); [apply decodes_U32|done]|].
    apply (reads_at_ret []). }
  eapply reads_at_bind; [by eapply reads_header|].
  destruct f as [o rp h b]; simpl in *. subst rp.
  apply (reads_at_map _ (mkFullOutcomeProof o [] h)). by eapply reads_path.
Qed.
End means.

(** A reader of the whole buffer. *)
Lemma reads_whole {A} (m : R A) bs a :
  reads_at m bs a -> m (mkReader bs 0) = Ok (a, mkReader bs (length bs)).
Proof. intros Hm. specialize (Hm [] []). simpl in Hm. by rewrite !app_nil_r in Hm. Qed.
