(* ===== verification/Instances.v ===== *)
(** * Concrete instances of the third-party interfaces

    A list-based writer, little-endian big integers, a hex codec and readers of
    base58, base64 and decimal numbers.  They satisfy the laws of {!Borsh},
    {!Schemas} and {!Borshify}, so the laws can hold, and the witnesses of the
    theorems evaluate with them. *)

From Stdlib Require Import Ascii Strings.Byte.
From stdpp Require Import base list strings gmap.
From Stdlib Require Import ZArith Lia.
From S2P Require Import Prelude Js Borsh Schemas Borshify.
Local Open Scope Z_scope.

(** ** bn.js *)
#[export] Instance bn_instance : BNLib := {
  bn_of_le := Z_of_le;
  bn_toBuffer_le z n :=
    if decide (0 <= z < byte_width n) then Ok (le_bytes n z)
    else Throw (Error "byte array longer than desired length")
}.
#[export] Instance bn_instance_laws : BNLaws.
Proof.
  split; [done|..]; simpl; intros n z Hz.
  - by rewrite decide_True.
  - rewrite decide_False by lia. eauto.
Qed.

(** ** BinaryWriter *)
Definition list_write_int (n : nat) (v : jsval) (w : list byte) : outcome (list byte) :=
  match js_int v with
  | Some z => bs ← bn_toBuffer_le z n; Ok (w ++ bs)
  | None => Throw (TypeError "not a number")
  end.

#[export] Instance list_writer : BinaryWriter (list byte) := {
  bw_new := [];
  bw_toArray w := w;
  write_u8 := list_write_int 1;
  write_u64 := list_write_int 8;
  write_u128 := list_write_int 16;
  write_string v w :=
    match v with
    | VStr s => w' ← list_write_int 4 (VNum (Z.of_nat (length (utf8 s)))) w; Ok (w' ++ utf8 s)
    | _ => Throw (TypeError "not a string")
    end;
  write_buffer bs w := w ++ bs;
  write_fixed_array v w :=
    match v with VBytes bs => Ok (w ++ bs) | _ => Throw (TypeError "not a buffer") end;
  write_array v fn w :=
    match js_elems v with
    | Some xs => w' ← list_write_int 4 (VNum (Z.of_nat (length xs))) w; fold_writes fn xs w'
    | None => Throw (TypeError "not iterable")
    end
}.

Lemma list_write_int_ok n v z w : js_int v = Some z -> 0 <= z < byte_width n ->
  list_write_int n v w = Ok (w ++ le_bytes n z).
Proof. intros Hv Hz. unfold list_write_int. rewrite Hv. simpl. by rewrite decide_True. Qed.

#[export] Instance list_writer_laws : BinaryWriterLaws (list byte).
Proof.
  split; simpl.
  - done.
  - intros z Hz w. exists (w ++ [byte_of_Z z]). split; [|done].
    by apply (list_write_int_ok 1 (VNum z) z).
  - intros v z Hv Hz w. eexists; split; [by apply list_write_int_ok|done].
  - intros v z Hv Hz w. eexists; split; [by apply list_write_int_ok|done].
  - intros s Hs w. exists ((w ++ le_bytes 4 (Z.of_nat (length (utf8 s)))) ++ utf8 s).
    split; [|by rewrite <- app_assoc].
    rewrite (list_write_int_ok 4 _ (Z.of_nat (length (utf8 s)))) by (done || lia). done.
  - done.
  - intros bs w. by eexists.
  - intros v xs Hv Hlen w. rewrite Hv.
    exists (w ++ le_bytes 4 (Z.of_nat (length xs))). split; [done|]. intros fn.
    by rewrite (list_write_int_ok 4 _ (Z.of_nat (length xs))) by (done || lia).
Qed.

(** ** Hex *)
Definition hex_digit (z : Z) : ascii :=
  ascii_of_nat (Z.to_nat (if z <? 10 then 48 + z else 87 + z)).

Definition hex_value (c : ascii) : option Z :=
  let n := Z.of_nat (nat_of_ascii c) in
  if (48 <=? n) && (n <=? 57) then Some (n - 48)
  else if (97 <=? n) && (n <=? 102) then Some (n - 87)
  else if (65 <=? n) && (n <=? 70) then Some (n - 55)
  else None.

Fixpoint hex_print (bs : list byte) : string :=
  match bs with
  | [] => ""
  | b :: bs => String (hex_digit (Z_of_byte b / 16)) (String (hex_digit (Z_of_byte b mod 16)) (hex_print bs))
  end.

Fixpoint hex_parse (s : string) : option (list byte) :=
  match s with
  | EmptyString => Some []
  | String c (String d s) =>
      match hex_value c, hex_value d, hex_parse s with
      | Some x, Some y, Some bs => Some (byte_of_Z (16 * x + y) :: bs)
      | _, _, _ => None
      end
  | String _ EmptyString => None
  end.

Lemma hex_parse_print bs : hex_parse (hex_print bs) = Some bs.
Proof.
  induction bs as [|b bs IH]; simpl; [done|]. rewrite IH.
  by destruct b; vm_compute.
Qed.

#[export] Instance hex_instance : HexUtils := {
  hexToBytes v :=
    match v with
    | VStr s =>
        match hex_parse (if startsWith "0x" s then substr_from 2 s else s) with
        | Some bs => Ok bs
        | None => Throw (Error "Provided value is not a valid hex string")
        end
    | _ => Throw (Error "Provided value is not a valid hex string")
    end;
  bytesToHex bs := "0x" +:+ hex_print bs
}.
#[export] Instance hex_instance_laws : HexLaws.
Proof.
  split. intros bs. unfold hexToBytes, bytesToHex, hex_instance.
  rewrite startsWith_app. change 2%nat with (String.length "0x").
  by rewrite substr_from_app, hex_parse_print.
Qed.

(** ** Base58, base64 and decimal numbers *)
Fixpoint index_of (c : ascii) (s : string) : option Z :=
  match s with
  | EmptyString => None
  | String d s => if ascii_dec c d then Some 0 else z ← index_of c s; Some (z + 1)
  end.

Definition bs58_alphabet : string := "123456789ABCDEFGHJKLMNPQRSTUVWXYZabcdefghijkmnopqrstuvwxyz".
Definition base64_alphabet : string :=
  "ABCDEFGHIJKLMNOPQRSTUVWXYZabcdefghijklmnopqrstuvwxyz0123456789+/".

Fixpoint digits_of (alphabet s : string) : option (list Z) :=
  match s with
  | EmptyString => Some []
  | String c s => d ← index_of c alphabet; ds ← digits_of alphabet s; Some (d :: ds)
  end.

Definition value_of (base : Z) (ds : list Z) : Z := fold_left (fun acc d => acc * base + d) ds 0.

Fixpoint leading_zeros (ds : list Z) : nat :=
  match ds with 0 :: ds => S (leading_zeros ds) | _ => O end.

(** The number of bytes of a positive integer. *)
Definition byte_length (z : Z) : nat := if z =? 0 then O else Z.to_nat (Z.log2 z / 8 + 1).

Definition bs58_value (ds : list Z) : list byte :=
  let z := value_of 58 ds in
  replicate (leading_zeros ds) x00 ++ rev (le_bytes (byte_length z) z).

Fixpoint base64_groups (ds : list Z) : list byte :=
  match ds with
  | a :: b :: c :: d :: ds =>
      rev (le_bytes 3 (value_of 64 [a; b; c; d])) ++ base64_groups ds
  | [a; b; c] => take 2 (rev (le_bytes 3 (value_of 64 [a; b; c; 0])))
  | [a; b] => take 1 (rev (le_bytes 3 (value_of 64 [a; b; 0; 0])))
  | _ => []
  end.

Fixpoint until_pad (s : string) : string :=
  match s with
  | EmptyString => EmptyString
  | String c s => if ascii_dec c "=" then EmptyString else String c (until_pad s)
  end.

#[export] Instance enc_instance : EncLib := {
  bs58_decode s :=
    match digits_of bs58_alphabet s with
    | Some ds => Ok (bs58_value ds)
    | None => Throw (Error "Non-base58 character")
    end;
  toBN x :=
    match x with
    | JNum z => Ok z
    | JStr s =>
        match digits_of "0123456789" s with
        | Some ds => Ok (value_of 10 ds)
        | None => Throw (Error "Given input is not a valid number")
        end
    end;
  base64_decode s :=
    default [] (base64_groups <$> digits_of base64_alphabet (until_pad s))
}.
#[export] Instance enc_instance_laws : EncLaws.
Proof. by split. Qed.

(** No character outside the alphabet is accepted. *)
Lemma digits_of_reject alphabet c s :
  index_of c alphabet = None -> includes (String c "") s = true -> digits_of alphabet s = None.
Proof.
  intros Hc. induction s as [|d s IH]; [done|].
  change (includes (String c "") (String d s)) with
    (startsWith (String c "") (String d s) || includes (String c "") s).
  intros [Hp|Hs]%orb_true_iff; simpl.
  - apply startsWith_inv in Hp as [t Ht]. simpl in Ht. injection Ht as -> ->. by rewrite Hc.
  - rewrite (IH Hs). by destruct (index_of d alphabet).
Qed.
