(* ===== verification/Samples.v ===== *)
(** * Sample objects

    A light client block with the on-chain record it stands for, as an input of
    the witnesses. *)

From Stdlib Require Import Strings.Byte.
From stdpp Require Import base list strings.
From Stdlib Require Import ZArith Lia.
From S2P Require Import Prelude Js Borsh BorshSpec Borshify NearDecoder BorshifySpec Instances.
Local Open Scope Z_scope.

(** A function to stand for SHA-256. *)
Definition toy_hash (bs : list byte) : list byte := le_bytes 32 (Z_of_le bs).

Definition ones (n : nat) : string := String.concat "" (replicate n "1").
Definition sample_inner_lite : InnerLite :=
  mkInnerLite (JNum 9605) (ones 32) (ones 32) (ones 32) (ones 32)
    (Some (JStr "1593302413887006912")) (JStr "1593302413887006912") (ones 32) (ones 32).
Definition sample_validator : ValidatorView :=
  mkValidatorView "node0.near" ("ed25519:" +:+ ones 32) (JStr "50000000000000000000000000").
Definition sample_block : LightClientBlockView :=
  mkLightClientBlockView (ones 32) (ones 32) sample_inner_lite (ones 32)
    (Some [sample_validator]) [None; Some ("ed25519:" +:+ ones 64)].

Definition sample_inner_lite' : BlockHeaderInnerLite :=
  let l h := mkBlockHeaderInnerLite 9605 zero32 zero32 zero32 zero32 1593302413887006912 zero32 zero32 h in
  l (toy_hash (enc_inner_lite (l []))).
Definition sample_validator' : ValidatorStake :=
  mkValidatorStake (utf8 "node0.near") (mkPublicKey 0 zero32 (0, 0)) 50000000000000000000000000.
Definition sample_block' : LightClientBlock :=
  let hash := header_hash toy_hash (il_hash sample_inner_lite') zero32 zero32 in
  mkLightClientBlock zero32 zero32 sample_inner_lite' zero32
    (mkOptionalValidatorStakes false [sample_validator']
      (toy_hash (enc_vec enc_validator [sample_validator'])))
    [mkOptionalSignature true no_signature;
     mkOptionalSignature false (mkSignature 0 (zero32, zero32) (zero32, zero32, 0))]
    hash (toy_hash (zero32 ++ hash)).

Lemma ones_means : hash_means (ones 32) zero32.
Proof. split; vm_compute; reflexivity. Qed.

Lemma sample_inner_lite_means : inner_lite_means toy_hash sample_inner_lite sample_inner_lite'.
Proof.
  unfold inner_lite_means. repeat split; try apply ones_means; vm_compute; congruence.
Qed.

Lemma sample_validator_means : validator_means sample_validator sample_validator'.
Proof.
  split; [repeat split; vm_compute; reflexivity|].
  split; [|repeat split; vm_compute; congruence].
  exists zero32. split; [|reflexivity]. exists (ones 32). split; [done|apply ones_means].
Qed.

Lemma sample_block_means : block_means toy_hash sample_block sample_block'.
Proof.
  unfold block_means. split; [apply ones_means|]. split; [apply ones_means|].
    split; [apply sample_inner_lite_means|]. split; [apply ones_means|].
    split; [exists [sample_validator], [sample_validator'] |].
    { split; [done|]. split; [done|]. split; [|done].
      apply Forall2_cons_2; [apply sample_validator_means|apply Forall2_nil_2]. }
    split; [done|]. split; [|split; reflexivity].
    apply Forall2_cons_2; [reflexivity|]. apply Forall2_cons_2; [|apply Forall2_nil_2].
    exists zero32, zero32. split; [|done]. exists (ones 64). repeat split.
Qed.
