(* ===== verification/CodecTheorems.v ===== *)
(** * Theorems about the Borsh codec *)

From Stdlib Require Import Strings.Byte.
From stdpp Require Import base list strings gmap.
From Stdlib Require Import ZArith Lia.
From S2P Require Import Prelude Js Borsh BorshSpec BorshTyping Schemas Instances.
Local Open Scope Z_scope.

(** C4: for every schema, every field type and every canonical value of that
    type, [serialize] produces exactly the bytes of the Borsh format and
    [deserialize] of these bytes gives the value back. *)
Theorem borsh_roundtrip {W} `{BinaryWriterLaws W} `{BNLaws}
    (schema : gmap string skind) (n : nat) (ft : ftype) (v : jsval) (bs : list byte) :
  writes schema n ft v bs -> canonical schema n ft v ->
  serialize schema n (Some ft) v = Ok bs /\ deserialize schema n (Some ft) bs = Ok v.
Proof. split; [by apply serialize_writes|by apply deserialize_writes]. Qed.

Definition sample_hash : list byte := replicate 32 x07.
Definition sample_input : jsval :=
  VObj [("block_number", VBN 300); ("expected_block_hash", VStr (bytesToHex sample_hash))].

Lemma borsh_roundtrip_witness :
  writes prover_schema schema_fuel (FName "assertEthbridgeHashInput") sample_input
    (le_bytes 8 300 ++ sample_hash) /\
  canonical prover_schema schema_fuel (FName "assertEthbridgeHashInput") sample_input /\
  serialize prover_schema schema_fuel (Some (FName "assertEthbridgeHashInput")) sample_input
    = Ok (le_bytes 8 300 ++ sample_hash) /\
  deserialize prover_schema schema_fuel (Some (FName "assertEthbridgeHashInput"))
    (le_bytes 8 300 ++ sample_hash) = Ok sample_input.
Proof.
  assert (writes prover_schema schema_fuel (FName "assertEthbridgeHashInput") sample_input
    (le_bytes 8 300 ++ sample_hash)) as Hw.
  { eapply (writes_struct _ _ _ _ _ [le_bytes 8 300; sample_hash]); [reflexivity..|].
    apply Forall2_cons; split; [eexists; split; [reflexivity|]|].
    - exists 300. repeat split; vm_compute; congruence.
    - apply Forall2_cons; split; [eexists; split; [reflexivity|]|apply Forall2_nil_2].
      eapply writes_function; [reflexivity..|]. apply hexToBytes_bytesToHex. }
  assert (canonical prover_schema schema_fuel (FName "assertEthbridgeHashInput") sample_input) as Hc.
  { eapply canonical_struct; [reflexivity..| |].
    - apply (bool_decide_unpack _); vm_compute; exact I.
    - apply Forall2_cons; split; [split; [reflexivity|by eexists]|].
      apply Forall2_cons; split; [split; [reflexivity|]|apply Forall2_nil_2].
      eapply canonical_function; [reflexivity..|]. intros bs Hbs.
      change (hexToBytes (VStr (bytesToHex sample_hash)) = Ok bs) in Hbs.
      rewrite hexToBytes_bytesToHex in Hbs.
      simplify_eq. apply (reads_at_readerToHex sample_hash). }
  destruct (borsh_roundtrip prover_schema schema_fuel _ _ _ Hw Hc). auto.
Defined.

(** The serializer writes the Borsh format for every well-typed value, also
    for the loosely typed ones that the callers pass (numbers for [u64],
    buffers for arrays of [u8], truthy values for [bool], strings). *)
Theorem serialize_refines_format {W} `{BinaryWriterLaws W}
    (schema : gmap string skind) (n : nat) (ft : ftype) (v : jsval) (bs : list byte) :
  writes schema n ft v bs -> serialize schema n (Some ft) v = Ok bs.
Proof. apply serialize_writes. Qed.

Definition sample_init : jsval :=
  VObj [("validate_ethash", VBool true); ("dags_start_epoch", VNum 0);
        ("dags_merkle_roots", VArr [VStr (bytesToHex (replicate 16 x01))]);
        ("first_header", VBytes [xf9; x02]); ("hashes_gc_threshold", VNum 40000);
        ("finalized_gc_threshold", VNum 500); ("num_confirmations", VNum 10);
        ("trusted_signer", VStr "relay.near")].
Definition sample_init_bytes : list byte := Eval vm_compute in
  x01 :: le_bytes 8 0 ++ (le_bytes 4 1 ++ replicate 16 x01) ++ (le_bytes 4 2 ++ [xf9; x02]) ++
  le_bytes 8 40000 ++ le_bytes 8 500 ++ le_bytes 8 10 ++
  x01 :: le_bytes 4 10 ++ utf8 "relay.near".

Lemma serialize_refines_format_witness :
  writes client_schema schema_fuel (FName "initInput") sample_init sample_init_bytes /\
  serialize client_schema schema_fuel (Some (FName "initInput")) sample_init = Ok sample_init_bytes.
Proof.
  assert (writes client_schema schema_fuel (FName "initInput") sample_init sample_init_bytes) as Hw.
  { exists [[x01]; le_bytes 8 0; le_bytes 4 1 ++ replicate 16 x01; le_bytes 4 2 ++ [xf9; x02];
       le_bytes 8 40000; le_bytes 8 500; le_bytes 8 10; x01 :: le_bytes 4 10 ++ utf8 "relay.near"].
    split; [|reflexivity].
    repeat (apply Forall2_cons; split; [eexists; split; [reflexivity|]|]); [..|apply Forall2_nil_2].
    - reflexivity.
    - exists 0; repeat split; vm_compute; congruence.
    - eexists _, [replicate 16 x01]. split; [reflexivity|]. split; [reflexivity|].
      split; [|reflexivity].
      apply Forall2_cons; split; [apply (hexToBytes_bytesToHex (replicate 16 x01))|apply Forall2_nil_2].
    - eexists _, [[xf9]; [x02]]. split; [reflexivity|]. split; [reflexivity|].
      split; [|reflexivity]. repeat constructor; (eexists; repeat split; vm_compute; congruence).
    - exists 40000; repeat split; vm_compute; congruence.
    - exists 500; repeat split; vm_compute; congruence.
    - exists 10; repeat split; vm_compute; congruence.
    - right. split; [done|]. exists (le_bytes 4 10 ++ utf8 "relay.near"). split; [|reflexivity].
      eexists. repeat split. }
  split; [exact Hw|]. exact (serialize_refines_format client_schema schema_fuel _ _ _ Hw).
Defined.

(** On any buffer whatsoever, [deserialize] at a type that the schema
    unfolds within the fuel ends, with a value or an exception; when it
    returns a value the reader has consumed the buffer exactly, from its first
    to its last byte. *)
Theorem deserialize_total_exact `{BNLib} (schema : gmap string skind) (n : nat) (ft : ftype)
    (buffer : list byte) :
  safe_schema schema -> unfolds schema n ft = true ->
  (exists v r, deserialize schema n (Some ft) buffer = Ok v /\
     deserializeField schema n ft (mkReader buffer 0) = Ok (v, r) /\
     r_buf r = buffer /\ r_offset r = length buffer) \/
  (exists e, deserialize schema n (Some ft) buffer = Throw e).
Proof.
  intros Hs Hu. destruct (safe_deserializeField schema n ft Hs Hu) as [Hb Ht].
  unfold deserialize. destruct (Ht (mkReader buffer 0)) as [[[v r] Hr]|[e ->]]; [|by right; eexists].
  destruct (Hb (mkReader buffer 0) v r (Nat.le_0_l _) Hr) as [Hbuf Hoff]. simpl in *.
  rewrite Hr. simpl. case_decide; [by right; eexists|]. left. exists v, r.
  repeat split; [done|lia].
Qed.

Lemma deserialize_total_exact_witness :
  safe_schema client_schema /\ unfolds client_schema schema_fuel (FArr (FName "H256")) = true /\
  ((exists v r, deserialize client_schema schema_fuel (Some (FArr (FName "H256"))) [x01] = Ok v /\
     deserializeField client_schema schema_fuel (FArr (FName "H256")) (mkReader [x01] 0) = Ok (v, r) /\
     r_buf r = [x01] /\ r_offset r = length [x01]) \/
   (exists e, deserialize client_schema schema_fuel (Some (FArr (FName "H256"))) [x01] = Throw e)).
Proof.
  split; [apply client_schema_safe|]. split; [reflexivity|].
  apply (deserialize_total_exact client_schema schema_fuel (FArr (FName "H256")) [x01]).
  - apply client_schema_safe.
  - reflexivity.
Defined.

(** C27: a value that [deserialize] returns has the requested type, whatever the
    bytes were: it is canonical (a [bn.js] number within the width for [u64] and
    [u128], a byte for [u8], a buffer of the right length, an object with
    exactly the fields of the struct), [serialize] accepts it, and its bytes are
    read back to the same value. *)
Theorem deserialize_well_typed {W} `{BinaryWriterLaws W} `{BNLaws}
    (schema : gmap string skind) (n : nat) (ft : ftype) (buffer : list byte) (v : jsval) :
  typed_schema schema -> deserialize schema n (Some ft) buffer = Ok v ->
  canonical schema n ft v /\
  exists bs, writes schema n ft v bs /\ serialize schema n (Some ft) v = Ok bs /\
    deserialize schema n (Some ft) bs = Ok v.
Proof.
  intros Hs. unfold deserialize at 1.
  destruct (deserializeField schema n ft _) as [[x r]|e|z|] eqn:E; simpl; try done.
  case_decide; [done|]. intros [= ->].
  destruct (deserializeField_typed schema n ft Hs _ _ _ E) as [Hc [bs Hw]]. split; [done|].
  exists bs. split_and!; [done|by apply serialize_writes|by apply deserialize_writes].
Qed.

(** A byte 7 is read as [true] and written back as 1. *)
Lemma deserialize_well_typed_witness :
  typed_schema client_schema /\
  deserialize client_schema schema_fuel (Some (FName "bool")) [x07] = Ok (VBool true) /\
  canonical client_schema schema_fuel (FName "bool") (VBool true) /\
  exists bs, writes client_schema schema_fuel (FName "bool") (VBool true) bs /\
    serialize client_schema schema_fuel (Some (FName "bool")) (VBool true) = Ok bs /\
    deserialize client_schema schema_fuel (Some (FName "bool")) bs = Ok (VBool true).
Proof.
  split; [apply client_schema_typed|]. split; [reflexivity|].
  apply (deserialize_well_typed client_schema schema_fuel (FName "bool") [x07]); [apply client_schema_typed|reflexivity].
Defined.

(** Reading a string always throws: [readString] calls the class
    [TextDecoder] without [new], so no buffer can be deserialized at type
    [string], not even one that [serialize] wrote. *)
Theorem deserialize_string_throws `{BNLib} (schema : gmap string skind) (n : nat)
    (buffer : list byte) :
  exists e, deserialize schema (S n) (Some (FName "string")) buffer = Throw e.
Proof.
  unfold deserialize. simpl deserializeField. unfold mbind at 2, R_bind.
  destruct (readString_throws (mkReader buffer 0)) as [e ->]. by exists e.
Qed.
