(* ===== verification/BorshifyTheorems.v ===== *)
(** * Theorems about the NEAR encoders and the on-chain decoders *)

From Stdlib Require Import Strings.Byte.
From stdpp Require Import base list strings.
From Stdlib Require Import ZArith Lia.
From S2P Require Import Prelude Js Borsh BorshSpec Borshify NearDecoder BorshifySpec Instances Samples.
Local Open Scope Z_scope.

(** C21: a NEAR light client block with ED25519 keys encodes without error, and
    the Ethereum contract decodes the bytes to the block with the same heights,
    hashes, validators and approvals, consuming them entirely. *)
Theorem block_roundtrip `{BNLaws} `{EncLaws} (sha256 : list byte -> list byte)
    (b : LightClientBlockView) (l : LightClientBlock) :
  block_means sha256 b l ->
  exists bs, borshify b = Ok bs /\
    decodeLightClientBlock sha256 (mkReader bs 0) = Ok (l, mkReader bs (length bs)) /\
    sol_finished (mkReader bs (length bs)) = true.
Proof.
  intros Hm. exists (enc_block l). split; [by eapply borshify_block_ok|].
  split; [by eapply reads_whole, reads_block|]. apply Nat.eqb_refl.
Qed.

(** The initial validator set encodes without error and the contract
    decodes the same validators, in order, with their stakes. *)
Theorem validators_roundtrip `{BNLaws} `{EncLaws}
    (vs : list ValidatorView) (stakes : list ValidatorStake) :
  fits vs -> Forall2 validator_means vs stakes ->
  exists bs, borshifyInitialValidators vs = Ok bs /\
    decodeInitialValidators (mkReader bs 0) = Ok (stakes, mkReader bs (length bs)).
Proof.
  intros Hf Hv. exists (enc_vec enc_validator stakes). split; [by apply borshify_validators_ok|].
  eapply reads_whole, (reads_vec _ validator_means), Hv; [by eapply reads_validator|done].
Qed.

(** C30: the proof of an outcome without logs encodes without error, and the
    prover contract decodes the bytes to the same outcome, header and Merkle
    paths, consuming them entirely. *)
Theorem outcome_proof_roundtrip `{BNLaws} `{EncLaws} (sha256 : list byte -> list byte)
    (p : FinalProof) (f : FullOutcomeProof) :
  proof_means sha256 p f ->
  exists bs, borshifyOutcomeProof p = Ok bs /\
    decodeFullOutcomeProof sha256 (mkReader bs 0) = Ok (f, mkReader bs (length bs)) /\
    sol_finished (mkReader bs (length bs)) = true.
Proof.
  intros Hm. exists (enc_proof f). split; [by eapply borshify_proof_ok|].
  split; [by eapply reads_whole, reads_proof|]. apply Nat.eqb_refl.
Qed.

Definition with_logs (p : FinalProof) (ls : list string) : FinalProof :=
  let op := outcome_proof p in let o := op_outcome op in
  mkFinalProof
    (mkOutcomeProof (op_proof op) (op_block_hash op) (op_id op)
      (mkOutcome ls (receipt_ids o) (gas_burnt o) (tokens_burnt o) (executor_id o) (status o)))
    (block_header_lite p) (block_proof p).

(** The encoding of an outcome proof holds the number of logs and not the
    logs: two proofs that differ in their logs only, and have as many, encode
    to the same bytes, so the contract cannot recover them. *)
Theorem outcome_logs_not_encoded `{BNLib} `{EncLib} (p : FinalProof) (ls ls' : list string) :
  length ls = length ls' ->
  borshifyOutcomeProof (with_logs p ls) = borshifyOutcomeProof (with_logs p ls').
Proof. intros Hl. unfold borshifyOutcomeProof, len_le. simpl. by rewrite Hl. Qed.

(** Success of a concatenation implies success of every part. *)
Lemma concat_parts_inv parts bs : concat_parts parts = Ok bs ->
  Forall (fun p => exists b, p = Ok b) parts.
Proof.
  unfold concat_parts. destruct (mapM_out id parts) as [bss| | |] eqn:E; try done. intros _.
  apply mapM_out_inv in E. induction E as [|p b parts bss Hp _ IH]; constructor; eauto.
Qed.

Lemma concat_map_inv {A} (f : A -> outcome (list byte)) l bs x : concat_map f l = Ok bs ->
  x ∈ l -> exists b, f x = Ok b.
Proof.
  unfold concat_map. destruct (mapM_out f l) as [bss| | |] eqn:E; try done. intros _ Hx.
  apply mapM_out_inv in E. induction E as [|y b l bss Hy _ IH]; [by apply elem_of_nil in Hx|].
  apply elem_of_cons in Hx as [->|Hx]; eauto.
Qed.

(** No block that lists a validator with a SECP256K1 key is ever encoded:
    the code strips the eight characters of ["ed25519:"] from every key, which
    leaves a colon in front of the base58 data of a ["secp256k1:"] key. *)
Theorem secp256k1_block_rejected `{BNLib} `{EncLib} (b : LightClientBlockView)
    (bps : list ValidatorView) (v : ValidatorView) (k : string) :
  (forall s, includes ":" s = true -> exists e, bs58_decode s = Throw e) ->
  next_bps b = Some bps -> v ∈ bps -> public_key v = "secp256k1:" +:+ k ->
  ~ (exists bs, borshify b = Ok bs).
Proof.
  intros Hcolon Hb Hv Hk [bs Hok%concat_parts_inv]. rewrite Hb in Hok.
  do 6 apply Forall_inv_tail in Hok. apply Forall_inv in Hok as [bs' Hok].
  destruct (concat_map_inv _ _ _ v Hok Hv) as [bv Hbv%concat_parts_inv].
  do 3 apply Forall_inv_tail in Hbv. apply Forall_inv in Hbv as [kd Hkd].
  unfold key_data in Hkd. rewrite Hk in Hkd. simpl in Hkd.
  destruct (Hcolon ("1:" +:+ k)) as [e He]; [by destruct k|]. simpl in He. congruence.
Qed.

(** ** Witnesses *)

Lemma block_roundtrip_witness :
  block_means toy_hash sample_block sample_block' /\
  exists bs, borshify sample_block = Ok bs /\
    decodeLightClientBlock toy_hash (mkReader bs 0) = Ok (sample_block', mkReader bs (length bs)) /\
    sol_finished (mkReader bs (length bs)) = true.
Proof.
  pose proof sample_block_means as Hm.
  split; [exact Hm|]. exact (block_roundtrip toy_hash sample_block sample_block' Hm).
Defined.

Lemma validators_roundtrip_witness :
  fits [sample_validator] /\ Forall2 validator_means [sample_validator] [sample_validator'] /\
  exists bs, borshifyInitialValidators [sample_validator] = Ok bs /\
    decodeInitialValidators (mkReader bs 0) = Ok ([sample_validator'], mkReader bs (length bs)).
Proof.
  assert (Forall2 validator_means [sample_validator] [sample_validator']) as Hv.
  { apply Forall2_cons_2; [apply sample_validator_means|apply Forall2_nil_2]. }
  split; [done|]. split; [exact Hv|].
  exact (validators_roundtrip [sample_validator] [sample_validator'] eq_refl Hv).
Defined.

Definition sample_proof : FinalProof :=
  mkFinalProof
    (mkOutcomeProof [mkMerklePathItem (ones 32) "Right"] (ones 32) (ones 32)
      (mkOutcome [] [ones 32] (JNum 2428000000000) (JStr "242800000000000000000") "token.near"
        (mkExecutionStatus (Some "AQI=") None)))
    (mkBlockHeaderLite (ones 32) (ones 32) sample_inner_lite)
    [mkMerklePathItem (ones 32) "Left"].

Definition sample_proof' : FullOutcomeProof :=
  let eo m := mkExecutionOutcome [] [zero32] 2428000000000 242800000000000000000 (utf8 "token.near")
    (mkSolExecutionStatus 2 false false [x01; x02] zero32) m in
  let eo' := eo [toy_hash (enc_outcome_body (eo []))] in
  mkFullOutcomeProof
    (mkExecutionOutcomeWithIdAndProof [mkMerkleItem zero32 1] zero32
      (mkExecutionOutcomeWithId zero32 eo'
        (toy_hash (le_bytes 4 2 ++ zero32 ++ concat (eo_merkelization_hashes eo')))))
    []
    (mkBlockHeaderLight zero32 zero32 sample_inner_lite'
      (header_hash toy_hash (il_hash sample_inner_lite') zero32 zero32))
    [mkMerkleItem zero32 0].

Lemma path_witness d z : (if String.eqb d "Right" then 1 else 0) = z ->
  path_means [mkMerklePathItem (ones 32) d] [mkMerkleItem zero32 z].
Proof.
  intros <-. split; [done|]. apply Forall2_cons_2; [|apply Forall2_nil_2].
  split; [apply ones_means|reflexivity].
Qed.

Lemma outcome_proof_roundtrip_witness :
  proof_means toy_hash sample_proof sample_proof' /\
  exists bs, borshifyOutcomeProof sample_proof = Ok bs /\
    decodeFullOutcomeProof toy_hash (mkReader bs 0) = Ok (sample_proof', mkReader bs (length bs)) /\
    sol_finished (mkReader bs (length bs)) = true.
Proof.
  assert (proof_means toy_hash sample_proof sample_proof') as Hm.
  { unfold proof_means. split; [|split; [reflexivity|split; [|by apply path_witness]]].
    - unfold outcome_with_id_means. split; [by apply path_witness|].
      split; [apply ones_means|]. split; [apply ones_means|]. split; [|reflexivity].
      unfold outcome_means. split; [done|]. split; [done|]. split; [done|].
      split; [apply Forall2_cons_2; [apply ones_means|apply Forall2_nil_2]|].
      split; [repeat split; vm_compute; congruence|].
      split; [repeat split; vm_compute; congruence|].
      split; [repeat split; vm_compute; congruence|].
      split; [split; vm_compute; reflexivity|reflexivity].
    - split; [apply ones_means|]. split; [apply ones_means|].
      split; [apply sample_inner_lite_means|reflexivity]. }
  split; [exact Hm|]. exact (outcome_proof_roundtrip toy_hash sample_proof sample_proof' Hm).
Defined.

Lemma outcome_logs_not_encoded_witness :
  length ["minted 1"] = length ["minted 9"] /\
  borshifyOutcomeProof (with_logs sample_proof ["minted 1"]) =
  borshifyOutcomeProof (with_logs sample_proof ["minted 9"]).
Proof.
  split; [reflexivity|].
  exact (outcome_logs_not_encoded sample_proof ["minted 1"] ["minted 9"] eq_refl).
Defined.

Definition secp_block : LightClientBlockView :=
  mkLightClientBlockView (ones 32) (ones 32) sample_inner_lite (ones 32)
    (Some [mkValidatorView "node1" ("secp256k1:" +:+ ones 64) (JNum 1)]) [].

Lemma secp256k1_block_rejected_witness :
  next_bps secp_block = Some [mkValidatorView "node1" ("secp256k1:" +:+ ones 64) (JNum 1)] /\
  ~ (exists bs, borshify secp_block = Ok bs).
Proof.
  split; [reflexivity|].
  apply (secp256k1_block_rejected secp_block
    [mkValidatorView "node1" ("secp256k1:" +:+ ones 64) (JNum 1)]
    (mkValidatorView "node1" ("secp256k1:" +:+ ones 64) (JNum 1)) (ones 64)).
  - intros s Hs. simpl. rewrite (fun h => digits_of_reject bs58_alphabet _ s h Hs) by reflexivity. by eexists.
  - reflexivity.
  - by left.
  - reflexivity.
Defined.
