(* ===== verification/NearBridge.v ===== *)
(** * The contract [NearBridge]

    [contracts/eth/nearbridge/contracts/NearBridge.sol]: the NEAR light client
    on Ethereum.  A submitter puts a bond into the contract and submits a block;
    during a challenge period anybody may show that one of the block's
    signatures is invalid, which takes the bond and drops the block; after the
    period the block is final.

    The storage of the contract, the ether it holds and the events it has
    emitted are a [NearBridge]; every function is a definition from the call's
    context and the storage to the next storage, or to a thrown error when it
    reverts, in which case the storage is the one before the call.  A mapping is
    a finite map that answers the zero value for the keys that were never
    written.  [uint256] values are non-negative integers, with the checks of
    [SafeMath] written out; [uint64] addition wraps around.

    Ether is sent with [transfer], whose recipient gets 2300 gas, too little to
    call back into the contract or to write storage: a transfer either succeeds
    or reverts, which the context decides. *)

From Stdlib Require Import Strings.Byte.
From stdpp Require Import base list strings gmap.
From Stdlib Require Import ZArith Lia.
From S2P Require Import Prelude Js Borsh NearDecoder.
Local Open Scope Z_scope.

(** ** The language: reverts and checked arithmetic *)

Definition require (cond : bool) (message : string) : outcome unit :=
  if cond then Ok tt else Throw (Error message).

Definition uint256_limit : Z := 2 ^ 256.

(** [SafeMath] of OpenZeppelin, version 3. *)
Definition safe_add (a b : Z) : outcome Z :=
  if a + b <? uint256_limit then Ok (a + b) else Throw (Error "SafeMath: addition overflow").
Definition safe_sub (a b : Z) : outcome Z :=
  if b <=? a then Ok (a - b) else Throw (Error "SafeMath: subtraction overflow").
Definition safe_mul (a b : Z) : outcome Z :=
  if a * b <? uint256_limit then Ok (a * b) else Throw (Error "SafeMath: multiplication overflow").

(** A mapping read, with the zero value of its type. *)
Definition map_get `{Countable K} {V} (zero : V) (m : gmap K V) (k : K) : V := default zero (m !! k).

(** [abi.encodePacked] of a [uintN]: [n] bytes, the most significant first. *)
Definition be_bytes (n : nat) (z : Z) : list byte := reverse (le_bytes n z).

(** The hash functions, the recovery of an address from a signature and the
    contract [Ed25519] that [NearBridge] calls. *)
Class Crypto := {
  sha256 : list byte -> list byte;
  keccak256 : list byte -> list byte;
  ecrecover : list byte -> Z -> list byte -> list byte -> Z;
  edwards_check : list byte -> list byte -> list byte -> list byte -> list byte -> bool
}.

(** The context of a call: [msg.sender], [msg.value], [block.timestamp], and
    whether an address accepts an amount of ether. *)
Record call_ctx := mkCtx {
  msg_sender : Z;
  msg_value : Z;
  block_timestamp : Z;
  receives : Z -> Z -> bool
}.

(** ** Storage *)

Record BlockProducer := mkBlockProducer { publicKey : PublicKey; stake : Z }.
Definition no_producer : BlockProducer := mkBlockProducer (mkPublicKey 0 zero32 (0, 0)) 0.

Record BlockProducerInfo := mkBlockProducerInfo {
  bpsLength : nat;
  totalStake : Z;
  bps : gmap nat BlockProducer
}.

Record BlockInfo := mkBlockInfo {
  bi_height : Z;
  bi_timestamp : Z;
  bi_epochId : list byte;
  bi_nextEpochId : list byte;
  bi_hash : list byte;
  bi_merkleRoot : list byte;
  bi_next_hash : list byte
}.

Inductive bridge_event :=
| BlockHashAdded (height : Z) (blockHash : list byte)
| BlockHashReverted (height : Z) (blockHash : list byte).

(** What the constructor fixes. *)
Record BridgeConfig := mkBridgeConfig {
  lockEthAmount : Z;
  lockDuration : Z;
  replaceDuration : Z
}.

(** The variables of the contract, in the order of their declarations; [ether] is
    the balance of its address and [events] what it has emitted. *)
Record NearBridge := mkNearBridge {
  cfg : BridgeConfig;
  initialized : bool;
  currentBlockProducers : BlockProducerInfo;
  nextBlockProducers : BlockProducerInfo;
  head : BlockInfo;
  untrustedHead : BlockInfo;
  untrustedApprovalCount : nat;
  untrustedApprovals : gmap nat OptionalSignature;
  untrustedHeadIsFromNextEpoch : bool;
  untrustedNextBlockProducers : BlockProducerInfo;
  lastSubmitter : Z;
  lastValidAt : Z;
  blockHashes_ : gmap Z (list byte);
  blockMerkleRoots_ : gmap Z (list byte);
  balanceOf : gmap Z Z;
  ether : Z;
  events : list bridge_event
}.

Definition set_initialized (v : bool) (s : NearBridge) : NearBridge :=
  mkNearBridge
    (cfg s) v (currentBlockProducers s) (nextBlockProducers s) (head s) (untrustedHead s)
    (untrustedApprovalCount s) (untrustedApprovals s) (untrustedHeadIsFromNextEpoch s)
    (untrustedNextBlockProducers s) (lastSubmitter s) (lastValidAt s) (blockHashes_ s)
    (blockMerkleRoots_ s) (balanceOf s) (ether s) (events s).
Definition set_currentBlockProducers (v : BlockProducerInfo) (s : NearBridge) : NearBridge :=
  mkNearBridge
    (cfg s) (initialized s) v (nextBlockProducers s) (head s) (untrustedHead s)
    (untrustedApprovalCount s) (untrustedApprovals s) (untrustedHeadIsFromNextEpoch s)
    (untrustedNextBlockProducers s) (lastSubmitter s) (lastValidAt s) (blockHashes_ s)
    (blockMerkleRoots_ s) (balanceOf s) (ether s) (events s).
Definition set_nextBlockProducers (v : BlockProducerInfo) (s : NearBridge) : NearBridge :=
  mkNearBridge
    (cfg s) (initialized s) (currentBlockProducers s) v (head s) (untrustedHead s)
    (untrustedApprovalCount s) (untrustedApprovals s) (untrustedHeadIsFromNextEpoch s)
    (untrustedNextBlockProducers s) (lastSubmitter s) (lastValidAt s) (blockHashes_ s)
    (blockMerkleRoots_ s) (balanceOf s) (ether s) (events s).
Definition set_head (v : BlockInfo) (s : NearBridge) : NearBridge :=
  mkNearBridge
    (cfg s) (initialized s) (currentBlockProducers s) (nextBlockProducers s) v
    (untrustedHead s) (untrustedApprovalCount s) (untrustedApprovals s)
    (untrustedHeadIsFromNextEpoch s) (untrustedNextBlockProducers s) (lastSubmitter s)
    (lastValidAt s) (blockHashes_ s) (blockMerkleRoots_ s) (balanceOf s) (ether s) (events
    s).
Definition set_untrustedHead (v : BlockInfo) (s : NearBridge) : NearBridge :=
  mkNearBridge
    (cfg s) (initialized s) (currentBlockProducers s) (nextBlockProducers s) (head s) v
    (untrustedApprovalCount s) (untrustedApprovals s) (untrustedHeadIsFromNextEpoch s)
    (untrustedNextBlockProducers s) (lastSubmitter s) (lastValidAt s) (blockHashes_ s)
    (blockMerkleRoots_ s) (balanceOf s) (ether s) (events s).
Definition set_untrustedApprovalCount (v : nat) (s : NearBridge) : NearBridge :=
  mkNearBridge
    (cfg s) (initialized s) (currentBlockProducers s) (nextBlockProducers s) (head s)
    (untrustedHead s) v (untrustedApprovals s) (untrustedHeadIsFromNextEpoch s)
    (untrustedNextBlockProducers s) (lastSubmitter s) (lastValidAt s) (blockHashes_ s)
    (blockMerkleRoots_ s) (balanceOf s) (ether s) (events s).
Definition set_untrustedApprovals (v : gmap nat OptionalSignature) (s : NearBridge) : NearBridge :=
  mkNearBridge
    (cfg s) (initialized s) (currentBlockProducers s) (nextBlockProducers s) (head s)
    (untrustedHead s) (untrustedApprovalCount s) v (untrustedHeadIsFromNextEpoch s)
    (untrustedNextBlockProducers s) (lastSubmitter s) (lastValidAt s) (blockHashes_ s)
    (blockMerkleRoots_ s) (balanceOf s) (ether s) (events s).
Definition set_untrustedHeadIsFromNextEpoch (v : bool) (s : NearBridge) : NearBridge :=
  mkNearBridge
    (cfg s) (initialized s) (currentBlockProducers s) (nextBlockProducers s) (head s)
    (untrustedHead s) (untrustedApprovalCount s) (untrustedApprovals s) v
    (untrustedNextBlockProducers s) (lastSubmitter s) (lastValidAt s) (blockHashes_ s)
    (blockMerkleRoots_ s) (balanceOf s) (ether s) (events s).
Definition set_untrustedNextBlockProducers (v : BlockProducerInfo) (s : NearBridge) : NearBridge :=
  mkNearBridge
    (cfg s) (initialized s) (currentBlockProducers s) (nextBlockProducers s) (head s)
    (untrustedHead s) (untrustedApprovalCount s) (untrustedApprovals s)
    (untrustedHeadIsFromNextEpoch s) v (lastSubmitter s) (lastValidAt s) (blockHashes_ s)
    (blockMerkleRoots_ s) (balanceOf s) (ether s) (events s).
Definition set_lastSubmitter (v : Z) (s : NearBridge) : NearBridge :=
  mkNearBridge
    (cfg s) (initialized s) (currentBlockProducers s) (nextBlockProducers s) (head s)
    (untrustedHead s) (untrustedApprovalCount s) (untrustedApprovals s)
    (untrustedHeadIsFromNextEpoch s) (untrustedNextBlockProducers s) v (lastValidAt s)
    (blockHashes_ s) (blockMerkleRoots_ s) (balanceOf s) (ether s) (events s).
Definition set_lastValidAt (v : Z) (s : NearBridge) : NearBridge :=
  mkNearBridge
    (cfg s) (initialized s) (currentBlockProducers s) (nextBlockProducers s) (head s)
    (untrustedHead s) (untrustedApprovalCount s) (untrustedApprovals s)
    (untrustedHeadIsFromNextEpoch s) (untrustedNextBlockProducers s) (lastSubmitter s) v
    (blockHashes_ s) (blockMerkleRoots_ s) (balanceOf s) (ether s) (events s).
Definition set_blockHashes_ (v : gmap Z (list byte)) (s : NearBridge) : NearBridge :=
  mkNearBridge
    (cfg s) (initialized s) (currentBlockProducers s) (nextBlockProducers s) (head s)
    (untrustedHead s) (untrustedApprovalCount s) (untrustedApprovals s)
    (untrustedHeadIsFromNextEpoch s) (untrustedNextBlockProducers s) (lastSubmitter s)
    (lastValidAt s) v (blockMerkleRoots_ s) (balanceOf s) (ether s) (events s).
Definition set_blockMerkleRoots_ (v : gmap Z (list byte)) (s : NearBridge) : NearBridge :=
  mkNearBridge
    (cfg s) (initialized s) (currentBlockProducers s) (nextBlockProducers s) (head s)
    (untrustedHead s) (untrustedApprovalCount s) (untrustedApprovals s)
    (untrustedHeadIsFromNextEpoch s) (untrustedNextBlockProducers s) (lastSubmitter s)
    (lastValidAt s) (blockHashes_ s) v (balanceOf s) (ether s) (events s).
Definition set_balanceOf (v : gmap Z Z) (s : NearBridge) : NearBridge :=
  mkNearBridge
    (cfg s) (initialized s) (currentBlockProducers s) (nextBlockProducers s) (head s)
    (untrustedHead s) (untrustedApprovalCount s) (untrustedApprovals s)
    (untrustedHeadIsFromNextEpoch s) (untrustedNextBlockProducers s) (lastSubmitter s)
    (lastValidAt s) (blockHashes_ s) (blockMerkleRoots_ s) v (ether s) (events s).
Definition set_ether (v : Z) (s : NearBridge) : NearBridge :=
  mkNearBridge
    (cfg s) (initialized s) (currentBlockProducers s) (nextBlockProducers s) (head s)
    (untrustedHead s) (untrustedApprovalCount s) (untrustedApprovals s)
    (untrustedHeadIsFromNextEpoch s) (untrustedNextBlockProducers s) (lastSubmitter s)
    (lastValidAt s) (blockHashes_ s) (blockMerkleRoots_ s) (balanceOf s) v (events s).
Definition set_events (v : list bridge_event) (s : NearBridge) : NearBridge :=
  mkNearBridge
    (cfg s) (initialized s) (currentBlockProducers s) (nextBlockProducers s) (head s)
    (untrustedHead s) (untrustedApprovalCount s) (untrustedApprovals s)
    (untrustedHeadIsFromNextEpoch s) (untrustedNextBlockProducers s) (lastSubmitter s)
    (lastValidAt s) (blockHashes_ s) (blockMerkleRoots_ s) (balanceOf s) (ether s) v.

Definition zero_info : BlockProducerInfo := mkBlockProducerInfo 0 0 ∅.
Definition zero_block : BlockInfo := mkBlockInfo 0 0 zero32 zero32 zero32 zero32 zero32.
Definition burner : Z := 0.

(** [constructor]: every other variable has its zero value. *)
Definition construct (lockEthAmount_ lockDuration_ replaceDuration_ : Z) : NearBridge :=
  mkNearBridge (mkBridgeConfig lockEthAmount_ lockDuration_ replaceDuration_)
    false zero_info zero_info zero_block zero_block 0 ∅ false zero_info 0 0 ∅ ∅ ∅ 0 [].

(** [untrustedApprovals[i]] of an index that was never written. *)
Definition zero_approval : OptionalSignature := mkOptionalSignature false no_signature.
Definition balance (s : NearBridge) (a : Z) : Z := map_get 0 (balanceOf s) a.
Definition emit_event (ev : bridge_event) (s : NearBridge) : NearBridge :=
  set_events (events s ++ [ev]) s.

(** [to.transfer(amount)] *)
Definition transfer (c : call_ctx) (to amount : Z) (s : NearBridge) : outcome NearBridge :=
  if (amount <=? ether s) && receives c to amount then Ok (set_ether (ether s - amount) s)
  else Throw (Error "").

Section near_bridge.
Context `{Crypto}.

(** ** Bonds *)

Definition deposit (c : call_ctx) (s : NearBridge) : outcome NearBridge :=
  require ((msg_value c =? lockEthAmount (cfg s)) && (balance s (msg_sender c) =? 0)) "";;
  b ← safe_add (balance s (msg_sender c)) (msg_value c);
  Ok (set_balanceOf (<[msg_sender c := b]> (balanceOf s)) s).

Definition withdraw (c : call_ctx) (s : NearBridge) : outcome NearBridge :=
  require (negb (msg_sender c =? lastSubmitter s) || (lastValidAt s <=? block_timestamp c)) "";;
  b ← safe_sub (balance s (msg_sender c)) (lockEthAmount (cfg s));
  transfer c (msg_sender c) (lockEthAmount (cfg s))
    (set_balanceOf (<[msg_sender c := b]> (balanceOf s)) s).

(** ** Signatures *)

Definition _reversedUint64 (data : Z) : Z :=
  let r := data in
  let r := Z.lor (Z.shiftl (Z.land r 0x00000000FFFFFFFF) 32) (Z.shiftr (Z.land r 0xFFFFFFFF00000000) 32) in
  let r := Z.lor (Z.shiftl (Z.land r 0x0000FFFF0000FFFF) 16) (Z.shiftr (Z.land r 0xFFFF0000FFFF0000) 16) in
  Z.lor (Z.shiftl (Z.land r 0x00FF00FF00FF00FF) 8) (Z.shiftr (Z.land r 0xFF00FF00FF00FF00) 8).

(** [abi.encodePacked(uint8(0), next_block_hash, _reversedUint64(height + 2),
    bytes23(0))], where [height + 2] wraps around. *)
Definition approval_message (height : Z) (next_block_hash : list byte) : list byte :=
  be_bytes 1 0 ++ next_block_hash ++ be_bytes 8 (_reversedUint64 ((height + 2) mod 2 ^ 64))
  ++ replicate 23 x00.

(** [address(uint256(h))]: the last 20 bytes of a hash. *)
Definition address_of_hash (h : list byte) : Z := Z_of_le (reverse h) mod 2 ^ 160.

Definition _checkValidatorSignature (height : Z) (next_block_hash : list byte)
    (signature : Signature) (publicKey : PublicKey) : bool :=
  let message := approval_message height next_block_hash in
  if sig_enumIndex signature =? 0 then
    let arg1 := take 32 message in
    let arg2 := take 9 (drop 32 message) in
    negb (bool_decide (pk_ed25519 publicKey = zero32)) &&
    edwards_check (pk_ed25519 publicKey) (sig_ed25519 signature).1 (sig_ed25519 signature).2 arg1 arg2
  else
    let '(r, s, v) := sig_secp256k1 signature in
    ecrecover (keccak256 message) ((v + (if v <? 27 then 27 else 0)) mod 2 ^ 8) r s =?
    address_of_hash (keccak256 (be_bytes 32 (pk_secp256k1 publicKey).1
                                ++ be_bytes 32 (pk_secp256k1 publicKey).2)).

(** The producers who sign blocks of the epoch of [untrustedHead]. *)
Definition untrustedBlockProducers (s : NearBridge) : BlockProducerInfo :=
  if untrustedHeadIsFromNextEpoch s then nextBlockProducers s else currentBlockProducers s.

Definition checkBlockProducerSignatureInHead (signatureIndex : nat) (s : NearBridge) : outcome bool :=
  let ubp := untrustedBlockProducers s in
  require (signatureIndex <? bpsLength ubp)%nat "Signature index out of range";;
  let approval := map_get zero_approval (untrustedApprovals s) signatureIndex in
  require (negb (os_none approval)) "This signature was skipped";;
  Ok (_checkValidatorSignature (bi_height (untrustedHead s)) (bi_next_hash (untrustedHead s))
        (os_signature approval) (publicKey (map_get no_producer (bps ubp) signatureIndex))).

(** ** Challenges *)

Definition _payRewardAndRollBack (c : call_ctx) (receiver : Z) (s : NearBridge) : outcome NearBridge :=
  let lock := lockEthAmount (cfg s) in
  b ← safe_sub (balance s (lastSubmitter s)) lock;
  let s := set_balanceOf (<[lastSubmitter s := b]> (balanceOf s)) s in
  s ← transfer c receiver (lock / 2) s;
  s ← transfer c burner (lock - lock / 2) s;
  let s := emit_event (BlockHashReverted (bi_height (untrustedHead s)) (bi_hash (untrustedHead s))) s in
  Ok (set_lastValidAt 0 s).

Definition challenge (c : call_ctx) (receiver : Z) (signatureIndex : nat) (s : NearBridge)
    : outcome NearBridge :=
  require (block_timestamp c <? lastValidAt s) "No block can be challenged at this time";;
  valid ← checkBlockProducerSignatureInHead signatureIndex s;
  require (negb valid) "Can't challenge valid signature";;
  _payRewardAndRollBack c receiver s.

(** ** Blocks and block producers *)

(** [setBlock(src, dest)]: the stored block and the event. *)
Definition block_info (src : LightClientBlock) : BlockInfo :=
  let il := lc_inner_lite src in
  mkBlockInfo (il_height il) (il_timestamp il) (il_epoch_id il) (il_next_epoch_id il)
    (lc_hash src) (il_block_merkle_root il) (lc_next_hash src).
Definition added_event (src : LightClientBlock) : bridge_event :=
  BlockHashAdded (il_height (lc_inner_lite src)) (lc_hash src).

(** [setBlockProducers(src, dest)]; entries of [dest] past the end of [src]
    keep their values. *)
Fixpoint setBlockProducers_loop (src : list ValidatorStake) (i : nat) (total : Z)
    (dest : gmap nat BlockProducer) : outcome (Z * gmap nat BlockProducer) :=
  match src with
  | [] => Ok (total, dest)
  | v :: src =>
      let dest := <[i := mkBlockProducer (vs_public_key v) (vs_stake v)]> dest in
      total ← safe_add total (vs_stake v);
      setBlockProducers_loop src (S i) total dest
  end.
Definition setBlockProducers (src : list ValidatorStake) (dest : BlockProducerInfo)
    : outcome BlockProducerInfo :=
  p ← setBlockProducers_loop src 0 0 (bps dest);
  Ok (mkBlockProducerInfo (length src) p.1 p.2).

Fixpoint copy_loop (src : gmap nat BlockProducer) (n i : nat) (dest : gmap nat BlockProducer)
    : gmap nat BlockProducer :=
  match n with
  | O => dest
  | S n => copy_loop src n (S i) (<[i := map_get no_producer src i]> dest)
  end.
Definition copyBlockProducers (src dest : BlockProducerInfo) : BlockProducerInfo :=
  mkBlockProducerInfo (bpsLength src) (totalStake src) (copy_loop (bps src) (bpsLength src) 0 (bps dest)).

(** ** Initialization *)

(** [Borsh.from(data)], a decoder, and the check that nothing is left over. *)
Definition decode_all {A} (decoder : R A) (data : list byte) (leftover : string) : outcome A :=
  '(a, borsh) ← decoder (mkReader data 0);
  require (sol_finished borsh) leftover;;
  Ok a.

Definition initWithValidators (initialValidators_ : list byte) (s : NearBridge) : outcome NearBridge :=
  require (negb (initialized s)) "NearBridge: already initialized";;
  initialValidators ← decode_all decodeInitialValidators initialValidators_
    "NearBridge: only initial validators should be passed as second argument";
  info ← setBlockProducers initialValidators (currentBlockProducers s);
  Ok (set_currentBlockProducers info s).

(** [blockHashes_[head.height] = head.hash; blockMerkleRoots_[head.height] = head.merkleRoot] *)
Definition publish_head (s : NearBridge) : NearBridge :=
  let h := bi_height (head s) in
  set_blockMerkleRoots_ (<[h := bi_merkleRoot (head s)]> (blockMerkleRoots_ s))
    (set_blockHashes_ (<[h := bi_hash (head s)]> (blockHashes_ s)) s).

Definition initWithBlock (data : list byte) (s : NearBridge) : outcome NearBridge :=
  require (0 <? totalStake (currentBlockProducers s)) "NearBridge: validators need to be initialized first";;
  require (negb (initialized s)) "NearBridge: already initialized";;
  let s := set_initialized true s in
  nearBlock ← decode_all (decodeLightClientBlock sha256) data
    "NearBridge: only light client block should be passed as first argument";
  require (negb (ovs_none (lc_next_bps nearBlock)))
    "NearBridge: Initialization block should contain next_bps.";;
  let s := emit_event (added_event nearBlock) (set_head (block_info nearBlock) s) in
  info ← setBlockProducers (ovs_validatorStakes (lc_next_bps nearBlock)) (nextBlockProducers s);
  Ok (publish_head (set_nextBlockProducers info s)).

(** ** Submission *)

(** The loop of [_checkBp]; [approvals[i]] past the end reverts, which the check
    before the loop excludes. *)
Fixpoint voted_loop (approvals : list OptionalSignature) (producers : gmap nat BlockProducer)
    (n i : nat) (votedFor : Z) : outcome Z :=
  match n with
  | O => Ok votedFor
  | S n =>
      match approvals !! i with
      | None => Throw (Error "invalid opcode")
      | Some a =>
          votedFor ← (if os_none a then Ok votedFor
                      else safe_add votedFor (stake (map_get no_producer producers i)));
          voted_loop approvals producers n (S i) votedFor
      end
  end.

Definition _checkBp (nearBlock : LightClientBlock) (bpInfo : BlockProducerInfo) : outcome unit :=
  require (bpsLength bpInfo <=? length (lc_approvals_after_next nearBlock))%nat
    "NearBridge: number of approvals should be at least as large as number of BPs";;
  votedFor ← voted_loop (lc_approvals_after_next nearBlock) (bps bpInfo) (bpsLength bpInfo) 0 0;
  double ← safe_mul (totalStake bpInfo) 2;
  require (double / 3 <? votedFor) "NearBridge: Less than 2/3 voted by the block after next".

Definition commitBlock (c : call_ctx) (s : NearBridge) : outcome NearBridge :=
  require (negb (lastValidAt s =? 0) && (lastValidAt s <=? block_timestamp c)) "Nothing to commit";;
  let s := set_head (untrustedHead s) s in
  let s :=
    if untrustedHeadIsFromNextEpoch s then
      let s := set_currentBlockProducers
                 (copyBlockProducers (nextBlockProducers s) (currentBlockProducers s)) s in
      set_nextBlockProducers
        (copyBlockProducers (untrustedNextBlockProducers s) (nextBlockProducers s)) s
    else s in
  Ok (publish_head (set_lastValidAt 0 s)).

Fixpoint store_approvals (l : list OptionalSignature) (i : nat) (m : gmap nat OptionalSignature)
    : gmap nat OptionalSignature :=
  match l with
  | [] => m
  | a :: l => store_approvals l (S i) (<[i := a]> m)
  end.

(** The epoch of the new block: [false] for the current one, [true] for the next. *)
Definition block_epoch (nearBlock : LightClientBlock) (head : BlockInfo) : outcome bool :=
  if bool_decide (il_epoch_id (lc_inner_lite nearBlock) = bi_epochId head) then Ok false
  else if bool_decide (il_epoch_id (lc_inner_lite nearBlock) = bi_nextEpochId head) then Ok true
  else Throw (Error "NearBridge: Epoch id of the block is not valid").

(** Commit the previous block, or make sure that it may be replaced. *)
Definition commit_or_replace (c : call_ctx) (nearBlock : LightClientBlock) (s : NearBridge)
    : outcome NearBridge :=
  if lastValidAt s <=? block_timestamp c then
    if negb (lastValidAt s =? 0) then commitBlock c s else Ok s
  else
    limit ← safe_add (bi_timestamp (untrustedHead s)) (replaceDuration (cfg s));
    require (limit <=? il_timestamp (lc_inner_lite nearBlock))
      "NearBridge: can only replace with a sufficiently newer block";;
    Ok s.

(** The checks on a block from the next epoch. *)
Definition check_next_bps (nearBlock : LightClientBlock) : outcome unit :=
  require (negb (ovs_none (lc_next_bps nearBlock))) "NearBridge: Next next_bps should not be None";;
  require (bool_decide (ovs_hash (lc_next_bps nearBlock) = il_next_bp_hash (lc_inner_lite nearBlock)))
    "NearBridge: Hash of block producers does not match".

Definition addLightClientBlock (c : call_ctx) (data : list byte) (s : NearBridge) : outcome NearBridge :=
  require (initialized s) "NearBridge: Contract is not initialized.";;
  require (lockEthAmount (cfg s) <=? balance s (msg_sender c)) "Balance is not enough";;
  nearBlock ← decode_all (decodeLightClientBlock sha256) data
    "NearBridge: only light client block should be passed";
  s ← commit_or_replace c nearBlock s;
  require (bi_height (head s) <? il_height (lc_inner_lite nearBlock))
    "NearBridge: Height of the block is not valid";;
  fromNextEpoch ← block_epoch nearBlock (head s);
  _checkBp nearBlock (if fromNextEpoch then nextBlockProducers s else currentBlockProducers s);;
  (if fromNextEpoch then check_next_bps nearBlock else Ok tt);;
  let approvals := lc_approvals_after_next nearBlock in
  let s := emit_event (added_event nearBlock) (set_untrustedHead (block_info nearBlock) s) in
  let s := set_untrustedApprovalCount (length approvals) s in
  let s := set_untrustedApprovals (store_approvals approvals 0 (untrustedApprovals s)) s in
  let s := set_untrustedHeadIsFromNextEpoch fromNextEpoch s in
  s ← (if fromNextEpoch then
         info ← setBlockProducers (ovs_validatorStakes (lc_next_bps nearBlock))
                  (untrustedNextBlockProducers s);
         Ok (set_untrustedNextBlockProducers info s)
       else Ok s);
  let s := set_lastSubmitter (msg_sender c) s in
  validAt ← safe_add (block_timestamp c) (lockDuration (cfg s));
  Ok (set_lastValidAt validAt s).

(** ** Views *)

Record BridgeState := mkBridgeState {
  bs_currentHeight : Z;
  bs_nextTimestamp : Z;
  bs_nextValidAt : Z;
  bs_numBlockProducers : nat
}.

Definition bridgeState (now : Z) (s : NearBridge) : BridgeState :=
  if now <? lastValidAt s then
    mkBridgeState (bi_height (head s)) (bi_timestamp (untrustedHead s)) (lastValidAt s)
      (bpsLength (untrustedBlockProducers s))
  else
    mkBridgeState (bi_height (if lastValidAt s =? 0 then head s else untrustedHead s)) 0 0 0.

Definition view_of (stored : gmap Z (list byte)) (pending : list byte) (now height : Z)
    (s : NearBridge) : list byte :=
  let res := map_get zero32 stored height in
  if bool_decide (res = zero32) && (lastValidAt s <=? now) && negb (lastValidAt s =? 0)
     && (height =? bi_height (untrustedHead s))
  then pending else res.

Definition blockHashes (now height : Z) (s : NearBridge) : list byte :=
  view_of (blockHashes_ s) (bi_hash (untrustedHead s)) now height s.
Definition blockMerkleRoots (now height : Z) (s : NearBridge) : list byte :=
  view_of (blockMerkleRoots_ s) (bi_merkleRoot (untrustedHead s)) now height s.

(** ** Calls *)

Inductive bridge_call :=
| CallDeposit
| CallWithdraw
| CallChallenge (receiver : Z) (signatureIndex : nat)
| CallInitWithValidators (initialValidators : list byte)
| CallInitWithBlock (data : list byte)
| CallAddLightClientBlock (data : list byte).

(** A function that is not [payable] reverts when ether is sent with the call;
    the ether of a payable call belongs to the contract when its body runs. *)
Definition bridge_exec (c : call_ctx) (f : bridge_call) (s : NearBridge) : outcome NearBridge :=
  match f with
  | CallDeposit => deposit c (set_ether (ether s + msg_value c) s)
  | _ =>
      require (msg_value c =? 0) "";;
      match f with
      | CallDeposit => deposit c s
      | CallWithdraw => withdraw c s
      | CallChallenge receiver i => challenge c receiver i s
      | CallInitWithValidators data => initWithValidators data s
      | CallInitWithBlock data => initWithBlock data s
      | CallAddLightClientBlock data => addLightClientBlock c data s
      end
  end.
End near_bridge.
