(* ===== verification/NearBridgeSpec.v ===== *)
(** * Lemmas about the contract [NearBridge]

    What an accepted call does, operation by operation, the accounting of the
    bonds, and the invariant of the states the contract can reach. *)

From Stdlib Require Import Strings.Byte.
From stdpp Require Import base list strings gmap.
From Stdlib Require Import ZArith Lia.
From S2P Require Import Prelude Js Borsh NearDecoder NearBridge.
Local Open Scope Z_scope.

(** ** Inversion of accepted calls *)

Lemma require_ok b m u : require b m = Ok u -> b = true.
Proof. by destruct b. Qed.
Lemma safe_add_ok a b z : safe_add a b = Ok z -> z = a + b /\ a + b < uint256_limit.
Proof. unfold safe_add. destruct (Z.ltb_spec (a + b) uint256_limit); [|done]. by intros [= <-]. Qed.
Lemma safe_sub_ok a b z : safe_sub a b = Ok z -> z = a - b /\ b <= a.
Proof. unfold safe_sub. destruct (Z.leb_spec b a); [|done]. by intros [= <-]. Qed.
Lemma safe_mul_ok a b z : safe_mul a b = Ok z -> z = a * b.
Proof. unfold safe_mul. destruct (a * b <? uint256_limit); [|done]. by intros [= <-]. Qed.
Lemma safe_sub_run a b : b <= a -> safe_sub a b = Ok (a - b).
Proof. intros Hle. unfold safe_sub. by rewrite (proj2 (Z.leb_le _ _) Hle). Qed.
Lemma transfer_ok c to amount s s' : transfer c to amount s = Ok s' ->
  s' = set_ether (ether s - amount) s /\ amount <= ether s /\ receives c to amount = true.
Proof.
  unfold transfer. destruct (_ && _) eqn:E; [|done]. intros [= <-].
  apply andb_true_iff in E as [?%Z.leb_le ?]. done.
Qed.
Lemma transfer_run c to amount s : amount <= ether s -> receives c to amount = true ->
  transfer c to amount s = Ok (set_ether (ether s - amount) s).
Proof. intros Hle Hr. unfold transfer. by rewrite (proj2 (Z.leb_le _ _) Hle), Hr. Qed.

(** [sol_inv H]: take apart an accepted call [H : e = Ok s']. *)
Ltac sol_step H :=
  let a := fresh "a" in let E := fresh "E" in
  apply obind_ok in H as (a & E & H); cbn beta in H;
  first
    [ apply require_ok in E; clear a
    | apply safe_add_ok in E as [-> E]
    | apply safe_sub_ok in E as [-> E]
    | apply safe_mul_ok in E as ->
    | apply transfer_ok in E as (-> & E & ?)
    | idtac ].
Ltac sol_inv H := repeat sol_step H.

(** ** Balances *)

Definition sum_balances (m : gmap Z Z) : Z := map_fold (fun _ v acc => v + acc) 0 m.

Lemma sum_balances_insert m a v :
  sum_balances (<[a := v]> m) = sum_balances m - map_get 0 m a + v.
Proof.
  unfold sum_balances, map_get. rewrite <- insert_delete_eq.
  rewrite (map_fold_insert_L _ _ a v) by (intros; lia || apply lookup_delete_eq).
  destruct (m !! a) as [w|] eqn:E; simpl.
  - rewrite (map_fold_delete_L _ _ a w m) by (intros; lia || done). lia.
  - rewrite delete_id by done. lia.
Qed.

Lemma sum_balances_nonneg m : map_Forall (fun _ v => 0 <= v) m -> 0 <= sum_balances m.
Proof.
  unfold sum_balances. induction m as [|i x m Hi Hf IH] using map_first_key_ind; intros Hm.
  - by rewrite map_fold_empty.
  - rewrite map_fold_insert_L by (intros; lia || done).
    apply map_Forall_insert in Hm as [? ?]; [|done]. specialize (IH ltac:(done)). lia.
Qed.

Lemma balance_le_sum m a : map_Forall (fun _ v => 0 <= v) m -> map_get 0 m a <= sum_balances m.
Proof.
  intros Hm. assert (0 <= sum_balances (<[a := 0]> m)).
  { apply sum_balances_nonneg, map_Forall_insert_2; [lia|done]. }
  rewrite sum_balances_insert in *. lia.
Qed.

Lemma map_get_insert `{Countable K} {V} (z : V) m (k : K) v : map_get z (<[k := v]> m) k = v.
Proof. unfold map_get. by rewrite lookup_insert_eq. Qed.
Lemma map_get_insert_ne `{Countable K} {V} (z : V) m (k k' : K) v :
  k <> k' -> map_get z (<[k := v]> m) k' = map_get z m k'.
Proof. intros. unfold map_get. by rewrite lookup_insert_ne. Qed.
Lemma map_get_some `{Countable K} {V} (z : V) m (k : K) v :
  map_get z m k = v -> v <> z -> m !! k = Some v.
Proof. unfold map_get. by destruct (m !! k); simpl; intros <-. Qed.

(** ** The accounting invariant *)

(** Every balance is zero or one bond, the contract holds the ether of all
    balances, and while a block may be challenged its submitter has a bond. *)
Record accounts (now : Z) (s : NearBridge) : Prop := {
  acc_lock : 0 <= lockEthAmount (cfg s);
  acc_values : map_Forall (fun _ v => v = 0 \/ v = lockEthAmount (cfg s)) (balanceOf s);
  acc_solvent : sum_balances (balanceOf s) <= ether s;
  acc_bond : now < lastValidAt s -> balance s (lastSubmitter s) = lockEthAmount (cfg s)
}.

Lemma accounts_later now now' s : now <= now' -> accounts now s -> accounts now' s.
Proof. intros Hle [Hl Hv Hs Hb]. split; try done. intros. apply Hb. lia. Qed.

Lemma acc_nonneg now s : accounts now s -> map_Forall (fun _ v => 0 <= v) (balanceOf s).
Proof. intros [Hl Hv _ _]. eapply map_Forall_impl; [exact Hv|]. intros a v [-> | ->]; lia. Qed.

Lemma acc_balance now s a : accounts now s -> balance s a = 0 \/ balance s a = lockEthAmount (cfg s).
Proof.
  intros [_ Hv _ _]. unfold balance, map_get. destruct (balanceOf s !! a) as [v|] eqn:E; [|by left].
  exact (Hv a v E).
Qed.

(** Nothing but the chain of blocks changes. *)
Definition same_accounts (s s' : NearBridge) : Prop :=
  cfg s' = cfg s /\ balanceOf s' = balanceOf s /\ ether s' = ether s.

Lemma accounts_same now s s' : same_accounts s s' ->
  (now < lastValidAt s' -> balance s (lastSubmitter s') = lockEthAmount (cfg s)) ->
  accounts now s -> accounts now s'.
Proof.
  intros (Hc & Hb & He) Hbond [Hl Hv Hs _].
  split; unfold balance in *; rewrite ?Hc, ?Hb, ?He; done.
Qed.

Section spec.
Context `{Crypto}.

Lemma commitBlock_ok c s s' : commitBlock c s = Ok s' ->
  (lastValidAt s <> 0 /\ lastValidAt s <= block_timestamp c) /\
  same_accounts s s' /\ lastValidAt s' = 0 /\ head s' = untrustedHead s /\
  initialized s' = initialized s /\
  blockHashes_ s' = <[bi_height (untrustedHead s) := bi_hash (untrustedHead s)]> (blockHashes_ s) /\
  blockMerkleRoots_ s' =
    <[bi_height (untrustedHead s) := bi_merkleRoot (untrustedHead s)]> (blockMerkleRoots_ s).
Proof.
  unfold commitBlock. intros Hrun. sol_step Hrun. apply andb_true_iff in E as [Hne Hle].
  apply negb_true_iff, Z.eqb_neq in Hne. apply Z.leb_le in Hle. injection Hrun as <-.
  split; [done|]. cbn. destruct (untrustedHeadIsFromNextEpoch s); by split_and!.
Qed.

(** The storage after the checks of a submission. *)
Definition submission (c : call_ctx) (b : LightClientBlock) (fromNext : bool)
    (info : BlockProducerInfo) (s : NearBridge) : NearBridge :=
  mkNearBridge (cfg s) (initialized s) (currentBlockProducers s) (nextBlockProducers s) (head s)
    (block_info b) (length (lc_approvals_after_next b))
    (store_approvals (lc_approvals_after_next b) 0 (untrustedApprovals s)) fromNext info
    (msg_sender c) (block_timestamp c + lockDuration (cfg s))
    (blockHashes_ s) (blockMerkleRoots_ s) (balanceOf s) (ether s) (events s ++ [added_event b]).

Definition producers_of (fromNext : bool) (s : NearBridge) : BlockProducerInfo :=
  if fromNext then nextBlockProducers s else currentBlockProducers s.

Record added (c : call_ctx) (data : list byte) (s s' : NearBridge) (b : LightClientBlock)
    (fromNext : bool) (s1 : NearBridge) : Prop := {
  add_initialized : initialized s = true;
  add_bond : lockEthAmount (cfg s) <= balance s (msg_sender c);
  add_decoded : decode_all (decodeLightClientBlock sha256) data
                  "NearBridge: only light client block should be passed" = Ok b;
  add_settled : commit_or_replace c b s = Ok s1;
  add_height : bi_height (head s1) < il_height (lc_inner_lite b);
  add_epoch : block_epoch b (head s1) = Ok fromNext;
  add_quorum : _checkBp b (producers_of fromNext s1) = Ok tt;
  add_next_bps : fromNext = true -> check_next_bps b = Ok tt;
  add_deadline : block_timestamp c + lockDuration (cfg s1) < uint256_limit;
  add_result : exists info,
    (if fromNext then setBlockProducers (ovs_validatorStakes (lc_next_bps b)) (untrustedNextBlockProducers s1)
     else Ok (untrustedNextBlockProducers s1)) = Ok info /\
    s' = submission c b fromNext info s1
}.

Lemma addLightClientBlock_ok c data s s' : addLightClientBlock c data s = Ok s' ->
  exists b fromNext s1, added c data s s' b fromNext s1.
Proof.
  unfold addLightClientBlock. intros Hrun.
  sol_step Hrun. sol_step Hrun. sol_step Hrun. rename a into b, E1 into Hdec.
  sol_step Hrun. rename a into s1, E1 into Hset. sol_step Hrun. sol_step Hrun. rename a into fn.
  apply obind_ok in Hrun as ([] & Hbp & Hrun). apply obind_ok in Hrun as ([] & Hnext & Hrun).
  cbn zeta in Hrun. apply obind_ok in Hrun as (s2 & Hs2 & Hrun). sol_step Hrun. injection Hrun as <-.
  apply Z.ltb_lt in E1. apply Z.leb_le in E0.
  exists b, fn, s1. destruct fn.
  - apply obind_ok in Hs2 as (info & Hinfo & Hs2). injection Hs2 as <-.
    split; try done. exists info. by split.
  - injection Hs2 as <-. split; try done. exists (untrustedNextBlockProducers s1). by split.
Qed.

Lemma addLightClientBlock_run c data s b fromNext s1 s' :
  added c data s s' b fromNext s1 -> addLightClientBlock c data s = Ok s'.
Proof.
  intros [Hi Hb Hd Hs Hh He Hq Hn Hdl (info & Hinfo & ->)]. unfold addLightClientBlock.
  rewrite Hi. cbn [require mbind outcome_bind]. rewrite (proj2 (Z.leb_le _ _) Hb). cbn [require mbind outcome_bind].
  rewrite Hd. cbn [mbind outcome_bind]. rewrite Hs. cbn [mbind outcome_bind].
  rewrite (proj2 (Z.ltb_lt _ _) Hh). cbn [require mbind outcome_bind].
  rewrite He. cbn [mbind outcome_bind]. unfold producers_of in Hq. rewrite Hq. cbn [mbind outcome_bind].
  unfold safe_add. destruct fromNext.
  - rewrite (Hn eq_refl). cbn. rewrite Hinfo. cbn. by rewrite (proj2 (Z.ltb_lt _ _) Hdl).
  - injection Hinfo as <-. cbn. by rewrite (proj2 (Z.ltb_lt _ _) Hdl).
Qed.

Lemma commit_or_replace_ok c b s s1 : commit_or_replace c b s = Ok s1 ->
  (lastValidAt s <= block_timestamp c /\ lastValidAt s <> 0 /\ commitBlock c s = Ok s1) \/
  (s1 = s /\ (lastValidAt s = 0 \/
     block_timestamp c < lastValidAt s /\
     bi_timestamp (untrustedHead s) + replaceDuration (cfg s) <= il_timestamp (lc_inner_lite b))).
Proof.
  unfold commit_or_replace. destruct (Z.leb_spec (lastValidAt s) (block_timestamp c)).
  - destruct (Z.eqb_spec (lastValidAt s) 0); simpl; [|by left]. intros [= <-]. auto.
  - intros Hrun. sol_step Hrun. sol_step Hrun. injection Hrun as <-. apply Z.leb_le in E0. auto.
Qed.

Lemma commit_or_replace_same c b s s1 : commit_or_replace c b s = Ok s1 -> same_accounts s s1.
Proof.
  intros [(_ & _ & Hc)|[-> _]]%commit_or_replace_ok; [|done]. by apply commitBlock_ok in Hc as (_ & ? & _).
Qed.
End spec.
