(* ===== verification/NearBridgeInv.v ===== *)
(** * The reachable states of the contract [NearBridge]

    The contract on its chain is a step relation: a call is accepted at a time
    not before the last one, time passes (a reverted call does nothing else), or
    ether arrives without a call.  The invariants are proved by induction on
    the steps. *)

From Stdlib Require Import Strings.Byte.
From stdpp Require Import base list strings gmap relations.
From Stdlib Require Import ZArith Lia.
From S2P Require Import Prelude Js Borsh NearDecoder NearBridge NearBridgeSpec.
Local Open Scope Z_scope.

(** The contract, the time of the last block and the calls accepted so far. *)
Record chain := mkChain {
  ch_bridge : NearBridge;
  ch_now : Z;
  ch_past : list (call_ctx * bridge_call)
}.

Section chain.
Context `{Crypto}.

Inductive chain_step : chain -> chain -> Prop :=
| step_call s s' now past c f :
    now <= block_timestamp c -> 0 <= msg_value c < uint256_limit ->
    bridge_exec c f s = Ok s' ->
    chain_step (mkChain s now past) (mkChain s' (block_timestamp c) (past ++ [(c, f)]))
| step_wait s now now' past :
    now <= now' -> chain_step (mkChain s now past) (mkChain s now' past)
| step_ether s now past amount :
    0 <= amount ->
    chain_step (mkChain s now past) (mkChain (set_ether (ether s + amount) s) now past).

(** ** The accounting invariant is kept *)

Lemma deposit_accounts c s s' : deposit c s = Ok s' -> 0 <= msg_value c ->
  accounts (block_timestamp c) (set_ether (ether s - msg_value c) s) -> accounts (block_timestamp c) s'.
Proof.
  unfold deposit. intros Hrun Hv [Hl Hval Hsol Hbond]. cbn in *.
  sol_step Hrun. apply andb_true_iff in E as [Heq Hz]. apply Z.eqb_eq in Heq, Hz.
  sol_step Hrun. injection Hrun as <-. rewrite Hz in *. split; cbn; [done| | |].
  - apply map_Forall_insert_2; [lia|done].
  - rewrite sum_balances_insert. unfold balance in Hz. lia.
  - intros Hlt. specialize (Hbond Hlt). unfold balance in *. cbn in *.
    destruct (decide (msg_sender c = lastSubmitter s)) as [<-|Hne].
    + rewrite map_get_insert. lia.
    + by rewrite map_get_insert_ne.
Qed.

Lemma withdraw_accounts c s s' : withdraw c s = Ok s' ->
  accounts (block_timestamp c) s -> accounts (block_timestamp c) s'.
Proof.
  unfold withdraw. intros Hrun Hacc. pose proof (acc_balance _ _ (msg_sender c) Hacc) as Hb.
  destruct Hacc as [Hl Hval Hsol Hbond].
  sol_step Hrun. sol_step Hrun. apply transfer_ok in Hrun as (-> & Hle & _). cbn in *.
  split; cbn; [done| | |].
  - apply map_Forall_insert_2; [lia|done].
  - rewrite sum_balances_insert. unfold balance in *. lia.
  - intros Hlt. apply orb_true_iff in E as [Hne|Hge%Z.leb_le]; [|lia].
    apply negb_true_iff, Z.eqb_neq in Hne. unfold balance in *. cbn.
    rewrite map_get_insert_ne by done. auto.
Qed.

Lemma challenge_ok c receiver i s s' : challenge c receiver i s = Ok s' ->
  (block_timestamp c < lastValidAt s /\ checkBlockProducerSignatureInHead i s = Ok false) /\
  (lockEthAmount (cfg s) <= balance s (lastSubmitter s) /\ lockEthAmount (cfg s) / 2 <= ether s) /\
  s' = mkNearBridge (cfg s) (initialized s) (currentBlockProducers s) (nextBlockProducers s) (head s)
    (untrustedHead s) (untrustedApprovalCount s) (untrustedApprovals s) (untrustedHeadIsFromNextEpoch s)
    (untrustedNextBlockProducers s) (lastSubmitter s) 0 (blockHashes_ s) (blockMerkleRoots_ s)
    (<[lastSubmitter s := balance s (lastSubmitter s) - lockEthAmount (cfg s)]> (balanceOf s))
    (ether s - lockEthAmount (cfg s))
    (events s ++ [BlockHashReverted (bi_height (untrustedHead s)) (bi_hash (untrustedHead s))]).
Proof.
  unfold challenge, _payRewardAndRollBack. intros Hrun.
  sol_step Hrun. sol_step Hrun. sol_step Hrun. apply Z.ltb_lt in E. apply negb_true_iff in E1 as ->.
  sol_step Hrun. cbn zeta in Hrun. sol_step Hrun. sol_step Hrun. injection Hrun as <-. cbn in *.
  split; [done|]. split; [done|]. unfold emit_event, set_lastValidAt, set_events, set_ether. cbn.
  f_equal. lia.
Qed.

Lemma challenge_accounts c receiver i s s' : challenge c receiver i s = Ok s' ->
  0 <= block_timestamp c -> accounts (block_timestamp c) s -> accounts (block_timestamp c) s'.
Proof.
  intros ([Hlt _] & _ & ->)%challenge_ok Hts Hacc. destruct Hacc as [Hl Hval Hsol Hbond].
  specialize (Hbond Hlt). split; cbn; [done| | |lia].
  - apply map_Forall_insert_2; [lia|done].
  - rewrite sum_balances_insert. unfold balance in *. lia.
Qed.

Lemma add_accounts c data s s' : addLightClientBlock c data s = Ok s' ->
  accounts (block_timestamp c) s -> accounts (block_timestamp c) s'.
Proof.
  intros (b & fn & s1 & Hadd)%addLightClientBlock_ok Hacc.
  destruct Hadd as [_ Hb _ Hset _ _ _ _ _ (info & _ & ->)].
  destruct (commit_or_replace_same _ _ _ _ Hset) as (Hc & Hbal & He).
  eapply accounts_same; [|..|exact Hacc].
  - by split_and!; cbn.
  - intros _. cbn. destruct (acc_balance _ _ (msg_sender c) Hacc) as [Hz|Hz]; [|done].
    pose proof (acc_lock _ _ Hacc). lia.
Qed.

Lemma initWithValidators_ok data s s' : initWithValidators data s = Ok s' ->
  initialized s = false /\ exists info, s' = set_currentBlockProducers info s /\
  exists vs, decode_all decodeInitialValidators data
    "NearBridge: only initial validators should be passed as second argument" = Ok vs /\
  setBlockProducers vs (currentBlockProducers s) = Ok info.
Proof.
  unfold initWithValidators. intros Hrun. sol_step Hrun. apply negb_true_iff in E.
  sol_step Hrun. sol_step Hrun. injection Hrun as <-. eauto 10.
Qed.

(** The storage after the initialization with a block. *)
Definition initialization (b : LightClientBlock) (info : BlockProducerInfo) (s : NearBridge) : NearBridge :=
  mkNearBridge (cfg s) true (currentBlockProducers s) info (block_info b)
    (untrustedHead s) (untrustedApprovalCount s) (untrustedApprovals s) (untrustedHeadIsFromNextEpoch s)
    (untrustedNextBlockProducers s) (lastSubmitter s) (lastValidAt s)
    (<[il_height (lc_inner_lite b) := lc_hash b]> (blockHashes_ s))
    (<[il_height (lc_inner_lite b) := il_block_merkle_root (lc_inner_lite b)]> (blockMerkleRoots_ s))
    (balanceOf s) (ether s) (events s ++ [added_event b]).

Lemma initWithBlock_ok data s s' : initWithBlock data s = Ok s' ->
  (0 < totalStake (currentBlockProducers s) /\ initialized s = false) /\
  exists b info, s' = initialization b info s /\
    decode_all (decodeLightClientBlock sha256) data
      "NearBridge: only light client block should be passed as first argument" = Ok b /\
    ovs_none (lc_next_bps b) = false /\
    setBlockProducers (ovs_validatorStakes (lc_next_bps b)) (nextBlockProducers s) = Ok info.
Proof.
  unfold initWithBlock. intros Hrun. sol_step Hrun. apply Z.ltb_lt in E.
  sol_step Hrun. apply negb_true_iff in E0. cbn zeta in Hrun.
  sol_step Hrun. sol_step Hrun. apply negb_true_iff in E2. cbn zeta in Hrun.
  sol_step Hrun. injection Hrun as <-. split; [done|]. exists a, a0. by split_and!.
Qed.

Lemma bridge_exec_nonpayable c f s s' : bridge_exec c f s = Ok s' -> f <> CallDeposit ->
  msg_value c = 0.
Proof.
  intros Hrun Hf. destruct f; try done; unfold bridge_exec in Hrun; sol_step Hrun; by apply Z.eqb_eq in E.
Qed.

(** One call, by cases. *)
Lemma bridge_exec_cases (P : bridge_call -> NearBridge -> NearBridge -> Prop) c s :
  (forall s', deposit c (set_ether (ether s + msg_value c) s) = Ok s' -> P CallDeposit s s') ->
  (forall s', withdraw c s = Ok s' -> P CallWithdraw s s') ->
  (forall r i s', challenge c r i s = Ok s' -> P (CallChallenge r i) s s') ->
  (forall d s', initWithValidators d s = Ok s' -> P (CallInitWithValidators d) s s') ->
  (forall d s', initWithBlock d s = Ok s' -> P (CallInitWithBlock d) s s') ->
  (forall d s', addLightClientBlock c d s = Ok s' -> P (CallAddLightClientBlock d) s s') ->
  forall f s', bridge_exec c f s = Ok s' -> P f s s'.
Proof.
  intros H1 H2 H3 H4 H5 H6 f s' Hrun. destruct f; cbn [bridge_exec] in Hrun; [by apply H1|..];
    sol_step Hrun; eauto.
Qed.

Lemma exec_accounts c f s s' : bridge_exec c f s = Ok s' ->
  0 <= msg_value c -> 0 <= block_timestamp c ->
  accounts (block_timestamp c) s -> accounts (block_timestamp c) s'.
Proof.
  intros Hrun Hv Ht. revert f s' Hrun.
  apply (bridge_exec_cases (fun _ s s' => accounts (block_timestamp c) s -> accounts (block_timestamp c) s')).
  - intros s' Hrun Hacc. eapply deposit_accounts; [exact Hrun|done|]. cbn.
    replace (ether s + msg_value c - msg_value c) with (ether s) by lia. by destruct Hacc, s.
  - intros s' Hrun. by apply withdraw_accounts.
  - intros r i s' Hrun. by eapply challenge_accounts.
  - intros d s' (_ & info & -> & _)%initWithValidators_ok. by intros [? ? ? ?].
  - intros d s' (_ & b & info & -> & _)%initWithBlock_ok. by intros [? ? ? ?].
  - intros d s' Hrun. by eapply add_accounts.
Qed.

Lemma step_accounts ch ch' : chain_step ch ch' ->
  0 <= ch_now ch /\ accounts (ch_now ch) (ch_bridge ch) ->
  0 <= ch_now ch' /\ accounts (ch_now ch') (ch_bridge ch').
Proof.
  intros [s s' now past c f Hle Hv Hrun|s now now' past Hle|s now past amount Ha] [Hn Hacc]; simpl in *.
  - split; [lia|]. eapply exec_accounts; [exact Hrun|lia|lia|]. by eapply accounts_later.
  - split; [lia|]. by eapply accounts_later.
  - split; [done|]. destruct Hacc. split; cbn; try done. lia.
Qed.

(** ** The chain of blocks *)

(** A stored mapping holds the head's value and nothing above the head. *)
Definition published (s : NearBridge) (m : gmap Z (list byte)) (v : list byte) : Prop :=
  (initialized s = false -> m = ∅) /\
  (initialized s = true -> m !! bi_height (head s) = Some v) /\
  (forall h, bi_height (head s) < h -> m !! h = None).

Record heads (s : NearBridge) : Prop := {
  heads_fresh : initialized s = false -> lastValidAt s = 0;
  heads_pending : lastValidAt s <> 0 -> bi_height (head s) < bi_height (untrustedHead s);
  heads_hashes : published s (blockHashes_ s) (bi_hash (head s));
  heads_roots : published s (blockMerkleRoots_ s) (bi_merkleRoot (head s))
}.

Lemma published_insert s m v h h' x :
  published s m v -> (initialized s = true -> bi_height (head s) < h) -> h < h' ->
  <[h := x]> m !! h' = None.
Proof.
  intros (Hf & _ & Hab) Hlt Hh. rewrite lookup_insert_ne by lia.
  destruct (initialized s); [apply Hab; specialize (Hlt eq_refl); lia|]. by rewrite Hf.
Qed.

(** What [commit_or_replace] does to the chain of blocks. *)
Lemma settle_heads c b s s1 : commit_or_replace c b s = Ok s1 -> initialized s = true -> heads s ->
  initialized s1 = true /\ published s1 (blockHashes_ s1) (bi_hash (head s1)) /\
  published s1 (blockMerkleRoots_ s1) (bi_merkleRoot (head s1)).
Proof.
  intros [(Hle & Hne & Hc)|[-> _]]%commit_or_replace_ok Hi [Hf Hp Hh Hr]; [|done].
  apply commitBlock_ok in Hc as (_ & _ & _ & Hhd & Hi1 & Hbh & Hbr).
  split; [congruence|]. unfold published. rewrite Hhd, Hbh, Hbr, Hi1, Hi.
  split; (split; [done|]; split; [by rewrite lookup_insert_eq|]; intros h Hlt;
    eapply published_insert; [eassumption| |exact Hlt]; auto).
Qed.

Lemma exec_heads c f s s' : bridge_exec c f s = Ok s' -> heads s -> heads s'.
Proof.
  revert f s'. apply (bridge_exec_cases (fun _ s s' => heads s -> heads s')).
  - intros s' Hrun. unfold deposit in Hrun. sol_inv Hrun. injection Hrun as <-. by intros [? ? ? ?].
  - intros s' Hrun. unfold withdraw in Hrun. sol_step Hrun. sol_step Hrun.
    apply transfer_ok in Hrun as [-> _]. by intros [? ? ? ?].
  - intros r i s' (_ & _ & ->)%challenge_ok. by intros [? ? ? ?].
  - intros d s' (_ & info & -> & _)%initWithValidators_ok. by intros [? ? ? ?].
  - intros d s' ([_ Hi] & b & info & -> & _)%initWithBlock_ok [Hf Hp Hh Hr].
    specialize (Hf Hi). split; cbn; try done.
    all: split; [done|]; split; [by rewrite lookup_insert_eq|]; intros h Hlt;
      eapply published_insert; [eassumption|congruence|exact Hlt].
  - intros d s' (b & fn & s1 & Hadd)%addLightClientBlock_ok Hs.
    destruct Hadd as [Hi _ _ Hset Hh _ _ _ _ (info & _ & ->)].
    destruct (settle_heads _ _ _ _ Hset Hi Hs) as (Hi1 & Hh1 & Hr1).
    split; cbn; [congruence|done| |]; done.
Qed.

(** ** Finality of what the views show *)

(** The two views, over the stored mapping and the pending value. *)
Definition stored_in (g : NearBridge -> gmap Z (list byte)) (p : BlockInfo -> list byte) : Prop :=
  (g = blockHashes_ /\ p = bi_hash) \/ (g = blockMerkleRoots_ /\ p = bi_merkleRoot).
Definition shows (g : NearBridge -> gmap Z (list byte)) (p : BlockInfo -> list byte)
    (now h : Z) (s : NearBridge) : list byte :=
  view_of (g s) (p (untrustedHead s)) now h s.

Lemma stored_published g p s : stored_in g p -> heads s -> published s (g s) (p (head s)).
Proof. intros [[-> ->]|[-> ->]] [? ? ? ?]; done. Qed.

(** A shown value is stored below the head, or it is the pending block's. *)
Lemma shows_cases g p now h s x : stored_in g p -> heads s -> shows g p now h s = x -> x <> zero32 ->
  (g s !! h = Some x /\ h <= bi_height (head s)) \/
  (lastValidAt s <> 0 /\ lastValidAt s <= now /\ h = bi_height (untrustedHead s) /\
   x = p (untrustedHead s) /\ g s !! h = None).
Proof.
  intros Hg Hs Hx Hne. unfold shows, view_of in Hx.
  destruct (_ && _) eqn:E in Hx.
  - right. rewrite !andb_true_iff, negb_true_iff, Z.leb_le, Z.eqb_neq, Z.eqb_eq in E.
    destruct E as [[[_ Hle] Hnz] Hh]. split_and!; try done.
    destruct (stored_published _ _ _ Hg Hs) as (_ & _ & Hab). apply Hab.
    rewrite Hh. by apply heads_pending.
  - left. pose proof (map_get_some _ _ _ _ Hx Hne) as Hst. split; [done|].
    destruct (stored_published _ _ _ Hg Hs) as (_ & _ & Hab).
    destruct (Z.le_gt_cases h (bi_height (head s))) as [|Hgt]; [done|].
    rewrite Hab in Hst by lia. done.
Qed.

Lemma shows_stored g p now h s x : g s !! h = Some x -> x <> zero32 -> shows g p now h s = x.
Proof.
  intros Hst Hne. unfold shows, view_of, map_get. rewrite Hst. simpl.
  by rewrite bool_decide_eq_false_2.
Qed.

Lemma shows_pending g p now h s : g s !! h = None -> lastValidAt s <> 0 -> lastValidAt s <= now ->
  h = bi_height (untrustedHead s) -> shows g p now h s = p (untrustedHead s).
Proof.
  intros Hst Hnz Hle ->. unfold shows, view_of, map_get. rewrite Hst. cbn [default from_option].
  by rewrite bool_decide_eq_true_2, (proj2 (Z.leb_le _ _) Hle), (proj2 (Z.eqb_neq _ _) Hnz), Z.eqb_refl.
Qed.

Lemma view_none m p now h s : m !! h = None -> lastValidAt s = 0 -> view_of m p now h s = zero32.
Proof.
  unfold view_of, map_get. intros -> ->. change (negb (0 =? 0)) with false.
  by rewrite andb_false_r.
Qed.

(** The parts of the storage that the views read are kept. *)
Definition same_view (s s' : NearBridge) : Prop :=
  blockHashes_ s' = blockHashes_ s /\ blockMerkleRoots_ s' = blockMerkleRoots_ s /\
  untrustedHead s' = untrustedHead s /\ lastValidAt s' = lastValidAt s.

Lemma shows_same g p s s' now now' h x : stored_in g p -> heads s -> same_view s s' -> now <= now' ->
  shows g p now h s = x -> x <> zero32 -> shows g p now' h s' = x.
Proof.
  intros Hg Hs (H1 & H2 & H3 & H4) Hle Hx Hne.
  assert (g s' = g s) as Hgs by (by destruct Hg as [[-> _]|[-> _]]).
  destruct (shows_cases _ _ _ _ _ _ Hg Hs Hx Hne) as [[Hst _]|(Hnz & Hnow & Hh & -> & Hst)].
  - apply shows_stored; [by rewrite Hgs|done].
  - rewrite <- H3. apply shows_pending; rewrite ?Hgs, ?H3, ?H4; [done|done|lia|done].
Qed.

Lemma add_shows g p c data s s' now h x : stored_in g p -> heads s ->
  addLightClientBlock c data s = Ok s' -> now <= block_timestamp c ->
  shows g p now h s = x -> x <> zero32 -> g s' !! h = Some x.
Proof.
  intros Hg Hs (b & fn & s1 & Hadd)%addLightClientBlock_ok Hle Hx Hne.
  destruct Hadd as [_ _ _ Hset _ _ _ _ _ (info & _ & ->)].
  assert (g (submission c b fn info s1) = g s1) as -> by (by destruct Hg as [[-> _]|[-> _]]).
  destruct (shows_cases _ _ _ _ _ _ Hg Hs Hx Hne) as [[Hst Hh]|(Hnz & Hnow & Hh & -> & Hst)];
    apply commit_or_replace_ok in Hset as [(Hl & Hnz' & Hc)|[-> Hor]]; try done; try lia.
  all: apply commitBlock_ok in Hc as (_ & _ & _ & _ & _ & Hbh & Hbr).
  - pose proof (heads_pending _ Hs Hnz'). destruct Hg as [[-> _]|[-> _]];
      rewrite ?Hbh, ?Hbr, lookup_insert_ne by lia; done.
  - rewrite Hh. destruct Hg as [[-> ->]|[-> ->]]; rewrite ?Hbh, ?Hbr, lookup_insert_eq; done.
Qed.

Lemma exec_shows g p c f s s' now h x : stored_in g p -> heads s ->
  bridge_exec c f s = Ok s' -> now <= block_timestamp c ->
  shows g p now h s = x -> x <> zero32 -> shows g p (block_timestamp c) h s' = x.
Proof.
  intros Hg Hs Hrun Hle Hx Hne. revert f s' Hrun.
  apply (bridge_exec_cases (fun _ _ s' => shows g p (block_timestamp c) h s' = x)).
  - intros s' Hrun. unfold deposit in Hrun. sol_inv Hrun. injection Hrun as <-.
    by eapply (shows_same g p s).
  - intros s' Hrun. unfold withdraw in Hrun. sol_step Hrun. sol_step Hrun.
    apply transfer_ok in Hrun as [-> _]. by eapply (shows_same g p s).
  - intros r i s' ([Hlt _] & _ & ->)%challenge_ok.
    destruct (shows_cases _ _ _ _ _ _ Hg Hs Hx Hne) as [[Hst _]|(Hnz & Hnow & _)]; [|lia].
    apply shows_stored; [|done]. by destruct Hg as [[-> _]|[-> _]].
  - intros d s' (_ & info & -> & _)%initWithValidators_ok. by eapply (shows_same g p s).
  - intros d s' ([_ Hi] & b & info & -> & _)%initWithBlock_ok.
    destruct (stored_published _ _ _ Hg Hs) as (Hf & _ & _).
    destruct (shows_cases _ _ _ _ _ _ Hg Hs Hx Hne) as [[Hst _]|(Hnz & _)].
    + by rewrite Hf in Hst.
    + by rewrite (heads_fresh _ Hs Hi) in Hnz.
  - intros d s' Hrun. apply shows_stored; [|done]. by eapply add_shows.
Qed.

Lemma step_heads ch ch' : chain_step ch ch' -> heads (ch_bridge ch) -> heads (ch_bridge ch').
Proof. intros []; simpl; try done; [by eapply exec_heads|]. by intros [? ? ? ?]. Qed.

Lemma step_shows g p ch ch' h x : stored_in g p -> chain_step ch ch' -> heads (ch_bridge ch) ->
  shows g p (ch_now ch) h (ch_bridge ch) = x -> x <> zero32 ->
  shows g p (ch_now ch') h (ch_bridge ch') = x.
Proof.
  intros Hg [] Hs Hx Hne; simpl in *; [by eapply exec_shows|by eapply (shows_same g p s)|].
  by eapply (shows_same g p s).
Qed.
End chain.
