(* ===== verification/NearBridgeHistory.v ===== *)
(** * The history of the contract [NearBridge]

    Where the hashes that the contract shows come from, and the stakes behind
    them. *)

From Stdlib Require Import Strings.Byte.
From stdpp Require Import base list strings gmap relations.
From Stdlib Require Import ZArith Lia.
From S2P Require Import Prelude Js Borsh NearDecoder NearBridge NearBridgeSpec NearBridgeInv.
Local Open Scope Z_scope.

(** The calls that end the challenge period of a block early. *)
Definition opposes (f : bridge_call) : bool :=
  match f with CallChallenge _ _ | CallAddLightClientBlock _ => true | _ => false end.
Definition unopposed (deadline : Z) (calls : list (call_ctx * bridge_call)) : Prop :=
  Forall (fun cf => block_timestamp cf.1 < deadline -> opposes cf.2 = false) calls.

Section history.
Context `{Crypto}.

Definition decodes (data : list byte) (b : LightClientBlock) : Prop :=
  exists r, decodeLightClientBlock sha256 (mkReader data 0) = Ok (b, r) /\ sol_finished r = true.

Lemma decode_all_ok {A} (m : R A) data err a : decode_all m data err = Ok a ->
  exists r, m (mkReader data 0) = Ok (a, r) /\ sol_finished r = true.
Proof.
  unfold decode_all. intros Hd. apply obind_ok in Hd as ([x r] & Hm & Hd). sol_step Hd. simplify_eq. eauto.
Qed.
Lemma decode_all_run {A} (m : R A) data err a r : m (mkReader data 0) = Ok (a, r) -> sol_finished r = true ->
  decode_all m data err = Ok a.
Proof. unfold decode_all. intros -> Hf. cbn. by rewrite Hf. Qed.

(** The block was submitted at time [t] with a challenge period of [ld], and no
    accepted call opposed it before the period's end. *)
Definition submitted (ld : Z) (past : list (call_ctx * bridge_call)) (b : LightClientBlock) (t : Z) : Prop :=
  exists p1 c data p2, past = p1 ++ (c, CallAddLightClientBlock data) :: p2 /\ decodes data b /\
    block_timestamp c = t /\ unopposed (t + ld) p2.

(** A block is the initial one, or has passed its challenge period unopposed. *)
Definition settled (ld : Z) (past : list (call_ctx * bridge_call)) (now : Z) (b : LightClientBlock) : Prop :=
  (exists c data, (c, CallInitWithBlock data) ∈ past /\ decodes data b) \/
  exists t, submitted ld past b t /\ t + ld <= now.

Record provenance (ch : chain) : Prop := {
  prov_stored g p h x : stored_in g p -> g (ch_bridge ch) !! h = Some x ->
    exists b, il_height (lc_inner_lite b) = h /\ p (block_info b) = x /\
      settled (lockDuration (cfg (ch_bridge ch))) (ch_past ch) (ch_now ch) b;
  prov_pending : lastValidAt (ch_bridge ch) <> 0 ->
    exists b t, untrustedHead (ch_bridge ch) = block_info b /\
      lastValidAt (ch_bridge ch) = t + lockDuration (cfg (ch_bridge ch)) /\
      submitted (lockDuration (cfg (ch_bridge ch))) (ch_past ch) b t
}.

Lemma submitted_extend ld past b t c f : submitted ld past b t ->
  (block_timestamp c < t + ld -> opposes f = false) -> submitted ld (past ++ [(c, f)]) b t.
Proof.
  intros (p1 & c0 & data & p2 & -> & Hd & Ht & Hp) Hop. exists p1, c0, data, (p2 ++ [(c, f)]).
  rewrite <- app_assoc. split_and!; try done. apply Forall_app. by repeat constructor.
Qed.

Lemma settled_extend ld past now b c f : settled ld past now b -> now <= block_timestamp c ->
  settled ld (past ++ [(c, f)]) (block_timestamp c) b.
Proof.
  intros [(c0 & data & Hin & Hd)|(t & Hsub & Hle)] Hnow.
  - left. exists c0, data. split; [|done]. apply elem_of_app. by left.
  - right. exists t. split; [|lia]. apply submitted_extend; [done|]. lia.
Qed.
Lemma settled_later ld past now now' b : settled ld past now b -> now <= now' -> settled ld past now' b.
Proof. intros [Hi|(t & Hsub & Hle)] Hnow; [by left|]. right. exists t. split; [done|lia]. Qed.

(** A call that leaves the views and does not oppose. *)
Lemma provenance_keep s s' now past c f : provenance (mkChain s now past) -> now <= block_timestamp c ->
  same_view s s' -> cfg s' = cfg s -> opposes f = false ->
  provenance (mkChain s' (block_timestamp c) (past ++ [(c, f)])).
Proof.
  intros [Hst Hpe] Hle (H1 & H2 & H3 & H4) Hc Hop. simpl in *. split; simpl; rewrite Hc.
  - intros g p h x Hg Hx. assert (g s' = g s) as Hgs by (by destruct Hg as [[-> _]|[-> _]]).
    rewrite Hgs in Hx. destruct (Hst g p h x Hg Hx) as (b & ? & ? & ?).
    exists b. split_and!; try done. by apply (settled_extend _ _ now).
  - rewrite H3, H4. intros Hnz. destruct (Hpe Hnz) as (b & t & ? & ? & ?).
    exists b, t. split_and!; try done. by apply submitted_extend.
Qed.

Lemma challenge_provenance s s' now past c r i : provenance (mkChain s now past) ->
  now <= block_timestamp c -> challenge c r i s = Ok s' ->
  provenance (mkChain s' (block_timestamp c) (past ++ [(c, CallChallenge r i)])).
Proof.
  intros [Hst _] Hle (_ & _ & ->)%challenge_ok. split; simpl; [|done].
  intros g p h x Hg Hx. destruct (Hst g p h x Hg) as (b & ? & ? & ?); simpl.
  { by destruct Hg as [[-> _]|[-> _]]. }
  exists b. split_and!; try done. by apply (settled_extend _ _ now).
Qed.

Lemma init_provenance s s' now past c data : provenance (mkChain s now past) -> heads s ->
  now <= block_timestamp c -> initWithBlock data s = Ok s' ->
  provenance (mkChain s' (block_timestamp c) (past ++ [(c, CallInitWithBlock data)])).
Proof.
  intros _ Hs Hle ([_ Hi] & b & info & -> & Hd & _)%initWithBlock_ok.
  apply decode_all_ok in Hd. split; simpl; [|by rewrite (heads_fresh _ Hs Hi)].
  intros g p h x Hg Hx. exists b.
  destruct (stored_published g p s Hg Hs) as (Hf & _). specialize (Hf Hi).
  assert (h = il_height (lc_inner_lite b) /\ x = p (block_info b)) as [-> ->].
  { destruct Hg as [[-> ->]|[-> ->]]; cbn in Hx; rewrite Hf, insert_empty in Hx;
      apply lookup_singleton_Some in Hx as [<- <-]; done. }
  split_and!; try done. left. exists c, data. split; [|done]. apply elem_of_app. right. by left.
Qed.

(** Committing stores the pending block, whose period is over. *)
Lemma settle_provenance s s1 now past c f b : provenance (mkChain s now past) -> now <= block_timestamp c ->
  commit_or_replace c b s = Ok s1 ->
  forall g p h x, stored_in g p -> g s1 !! h = Some x ->
  exists b0, il_height (lc_inner_lite b0) = h /\ p (block_info b0) = x /\
    settled (lockDuration (cfg s)) (past ++ [(c, f)]) (block_timestamp c) b0.
Proof.
  intros [Hst Hpe] Hle Hset g p h x Hg Hx. simpl in *.
  assert (g s !! h = Some x -> exists b0, il_height (lc_inner_lite b0) = h /\ p (block_info b0) = x /\
    settled (lockDuration (cfg s)) (past ++ [(c, f)]) (block_timestamp c) b0) as Hold.
  { intros Hs. destruct (Hst g p h x Hg Hs) as (b0 & ? & ? & ?). exists b0. split_and!; try done.
    by apply (settled_extend _ _ now). }
  apply commit_or_replace_ok in Hset as [(Hl & Hnz & Hc)|[-> _]]; [|by apply Hold].
  apply commitBlock_ok in Hc as (_ & _ & _ & _ & _ & Hbh & Hbr).
  destruct (Hpe Hnz) as (b0 & t & Hu & Hl' & Hsub).
  assert (g s1 = <[bi_height (untrustedHead s) := p (untrustedHead s)]> (g s)) as Hg1
    by (by destruct Hg as [[-> ->]|[-> ->]]).
  rewrite Hg1 in Hx. apply lookup_insert_Some in Hx as [[<- <-]|[_ Hx]]; [|by apply Hold].
  exists b0. rewrite Hu. split_and!; try done. right. exists t. split; [|lia].
  apply submitted_extend; [done|]. lia.
Qed.

Lemma add_provenance s s' now past c data : provenance (mkChain s now past) -> now <= block_timestamp c ->
  addLightClientBlock c data s = Ok s' ->
  provenance (mkChain s' (block_timestamp c) (past ++ [(c, CallAddLightClientBlock data)])).
Proof.
  intros Hp Hle (b & fn & s1 & Hadd)%addLightClientBlock_ok.
  destruct Hadd as [_ _ Hd Hset _ _ _ _ _ (info & _ & ->)].
  destruct (commit_or_replace_same _ _ _ _ Hset) as (Hc & _ & _).
  split; cbn [ch_bridge ch_past ch_now submission cfg]; rewrite Hc.
  - intros g p h x Hg Hx. eapply settle_provenance; try eassumption.
    by destruct Hg as [[-> _]|[-> _]].
  - intros _. exists b, (block_timestamp c). split_and!; try done.
    { cbn. by rewrite Hc. }
    exists past, c, data, []. split_and!; try done; [by eapply decode_all_ok|by constructor].
Qed.

Lemma step_provenance ch ch' : chain_step ch ch' -> heads (ch_bridge ch) -> provenance ch -> provenance ch'.
Proof.
  intros [s s' now past c f Hle Hv Hrun|s now now' past Hle|s now past amount Ha] Hs Hp; simpl in *.
  - revert f s' Hrun.
    apply (bridge_exec_cases (fun f _ s' => provenance (mkChain s' (block_timestamp c) (past ++ [(c, f)])))).
    + intros s' Hrun. unfold deposit in Hrun. sol_inv Hrun. injection Hrun as <-. by eapply provenance_keep.
    + intros s' Hrun. unfold withdraw in Hrun. sol_step Hrun. sol_step Hrun.
      apply transfer_ok in Hrun as [-> _]. by eapply provenance_keep.
    + intros r i s' Hrun. by eapply challenge_provenance.
    + intros d s' (_ & info & -> & _)%initWithValidators_ok. by eapply provenance_keep.
    + intros d s' Hrun. by eapply init_provenance.
    + intros d s' Hrun. by eapply add_provenance.
  - destruct Hp as [Hst Hpe]. split; simpl in *; [|done].
    intros g p h x Hg Hx. destruct (Hst g p h x Hg Hx) as (b & ? & ? & ?).
    exists b. split_and!; try done. by eapply settled_later.
  - destruct Hp as [Hst Hpe]. split; simpl in *; [|done].
    intros g p h x Hg Hx. apply (Hst g p h x Hg). by destruct Hg as [[-> _]|[-> _]].
Qed.

Lemma shown_settled g p ch h x : stored_in g p -> heads (ch_bridge ch) -> provenance ch ->
  shows g p (ch_now ch) h (ch_bridge ch) = x -> x <> zero32 ->
  exists b, il_height (lc_inner_lite b) = h /\ p (block_info b) = x /\
    settled (lockDuration (cfg (ch_bridge ch))) (ch_past ch) (ch_now ch) b.
Proof.
  intros Hg Hs [Hst Hpe] Hx Hne.
  destruct (shows_cases _ _ _ _ _ _ Hg Hs Hx Hne) as [[Hin _]|(Hnz & Hle & Hh & -> & _)].
  - by apply (Hst g p).
  - destruct (Hpe Hnz) as (b & t & Hu & Hl & Hsub). exists b. rewrite Hh, Hu. split_and!; try done.
    right. exists t. split; [done|lia].
Qed.
End history.
