(* ===== verification/NearBridgeStakes.v ===== *)
(** * Stakes and quorums of the contract [NearBridge] *)

From Stdlib Require Import Strings.Byte.
From stdpp Require Import base list strings gmap relations.
From Stdlib Require Import ZArith Lia.
From S2P Require Import Prelude Js Borsh NearDecoder BorshifySpec NearBridge NearBridgeSpec NearBridgeInv.
Local Open Scope Z_scope.

Definition stake_at (m : gmap nat BlockProducer) (i : nat) : Z := stake (map_get no_producer m i).

(** The stake of the producers [i], ..., [i + n - 1] that a set contains. *)
Fixpoint weight_from (m : gmap nat BlockProducer) (member : nat -> bool) (n i : nat) : Z :=
  match n with
  | O => 0
  | S n => (if member i then stake_at m i else 0) + weight_from m member n (S i)
  end.
Definition weight (info : BlockProducerInfo) (member : nat -> bool) : Z :=
  weight_from (bps info) member (bpsLength info) 0.

(** A stake of 128 bits. *)
Definition u128 (z : Z) : Prop := 0 <= z < 2 ^ 128.
Definition u128_stakes (m : gmap nat BlockProducer) : Prop := map_Forall (fun _ p => u128 (stake p)) m.
(** The recorded total is the sum of the stakes, of which there are fewer than
    2^32. *)
Record counted (info : BlockProducerInfo) : Prop := {
  counted_total : totalStake info = weight info (fun _ => true);
  counted_stakes : u128_stakes (bps info);
  counted_length : Z.of_nat (bpsLength info) < 2 ^ 32
}.

Lemma stake_u128 m i : u128_stakes m -> u128 (stake_at m i).
Proof.
  intros Hm. unfold stake_at, map_get. destruct (m !! i) eqn:E; simpl; [by apply (Hm i)|done].
Qed.

Lemma weight_from_bounds m a n : u128_stakes m -> forall i,
  0 <= weight_from m a n i <= weight_from m (fun _ => true) n i /\
  weight_from m (fun _ => true) n i <= Z.of_nat n * (2 ^ 128 - 1).
Proof.
  intros Hm. induction n as [|n IH]; intros i; simpl weight_from; [lia|].
  specialize (IH (S i)). pose proof (stake_u128 m i Hm) as [? ?]. rewrite Nat2Z.inj_succ. destruct (a i); lia.
Qed.

(** No sum of stakes overflows, and neither does its double. *)
Lemma weight_small info a : counted info -> 0 <= weight info a <= totalStake info /\ totalStake info < 2 ^ 160.
Proof.
  intros [Ht Hs Hn]. destruct (weight_from_bounds (bps info) a (bpsLength info) Hs 0) as [Hw Hb].
  unfold weight in *. rewrite Ht. split; [exact Hw|].
  change (2 ^ 160) with (2 ^ 32 * 2 ^ 128). nia.
Qed.

Lemma weight_from_ext m m' a a' n : forall i,
  (forall j, (i <= j < i + n)%nat -> a j = a' j /\ stake_at m j = stake_at m' j) ->
  weight_from m a n i = weight_from m' a' n i.
Proof.
  induction n as [|n IH]; intros i Hj; simpl; [done|].
  destruct (Hj i ltac:(lia)) as [-> ->]. f_equal. apply IH. intros. apply Hj. lia.
Qed.

Lemma weight_from_meet m a b n : u128_stakes m -> forall i,
  weight_from m a n i + weight_from m b n i <=
  weight_from m (fun j => a j && b j) n i + weight_from m (fun _ => true) n i.
Proof.
  intros Hm. induction n as [|n IH]; intros i; simpl; [lia|].
  specialize (IH (S i)). pose proof (stake_u128 m i Hm) as [? _]. destruct (a i), (b i); simpl; lia.
Qed.

(** ** [setBlockProducers] and [copyBlockProducers] *)

Fixpoint sum_stakes (l : list ValidatorStake) : Z :=
  match l with [] => 0 | v :: l => vs_stake v + sum_stakes l end.

Lemma set_loop_ok l : forall i total m total' m', setBlockProducers_loop l i total m = Ok (total', m') ->
  total' = total + sum_stakes l /\
  (forall j, (j < i)%nat -> m' !! j = m !! j) /\
  (forall j v, l !! j = Some v -> m' !! (i + j)%nat = Some (mkBlockProducer (vs_public_key v) (vs_stake v))) /\
  (u128_stakes m -> Forall (fun v => u128 (vs_stake v)) l -> u128_stakes m').
Proof.
  induction l as [|v l IH]; intros i total m total' m' Hrun; simpl in Hrun.
  - simplify_eq. simpl. split_and!; [lia|done|done|done].
  - sol_step Hrun. apply IH in Hrun as (-> & Hlow & Hin & Hnn). simpl. split_and!.
    + lia.
    + intros j Hj. rewrite Hlow by lia. by rewrite lookup_insert_ne by lia.
    + intros [|j] v' Hv; simpl in Hv.
      * simplify_eq. rewrite Nat.add_0_r, Hlow by lia. by rewrite lookup_insert_eq.
      * replace (i + S j)%nat with (S i + j)%nat by lia. by apply Hin.
    + intros Hm [Hv Hl]%Forall_cons. apply Hnn; [|done]. by apply map_Forall_insert_2.
Qed.

Lemma weight_from_list m l : forall i,
  (forall j v, l !! j = Some v -> m !! (i + j)%nat = Some (mkBlockProducer (vs_public_key v) (vs_stake v))) ->
  weight_from m (fun _ => true) (length l) i = sum_stakes l.
Proof.
  induction l as [|v l IH]; intros i Hin; simpl; [done|]. f_equal.
  - pose proof (Hin 0%nat v eq_refl) as Hv. rewrite Nat.add_0_r in Hv.
    unfold stake_at, map_get. by rewrite Hv.
  - apply IH. intros j v' Hv. replace (S i + j)%nat with (i + S j)%nat by lia. by apply Hin.
Qed.

(** Validators as a block carries them. *)
Definition u128_list (l : list ValidatorStake) : Prop :=
  Forall (fun v => u128 (vs_stake v)) l /\ Z.of_nat (length l) < 2 ^ 32.

Lemma sum_stakes_bounds l : Forall (fun v => u128 (vs_stake v)) l ->
  0 <= sum_stakes l <= Z.of_nat (length l) * (2 ^ 128 - 1).
Proof.
  induction 1 as [|v l [? ?] _ IH]; simpl sum_stakes; [simpl; lia|]. cbn [length]. rewrite Nat2Z.inj_succ. lia.
Qed.

Lemma set_loop_run l : forall i total m, Forall (fun v => u128 (vs_stake v)) l ->
  0 <= total -> total + sum_stakes l < uint256_limit ->
  exists m', setBlockProducers_loop l i total m = Ok (total + sum_stakes l, m').
Proof.
  induction l as [|v l IH]; intros i total m Hl Ht Hs; simpl in *.
  - exists m. by rewrite Z.add_0_r.
  - apply Forall_cons in Hl as [[? ?] Hl]. pose proof (sum_stakes_bounds l Hl) as [? _].
    unfold safe_add. rewrite (proj2 (Z.ltb_lt _ _)) by lia. cbn [mbind outcome_bind].
    rewrite Z.add_assoc. apply IH; [done|lia|lia].
Qed.
(** Storing the validators of a block never overflows. *)
Lemma setBlockProducers_run l dest : u128_list l -> exists info, setBlockProducers l dest = Ok info.
Proof.
  intros [Hl Hn]. pose proof (sum_stakes_bounds l Hl) as [? Hb].
  destruct (set_loop_run l 0 0 (bps dest) Hl) as (m' & Hrun); [lia| |].
  - unfold uint256_limit. assert (2 ^ 32 * 2 ^ 128 < 2 ^ 256) by (vm_compute; reflexivity). nia.
  - unfold setBlockProducers. rewrite Hrun. by eexists.
Qed.

(** The producers stored are the ones of the list, in order. *)
Lemma setBlockProducers_ok l dest info : setBlockProducers l dest = Ok info ->
  bpsLength info = length l /\
  (forall j v, l !! j = Some v -> bps info !! j = Some (mkBlockProducer (vs_public_key v) (vs_stake v))) /\
  (u128_stakes (bps dest) -> u128_list l -> counted info).
Proof.
  unfold setBlockProducers. intros Hrun. apply obind_ok in Hrun as ([t m] & Hl & Hrun). injection Hrun as <-.
  apply set_loop_ok in Hl as (-> & _ & Hin & Hnn). cbn. split_and!; [done|done|].
  intros Hd [Hv Hlen]. split; [|by apply Hnn|done]. unfold weight; cbn. by rewrite (weight_from_list m l 0).
Qed.

Lemma copy_loop_lookup src n : forall i dest j,
  copy_loop src n i dest !! j =
  if decide (i <= j < i + n)%nat then Some (map_get no_producer src j) else dest !! j.
Proof.
  induction n as [|n IH]; intros i dest j; simpl.
  - by rewrite decide_False by lia.
  - rewrite IH. destruct (decide (j = i)) as [->|Hne].
    + rewrite decide_False by lia. rewrite decide_True by lia. by rewrite lookup_insert_eq.
    + rewrite lookup_insert_ne by done.
      destruct (decide (S i <= j < S i + n)%nat), (decide (i <= j < i + S n)%nat); try done; lia.
Qed.

Lemma copy_counted src dest : counted src -> u128_stakes (bps dest) -> counted (copyBlockProducers src dest).
Proof.
  intros [Ht Hn Hlen] Hd. split; cbn; [| |done].
  - rewrite Ht. unfold weight; cbn. apply weight_from_ext. intros j Hj. split; [done|].
    unfold stake_at, map_get at 2. rewrite copy_loop_lookup. by rewrite decide_True by lia.
  - intros i p Hp. rewrite copy_loop_lookup in Hp. destruct (decide _); [|by apply (Hd i)].
    injection Hp as <-. by apply stake_u128.
Qed.

(** ** [_checkBp] *)

Definition approves (b : LightClientBlock) (i : nat) : bool :=
  match lc_approvals_after_next b !! i with Some a => negb (os_none a) | None => false end.

Lemma voted_loop_ok b m n : forall i v v',
  voted_loop (lc_approvals_after_next b) m n i v = Ok v' -> v' = v + weight_from m (approves b) n i.
Proof.
  induction n as [|n IH]; intros i v v' Hrun; simpl in Hrun; [injection Hrun as <-; simpl; lia|].
  simpl. unfold approves at 1. destruct (lc_approvals_after_next b !! i) as [a|]; [|done].
  apply obind_ok in Hrun as (v1 & Hv & Hrun). apply IH in Hrun as ->.
  destruct (os_none a); simpl; [by injection Hv as <-|]. apply safe_add_ok in Hv as [-> _].
  unfold stake_at. lia.
Qed.

Lemma checkBp_ok b info : _checkBp b info = Ok tt ->
  (bpsLength info <= length (lc_approvals_after_next b))%nat /\
  2 * totalStake info < 3 * weight info (approves b).
Proof.
  unfold _checkBp. intros Hrun. sol_step Hrun. apply Nat.leb_le in E.
  apply obind_ok in Hrun as (v & Hv & Hrun). apply voted_loop_ok in Hv. sol_step Hrun.
  apply require_ok, Z.ltb_lt in Hrun. split; [done|]. unfold weight.
  pose proof (Z.mul_succ_div_gt (totalStake info * 2) 3 ltac:(lia)). lia.
Qed.

Lemma voted_loop_run b m n : forall i v, (i + n <= length (lc_approvals_after_next b))%nat -> 0 <= v ->
  u128_stakes m -> v + weight_from m (fun _ => true) n i < uint256_limit ->
  voted_loop (lc_approvals_after_next b) m n i v = Ok (v + weight_from m (approves b) n i).
Proof.
  induction n as [|n IH]; intros i v Hi Hv Hm Hs; simpl in *; [by rewrite Z.add_0_r|].
  destruct (lookup_lt_is_Some_2 (lc_approvals_after_next b) i) as [a Ha]; [lia|].
  unfold approves at 1. rewrite Ha. pose proof (stake_u128 m i Hm) as [? _].
  pose proof (weight_from_bounds m (fun _ => true) n Hm (S i)) as [[? _] _].
  destruct (os_none a); cbn [negb mbind outcome_bind]; [rewrite IH by (done || lia); f_equal; lia|].
  unfold safe_add. fold (stake_at m i). rewrite (proj2 (Z.ltb_lt _ _)) by lia. cbn [mbind outcome_bind].
  rewrite IH by (done || lia). f_equal. lia.
Qed.

(** More than two thirds of the counted stake pass the check. *)
Lemma checkBp_run b info : counted info -> (bpsLength info <= length (lc_approvals_after_next b))%nat ->
  2 * totalStake info < 3 * weight info (approves b) -> _checkBp b info = Ok tt.
Proof.
  intros Hc Hlen Hq. pose proof (weight_small info (approves b) Hc) as [Hw Hsmall]. destruct Hc as [Ht Hs _].
  assert (2 ^ 161 < uint256_limit) by (vm_compute; reflexivity). change (2 ^ 160) with (2 ^ 159 * 2) in Hsmall.
  change (2 ^ 161) with (2 ^ 159 * 4) in *.
  unfold _checkBp. rewrite (proj2 (Nat.leb_le _ _) Hlen). cbn [require mbind outcome_bind].
  rewrite voted_loop_run; [|done|done|done|unfold weight in Ht; lia]. cbn [mbind outcome_bind].
  unfold safe_mul. rewrite (proj2 (Z.ltb_lt _ _)) by lia. cbn [mbind outcome_bind].
  rewrite (proj2 (Z.ltb_lt _ _)); [done|]. unfold weight in Hq. apply Z.div_lt_upper_bound; lia.
Qed.

Lemma quorums_meet info b1 b2 : counted info -> _checkBp b1 info = Ok tt -> _checkBp b2 info = Ok tt ->
  totalStake info < 3 * weight info (fun i => approves b1 i && approves b2 i).
Proof.
  intros [Ht Hn _] [_ H1]%checkBp_ok [_ H2]%checkBp_ok.
  pose proof (weight_from_meet (bps info) (approves b1) (approves b2) (bpsLength info) Hn 0).
  unfold weight in *. lia.
Qed.

(** ** Decoded stakes *)

Definition reader_yields {A} (P : A -> Prop) (m : R A) : Prop := forall r a r', m r = Ok (a, r') -> P a.

Lemma reader_yields_bind {A B} (P : B -> Prop) (m : R A) (f : A -> R B) (Q : A -> Prop) :
  reader_yields Q m -> (forall a, Q a -> reader_yields P (f a)) -> reader_yields P (m ≫= f).
Proof.
  intros Hm Hf r b r' Hrun. unfold mbind, R_bind in Hrun.
  apply obind_ok in Hrun as ([a r1] & Ha & Hb). eapply Hf; [by eapply Hm|exact Hb].
Qed.
Lemma yields_any {A} (m : R A) : reader_yields (fun _ => True) m.
Proof. done. Qed.
Lemma reader_yields_ret {A} (P : A -> Prop) a : P a -> reader_yields P (mret a).
Proof. intros Ha r b r' Hrun. injection Hrun as <- <-. done. Qed.
Lemma reader_yields_times {A} (P : A -> Prop) (m : R A) n : reader_yields P m -> reader_yields (Forall P) (read_times n m).
Proof.
  intros Hm. induction n as [|n IH]; simpl; [apply reader_yields_ret; constructor|].
  eapply reader_yields_bind; [exact Hm|]. intros a Ha. eapply reader_yields_bind; [exact IH|].
  intros l Hl. apply reader_yields_ret. by constructor.
Qed.
Lemma read_times_length {A} (m : R A) n : reader_yields (fun l => length l = n) (read_times n m).
Proof.
  induction n as [|n IH]; simpl; [by apply reader_yields_ret|].
  eapply reader_yields_bind; [apply yields_any|intros a _]. eapply reader_yields_bind; [exact IH|].
  intros l Hl. apply reader_yields_ret. simpl. by f_equal.
Qed.
Definition bits (k z : Z) : Prop := 0 <= z < 2 ^ k.
Lemma yields_lor (lo hi : R Z) k : 0 <= k -> reader_yields (bits k) lo -> reader_yields (bits k) hi ->
  reader_yields (bits (2 * k)) (l ← lo; h ← hi; mret (Z.lor l (Z.shiftl h k))).
Proof.
  intros Hk Hlo Hhi. eapply reader_yields_bind; [exact Hlo|intros l [Hl Hl']].
  eapply reader_yields_bind; [exact Hhi|intros h [Hh Hh']]. apply reader_yields_ret.
  rewrite lor_shiftl_add by done. unfold bits. pose proof (Z.pow_pos_nonneg 2 k ltac:(lia) Hk).
  replace (2 * k) with (k + k) by lia. rewrite Z.pow_add_r by done. nia.
Qed.
Lemma yields_u8 : reader_yields (bits 8) decodeU8.
Proof.
  intros r z r' Hrun. unfold decodeU8 in Hrun. apply obind_ok in Hrun as ([bs r1] & Hbs & Hrun). injection Hrun as <- _.
  unfold shift_read in Hbs. destruct (decide _); [|done]. injection Hbs as <- _.
  match goal with |- bits 8 (Z_of_le ?l) => pose proof (Z_of_le_range l) as Hr; assert (length l = 1%nat) as Hl end.
  { rewrite length_take, length_drop. lia. }
  unfold bits. rewrite Hl in Hr. exact Hr.
Qed.
Lemma yields_u16 : reader_yields (bits 16) decodeU16.
Proof. apply (yields_lor _ _ 8); [done|apply yields_u8..]. Qed.
Lemma yields_u32 : reader_yields (bits 32) decodeU32.
Proof. apply (yields_lor _ _ 16); [done|apply yields_u16..]. Qed.
Lemma yields_u64 : reader_yields (bits 64) decodeU64.
Proof. apply (yields_lor _ _ 32); [done|apply yields_u32..]. Qed.
Lemma yields_u128 : reader_yields u128 decodeU128.
Proof. apply (yields_lor _ _ 64); [done|apply yields_u64..]. Qed.
Lemma yields_stake : reader_yields (fun v => u128 (vs_stake v)) decodeValidatorStake.
Proof.
  eapply reader_yields_bind; [apply yields_any|intros id _]. eapply reader_yields_bind; [apply yields_any|intros pk _].
  eapply reader_yields_bind; [apply yields_u128|intros z Hz]. by apply reader_yields_ret.
Qed.
Lemma yields_validators : reader_yields u128_list decodeInitialValidators.
Proof.
  eapply reader_yields_bind; [apply yields_u32|intros len [H0 Hlen]]. intros r l r' Hrun.
  split; [by eapply reader_yields_times; [apply yields_stake|]|].
  apply read_times_length in Hrun. lia.
Qed.

Lemma yields_with_hash {A} (P : A -> Prop) hash (m : R A) :
  reader_yields P m -> reader_yields (fun p => P p.1) (with_hash hash m).
Proof.
  intros Hm r [a h] r' Hrun. unfold with_hash in Hrun.
  apply obind_ok in Hrun as ([a' r1] & Ha & Hrun). cbn in Hrun. simplify_eq. by eapply Hm.
Qed.
Lemma yields_next_bps hash :
  reader_yields (fun o => u128_list (ovs_validatorStakes o))
    (decodeOptionalValidatorStakes hash).
Proof.
  eapply reader_yields_bind; [apply yields_any|intros flag _]. destruct (flag =? 0); [by apply reader_yields_ret|].
  eapply reader_yields_bind; [apply yields_with_hash, yields_validators|]. intros p Hp. by apply reader_yields_ret.
Qed.
Lemma yields_block hash :
  reader_yields (fun b => u128_list (ovs_validatorStakes (lc_next_bps b)))
    (decodeLightClientBlock hash).
Proof.
  do 4 (eapply reader_yields_bind; [apply yields_any|intros ? _]).
  eapply reader_yields_bind; [apply yields_next_bps|intros o Ho].
  do 2 (eapply reader_yields_bind; [apply yields_any|intros ? _]). by apply reader_yields_ret.
Qed.

(** ** The invariant *)

Record stakes (s : NearBridge) : Prop := {
  stakes_current : counted (currentBlockProducers s);
  stakes_next : counted (nextBlockProducers s);
  stakes_untrusted : counted (untrustedNextBlockProducers s)
}.

Section stakes.
Context `{Crypto}.

Lemma stakes_producers s fn : stakes s -> counted (producers_of fn s).
Proof. intros [? ? ?]. by destruct fn. Qed.

Lemma decode_all_yields {A} (P : A -> Prop) (m : R A) data err a :
  reader_yields P m -> decode_all m data err = Ok a -> P a.
Proof.
  unfold decode_all. intros Hm Hd. apply obind_ok in Hd as ([x r] & Hx & Hd). sol_step Hd. simplify_eq.
  by eapply Hm.
Qed.

Lemma commit_stakes c s s' : commitBlock c s = Ok s' -> stakes s -> stakes s'.
Proof.
  unfold commitBlock. intros Hrun. sol_step Hrun. injection Hrun as <-. intros [H1 H2 H3].
  cbn. destruct (untrustedHeadIsFromNextEpoch s); split; cbn; try done; apply copy_counted; try done.
  - apply H1.
  - apply H2.
Qed.

Lemma exec_stakes c f s s' : bridge_exec c f s = Ok s' -> stakes s -> stakes s'.
Proof.
  revert f s'. apply (bridge_exec_cases (fun _ s s' => stakes s -> stakes s')).
  - intros s' Hrun. unfold deposit in Hrun. sol_inv Hrun. injection Hrun as <-. by intros [? ? ?].
  - intros s' Hrun. unfold withdraw in Hrun. sol_step Hrun. sol_step Hrun.
    apply transfer_ok in Hrun as [-> _]. by intros [? ? ?].
  - intros r i s' (_ & _ & ->)%challenge_ok. by intros [? ? ?].
  - intros d s' (_ & info & -> & vs & Hd & Hset)%initWithValidators_ok [H1 H2 H3].
    split; cbn; try done. apply setBlockProducers_ok in Hset as (_ & _ & Hc).
    apply Hc; [apply H1|]. eapply decode_all_yields, Hd. apply yields_validators.
  - intros d s' (_ & b & info & -> & Hd & _ & Hset)%initWithBlock_ok [H1 H2 H3].
    split; cbn; try done. apply setBlockProducers_ok in Hset as (_ & _ & Hc).
    apply Hc; [apply H2|]. eapply decode_all_yields in Hd; [exact Hd|apply yields_block].
  - intros d s' (b & fn & s1 & Hadd)%addLightClientBlock_ok Hs.
    destruct Hadd as [_ _ Hd Hset _ _ _ _ _ (info & Hinfo & ->)].
    assert (stakes s1) as [H1 H2 H3].
    { apply commit_or_replace_ok in Hset as [(_ & _ & Hc)|[-> _]]; [|done]. by eapply commit_stakes. }
    split; cbn; try done. destruct fn; [|by injection Hinfo as <-].
    apply setBlockProducers_ok in Hinfo as (_ & _ & Hc).
    apply Hc; [apply H3|]. eapply decode_all_yields in Hd; [exact Hd|apply yields_block].
Qed.

Lemma step_stakes ch ch' : chain_step ch ch' -> stakes (ch_bridge ch) -> stakes (ch_bridge ch').
Proof. intros []; simpl; try done; [by eapply exec_stakes|]. by intros [? ? ?]. Qed.
End stakes.
