(* ===== verification/NearBridgeTheorems.v ===== *)
(** * Theorems about the contract [NearBridge] *)

From Stdlib Require Import Strings.Byte.
From stdpp Require Import base list strings gmap relations.
From Stdlib Require Import ZArith Lia.
From S2P Require Import Prelude Js Borsh NearDecoder BorshifySpec Samples NearBridge NearBridgeSpec.
From S2P Require Import NearBridgeInv NearBridgeHistory NearBridgeStakes.
Local Open Scope Z_scope.

(** ** Reachable states *)

Section reach.
Context `{Crypto}.

Definition start (lock ld rd : Z) : chain := mkChain (construct lock ld rd) 0 [].
Definition reachable (lock ld rd : Z) (ch : chain) : Prop := rtc chain_step (start lock ld rd) ch.

(** A list of calls, executed one after the other; [None] when one reverts or
    comes before its predecessor. *)
Fixpoint run_chain (calls : list (call_ctx * bridge_call)) (ch : chain) : option chain :=
  match calls with
  | [] => Some ch
  | (c, f) :: calls =>
      if (ch_now ch <=? block_timestamp c) && (0 <=? msg_value c) && (msg_value c <? uint256_limit) then
        match bridge_exec c f (ch_bridge ch) with
        | Ok s' => run_chain calls (mkChain s' (block_timestamp c) (ch_past ch ++ [(c, f)]))
        | _ => None
        end
      else None
  end.

Lemma run_chain_reaches calls : forall ch ch', run_chain calls ch = Some ch' -> rtc chain_step ch ch'.
Proof.
  induction calls as [|[c f] calls IH]; intros [s now past] ch' Hrun; simpl in Hrun; [by simplify_eq|].
  destruct (_ && _) eqn:Hok; [|done]. rewrite !andb_true_iff, !Z.leb_le, Z.ltb_lt in Hok.
  destruct (bridge_exec c f s) as [s'| | |] eqn:E; try done.
  eapply rtc_l; [|by apply IH]. apply step_call; [lia|lia|done].
Qed.

Record invariant (ch : chain) : Prop := {
  inv_now : 0 <= ch_now ch;
  inv_accounts : accounts (ch_now ch) (ch_bridge ch);
  inv_heads : heads (ch_bridge ch);
  inv_stakes : stakes (ch_bridge ch);
  inv_provenance : provenance ch
}.

Lemma invariant_start lock ld rd : 0 <= lock -> invariant (start lock ld rd).
Proof.
  intros Hl. split; [done| | | |].
  - split; cbn; [done|apply map_Forall_empty|vm_compute; congruence|lia].
  - by split; cbn.
  - by split; (split; [reflexivity|apply map_Forall_empty|reflexivity]).
  - split; cbn; [|done]. intros g p h x [[-> _]|[-> _]]; cbn; by rewrite lookup_empty.
Qed.

Lemma invariant_step ch ch' : chain_step ch ch' -> invariant ch -> invariant ch'.
Proof.
  intros Hst [Hn Ha Hh Hs Hp]. destruct (step_accounts _ _ Hst (conj Hn Ha)) as [Hn' Ha'].
  split; [done|done|by eapply step_heads|by eapply step_stakes|by eapply step_provenance].
Qed.

Lemma invariant_steps ch ch' : rtc chain_step ch ch' -> invariant ch -> invariant ch'.
Proof. induction 1; [done|]. intros. eauto using invariant_step. Qed.

Lemma reachable_invariant lock ld rd ch : 0 <= lock -> reachable lock ld rd ch -> invariant ch.
Proof. intros Hl Hr. eapply invariant_steps, invariant_start; done. Qed.

Lemma shows_steps g p ch ch' h x : stored_in g p -> rtc chain_step ch ch' -> heads (ch_bridge ch) ->
  shows g p (ch_now ch) h (ch_bridge ch) = x -> x <> zero32 ->
  shows g p (ch_now ch') h (ch_bridge ch') = x.
Proof.
  intros Hg Hsteps. induction Hsteps as [|ch ch1 ch' Hst _ IH]; [done|]. intros Hs Hx Hne.
  apply IH; [by eapply step_heads|by eapply step_shows|done].
Qed.

Lemma config_kept ch ch' : chain_step ch ch' -> cfg (ch_bridge ch') = cfg (ch_bridge ch).
Proof.
  intros [s s' now past c f Hle Hv Hrun|s now now' past Hle|s now past amount Ha]; simpl; try done.
  revert f s' Hrun. apply (bridge_exec_cases (fun _ s s' => cfg s' = cfg s)).
  - intros s' Hrun. unfold deposit in Hrun. sol_inv Hrun. by injection Hrun as <-.
  - intros s' Hrun. unfold withdraw in Hrun. sol_step Hrun. sol_step Hrun. by apply transfer_ok in Hrun as [-> _].
  - by intros r i s' (_ & _ & ->)%challenge_ok.
  - by intros d s' (_ & info & -> & _)%initWithValidators_ok.
  - by intros d s' (_ & b & info & -> & _)%initWithBlock_ok.
  - intros d s' (b & fn & s1 & Hadd)%addLightClientBlock_ok.
    destruct Hadd as [_ _ _ Hset _ _ _ _ _ (info & _ & ->)].
    by destruct (commit_or_replace_same _ _ _ _ Hset) as (Hc & _).
Qed.

Lemma reachable_config lock ld rd ch : reachable lock ld rd ch ->
  cfg (ch_bridge ch) = mkBridgeConfig lock ld rd.
Proof.
  intros Hr. change (mkBridgeConfig lock ld rd) with (cfg (ch_bridge (start lock ld rd))).
  induction Hr as [|x y z Hxy _ IH]; [done|]. rewrite IH. by apply config_kept.
Qed.
End reach.

(** C2: in every state that the contract can reach, by any calls of anybody,
    every balance is zero or exactly one bond, the ether of the contract covers
    the sum of the balances, and as long as a block may still be challenged the
    bond of its submitter is in the contract. *)
Theorem bridge_solvent `{Crypto} (lock ld rd : Z) (ch : chain) :
  0 <= lock -> reachable lock ld rd ch ->
  let s := ch_bridge ch in
  (forall a, balance s a = 0 \/ balance s a = lock) /\
  sum_balances (balanceOf s) <= ether s /\
  (ch_now ch < lastValidAt s -> balance s (lastSubmitter s) = lock).
Proof.
  intros Hl Hr s. pose proof (reachable_invariant _ _ _ _ Hl Hr) as [_ Ha _ _ _].
  pose proof (reachable_config _ _ _ _ Hr) as Hc.
  assert (lockEthAmount (cfg s) = lock) as Hlock by (unfold s; by rewrite Hc).
  split; [|split].
  - intros a. rewrite <- Hlock. by apply (acc_balance (ch_now ch)).
  - apply Ha.
  - rewrite <- Hlock. apply Ha.
Qed.

(** C5: what the contract shows is final: once [blockHashes] or
    [blockMerkleRoots] answers a hash for a height, it answers the same hash for
    that height at every later time, whatever is submitted, challenged or
    withdrawn in between. *)
Theorem shown_hash_final `{Crypto} (lock ld rd : Z) (ch ch' : chain) (h : Z) :
  0 <= lock -> reachable lock ld rd ch -> rtc chain_step ch ch' ->
  (forall x, blockHashes (ch_now ch) h (ch_bridge ch) = x -> x <> zero32 ->
     blockHashes (ch_now ch') h (ch_bridge ch') = x) /\
  (forall x, blockMerkleRoots (ch_now ch) h (ch_bridge ch) = x -> x <> zero32 ->
     blockMerkleRoots (ch_now ch') h (ch_bridge ch') = x).
Proof.
  intros Hl Hr Hsteps. pose proof (inv_heads _ (reachable_invariant _ _ _ _ Hl Hr)) as Hs.
  split; intros x Hx Hne.
  - by apply (shows_steps blockHashes_ bi_hash ch); [left|..].
  - by apply (shows_steps blockMerkleRoots_ bi_merkleRoot ch); [right|..].
Qed.

(** A hash that the contract shows is the one of the block it was initialized
    with, or of a block that was submitted at least [lockDuration] ago, with
    neither an accepted challenge nor a replacement before the end of its
    challenge period. *)
Theorem shown_hash_unopposed `{Crypto} (lock ld rd : Z) (ch : chain) (h : Z) (x : list byte) :
  0 <= lock -> reachable lock ld rd ch ->
  blockHashes (ch_now ch) h (ch_bridge ch) = x -> x <> zero32 ->
  exists b, il_height (lc_inner_lite b) = h /\ lc_hash b = x /\ settled ld (ch_past ch) (ch_now ch) b.
Proof.
  intros Hl Hr Hx Hne. pose proof (reachable_invariant _ _ _ _ Hl Hr) as [_ _ Hs _ Hp].
  pose proof (reachable_config _ _ _ _ Hr) as Hc.
  destruct (shown_settled blockHashes_ bi_hash ch h x ltac:(by left) Hs Hp Hx Hne) as (b & Hh & Hb & Hst).
  rewrite Hc in Hst. by exists b.
Qed.

Lemma challenge_runs `{Crypto} (lock ld rd : Z) (ch : chain) (c : call_ctx) (receiver : Z) (i : nat) :
  0 <= lock -> reachable lock ld rd ch ->
  let s := ch_bridge ch in
  ch_now ch <= block_timestamp c -> block_timestamp c < lastValidAt s -> msg_value c = 0 ->
  checkBlockProducerSignatureInHead i s = Ok false ->
  receives c receiver (lock / 2) = true -> receives c burner (lock - lock / 2) = true ->
  exists s', bridge_exec c (CallChallenge receiver i) s = Ok s' /\
    balance s' (lastSubmitter s) = 0 /\ ether s' = ether s - lock /\
    (forall a, a <> lastSubmitter s -> balance s' a = balance s a) /\
    (forall now, blockHashes now (bi_height (untrustedHead s)) s' = zero32) /\
    bs_nextValidAt (bridgeState (block_timestamp c) s') = 0.
Proof.
  intros Hl Hr s Hnow Hlt Hv Hsig Hr1 Hr2. pose proof (reachable_invariant _ _ _ _ Hl Hr) as [Hn0 Ha Hh _ _].
  pose proof (reachable_config _ _ _ _ Hr) as Hc. fold s in Ha, Hh, Hc.
  assert (lockEthAmount (cfg s) = lock) as Hlock by (by rewrite Hc).
  pose proof (acc_nonneg _ _ Ha) as Hnn. pose proof (balance_le_sum _ (lastSubmitter s) Hnn) as Hle.
  assert (balance s (lastSubmitter s) = lock) as Hb by (rewrite <- Hlock; apply Ha; lia).
  pose proof (acc_solvent _ _ Ha). unfold balance in Hb. rewrite Hb in Hle.
  pose proof (Z.div_pos lock 2 Hl ltac:(lia)). pose proof (Z.div_le_upper_bound lock 2 lock ltac:(lia) ltac:(lia)).
  eexists. split.
  { unfold bridge_exec, challenge, _payRewardAndRollBack. rewrite Hv. cbn [require Z.eqb mbind outcome_bind].
    rewrite (proj2 (Z.ltb_lt _ _) Hlt). cbn [require mbind outcome_bind]. rewrite Hsig. cbn [require negb mbind outcome_bind].
    unfold balance. rewrite Hlock, Hb, safe_sub_run by lia. cbn [mbind outcome_bind].
    rewrite transfer_run by (done || cbn; lia). cbn [mbind outcome_bind].
    rewrite transfer_run by (done || cbn; lia). reflexivity. }
  cbn. split_and!.
  - unfold balance. cbn. rewrite map_get_insert. lia.
  - lia.
  - intros a Hne. unfold balance. cbn. by rewrite map_get_insert_ne.
  - intros now. apply view_none; [|done]. destruct (heads_hashes _ Hh) as (_ & _ & Hab).
    apply Hab, heads_pending; [done|]. lia.
  - unfold bridgeState. cbn. rewrite (proj2 (Z.ltb_ge _ _)) by lia. done.
Qed.

(** C16: during the challenge period a challenge of an invalid signature always
    succeeds: half of the bond goes to the receiver and the rest is burned, the
    submitter's balance is zero, and the hash of the block is not shown at any
    time after. *)
Theorem challenge_succeeds `{Crypto} (lock ld rd : Z) (ch : chain) (c : call_ctx) (receiver : Z) (i : nat) :
  0 <= lock -> reachable lock ld rd ch ->
  let s := ch_bridge ch in
  ch_now ch <= block_timestamp c -> block_timestamp c < lastValidAt s -> msg_value c = 0 ->
  checkBlockProducerSignatureInHead i s = Ok false ->
  receives c receiver (lock / 2) = true -> receives c burner (lock - lock / 2) = true ->
  exists s', bridge_exec c (CallChallenge receiver i) s = Ok s' /\
    balance s' (lastSubmitter s) = 0 /\ ether s' = ether s - lock /\
    (forall a, a <> lastSubmitter s -> balance s' a = balance s a) /\
    (forall now, blockHashes now (bi_height (untrustedHead s)) s' = zero32) /\
    bs_nextValidAt (bridgeState (block_timestamp c) s') = 0.
Proof. apply challenge_runs. Qed.

(** C17: any two blocks that pass the check of [_checkBp] against the producers of
    the same epoch are both approved by producers who hold more than a third of
    the epoch's stake. *)
Theorem quorum_intersection `{Crypto} (lock ld rd : Z) (ch : chain) (fromNext : bool) (b1 b2 : LightClientBlock) :
  0 <= lock -> reachable lock ld rd ch ->
  let producers := producers_of fromNext (ch_bridge ch) in
  _checkBp b1 producers = Ok tt -> _checkBp b2 producers = Ok tt ->
  totalStake producers < 3 * weight producers (fun i => approves b1 i && approves b2 i).
Proof.
  intros Hl Hr producers. apply quorums_meet, stakes_producers.
  apply (inv_stakes _ (reachable_invariant _ _ _ _ Hl Hr)).
Qed.

(** ** The signed message *)

Lemma mask_high m k n : 0 <= m < 2 ^ k -> k <= n -> Z.testbit m n = false.
Proof.
  intros Hm Hk. destruct (Z.eq_dec m 0) as [->|]; [apply Z.testbit_0_l|].
  apply Z.bits_above_log2; [lia|]. assert (Z.log2 m < k); [|lia]. apply Z.log2_lt_pow2; lia.
Qed.

Lemma Z_of_le_testbit_cons b bs n : 0 <= n ->
  Z.testbit (Z_of_le (b :: bs)) n = if n <? 8 then Z.testbit (Z_of_byte b) n else Z.testbit (Z_of_le bs) (n - 8).
Proof.
  intros Hn. cbn [Z_of_le]. pose proof (Z_of_byte_range b).
  destruct (Z.ltb_spec n 8).
  - rewrite <- (Z.mod_pow2_bits_low _ 8) by lia. change (2 ^ 8) with 256.
    rewrite (Z.mul_comm 256), Z.mod_add, Z.mod_small by lia. done.
  - replace n with (n - 8 + 8) at 1 by lia. rewrite <- Z.div_pow2_bits by lia. change (2 ^ 8) with 256.
    rewrite (Z.mul_comm 256), Z.div_add, Z.div_small by lia. done.
Qed.

Definition bit_of (bs : list byte) (n : Z) : bool :=
  match bs !! Z.to_nat (n / 8) with Some b => Z.testbit (Z_of_byte b) (n mod 8) | None => false end.

Lemma Z_of_le_testbit bs : forall n, 0 <= n -> Z.testbit (Z_of_le bs) n = bit_of bs n.
Proof.
  induction bs as [|b bs IH]; intros n Hn; [apply Z.testbit_0_l|].
  rewrite Z_of_le_testbit_cons by done. unfold bit_of. destruct (Z.ltb_spec n 8).
  - by rewrite Z.div_small, Z.mod_small by lia.
  - rewrite IH by lia. unfold bit_of.
    assert (n / 8 = (n - 8) / 8 + 1 /\ n mod 8 = (n - 8) mod 8) as [-> ->].
    { split; [rewrite <- (Z.div_add (n - 8) 1 8)|rewrite <- (Z.mod_add (n - 8) 1 8)]; [f_equal|..]; lia || f_equal; lia. }
    rewrite Z2Nat.inj_add, Nat.add_1_r by (lia || apply Z.div_pos; lia). done.
Qed.

(** One bit of a swap, and at a concrete position. *)
Lemma swap_bit r m1 m2 k n : 0 <= n -> 0 <= k ->
  Z.testbit (Z.lor (Z.shiftl (Z.land r m1) k) (Z.shiftr (Z.land r m2) k)) n =
  (k <=? n) && Z.testbit m1 (n - k) && Z.testbit r (n - k) || Z.testbit m2 (n + k) && Z.testbit r (n + k).
Proof.
  intros Hn Hk. rewrite Z.lor_spec, Z.shiftl_spec, Z.shiftr_spec, !Z.land_spec by lia.
  rewrite (andb_comm (Z.testbit m2 _)). f_equal. destruct (Z.leb_spec k n).
  - simpl. apply andb_comm.
  - by rewrite Z.testbit_neg_r by lia.
Qed.

Ltac swap_at :=
  rewrite swap_bit by lia;
  repeat match goal with
    | |- context [Z.testbit (Zpos ?m) ?i] =>
        let v := eval vm_compute in (Z.testbit (Zpos m) i) in change (Z.testbit (Zpos m) i) with v
    | |- context [?k <=? ?n] => let v := eval vm_compute in (k <=? n) in change (k <=? n) with v
    end;
  cbn [andb orb]; rewrite ?orb_false_r;
  match goal with |- Z.testbit ?r ?i = _ =>
    let v := eval vm_compute in i in change (Z.testbit r i) with (Z.testbit r v) end.

(** Swapping halves, quarters and eighths reverses the bytes. *)
Lemma reversedUint64_bytes b0 b1 b2 b3 b4 b5 b6 b7 :
  _reversedUint64 (Z_of_le [b0; b1; b2; b3; b4; b5; b6; b7]) = Z_of_le [b7; b6; b5; b4; b3; b2; b1; b0].
Proof.
  apply Z.bits_inj'. intros n Hn. unfold _reversedUint64.
  destruct (Z.le_gt_cases 64 n) as [Hhi|Hlo].
  - rewrite Z.lor_spec, Z.shiftl_spec, Z.shiftr_spec, !Z.land_spec by lia.
    rewrite (mask_high 0x00FF00FF00FF00FF 56) by (lia || done).
    rewrite (mask_high 0xFF00FF00FF00FF00 64) by (lia || done). rewrite !andb_false_r. simpl.
    symmetry. apply (mask_high _ 64); [|done]. apply (Z_of_le_range [b7; b6; b5; b4; b3; b2; b1; b0]).
  - assert (exists k : nat, n = Z.of_nat k /\ (k < 64)%nat) as (k & -> & Hk)
      by (exists (Z.to_nat n); lia).
    clear Hn Hlo. set (x := Z_of_le [b0; b1; b2; b3; b4; b5; b6; b7]).
    do 64 (destruct k as [|k]; [do 3 swap_at; unfold x; rewrite !Z_of_le_testbit by lia; reflexivity|]). lia.
Qed.

(** The bytes that [_checkValidatorSignature] checks a signature against are
    a zero byte, the hash of the next block and the height plus two in
    little-endian order, padded with zeros: reversing the integer and packing it
    in big-endian order is the little-endian encoding. *)
Theorem approval_message_format (height : Z) (next_hash : list byte) :
  0 <= height -> height + 2 < 2 ^ 64 ->
  approval_message height next_hash = [x00] ++ next_hash ++ le_bytes 8 (height + 2) ++ replicate 23 x00.
Proof.
  intros Hh Hlim. unfold approval_message. rewrite Z.mod_small by lia. f_equal. f_equal. f_equal.
  unfold be_bytes. pose proof (length_le_bytes 8 (height + 2)) as Hlen.
  pose proof (Z_of_le_bytes 8 (height + 2) ltac:(split; [lia|exact Hlim])) as Hz.
  rewrite <- Hz at 1. destruct (le_bytes 8 (height + 2)) as [|b0 [|b1 [|b2 [|b3 [|b4 [|b5 [|b6 [|b7 [|]]]]]]]]];
    try discriminate Hlen.
  rewrite reversedUint64_bytes.
  pose proof (le_bytes_Z_of_le [b7; b6; b5; b4; b3; b2; b1; b0]) as E. cbn [length] in E. by rewrite E.
Qed.

(** ** Witnesses *)

(** A signature that repeats the public key stands for a valid one. *)
Definition toy_crypto : Crypto := {|
  sha256 := toy_hash;
  keccak256 := toy_hash;
  ecrecover h v r s := 0;
  edwards_check xy r s m1 m2 := bool_decide (r = xy)
|}.
#[local] Existing Instance toy_crypto.

Definition toy_key : list byte := replicate 32 x07.
Definition toy_validator : ValidatorStake := mkValidatorStake (utf8 "node0") (mkPublicKey 0 toy_key (0, 0)) 10.
Definition toy_approval (sig : list byte) : OptionalSignature :=
  mkOptionalSignature false (mkSignature 0 (sig, zero32) (zero32, zero32, 0)).
(** A block of the epoch [zero32], with its computed fields left empty. *)
Definition toy_block (height time : Z) (sig : list byte) : LightClientBlock :=
  mkLightClientBlock zero32 zero32
    (mkBlockHeaderInnerLite height zero32 toy_key zero32 zero32 time zero32 zero32 []) zero32
    (mkOptionalValidatorStakes false [toy_validator] []) [toy_approval sig] [] [].
Definition toy_ctx (sender value time : Z) : call_ctx := mkCtx sender value time (fun _ _ => true).

(** Account 5 deposits a bond of 20 wei, the contract is initialized with block
    100, and account 5 submits block 110; the challenge period is 60 seconds. *)
Definition toy_calls (sig : list byte) : list (call_ctx * bridge_call) :=
  [ (toy_ctx 5 20 1000, CallDeposit);
    (toy_ctx 1 0 1001, CallInitWithValidators (enc_vec enc_validator [toy_validator]));
    (toy_ctx 1 0 1002, CallInitWithBlock (enc_block (toy_block 100 7000 sig)));
    (toy_ctx 5 0 1003, CallAddLightClientBlock (enc_block (toy_block 110 8000 sig))) ].
Definition toy_chain (sig : list byte) : chain :=
  default (start 20 60 30) (run_chain (toy_calls sig) (start 20 60 30)).

Lemma toy_reachable sig : run_chain (toy_calls sig) (start 20 60 30) = Some (toy_chain sig) ->
  reachable 20 60 30 (toy_chain sig).
Proof. apply run_chain_reaches. Qed.

Definition wait_until (t : Z) (ch : chain) : chain := mkChain (ch_bridge ch) t (ch_past ch).
Lemma wait_step t ch : ch_now ch <= t -> chain_step ch (wait_until t ch).
Proof. destruct ch. apply step_wait. Qed.
Lemma wait_reachable lock ld rd t ch : reachable lock ld rd ch -> ch_now ch <= t ->
  reachable lock ld rd (wait_until t ch).
Proof. intros Hr Hle. eapply rtc_r; [exact Hr|]. by apply wait_step. Qed.

Lemma toy_good_reachable : reachable 20 60 30 (toy_chain toy_key).
Proof. apply toy_reachable. vm_compute. reflexivity. Qed.
Lemma toy_bad_reachable : reachable 20 60 30 (toy_chain zero32).
Proof. apply toy_reachable. vm_compute. reflexivity. Qed.
Lemma toy_good_final : reachable 20 60 30 (wait_until 1063 (toy_chain toy_key)).
Proof. apply wait_reachable; [apply toy_good_reachable|]. vm_compute. congruence. Qed.

Lemma bridge_solvent_witness :
  let s := ch_bridge (toy_chain toy_key) in
  (forall a, balance s a = 0 \/ balance s a = 20) /\ sum_balances (balanceOf s) <= ether s /\
  (ch_now (toy_chain toy_key) < lastValidAt s -> balance s (lastSubmitter s) = 20).
Proof. apply (bridge_solvent 20 60 30 (toy_chain toy_key)); [lia|apply toy_good_reachable]. Defined.

Definition toy_hash_110 : list byte := le_bytes 32 110.
Lemma shown_hash_final_witness :
  blockHashes 1063 110 (ch_bridge (wait_until 1063 (toy_chain toy_key))) = toy_hash_110 /\
  blockHashes 2000 110 (ch_bridge (wait_until 2000 (toy_chain toy_key))) = toy_hash_110.
Proof.
  assert (blockHashes 1063 110 (ch_bridge (wait_until 1063 (toy_chain toy_key))) = toy_hash_110) as E
    by (vm_compute; reflexivity).
  split; [exact E|].
  apply (shown_hash_final 20 60 30 (wait_until 1063 (toy_chain toy_key)) (wait_until 2000 (toy_chain toy_key)) 110).
  - lia.
  - apply toy_good_final.
  - apply rtc_once, step_wait. lia.
  - exact E.
  - vm_compute. congruence.
Defined.

Lemma shown_hash_unopposed_witness :
  exists b, il_height (lc_inner_lite b) = 110 /\ lc_hash b = toy_hash_110 /\
    settled 60 (ch_past (wait_until 1063 (toy_chain toy_key))) 1063 b.
Proof.
  apply (shown_hash_unopposed 20 60 30 (wait_until 1063 (toy_chain toy_key)) 110 toy_hash_110).
  - lia.
  - apply toy_good_final.
  - vm_compute. reflexivity.
  - vm_compute. congruence.
Defined.

Lemma challenge_succeeds_witness :
  exists s', bridge_exec (toy_ctx 9 0 1030) (CallChallenge 9 0) (ch_bridge (toy_chain zero32)) = Ok s' /\
    balance s' (lastSubmitter (ch_bridge (toy_chain zero32))) = 0 /\
    ether s' = ether (ch_bridge (toy_chain zero32)) - 20 /\
    (forall a, a <> lastSubmitter (ch_bridge (toy_chain zero32)) ->
       balance s' a = balance (ch_bridge (toy_chain zero32)) a) /\
    (forall now, blockHashes now (bi_height (untrustedHead (ch_bridge (toy_chain zero32)))) s' = zero32) /\
    bs_nextValidAt (bridgeState 1030 s') = 0.
Proof.
  apply (challenge_succeeds 20 60 30 (toy_chain zero32) (toy_ctx 9 0 1030) 9 0).
  - lia.
  - apply toy_bad_reachable.
  - vm_compute. congruence.
  - vm_compute. reflexivity.
  - reflexivity.
  - vm_compute. reflexivity.
  - reflexivity.
  - reflexivity.
Defined.

Lemma quorum_intersection_witness :
  let producers := producers_of false (ch_bridge (toy_chain toy_key)) in
  totalStake producers < 3 * weight producers (fun i => approves (toy_block 110 8000 toy_key) i &&
    approves (toy_block 111 8001 toy_key) i).
Proof.
  apply (quorum_intersection 20 60 30 (toy_chain toy_key) false).
  - lia.
  - apply toy_good_reachable.
  - vm_compute. reflexivity.
  - vm_compute. reflexivity.
Defined.

Lemma approval_message_format_witness :
  approval_message 110 zero32 = [x00] ++ zero32 ++ le_bytes 8 112 ++ replicate 23 x00.
Proof. apply (approval_message_format 110 zero32); vm_compute; congruence. Defined.
