(* ===== verification/NearProver.v ===== *)
(** * The contract [NearProver]

    [contracts/eth/nearprover/contracts/NearProver.sol]: the proof that a
    transaction or receipt had an outcome on NEAR.  The contract of type
    [INearBridge] that it asks for the Merkle root of the blocks below a height
    is an argument. *)

From Stdlib Require Import Strings.Byte.
From stdpp Require Import base list strings gmap.
From Stdlib Require Import ZArith Lia.
From S2P Require Import Prelude Js Borsh NearDecoder NearBridge.
Local Open Scope Z_scope.

Section near_prover.
Context `{Crypto}.

(** The body of the loop of [_computeRoot]. *)
Definition climb (hash : list byte) (item : MerkleItem) : list byte :=
  if mi_direction item =? 0 then sha256 (mi_hash item ++ hash) else sha256 (hash ++ mi_hash item).

Fixpoint _computeRoot (node : list byte) (proof : list MerkleItem) : list byte :=
  match proof with
  | [] => node
  | item :: proof => _computeRoot (climb node item) proof
  end.

(** The root that the outcome's two paths lead to. *)
Definition outcome_root_of (f : FullOutcomeProof) : list byte :=
  let hash := _computeRoot (eoi_hash (eop_outcome_with_id (fp_outcome_proof f)))
                (eop_proof (fp_outcome_proof f)) in
  let hash := sha256 hash in
  _computeRoot hash (fp_outcome_root_proof f).

Definition proveOutcome (blockMerkleRoots : Z -> list byte) (proofData : list byte) (blockHeight : Z)
    : outcome bool :=
  fullOutcomeProof ← decode_all (decodeFullOutcomeProof sha256) proofData
    "NearProver: argument should be exact borsh serialization";
  let hash := outcome_root_of fullOutcomeProof in
  let header := fp_block_header_lite fullOutcomeProof in
  require (bool_decide (hash = il_outcome_root (bl_inner_lite header)))
    "NearProver: outcome merkle proof is not valid";;
  let expectedBlockMerkleRoot := blockMerkleRoots blockHeight in
  require (bool_decide (_computeRoot (bl_hash header) (fp_block_proof fullOutcomeProof)
                        = expectedBlockMerkleRoot))
    "NearProver: block proof is not valid";;
  Ok true.
End near_prover.
