(* ===== verification/NearProverTheorems.v ===== *)
(** * Theorems about the contract [NearProver]

    Merkle trees as the reference for what a path proves. *)

From Stdlib Require Import Strings.Byte.
From stdpp Require Import base list strings gmap.
From Stdlib Require Import ZArith Lia.
From S2P Require Import Prelude Js Borsh BorshSpec Borshify NearDecoder BorshifySpec Instances Samples.
From S2P Require Import NearBridge NearBridgeSpec NearBridgeHistory NearBridgeStakes NearBridgeTheorems.
From S2P Require Import NearProver.
Local Open Scope Z_scope.

Inductive merkle :=
| MLeaf (hash : list byte)
| MNode (left right : merkle).

(** The subtree that a path from the root leads to; [true] goes right. *)
Fixpoint descend (t : merkle) (path : list bool) : option merkle :=
  match path, t with
  | [], _ => Some t
  | rightwards :: path, MNode l r => descend (if rightwards then r else l) path
  | _ :: _, MLeaf _ => None
  end.

(** The items of a path lead from the node up, so the way down is the reverse. *)
Definition way_down (proof : list MerkleItem) : list bool :=
  reverse (map (fun item => mi_direction item =? 0) proof).

Section merkle.
Context `{Crypto}.

Fixpoint root (t : merkle) : list byte :=
  match t with
  | MLeaf h => h
  | MNode l r => sha256 (root l ++ root r)
  end.

(** The honest path to a subtree: the sibling of every step, from below. *)
Fixpoint siblings (t : merkle) (path : list bool) : list MerkleItem :=
  match path, t with
  | true :: path, MNode l r => siblings r path ++ [mkMerkleItem (root l) 0]
  | false :: path, MNode l r => siblings l path ++ [mkMerkleItem (root r) 1]
  | _, _ => []
  end.

(** The strings that are hashed when a path is climbed, and in the tree. *)
Fixpoint climbed (node : list byte) (proof : list MerkleItem) : list (list byte) :=
  match proof with
  | [] => []
  | item :: proof =>
      (if mi_direction item =? 0 then mi_hash item ++ node else node ++ mi_hash item)
      :: climbed (climb node item) proof
  end.
Fixpoint hashed (t : merkle) : list (list byte) :=
  match t with
  | MLeaf _ => []
  | MNode l r => (root l ++ root r) :: hashed l ++ hashed r
  end.

(** No two of the strings that occur have the same hash. *)
Definition no_collision (l k : list (list byte)) : Prop :=
  forall a b, a ∈ l -> b ∈ k -> sha256 a = sha256 b -> a = b.

Lemma no_collision_check l k :
  forallb (fun a => forallb (fun b => bool_decide (sha256 a <> sha256 b) || bool_decide (a = b)) k) l = true ->
  no_collision l k.
Proof.
  rewrite forallb_forall. intros Hall a b Ha Hb Hab. specialize (Hall a).
  rewrite <- list_elem_of_In in Hall. specialize (Hall Ha). rewrite forallb_forall in Hall.
  specialize (Hall b). rewrite <- list_elem_of_In in Hall. specialize (Hall Hb).
  apply orb_true_iff in Hall as [Hne|He]; apply bool_decide_eq_true in Hne || apply bool_decide_eq_true in He; done.
Qed.

Lemma computeRoot_app node p q : _computeRoot node (p ++ q) = _computeRoot (_computeRoot node p) q.
Proof. revert node. induction p as [|i p IH]; intros; simpl; auto. Qed.
Lemma climbed_app node p q : climbed node (p ++ q) = climbed node p ++ climbed (_computeRoot node p) q.
Proof. revert node. induction p as [|i p IH]; intros; simpl; [done|]. by rewrite IH. Qed.

Lemma siblings_root t : forall path t', descend t path = Some t' ->
  _computeRoot (root t') (siblings t path) = root t.
Proof.
  induction t as [h|l IHl r IHr]; intros [|[] path] t' Hd; simpl in *; simplify_eq; try done;
    rewrite computeRoot_app; [rewrite (IHr path t' Hd)|rewrite (IHl path t' Hd)]; done.
Qed.

Lemma app_inj_32 {A} (a b c d : list A) : length a = 32%nat -> length c = 32%nat ->
  a ++ b = c ++ d -> a = c /\ b = d.
Proof. intros Ha Hc. apply app_inj_1. congruence. Qed.

Fixpoint leaves_32 (t : merkle) : Prop :=
  match t with MLeaf h => length h = 32%nat | MNode l r => leaves_32 l /\ leaves_32 r end.

Fixpoint leaves (t : merkle) : list (list byte) :=
  match t with MLeaf h => [h] | MNode l r => leaves l ++ leaves r end.

Lemma descend_leaves_32 t : forall path t', descend t path = Some t' -> leaves_32 t -> leaves_32 t'.
Proof.
  induction t as [h|l IHl r IHr]; intros [|[] path] t' Hd; simpl in Hd; simplify_eq; try done; intros [? ?]; eauto.
Qed.

Lemma way_down_app proof i : way_down (proof ++ [i]) = (mi_direction i =? 0) :: way_down proof.
Proof. unfold way_down. by rewrite map_app, reverse_app. Qed.

Section sound.
Hypothesis hash_32 : forall bs, length (sha256 bs) = 32%nat.

Lemma root_32 t : leaves_32 t -> length (root t) = 32%nat.
Proof. destruct t; simpl; [done|]. intros. apply hash_32. Qed.
Lemma computeRoot_32 p : forall node, length node = 32%nat -> length (_computeRoot node p) = 32%nat.
Proof.
  induction p as [|i p IH]; simpl; intros node Hn; [done|]. apply IH. unfold climb.
  by destruct (_ =? _).
Qed.

(** A climb that ends at the root of a tree starts at the root of a subtree, the
    one the path leads to, or goes through a leaf, which is then the hash of one
    of the strings that were hashed on the way. *)
Lemma path_sound proof : forall t node,
  length node = 32%nat -> Forall (fun i => length (mi_hash i) = 32%nat) proof -> leaves_32 t ->
  no_collision (climbed node proof) (hashed t) -> _computeRoot node proof = root t ->
  (exists t', descend t (way_down proof) = Some t' /\ root t' = node) \/
  (exists s, s ∈ climbed node proof /\ sha256 s ∈ leaves t).
Proof.
  induction proof as [|i proof IH] using rev_ind; intros t node Hn Hp Ht Hc Hr.
  { left. exists t. split; [by destruct t|by symmetry]. }
  apply Forall_app in Hp as [Hp [Hi _]%Forall_cons].
  rewrite computeRoot_app in Hr. simpl in Hr. rewrite climbed_app in Hc |- *. simpl in Hc |- *.
  destruct t as [h|l r].
  { right. eexists. split; [apply elem_of_app; right; by left|]. simpl in Hr. unfold climb in Hr.
    simpl. rewrite <- Hr. destruct (mi_direction i =? 0); by left. }
  destruct Ht as [Hl Hr32]. pose proof (computeRoot_32 proof node Hn) as H32.
  assert (forall t0, hashed t0 ⊆ hashed l ++ hashed r -> leaves t0 ⊆ leaves (MNode l r) ->
    leaves_32 t0 -> _computeRoot node proof = root t0 ->
    (exists t', descend t0 (way_down proof) = Some t' /\ root t' = node) \/
    (exists s, s ∈ climbed node proof ++ [if mi_direction i =? 0
       then mi_hash i ++ _computeRoot node proof else _computeRoot node proof ++ mi_hash i] /\
       sha256 s ∈ leaves (MNode l r))) as Hsub.
  { intros t0 Hin Hlv H0 Hr0. destruct (IH t0 node Hn Hp H0) as [|(s & Hs & Hsl)]; [|done|by left|].
    - intros a b Ha Hb Hab. apply Hc; [apply elem_of_app; by left|right; by apply Hin|done].
    - right. exists s. split; [apply elem_of_app; by left|by apply Hlv]. }
  rewrite way_down_app. unfold climb in Hr. destruct (mi_direction i =? 0) eqn:Ei.
  - apply Hc in Hr; [|apply elem_of_app; right; by left|by left].
    apply app_inj_32 in Hr as [_ Hr]; [|done|by apply root_32]. simpl.
    apply (Hsub r); [set_solver|set_solver|done..].
  - apply Hc in Hr; [|apply elem_of_app; right; by left|by left].
    apply app_inj_32 in Hr as [Hr _]; [|done|by apply root_32]. simpl.
    apply (Hsub l); [set_solver|set_solver|done..].
Qed.

Lemma climbed_64 proof : forall node, length node = 32%nat ->
  Forall (fun i => length (mi_hash i) = 32%nat) proof -> forall s, s ∈ climbed node proof -> length s = 64%nat.
Proof.
  induction proof as [|i proof IH]; intros node Hn Hp s; simpl; [by intros ?%elem_of_nil|].
  apply Forall_cons in Hp as [Hi Hp]. intros [->|Hs]%elem_of_cons.
  - destruct (_ =? 0); rewrite length_app; lia.
  - eapply (IH (climb node i)); [|done|done]. unfold climb. by destruct (_ =? 0).
Qed.

Lemma descend_within t : forall path t', descend t path = Some t' -> hashed t' ⊆ hashed t /\ leaves t' ⊆ leaves t.
Proof.
  induction t as [h|l IHl r IHr]; intros [|[] path] t' Hd; simpl in Hd; simplify_eq; try done.
  - destruct (IHr _ _ Hd) as [H1 H2]. simpl. set_solver.
  - destruct (IHl _ _ Hd) as [H1 H2]. simpl. set_solver.
Qed.

(** The leaves of a tree are the hashes of strings, none as long as those that
    are hashed for inner nodes. *)
Definition leaves_of (t : merkle) (strings : list (list byte)) : Prop :=
  leaves t ⊆ map sha256 strings /\ Forall (fun s => length s <> 64%nat) strings.

(** A climb from the hash of such a string to the root starts at a leaf, and the
    string is one of the tree's. *)
Lemma path_leaf proof t strings x : leaves_of t strings -> length x <> 64%nat ->
  Forall (fun i => length (mi_hash i) = 32%nat) proof -> leaves_32 t ->
  no_collision (x :: climbed (sha256 x) proof) (hashed t ++ strings) ->
  _computeRoot (sha256 x) proof = root t ->
  descend t (way_down proof) = Some (MLeaf (sha256 x)) /\ x ∈ strings.
Proof.
  intros [Hl H64] Hx Hp Ht Hc Hr. rewrite Forall_forall in H64.
  destruct (path_sound proof t (sha256 x)) as [(t' & Hd & Hroot)|(s & Hs & Hsl)]; try done; [..|].
  - intros a b Ha Hb. apply Hc; [by right|apply elem_of_app; by left].
  - destruct (descend_within _ _ _ Hd) as [Hh Hlv]. destruct t' as [h|l r]; simpl in Hroot.
    + subst h. split; [done|]. assert (sha256 x ∈ leaves t) as Hin%Hl by (apply Hlv; by left).
      apply list_elem_of_fmap in Hin as (y & Hy & Hin). rewrite (Hc x y); [done|by left|apply elem_of_app; by right|done].
    + exfalso. apply Hx. rewrite (Hc x (root l ++ root r)); [|by left|apply elem_of_app; left; apply Hh; by left|done].
      assert (leaves_32 (MNode l r)) as [H1 H2] by (by eapply descend_leaves_32).
      rewrite length_app, !root_32 by done. done.
  - exfalso. apply Hl, list_elem_of_fmap in Hsl as (y & Hy & Hin). apply (H64 y Hin).
    rewrite <- (Hc s y); [|by right|apply elem_of_app; by right|done]. by eapply climbed_64.
Qed.
End sound.

Lemma proveOutcome_ok roots data height b : proveOutcome roots data height = Ok b ->
  b = true /\ exists f r, decodeFullOutcomeProof sha256 (mkReader data 0) = Ok (f, r) /\
    sol_finished r = true /\
    outcome_root_of f = il_outcome_root (bl_inner_lite (fp_block_header_lite f)) /\
    _computeRoot (bl_hash (fp_block_header_lite f)) (fp_block_proof f) = roots height.
Proof.
  unfold proveOutcome. intros Hrun. sol_step Hrun. rename a into f.
  apply decode_all_ok in E as (r & Hd & Hf). sol_step Hrun. sol_step Hrun. injection Hrun as <-.
  apply bool_decide_eq_true in E, E0. split; [done|]. by exists f, r.
Qed.
Lemma proveOutcome_run roots data height f r :
  decodeFullOutcomeProof sha256 (mkReader data 0) = Ok (f, r) -> sol_finished r = true ->
  outcome_root_of f = il_outcome_root (bl_inner_lite (fp_block_header_lite f)) ->
  _computeRoot (bl_hash (fp_block_header_lite f)) (fp_block_proof f) = roots height ->
  proveOutcome roots data height = Ok true.
Proof.
  intros Hd Hf Ho Hb. unfold proveOutcome.
  rewrite (decode_all_run _ _ _ _ _ Hd Hf). cbn [mbind outcome_bind].
  rewrite bool_decide_eq_true_2 by done. cbn [require mbind outcome_bind].
  by rewrite bool_decide_eq_true_2 by done.
Qed.
End merkle.

(** ** Decoded paths *)

Lemma yields_bytes32 : reader_yields (fun h => length h = 32%nat) decodeBytes32.
Proof.
  intros r h r' Hrun. unfold decodeBytes32, shift_read in Hrun.
  destruct (decide _) as [Hle|]; [|done]. injection Hrun as <- _.
  rewrite length_take, length_drop. lia.
Qed.
Lemma yields_path : reader_yields (Forall (fun i => length (mi_hash i) = 32%nat)) decodeMerklePath.
Proof.
  eapply reader_yields_bind; [apply yields_any|intros len _]. apply reader_yields_times.
  eapply reader_yields_bind; [apply yields_bytes32|intros h Hh].
  eapply reader_yields_bind; [apply yields_any|intros d _]. destruct (d <? 2); [by apply reader_yields_ret|done].
Qed.

Definition paths_32 (f : FullOutcomeProof) : Prop :=
  Forall (fun i => length (mi_hash i) = 32%nat) (eop_proof (fp_outcome_proof f)) /\
  Forall (fun i => length (mi_hash i) = 32%nat) (fp_outcome_root_proof f) /\
  Forall (fun i => length (mi_hash i) = 32%nat) (fp_block_proof f).
(** The string whose hash is the leaf of an outcome. *)
Definition outcome_string (w : ExecutionOutcomeWithId) : list byte :=
  let hashes := eo_merkelization_hashes (eoi_outcome w) in
  le_bytes 4 (1 + Z.of_nat (length hashes)) ++ eoi_id w ++ concat hashes.
(** The hashes that the decoder computes. *)
Definition computed (hash : list byte -> list byte) (f : FullOutcomeProof) : Prop :=
  let w := eop_outcome_with_id (fp_outcome_proof f) in
  (eoi_hash w = hash (outcome_string w) /\ length (outcome_string w) <> 64%nat) /\
  (exists x, bl_hash (fp_block_header_lite f) = hash x).

Section decoded.
Context (hash : list byte -> list byte) (hash_32 : forall bs, length (hash bs) = 32%nat).

Lemma yields_hash_32 {A} (m : R A) : reader_yields (fun p => length p.2 = 32%nat) (with_hash hash m).
Proof.
  intros r p r' Hrun. unfold with_hash in Hrun. apply obind_ok in Hrun as ([a d] & _ & Hrun).
  unfold peekSha256 in Hrun. cbn in Hrun. injection Hrun as <- _. apply hash_32.
Qed.

Lemma yields_merkelization :
  reader_yields (fun o => Forall (fun h => length h = 32%nat) (eo_merkelization_hashes o)) (decodeExecutionOutcome hash).
Proof.
  eapply reader_yields_bind; [apply yields_any|intros len _].
  eapply reader_yields_bind; [apply yields_any|intros logs _].
  eapply reader_yields_bind; [apply yields_hash_32|intros [[[[[ids gas] tokens] ex] st] h] Hh].
  apply reader_yields_ret. simpl. constructor; [done|]. apply Forall_forall. intros x (y & -> & _)%list_elem_of_fmap.
  apply hash_32.
Qed.

Lemma concat_32 (l : list (list byte)) : Forall (fun h => length h = 32%nat) l -> length (concat l) = (32 * length l)%nat.
Proof. induction 1 as [|h l Hh _ IH]; [done|]. simpl. rewrite length_app, IH. lia. Qed.

Lemma yields_outcome : reader_yields (fun e =>
    Forall (fun i => length (mi_hash i) = 32%nat) (eop_proof e) /\
    eoi_hash (eop_outcome_with_id e) = hash (outcome_string (eop_outcome_with_id e)) /\
    length (outcome_string (eop_outcome_with_id e)) <> 64%nat) (decodeExecutionOutcomeWithIdAndProof hash).
Proof.
  eapply reader_yields_bind; [apply yields_path|intros p Hp].
  eapply reader_yields_bind; [apply yields_any|intros bh _].
  eapply (reader_yields_bind _ _ _ (fun w => eoi_hash w = hash (outcome_string w) /\ length (outcome_string w) <> 64%nat)).
  - eapply reader_yields_bind; [apply yields_bytes32|intros i Hi].
    eapply reader_yields_bind; [apply yields_merkelization|intros o Ho].
    apply reader_yields_ret. split; [done|]. unfold outcome_string. cbn [eoi_id eoi_outcome].
    rewrite !length_app, length_le_bytes, Hi, concat_32 by done. lia.
  - intros w Hw. by apply reader_yields_ret.
Qed.

Lemma yields_proof : reader_yields (fun f => paths_32 f /\ computed hash f) (decodeFullOutcomeProof hash).
Proof.
  eapply reader_yields_bind; [apply yields_outcome|intros o [Ho1 Ho2]].
  eapply reader_yields_bind; [apply yields_path|intros rp Hrp].
  eapply (reader_yields_bind _ _ _ (fun h => exists x, bl_hash h = hash x)).
  { do 3 (eapply reader_yields_bind; [apply yields_any|intros ? _]). apply reader_yields_ret. by eexists. }
  intros h Hh. eapply reader_yields_bind; [apply yields_path|intros bp Hbp]. by apply reader_yields_ret.
Qed.
End decoded.

(** ** Theorems *)

(** The strings hashed for a proof: the outcome's, and those along its paths. *)
Definition proof_strings `{Crypto} (f : FullOutcomeProof) : list (list byte) :=
  let w := eop_outcome_with_id (fp_outcome_proof f) in
  let shard := _computeRoot (eoi_hash w) (eop_proof (fp_outcome_proof f)) in
  (outcome_string w :: climbed (eoi_hash w) (eop_proof (fp_outcome_proof f)))
  ++ (shard :: climbed (sha256 shard) (fp_outcome_root_proof f))
  ++ climbed (bl_hash (fp_block_header_lite f)) (fp_block_proof f).

(** The outcomes of a block: a tree for each shard, whose leaves are the hashes of
    the outcomes' strings, and the tree of the hashes of their roots. *)
Record block_outcomes `{Crypto} (shards : merkle) (trees : list merkle) (outcomes : list (list byte)) : Prop := {
  bo_shards : leaves shards ⊆ map (fun t => sha256 (root t)) trees;
  bo_trees : Forall (fun t => leaves_of t outcomes /\ leaves_32 t) trees;
  bo_shards_32 : leaves_32 shards
}.
Definition outcome_strings `{Crypto} (shards : merkle) (trees : list merkle) (outcomes : list (list byte))
    : list (list byte) :=
  hashed shards ++ map root trees ++ flat_map hashed trees ++ outcomes.

(** C13: an accepted proof proves membership.  Let [blocks] be a Merkle tree whose
    root the bridge shows for the height, and let [shards], [trees] and
    [outcomes] be the outcomes of a block with the outcome root of the proof's
    header.  Unless two different strings with the same SHA-256 hash occur among
    those hashed for the proof and in the trees, the outcome of the proof is a
    leaf of the tree of a shard: the first path leads to it, the second to the
    shard, and its string is one of the block's outcomes.  The header is at its
    place in [blocks], or the third path goes through a leaf of [blocks]. *)
Theorem accepted_proof_sound `{Crypto} (roots : Z -> list byte) (data : list byte) (height : Z)
    (f : FullOutcomeProof) (r : reader) (blocks shards : merkle) (trees : list merkle) (outcomes : list (list byte)) :
  (forall bs, length (sha256 bs) = 32%nat) ->
  decodeFullOutcomeProof sha256 (mkReader data 0) = Ok (f, r) ->
  proveOutcome roots data height = Ok true ->
  leaves_32 blocks -> root blocks = roots height ->
  block_outcomes shards trees outcomes -> root shards = il_outcome_root (bl_inner_lite (fp_block_header_lite f)) ->
  no_collision (proof_strings f) (hashed blocks ++ outcome_strings shards trees outcomes) ->
  (exists t, t ∈ trees /\ descend shards (way_down (fp_outcome_root_proof f)) = Some (MLeaf (sha256 (root t))) /\
     descend t (way_down (eop_proof (fp_outcome_proof f))) =
       Some (MLeaf (eoi_hash (eop_outcome_with_id (fp_outcome_proof f)))) /\
     outcome_string (eop_outcome_with_id (fp_outcome_proof f)) ∈ outcomes) /\
  ((exists t, descend blocks (way_down (fp_block_proof f)) = Some t /\
      root t = bl_hash (fp_block_header_lite f)) \/
   (exists s, s ∈ climbed (bl_hash (fp_block_header_lite f)) (fp_block_proof f) /\ sha256 s ∈ leaves blocks)).
Proof.
  intros H32 Hd Hrun Hb Hrb [Hsh Htr Hs32] Hrs Hc.
  apply proveOutcome_ok in Hrun as (_ & f' & r' & Hd' & _ & Ho & Hbr). rewrite Hd in Hd'. injection Hd' as <- <-.
  destruct (yields_proof sha256 H32 _ _ _ Hd) as [(Hp1 & Hp2 & Hp3) [[Hw Hw64] [x Hx]]].
  unfold proof_strings, outcome_strings in Hc. unfold outcome_root_of in Ho. rewrite Forall_forall in Htr.
  set (w := eop_outcome_with_id (fp_outcome_proof f)) in *.
  set (shard := _computeRoot (eoi_hash w) (eop_proof (fp_outcome_proof f))) in *.
  assert (length shard = 32%nat) as Hshard by (apply computeRoot_32; [done|by rewrite Hw]).
  split.
  - destruct (path_leaf H32 (fp_outcome_root_proof f) shards (map root trees) shard) as [Hd1 Hin]; [|lia|done|done| |congruence|].
    { split.
      - intros h Hh%Hsh. apply list_elem_of_fmap in Hh as (t & -> & Ht). apply list_elem_of_fmap.
        exists (root t). split; [done|]. apply list_elem_of_fmap. by exists t.
      - apply Forall_forall. intros y (t & -> & Ht)%list_elem_of_fmap. rewrite (root_32 H32); [done|by apply Htr]. }
    { intros a b Ha Hb'. apply Hc; set_solver. }
    apply list_elem_of_fmap in Hin as (t & Hroot & Ht). destruct (Htr t Ht) as [Hlv Hl32].
    destruct (path_leaf H32 (eop_proof (fp_outcome_proof f)) t outcomes (outcome_string w)) as [Hd2 Hin2]; try done.
    { rewrite <- Hw. intros a b Ha Hb'. apply Hc; [set_solver|]. apply elem_of_app in Hb' as [Hb'|Hb']; [|set_solver].
      apply elem_of_app; right. apply elem_of_app; right. apply elem_of_app; right. apply elem_of_app; left.
      apply list_elem_of_In, in_flat_map. exists t. by rewrite <- !list_elem_of_In. }
    { by rewrite <- Hw. }
    exists t. rewrite <- Hroot, Hw. done.
  - destruct (path_sound H32 (fp_block_proof f) blocks (bl_hash (fp_block_header_lite f)))
      as [|(s & ? & ?)]; [by rewrite Hx|done|done| |congruence|by left|right; by exists s].
    intros a b Ha Hb'. apply Hc; set_solver.
Qed.

(** C14: the proof of an outcome without logs, in a block with one shard (so that
    the path from the shard's root to the outcome root is empty), whose two other
    paths are those of the shard's and the chain's Merkle trees, is encoded by the
    command-line tool to bytes that the prover accepts, for every height for which
    the bridge shows the root of the chain's tree. *)
Theorem honest_proof_accepted `{BNLaws} `{EncLaws} `{Crypto} (roots : Z -> list byte) (height : Z)
    (p : FinalProof) (f : FullOutcomeProof) (shard blocks t1 t2 : merkle) (path1 path2 : list bool) :
  proof_means sha256 p f ->
  descend shard path1 = Some t1 -> root t1 = eoi_hash (eop_outcome_with_id (fp_outcome_proof f)) ->
  eop_proof (fp_outcome_proof f) = siblings shard path1 ->
  il_outcome_root (bl_inner_lite (fp_block_header_lite f)) = sha256 (root shard) ->
  descend blocks path2 = Some t2 -> root t2 = bl_hash (fp_block_header_lite f) ->
  fp_block_proof f = siblings blocks path2 -> root blocks = roots height ->
  exists bs, borshifyOutcomeProof p = Ok bs /\ proveOutcome roots bs height = Ok true.
Proof.
  intros Hm Hd1 Ht1 Hp1 Ho Hd2 Ht2 Hp2 Hb. exists (enc_proof f). split; [by eapply borshify_proof_ok|].
  eapply proveOutcome_run; [by eapply reads_whole, reads_proof|apply Nat.eqb_refl| |].
  - destruct Hm as (_ & Hr & _). unfold outcome_root_of. rewrite Hr, Hp1, <- Ht1. cbn [_computeRoot].
    by rewrite (siblings_root _ _ _ Hd1).
  - by rewrite Hp2, <- Ht2, (siblings_root _ _ _ Hd2).
Qed.

(** ** Witnesses *)

#[local] Existing Instance toy_crypto.

(** An outcome tree of one leaf, whose hash is [le_bytes 32 2], and a chain of
    two blocks. *)
Definition two_hash : string := "8opHzTAnfzRpPEx21XtnrVTX28YQuCpAjcn1PczScKh".
Definition prover_inner_lite : InnerLite :=
  mkInnerLite (JNum 9605) (ones 32) (ones 32) (ones 32) two_hash
    (Some (JStr "1593302413887006912")) (JStr "1593302413887006912") (ones 32) (ones 32).
Definition prover_inner_lite' : BlockHeaderInnerLite :=
  let l h := mkBlockHeaderInnerLite 9605 zero32 zero32 zero32 (le_bytes 32 2) 1593302413887006912 zero32 zero32 h in
  l (toy_hash (enc_inner_lite (l []))).
Definition prover_proof : FinalProof :=
  mkFinalProof
    (mkOutcomeProof [] (ones 32) (ones 32)
      (mkOutcome [] [ones 32] (JNum 2428000000000) (JStr "242800000000000000000") "token.near"
        (mkExecutionStatus (Some "AQI=") None)))
    (mkBlockHeaderLite (ones 32) (ones 32) prover_inner_lite)
    [mkMerklePathItem (ones 32) "Right"].
Definition prover_proof' : FullOutcomeProof :=
  let eo m := mkExecutionOutcome [] [zero32] 2428000000000 242800000000000000000 (utf8 "token.near")
    (mkSolExecutionStatus 2 false false [x01; x02] zero32) m in
  let eo' := eo [toy_hash (enc_outcome_body (eo []))] in
  mkFullOutcomeProof
    (mkExecutionOutcomeWithIdAndProof [] zero32
      (mkExecutionOutcomeWithId zero32 eo'
        (toy_hash (le_bytes 4 2 ++ zero32 ++ concat (eo_merkelization_hashes eo')))))
    []
    (mkBlockHeaderLight zero32 zero32 prover_inner_lite'
      (header_hash toy_hash (il_hash prover_inner_lite') zero32 zero32))
    [mkMerkleItem zero32 1].
Definition prover_blocks : merkle :=
  MNode (MLeaf (bl_hash (fp_block_header_lite prover_proof'))) (MLeaf zero32).
Definition prover_shard : merkle := MLeaf (le_bytes 32 2).
Definition prover_roots (height : Z) : list byte := root prover_blocks.

Lemma prover_proof_means : proof_means toy_hash prover_proof prover_proof'.
Proof.
  assert (inner_lite_means toy_hash prover_inner_lite prover_inner_lite') as Hil.
  { unfold inner_lite_means. repeat split; try apply ones_means; vm_compute; congruence. }
  unfold proof_means. split; [|split; [reflexivity|split; [|]]].
  - unfold outcome_with_id_means. split; [by split; [|apply Forall2_nil_2]|].
    split; [apply ones_means|]. split; [apply ones_means|]. split; [|reflexivity].
    unfold outcome_means. split; [done|]. split; [done|]. split; [done|].
    split; [apply Forall2_cons_2; [apply ones_means|apply Forall2_nil_2]|].
    split; [repeat split; vm_compute; congruence|].
    split; [repeat split; vm_compute; congruence|].
    split; [repeat split; vm_compute; congruence|].
    split; [split; vm_compute; reflexivity|reflexivity].
  - split; [apply ones_means|]. split; [apply ones_means|]. split; [exact Hil|reflexivity].
  - split; [done|]. apply Forall2_cons_2; [|apply Forall2_nil_2]. split; [apply ones_means|reflexivity].
Qed.

Lemma honest_proof_accepted_witness :
  exists bs, borshifyOutcomeProof prover_proof = Ok bs /\ proveOutcome prover_roots bs 9605 = Ok true.
Proof.
  apply (honest_proof_accepted prover_roots 9605 prover_proof prover_proof' prover_shard prover_blocks
    prover_shard (MLeaf (bl_hash (fp_block_header_lite prover_proof'))) [] [false]).
  - apply prover_proof_means.
  - reflexivity.
  - vm_compute. reflexivity.
  - reflexivity.
  - vm_compute. reflexivity.
  - reflexivity.
  - reflexivity.
  - vm_compute. reflexivity.
  - reflexivity.
Defined.

(** A hash that mixes all bytes, and the same proof with it. *)
Definition mix_hash (bs : list byte) : list byte :=
  le_bytes 32 (fold_left (fun acc b => (acc * 1000003 + Z.of_N (Byte.to_N b) + 1) mod 2 ^ 256) bs 7).
Definition mix_crypto : Crypto := {|
  sha256 := mix_hash;
  keccak256 := mix_hash;
  ecrecover h v r s := 0;
  edwards_check xy r s m1 m2 := bool_decide (r = xy)
|}.
#[local] Existing Instance mix_crypto.
Definition mixed_outcome : ExecutionOutcomeWithId :=
  let eo m := mkExecutionOutcome [] [zero32] 2428000000000 242800000000000000000 (utf8 "token.near")
    (mkSolExecutionStatus 2 false false [x01; x02] zero32) m in
  let w h := mkExecutionOutcomeWithId zero32 (eo [mix_hash (enc_outcome_body (eo []))]) h in
  w (mix_hash (outcome_string (w []))).
Definition mixed_inner_lite : BlockHeaderInnerLite :=
  let l h := mkBlockHeaderInnerLite 9605 zero32 zero32 zero32 (mix_hash (eoi_hash mixed_outcome))
    1593302413887006912 zero32 zero32 h in
  l (mix_hash (enc_inner_lite (l []))).
Definition mixed_proof : FullOutcomeProof :=
  mkFullOutcomeProof (mkExecutionOutcomeWithIdAndProof [] zero32 mixed_outcome) []
    (mkBlockHeaderLight zero32 zero32 mixed_inner_lite (header_hash mix_hash (il_hash mixed_inner_lite) zero32 zero32))
    [mkMerkleItem zero32 1].
Definition mixed_blocks : merkle := MNode (MLeaf (bl_hash (fp_block_header_lite mixed_proof))) (MLeaf zero32).
Definition mixed_shard : merkle := MLeaf (eoi_hash mixed_outcome).
Definition mixed_shards : merkle := MLeaf (mix_hash (eoi_hash mixed_outcome)).
Definition mixed_roots (height : Z) : list byte := root mixed_blocks.

Lemma accepted_proof_sound_witness :
  (exists t, t ∈ [mixed_shard] /\
     descend mixed_shards (way_down (fp_outcome_root_proof mixed_proof)) = Some (MLeaf (sha256 (root t))) /\
     descend t (way_down (eop_proof (fp_outcome_proof mixed_proof))) =
       Some (MLeaf (eoi_hash (eop_outcome_with_id (fp_outcome_proof mixed_proof)))) /\
     outcome_string (eop_outcome_with_id (fp_outcome_proof mixed_proof)) ∈ [outcome_string mixed_outcome]) /\
  ((exists t, descend mixed_blocks (way_down (fp_block_proof mixed_proof)) = Some t /\
      root t = bl_hash (fp_block_header_lite mixed_proof)) \/
   (exists s, s ∈ climbed (bl_hash (fp_block_header_lite mixed_proof)) (fp_block_proof mixed_proof) /\
      sha256 s ∈ leaves mixed_blocks)).
Proof.
  apply (accepted_proof_sound mixed_roots (enc_proof mixed_proof) 9605 mixed_proof
    (mkReader (enc_proof mixed_proof) (length (enc_proof mixed_proof))) mixed_blocks mixed_shards
    [mixed_shard] [outcome_string mixed_outcome]).
  - intros bs. apply length_le_bytes.
  - vm_compute. reflexivity.
  - vm_compute. reflexivity.
  - split; vm_compute; reflexivity.
  - vm_compute. reflexivity.
  - split; [done| |vm_compute; reflexivity]. constructor; [|constructor]. split; [|vm_compute; reflexivity]. split.
    + intros h Hh. apply list_elem_of_singleton in Hh as ->. apply list_elem_of_fmap. eexists.
      split; [|by left]. vm_compute. reflexivity.
    + repeat constructor. vm_compute. congruence.
  - vm_compute. reflexivity.
  - apply no_collision_check. vm_compute. reflexivity.
Defined.
