(* ===== verification/Robust.v ===== *)
(** * Retries and the robust Ethereum client of [utils/robust.js]

    [retry], [backoff], [RobustWeb3] and [normalizeEthKey]. *)

From Stdlib Require Import Ascii Strings.Byte.
From stdpp Require Import base list strings pretty.
From Stdlib Require Import ZArith Lia SpecFloat.
From S2P Require Import Prelude Js Effects.
Local Open Scope Z_scope.

Definition RETRY : nat := 10.
Definition DELAY : float := f_of_Z 500.
(** The double closest to 1.2. *)
Definition BACKOFF : float := S754_finite false 5404319552844595 (-52).

(** [normalizeEthKey(key)] *)
Definition normalizeEthKey (key : string) : string :=
  let result := toLowerCase key in
  if startsWith "0x" result then result else "0x" +:+ result.

Section retrying.
Context {St N : Type} `{Clock N}.


(** [retry(retries, fn)] *)
Fixpoint retry {A} (retries : nat) (fn : M St N event A) : M St N event A :=
  catch fn (fun err =>
    match retries with
    | S (S _ as r) => retry r fn
    | _ => throw err
    end).

(** [backoff(retries, fn, delay, wait)]: the recursive call does not pass
    [wait] on, so it takes its default value. *)
Fixpoint backoff {A} (retries : nat) (fn : M St N event A) (delay wait : float) : M St N event A :=
  catch fn (fun err =>
    match retries with
    | S (S _ as r) => sleep delay;; backoff r fn (f_mul delay wait) BACKOFF
    | _ => throw err
    end).
End retrying.

Definition SLOW_TX_ERROR_MSG : string := "transaction not executed within 5 minutes".
Definition NOT_OPEN : string := "Error: connection not open".
Definition WRONG_NONCE : string := "the tx doesn't have the correct nonce".

(** [Web3.utils.toHex] on integers *)
Class Web3Utils := { toHex : Z -> string; toHex_inj : Inj (=) (=) toHex }.

(** A [web3.eth.Contract]: its address, [contract.methods[m](...args).encodeABI()]
    and [contract._decodeEventABI] with the contract's interface, which gives
    the event's name (empty for an event that the interface does not name) and
    the event object. *)
Record contract := mkContract {
  c_address : string;
  c_encodeABI : string -> list jsval -> exn + string;
  c_decodeEventABI : jsval -> exn + string * jsval
}.

Record options := mkOptions {
  o_from : string;
  o_handleRevert : bool;
  o_gas : Z;
  o_gasPrice : string
}.

(** [receipt.events[name]] *)
Definition get_prop (k : string) (props : list (string * jsval)) : jsval :=
  default VUndef (assoc k props).

(** One round of [events.forEach(function (ev) { ... })]: the dictionary
    [receipt.events] and the counter of unnamed events. *)
Definition group_event (st : list (string * jsval) * nat) (ev : string * jsval)
    : list (string * jsval) * nat :=
  let '(events, count) := st in
  let '(name, ev) := ev in
  if truthy name then
    let old := get_prop name events in
    if js_truthy old then
      match old with
      | VArr l => (set_prop name (VArr (l ++ [ev])) events, count)
      | _ => (set_prop name (VArr [old; ev]) events, count)
      end
    else (set_prop name ev events, count)
  else (set_prop (pretty count) ev events, S count).

Definition group_events (evs : list (string * jsval)) : list (string * jsval) :=
  (fold_left group_event evs ([], 0%nat)).1.

(** The part of [callContract] between the receipt and its [return]. *)
Definition decode_receipt (c : contract) (receipt : jsval) : outcome jsval :=
  logs ← js_get receipt "logs";
  match logs, receipt with
  | VArr ls, VObj props =>
      evs ← mapM_out (fun log => of_sum (c_decodeEventABI c log)) ls;
      Ok (VObj (delete_prop "logs" (set_prop "events" (VObj (group_events evs)) props)))
  | _, _ => Ok receipt
  end.

Section web3.
Context {St N : Type} `{Clock N} `{EthNode N} `{Web3Utils}.
Variable ethNodeUrl : string.
Abbreviation M := (M St N event).

Definition setProvider : M unit := fun w =>
  (mkWorld (store w) (eth_setProvider ethNodeUrl (net w)) (trace w ++ [EvSetProvider ethNodeUrl]),
   Ok tt).

(** The [catch] block shared by the wrapped calls. *)
Definition reconnect_and_throw {A} (e : exn) : M A :=
  (if String.eqb (exn_toString e) NOT_OPEN then setProvider else mret tt);; throw e.

Definition getBlockNumber : M Z :=
  backoff RETRY
    (catch (n ← rpc eth_getBlockNumber EvGetBlockNumber; mret n) reconnect_and_throw)
    DELAY BACKOFF.

Definition getBlock (b : jsval) : M jsval :=
  backoff RETRY
    (catch
      (block ← rpc (eth_getBlock b) (EvGetBlock b);
       lift match block with
       | VNull => Throw (Error "web3.eth.getBlock returns null")
       | _ => Ok block
       end)
      reconnect_and_throw)
    DELAY BACKOFF.

Definition getTransactionReceipt (t : jsval) : M jsval :=
  backoff RETRY
    (catch (r ← rpc (eth_getTransactionReceipt t) (EvGetReceipt t); mret r) reconnect_and_throw)
    DELAY BACKOFF.

Definition destroy : M unit := fun w =>
  match eth_close with
  | Some close => (mkWorld (store w) (close (net w)) (trace w ++ [EvCloseConnection]), Ok tt)
  | None => (w, Ok tt)
  end.

(** *** [callContract] *)

Definition gas_limit : Z := 10000 * 10 ^ 9.

Definition contract_tx (c : contract) (o : options) (gasPrice nonce : Z) (data : string) : ethtx :=
  mkEthTx (o_from o) (c_address c) (o_handleRevert o) (toHex (o_gas o))
    (if truthy (o_gasPrice o) then o_gasPrice o else toHex gasPrice) (toHex nonce) data.

Definition send_with_timeout (tx : ethtx) : M jsval :=
  rpc (fun n => let '(n', p) := eth_sendTransaction tx n in
         (n', promiseWithTimeout (5 * 60 * 1000) p SLOW_TX_ERROR_MSG))
    (fun r => EvSend tx (sum_void r)).

(** The [try] block of the loop. *)
Definition send_once (c : contract) (method : string) (args : list jsval) (o : options)
    (gasPrice nonce : Z) : M jsval :=
  data ← lift (of_sum (c_encodeABI c method args));
  let tx := contract_tx c o gasPrice nonce data in
  catch (rpc (eth_call tx) (fun _ => EvEthCall tx)) (fun _ => mret tt);;
  receipt ← send_with_timeout tx;
  lift (decode_receipt c receipt).

Fixpoint call_loop (fuel : nat) (c : contract) (method : string) (args : list jsval) (o : options)
    (gasPrice nonce : Z) : M jsval :=
  match fuel with
  | O => out_of_fuel
  | S fuel =>
    if gasPrice <? gas_limit then
      r ← attempt (send_once c method args o gasPrice nonce);
      match r with
      | inr receipt => mret receipt
      | inl e =>
          if String.eqb (e_message e) SLOW_TX_ERROR_MSG then
            call_loop fuel c method args o (gasPrice * 2) nonce
          else if includes WRONG_NONCE (e_message e) then
            call_loop fuel c method args o gasPrice (nonce + 1)
          else if String.eqb (exn_toString e) NOT_OPEN then
            setProvider;; call_loop fuel c method args o gasPrice nonce
          else throw e
      end
    else throw (Error "Cannot finish txn within 1e13 gas")
  end.

Definition callContract (fuel : nat) (c : contract) (method : string) (args : list jsval)
    (o : options) : M jsval :=
  gasPrice ← rpc eth_getGasPrice EvGasPrice;
  nonce ← rpc (eth_getTransactionCount (o_from o)) (EvTransactionCount (o_from o));
  call_loop fuel c method args o gasPrice nonce.
End web3.
