(* ===== verification/RobustSpec.v ===== *)
(** * Lemmas about the retrying calls *)

From Stdlib Require Import Ascii Strings.Byte.
From stdpp Require Import base list strings pretty.
From Stdlib Require Import ZArith Lia SpecFloat.
From S2P Require Import Prelude Js Effects Robust.
Local Open Scope Z_scope.

(** ** Reading traces *)

Definition count (p : event -> bool) (tr : list event) : nat := length (List.filter p tr).

(** The durations slept, in order. *)
Definition sleeps (tr : list event) : list float :=
  omap (fun ev => match ev with EvSleep d => Some d | _ => None end) tr.

Lemma count_app p tr tr' : count p (tr ++ tr') = (count p tr + count p tr')%nat.
Proof. unfold count. by rewrite List.filter_app, length_app. Qed.
Lemma count_cons p ev tr : count p (ev :: tr) = ((if p ev then 1 else 0) + count p tr)%nat.
Proof. unfold count. simpl. by destruct (p ev). Qed.
Lemma sleeps_app tr tr' : sleeps (tr ++ tr') = sleeps tr ++ sleeps tr'.
Proof. apply omap_app. Qed.

Lemma last_split {A} (l : list A) : l = [] \/ exists l' x, l = l' ++ [x].
Proof. induction l as [|x l _] using rev_ind; eauto. Qed.

(** ** Backoff as a sequence of attempts *)

Section attempts.
Context {St N : Type} `{Clock N}.
Abbreviation W := (world St N event).

(** [attempts fn ds w w' o]: run [fn] again after each failure, sleeping for
    the next of the durations [ds] in between, until it does not throw or the
    durations are used up. *)
Inductive attempts {A} (fn : M St N event A) : list float -> W -> W -> outcome A -> Prop :=
| at_settle ds w w' o : fn w = (w', o) -> (forall e, o <> Throw e) -> attempts fn ds w w' o
| at_last w w' e : fn w = (w', Throw e) -> attempts fn [] w w' (Throw e)
| at_again d ds w w1 w' e o : fn w = (w1, Throw e) ->
    attempts fn ds (sleep d w1).1 w' o -> attempts fn (d :: ds) w w' o.

(** The durations of [backoff(retries, fn, delay, wait)]. *)
Fixpoint delays (n : nat) (delay wait : float) : list float :=
  match n with
  | O => []
  | S n => delay :: delays n (f_mul delay wait) BACKOFF
  end.

Lemma length_delays n delay wait : length (delays n delay wait) = n.
Proof. revert delay wait. induction n; intros; simpl; auto. Qed.

Lemma backoff_runs_attempts {A} retries (fn : M St N event A) delay wait w :
  attempts fn (delays (pred retries) delay wait) w
    (backoff retries fn delay wait w).1 (backoff retries fn delay wait w).2.
Proof.
  revert delay wait w. induction retries as [|r IH]; intros delay wait w; simpl;
    unfold catch; destruct (fn w) as [w1 [a|e|c|]] eqn:E; simpl;
    try (by eapply at_settle); try by apply at_last.
  destruct r as [|r]; [by apply at_last|]. eapply at_again; [done|].
  apply IH.
Qed.

(** A call that makes one request per run and does not sleep itself. *)
Definition one_request {A} (req : event -> bool) (fn : M St N event A) : Prop :=
  forall w0, exists tr, trace (fn w0).1 = trace w0 ++ tr /\ count req tr = 1%nat /\ sleeps tr = [].

Lemma attempts_trace {A} req (fn : M St N event A) ds w w' o :
  (forall d, req (EvSleep d) = false) -> one_request req fn -> attempts fn ds w w' o ->
  exists tr k, trace w' = trace w ++ tr /\ (k <= length ds)%nat /\ count req tr = S k /\
    sleeps tr = take k ds /\ (forall e, o = Throw e -> k = length ds).
Proof.
  intros Hs Hfn. induction 1 as [ds w w' o E Ho|w w' e E|d ds w w1 w' e o E _ IH];
    destruct (Hfn w) as (tr & Htr & Hc & Hsl); rewrite E in Htr; simpl in Htr.
  - exists tr, 0%nat. repeat split; try done; [lia|]. intros e' ->. by destruct (Ho e').
  - by exists tr, 0%nat.
  - destruct IH as (tr' & k & Ht & Hk & Hc' & Hsl' & Hth). exists (tr ++ EvSleep d :: tr'), (S k).
    split_and!; [| |..].
    + rewrite Ht. simpl. rewrite Htr. by rewrite <- !app_assoc.
    + simpl. lia.
    + by rewrite count_app, count_cons, Hc, Hs, Hc'.
    + rewrite sleeps_app, Hsl. simpl. by rewrite Hsl'.
    + intros e' He'. simpl. by rewrite (Hth e').
Qed.

(** The outcome of the attempts is the outcome of the last one. *)
Lemma attempts_last {A} (fn : M St N event A) ds w w' o :
  attempts fn ds w w' o -> exists w1, fn w1 = (w', o).
Proof. induction 1; eauto. Qed.
End attempts.

Lemma default_delays_bounds :
  Forall (fun d => f_leb (f_of_Z 500) d = true /\ f_leb d (f_of_Z 2150) = true)
    (delays (pred RETRY) DELAY BACKOFF).
Proof.
  assert (forallb (fun d => f_leb (f_of_Z 500) d && f_leb d (f_of_Z 2150))
    (delays (pred RETRY) DELAY BACKOFF) = true) as Hb by (vm_compute; reflexivity).
  apply Forall_forall. intros d Hd. rewrite forallb_forall in Hb.
  by apply andb_true_iff, Hb, list_elem_of_In.
Qed.

(** ** The wrapped calls of [RobustWeb3] *)

Section wrapped.
Context {St N : Type} `{Clock N} `{EthNode N}.
Variable ethNodeUrl : string.

(** A request followed by a pure check, inside the reconnecting handler. *)
Lemma one_request_wrapped {A B} (req : event -> bool) (f : N -> N * (exn + A))
    (ev : exn + A -> event) (k : A -> outcome B) :
  (forall r, req (ev r) = true) -> (forall r d, ev r <> EvSleep d) ->
  (forall u, req (EvSetProvider u) = false) ->
  one_request (St := St) req
    (catch (a ← rpc f ev; lift (k a)) (reconnect_and_throw ethNodeUrl)).
Proof.
  intros Hreq Hns Hsp [s n tr0]. unfold catch, mbind, M_bind, rpc; simpl.
  destruct (f n) as [n' r].
  assert (Hsl : sleeps [ev r] = []) by (simpl; specialize (Hns r); destruct (ev r); naive_solver).
  assert (Hc : count req [ev r] = 1%nat) by by rewrite count_cons, Hreq.
  assert (Hthrow : forall e, exists tr,
    trace (reconnect_and_throw (A := B) ethNodeUrl e (mkWorld s n' (tr0 ++ [ev r]))).1 = tr0 ++ tr /\
    count req tr = 1%nat /\ sleeps tr = []).
  { intros e. unfold reconnect_and_throw, mbind, M_bind.
    destruct (String.eqb _ _); simpl; [|by exists [ev r]].
    exists ([ev r] ++ [EvSetProvider ethNodeUrl]). rewrite app_assoc, count_app, sleeps_app, Hsl, Hc.
    by rewrite count_cons, Hsp. }
  destruct r as [e|a]; simpl; [apply Hthrow|].
  unfold lift. destruct (k a); simpl; [by eexists|apply Hthrow|by eexists..].
Qed.

(** The result of the wrapped call is the checked answer of its request. *)
Lemma wrapped_ok {A B} (f : N -> N * (exn + A)) (ev : exn + A -> event) (k : A -> outcome B)
    (w w' : world St N event) b :
  catch (a ← rpc f ev; lift (k a)) (reconnect_and_throw ethNodeUrl) w = (w', Ok b) ->
  exists a n', f (net w) = (n', inr a) /\ k a = Ok b /\
    w' = mkWorld (store w) n' (trace w ++ [ev (inr a)]).
Proof.
  intros [Hm|(e & w1 & _ & Hh)]%catch_ok.
  - apply bind_ok in Hm as (a & w1 & Hr & Hk). unfold rpc in Hr. unfold lift in Hk.
    destruct (f (net w)) as [n' [e|a']] eqn:E; simpl in *; simplify_eq. eauto 10.
  - unfold reconnect_and_throw, mbind, M_bind in Hh. by destruct (String.eqb _ _).
Qed.

(** No wrapped call exits the process or runs out of fuel. *)
Definition settles {A} (fn : M St N event A) : Prop :=
  forall w, (exists a, (fn w).2 = Ok a) \/ (exists e, (fn w).2 = Throw e).

Lemma wrapped_settles {A B} (f : N -> N * (exn + A)) (ev : exn + A -> event) (k : A -> outcome B) :
  (forall a, (exists b, k a = Ok b) \/ (exists e, k a = Throw e)) ->
  settles (catch (a ← rpc f ev; lift (k a)) (reconnect_and_throw ethNodeUrl)).
Proof.
  intros Hk w. unfold catch, mbind, M_bind, rpc.
  assert (Hthrow : forall e (w1 : world St N event),
    exists e', (reconnect_and_throw (A := B) ethNodeUrl e w1).2 = Throw e').
  { intros e w1. exists e. unfold reconnect_and_throw, mbind, M_bind. by destruct (String.eqb _ _). }
  destruct (f (net w)) as [n' [e|a]]; simpl; [right; apply Hthrow|].
  unfold lift. destruct (Hk a) as [[b ->]|[e ->]]; simpl; [by left; exists b|right; apply Hthrow].
Qed.

Lemma attempts_settles {A} (fn : M St N event A) ds w w' o :
  settles fn -> attempts fn ds w w' o -> (exists a, o = Ok a) \/ (exists e, o = Throw e).
Proof.
  intros Hs (w1 & E)%attempts_last. specialize (Hs w1). by rewrite E in Hs.
Qed.

(** Requests, sleeps and result of a wrapped call under [backoff(RETRY, fn)]. *)
Lemma backoff_wrapped {A B} (req : event -> bool) (f : N -> N * (exn + A))
    (ev : exn + A -> event) (k : A -> outcome B) (w w' : world St N event) o :
  (forall r, req (ev r) = true) -> (forall r d, ev r <> EvSleep d) ->
  (forall u, req (EvSetProvider u) = false) -> (forall d, req (EvSleep d) = false) ->
  (forall a, (exists b, k a = Ok b) \/ (exists e, k a = Throw e)) ->
  backoff RETRY (catch (a ← rpc f ev; lift (k a)) (reconnect_and_throw ethNodeUrl)) DELAY BACKOFF w
    = (w', o) ->
  exists tr n, trace w' = trace w ++ tr /\ (1 <= n <= RETRY)%nat /\ count req tr = n /\
    sleeps tr = take (pred n) (delays (pred RETRY) DELAY BACKOFF) /\
    ((exists b a tr', o = Ok b /\ k a = Ok b /\ tr = tr' ++ [ev (inr a)]) \/
     (exists e, o = Throw e /\ n = RETRY)).
Proof.
  intros Hreq Hns Hsp Hsl Hk E.
  set (fn := catch _ _) in E.
  pose proof (backoff_runs_attempts RETRY fn DELAY BACKOFF w) as Hat. rewrite E in Hat; cbn [fst snd] in Hat.
  destruct (attempts_trace req fn _ w w' o Hsl (one_request_wrapped req f ev k Hreq Hns Hsp) Hat)
    as (tr & m & Htr & Hm & Hc & Hs & Hth).
  rewrite length_delays in Hm, Hth.
  exists tr, (S m). split_and!; try done; [lia|unfold RETRY in *; lia|].
  destruct (attempts_settles fn _ w w' o (wrapped_settles f ev k Hk) Hat) as [[b ->]|[e ->]].
  - left. destruct (attempts_last fn _ w w' _ Hat) as [w1 Hw1].
    destruct (wrapped_ok f ev k w1 w' b Hw1) as (a & n' & _ & Ha & ->).
    exists b, a. cbn [trace] in Htr.
    (* the last event of the trace is the answered request *)
    destruct (last_split tr) as [->|(tr' & x & ->)]; [done|].
    rewrite app_assoc in Htr. apply app_inj_tail in Htr as [_ <-]. by exists tr'.
  - right. exists e. split; [done|]. by rewrite (Hth e).
Qed.
End wrapped.

(** A block that [getBlock] returns is the answer of a request in the trace. *)
Lemma getBlock_ok {St N} `{Clock N} `{EthNode N} url b (w w' : world St N event) block :
  getBlock url b w = (w', Ok block) -> EvGetBlock b (inr block) ∈ trace w'.
Proof.
  unfold getBlock. intros E.
  apply (backoff_wrapped url (fun ev => match ev with EvGetBlock _ _ => true | _ => false end))
    in E as (tr & k & Ht & _ & _ & _ & Hres); try done; [|intros []; eauto].
  destruct Hres as [(x & a & tr' & [= ->] & Ha & ->)|(e & [=] & _)].
  rewrite Ht. apply elem_of_app. right. apply elem_of_app. right.
  destruct a; simplify_eq; by left.
Qed.
