(* ===== verification/CallSpec.v ===== *)
(** * Lemmas about [RobustWeb3.callContract]

    The transactions that a call sends, in order, and the dictionary of events
    it makes of a receipt's logs. *)

From Stdlib Require Import Ascii Strings.Byte.
From stdpp Require Import base list strings pretty.
From Stdlib Require Import ZArith Lia SpecFloat.
From S2P Require Import Prelude Js Effects Robust RobustSpec.
Local Open Scope Z_scope.

(** The transactions sent and how each attempt ended. *)
Definition sends (tr : list event) : list (ethtx * (exn + unit)) :=
  omap (fun ev => match ev with EvSend tx r => Some (tx, r) | _ => None end) tr.

Lemma sends_app tr tr' : sends (tr ++ tr') = sends tr ++ sends tr'.
Proof. apply omap_app. Qed.

(** The three errors after which the transaction is sent again. *)
Definition slow (e : exn) : bool := String.eqb (e_message e) SLOW_TX_ERROR_MSG.
Definition wrong_nonce (e : exn) : bool := negb (slow e) && includes WRONG_NONCE (e_message e).
Definition not_open (e : exn) : bool :=
  negb (slow e) && negb (includes WRONG_NONCE (e_message e)) &&
  String.eqb (exn_toString e) NOT_OPEN.

Definition ended_with (p : exn -> bool) (s : ethtx * (exn + unit)) : bool :=
  match s.2 with inl e => p e | inr _ => false end.

Definition count_sends (p : exn -> bool) (l : list (ethtx * (exn + unit))) : nat :=
  length (List.filter (ended_with p) l).

Section chain.
Context `{Web3Utils}.
Variables (c : contract) (o : options) (data : string).
Abbreviation tx := (fun g n => contract_tx c o g n data).

(** The protocol of the resends, from a gas price and a nonce on: a slow
    transaction is replaced at the same nonce with twice the price, a nonce
    error moves to the next nonce at the same price, a lost connection repeats
    the transaction; anything else, a success above all, ends the chain. *)
Inductive send_chain : Z -> Z -> list (ethtx * (exn + unit)) -> Prop :=
| chain_nil g n : send_chain g n []
| chain_last g n r : g < gas_limit -> send_chain g n [(tx g n, r)]
| chain_slow g n e l : g < gas_limit -> slow e = true ->
    send_chain (g * 2) n l -> send_chain g n ((tx g n, inl e) :: l)
| chain_nonce g n e l : g < gas_limit -> wrong_nonce e = true ->
    send_chain g (n + 1) l -> send_chain g n ((tx g n, inl e) :: l)
| chain_open g n e l : g < gas_limit -> not_open e = true ->
    send_chain g n l -> send_chain g n ((tx g n, inl e) :: l).

Lemma slow_disjoint e : slow e = true -> wrong_nonce e = false /\ not_open e = false.
Proof. unfold wrong_nonce, not_open. by intros ->. Qed.
End chain.

Section call_contract.
Context {St N : Type} `{Clock N} `{EthNode N} `{Web3Utils}.
Variables (url : string) (c : contract) (method : string) (args : list jsval) (o : options).
Variable data : string.
Hypothesis encodes : c_encodeABI c method args = inr data.
Hypothesis decodes : forall log, exists ev, c_decodeEventABI c log = inr ev.

(** An error of [decode_receipt] is not one of the three. *)
Definition final_error (e : exn) : Prop :=
  slow e = false /\ wrong_nonce e = false /\ not_open e = false.

Lemma decode_receipt_ends receipt :
  (exists v, decode_receipt c receipt = Ok v) \/
  (exists e, decode_receipt c receipt = Throw e /\ final_error e).
Proof using decodes.
  unfold decode_receipt. destruct receipt; simpl; eauto.
  1,2: by right; eexists.
  destruct (default VUndef (assoc "logs" props)); eauto. left.
  assert (exists evs, mapM_out (fun log => of_sum (c_decodeEventABI c log)) l = Ok evs) as [evs ->];
    [|by eexists].
  induction l as [|x l [evs IH]]; simpl; [by eexists|].
  destruct (decodes x) as [ev ->]. rewrite IH. by eexists.
Qed.

(** What a run adds to the trace when it sends [tx] once. *)
Definition sends_once (tx : ethtx) (pre : list event) (w w' : world St N event) (res : outcome jsval)
    : Prop :=
  exists r, trace w' = trace w ++ pre ++ [EvSend tx r] /\
    match r with
    | inl e => res = Throw e
    | inr _ => (exists v, res = Ok v) \/ (exists e, res = Throw e /\ final_error e)
    end.

Lemma send_decode_run tx (w : world St N event) :
  sends_once tx [] w
    ((receipt ← send_with_timeout tx; lift (decode_receipt c receipt)) w).1
    ((receipt ← send_with_timeout tx; lift (decode_receipt c receipt)) w).2.
Proof using decodes.
  unfold mbind, M_bind, send_with_timeout, rpc, lift.
  destruct (eth_sendTransaction tx (net w)) as [n2 p].
  destruct (promiseWithTimeout _ p _) as [e|v]; simpl; eexists; (split; [reflexivity|]); [done|].
  apply decode_receipt_ends.
Qed.

Lemma send_once_run g n (w : world St N event) :
  sends_once (contract_tx c o g n data) [EvEthCall (contract_tx c o g n data)] w
    (send_once c method args o g n w).1 (send_once c method args o g n w).2.
Proof using encodes decodes.
  unfold send_once. rewrite encodes, (bind_run _ _ w w data) by done.
  cbn beta zeta. set (tx := contract_tx c o g n data).
  assert (exists n1, catch (rpc (eth_call tx) (fun _ => EvEthCall tx)) (fun _ => mret tt) w
    = (mkWorld (store w) n1 (trace w ++ [EvEthCall tx]), Ok tt)) as [n1 Hcall].
  { unfold catch, rpc. destruct (eth_call tx (net w)) as [n1 [|[]]]; by exists n1. }
  rewrite (bind_run _ _ _ _ _ Hcall).
  destruct (send_decode_run tx (mkWorld (store w) n1 (trace w ++ [EvEthCall tx]))) as (r & Htr & Hr).
  exists r. simpl in Htr. by rewrite <- app_assoc in Htr.
Qed.

Lemma count_sends_cons p s l :
  count_sends p (s :: l) = ((if ended_with p s then 1 else 0) + count_sends p l)%nat.
Proof. unfold count_sends. simpl. by destruct (ended_with p s). Qed.

Definition retried (l : list (ethtx * (exn + unit))) : nat :=
  (count_sends slow l + count_sends wrong_nonce l + count_sends not_open l)%nat.

Lemma retried_cons tx e l : slow e || wrong_nonce e || not_open e = true ->
  retried ((tx, inl e) :: l) = S (retried l).
Proof.
  intros He. unfold retried. rewrite !count_sends_cons. unfold ended_with; simpl.
  unfold wrong_nonce, not_open in *. destruct (slow e), (includes _ _); simpl in *; try rewrite He; lia.
Qed.

(** The sends of a run of the loop form a chain; a run that is out of fuel
    has sent a transaction again per unit of fuel. *)
Definition chained (fuel : nat) (g n : Z) (w w' : world St N event) (res : outcome jsval) : Prop :=
  exists tr, trace w' = trace w ++ tr /\ send_chain c o data g n (sends tr) /\
    (res = OutOfFuel -> retried (sends tr) = fuel).

(** A failed round followed by a run from the next gas price and nonce. *)
Lemma chained_again fuel g n g' n' tx e (w w1 w2 w' : world St N event) res evs :
  tx = contract_tx c o g n data ->
  trace w1 = trace w ++ [EvEthCall tx] ++ [EvSend tx (inl e)] -> trace w2 = trace w1 ++ evs ->
  sends evs = [] -> slow e || wrong_nonce e || not_open e = true ->
  (forall l, send_chain c o data g' n' l -> send_chain c o data g n ((tx, inl e) :: l)) ->
  chained fuel g' n' w2 w' res -> chained (S fuel) g n w w' res.
Proof.
  intros -> Hw1 Hw2 Hevs He Hc (tr & Htr & Hch & Hf). eexists. split_and!.
  - by rewrite Htr, Hw2, Hw1, <- !app_assoc.
  - rewrite !sends_app, Hevs. apply Hc, Hch.
  - intros Hres. rewrite !sends_app, Hevs; simpl. by rewrite retried_cons, Hf.
Qed.

Lemma chained_end fuel g n w w' res tx r :
  tx = contract_tx c o g n data -> g < gas_limit -> res <> OutOfFuel ->
  trace w' = trace w ++ [EvEthCall tx] ++ [EvSend tx r] -> chained fuel g n w w' res.
Proof. intros -> Hg Hres Htr. eexists. split; [done|]. split; [by constructor|done]. Qed.

Lemma call_loop_run fuel g n (w : world St N event) :
  chained fuel g n w (call_loop url fuel c method args o g n w).1
    (call_loop url fuel c method args o g n w).2.
Proof using encodes decodes.
  revert g n w. induction fuel as [|fuel IH]; intros g n w.
  { exists []. rewrite app_nil_r. split; [done|]. split; [constructor|done]. }
  simpl. destruct (Z.ltb_spec g gas_limit) as [Hg|Hg].
  2:{ exists []. rewrite app_nil_r. split; [done|]. split; [constructor|done]. }
  destruct (send_once_run g n w) as (r & Htr & Hres).
  destruct (send_once c method args o g n w) as [w1 res] eqn:E. cbn [fst snd] in *.
  set (tx := contract_tx c o g n data) in *.
  destruct r as [e|[]].
  - subst res. rewrite (bind_run _ _ _ _ _ (attempt_throw _ _ _ _ E)).
    destruct (String.eqb (e_message e) SLOW_TX_ERROR_MSG) eqn:Hslow.
    { assert (slow e = true) as Hs by done.
      apply (chained_again _ _ _ (g * 2) n tx e w w1 w1 _ _ []); try done;
        first [apply IH|by rewrite app_nil_r|by rewrite Hs, ?orb_true_r|intros l; by apply chain_slow]. }
    destruct (includes WRONG_NONCE (e_message e)) eqn:Hnonce.
    { assert (wrong_nonce e = true) as Hs by (unfold wrong_nonce, slow; by rewrite Hslow, Hnonce).
      apply (chained_again _ _ _ g (n + 1) tx e w w1 w1 _ _ []); try done;
        first [apply IH|by rewrite app_nil_r|by rewrite Hs, ?orb_true_r|intros l; by apply chain_nonce]. }
    destruct (String.eqb (exn_toString e) NOT_OPEN) eqn:Hopen.
    { assert (not_open e = true) as Hs by (unfold not_open, slow; by rewrite Hslow, Hnonce, Hopen).
      apply (chained_again _ _ _ g n tx e w w1 (setProvider url w1).1 _ _ [EvSetProvider url]); try done;
        first [apply IH|by rewrite app_nil_r|by rewrite Hs, ?orb_true_r|intros l; by apply chain_open]. }
    by apply (chained_end _ _ _ _ _ _ tx (inl e)).
  - destruct Hres as [[v ->]|(e & -> & Hs & Hn & Ho)].
    { rewrite (bind_run _ _ _ _ _ (attempt_run _ _ _ _ E)). by apply (chained_end _ _ _ _ _ _ tx (inr tt)). }
    rewrite (bind_run _ _ _ _ _ (attempt_throw _ _ _ _ E)).
    unfold wrong_nonce, not_open, slow in Hs, Hn, Ho. rewrite Hs in Hn, Ho |- *. simpl in Hn, Ho.
    rewrite Hn in Ho |- *. simpl in Ho. rewrite Ho. by apply (chained_end _ _ _ _ _ _ tx (inr tt)).
Qed.

Lemma callContract_run fuel (w : world St N event) :
  let r := callContract url fuel c method args o w in
  (exists tr e, trace r.1 = trace w ++ tr /\ sends tr = [] /\ r.2 = Throw e) \/
  (exists tr g n, (eth_getGasPrice (net w)).2 = inr g /\
     trace r.1 = trace w ++ [EvGasPrice (inr g); EvTransactionCount (o_from o) (inr n)] ++ tr /\
     send_chain c o data g n (sends tr) /\ (r.2 = OutOfFuel -> retried (sends tr) = fuel)).
Proof using encodes decodes.
  unfold callContract. cbn zeta.
  destruct (eth_getGasPrice (net w)) as [n1 [e|g]] eqn:E1.
  { left. eexists _, e. erewrite bind_throw by by eapply rpc_throw. done. }
  erewrite bind_run by by eapply rpc_run.
  set (w1 := mkWorld _ n1 _).
  destruct (eth_getTransactionCount (o_from o) (net w1)) as [n2 [e|n]] eqn:E2.
  { left. exists [EvGasPrice (inr g); EvTransactionCount (o_from o) (inl e)], e.
    erewrite bind_throw by by eapply rpc_throw. simpl. by rewrite <- app_assoc. }
  right. erewrite bind_run by by eapply rpc_run.
  destruct (call_loop_run fuel g n (mkWorld (store w1) n2 (trace w1 ++ [EvTransactionCount (o_from o) (inr n)])))
    as (tr & Htr & Hch & Hf).
  exists tr, g, n. split; [done|]. split; [|done]. rewrite Htr. cbn [trace w1]. by rewrite <- !app_assoc.
Qed.
End call_contract.

(** ** Bound on the doublings *)

Lemma chain_slow_bound `{Web3Utils} c o data g n l :
  send_chain c o data g n l -> 1 <= g ->
  count_sends slow l = 0%nat \/ g * 2 ^ (Z.of_nat (count_sends slow l) - 1) < gas_limit.
Proof.
  induction 1 as [g n|g n r Hg|g n e l Hg He _ IH|g n e l Hg He _ IH|g n e l Hg He _ IH]; intros Hg1.
  - by left.
  - rewrite count_sends_cons. destruct (ended_with slow _); [right; change (g * 1 < gas_limit); lia|by left].
  - rewrite count_sends_cons. unfold ended_with; simpl. rewrite He. right.
    destruct (IH ltac:(lia)) as [Hz|Hlt]; [rewrite Hz; change (g * 1 < gas_limit); lia|].
    destruct (count_sends slow l) as [|k]; [change (g * 1 < gas_limit); lia|].
    replace (Z.of_nat (1 + S k) - 1) with (Z.succ (Z.of_nat (S k) - 1)) by lia.
    rewrite Z.pow_succ_r by lia. lia.
  - rewrite count_sends_cons. unfold ended_with at 1 2; simpl.
    unfold wrong_nonce in He. destruct (slow e); [done|]. simpl. auto.
  - rewrite count_sends_cons. unfold ended_with at 1 2; simpl.
    unfold not_open in He. destruct (slow e); [done|]. simpl. auto.
Qed.

Lemma chain_slow_44 `{Web3Utils} c o data g n l :
  send_chain c o data g n l -> 1 <= g -> (count_sends slow l <= 44)%nat.
Proof.
  intros Hc Hg. destruct (chain_slow_bound _ _ _ _ _ _ Hc Hg) as [Hz|Hlt]; [lia|].
  destruct (decide (count_sends slow l <= 44)%nat) as [|Hn]; [done|exfalso].
  assert (2 ^ 44 <= 2 ^ (Z.of_nat (count_sends slow l) - 1)) by (apply Z.pow_le_mono_r; lia).
  unfold gas_limit in Hlt. change (2 ^ 44) with 17592186044416 in *. nia.
Qed.

(** Every transaction of a chain, whatever its price. *)
Lemma chain_Forall `{Web3Utils} c o data g n l :
  send_chain c o data g n l ->
  Forall (fun s => exists g' n', n <= n' /\ g' < gas_limit /\ (0 <= g -> g <= g') /\
    s.1 = contract_tx c o g' n' data) l.
Proof.
  induction 1 as [g n|g n r Hg|g n e l Hg He _ IH|g n e l Hg He _ IH|g n e l Hg He _ IH];
    constructor; try (exists g, n; simpl; split_and!; [lia|done|lia|done]); try done;
    eapply Forall_impl; try exact IH; intros s (g' & n' & ? & ? & ? & ?); exists g', n';
    split_and!; try done; lia.
Qed.

(** ** The dictionary of events *)

(** The objects of the events of a name, in order, and those without one. *)
Definition named (name : string) (evs : list (string * jsval)) : list jsval :=
  omap (fun ev => if String.eqb ev.1 name then Some ev.2 else None) evs.

(** What the dictionary holds for a list of events of the same name. *)
Definition slot (l : list jsval) : option jsval :=
  match l with
  | [] => None
  | [x] => Some x
  | _ => Some (VArr l)
  end.

Definition is_object (v : jsval) : Prop := match v with VObj _ => True | _ => False end.
Definition numeral (s : string) : Prop := exists i : nat, s = pretty i.

(** A numeral starts with a digit. *)
Definition starts_digit (s : string) : bool :=
  match s with
  | String a _ => (48 <=? nat_of_ascii a)%nat && (nat_of_ascii a <=? 57)%nat
  | EmptyString => true
  end.
Lemma pretty_N_go_digit x s : starts_digit s = true -> starts_digit (pretty_N_go x s) = true.
Proof.
  revert s. induction (N.lt_wf_0 x) as [x _ IH]; intros s Hs.
  assert (x = 0 \/ 0 < x)%N as [->|Hx] by lia; [by rewrite pretty_N_go_0|].
  rewrite pretty_N_go_step by done. apply IH; [by apply N.div_lt|].
  unfold starts_digit, pretty_N_char. by repeat case_match.
Qed.
Lemma not_numeral s : starts_digit s = false -> ~ numeral s.
Proof.
  intros Hs [i ->]. apply not_true_iff_false in Hs. apply Hs.
  unfold pretty, pretty_nat, pretty, pretty_N. case_decide; [done|]. by apply pretty_N_go_digit.
Qed.

Lemma named_app name evs evs' : named name (evs ++ evs') = named name evs ++ named name evs'.
Proof. apply omap_app. Qed.

Definition grouped (evs : list (string * jsval)) (st : list (string * jsval) * nat) : Prop :=
  st.2 = length (named "" evs) /\
  (forall name, truthy name = true -> ~ numeral name ->
     assoc name st.1 = slot (named name evs)) /\
  (forall i, assoc (pretty i) st.1 = named "" evs !! i).

Lemma slot_snoc l ev : is_object ev -> Forall is_object l ->
  match slot l with
  | None => slot (l ++ [ev]) = Some ev
  | Some (VArr l') => slot (l ++ [ev]) = Some (VArr (l' ++ [ev]))
  | Some old => slot (l ++ [ev]) = Some (VArr [old; ev]) /\ js_truthy old = true
  end.
Proof.
  intros Hev Hl. destruct l as [|x [|y l]]; simpl; [done| |done].
  apply Forall_cons in Hl as [Hx _]. by destruct x.
Qed.

Lemma named_objects name evs :
  Forall (fun ev => is_object ev.2) evs -> Forall is_object (named name evs).
Proof.
  induction 1 as [|[k v] evs Hv _ IH]; simpl; [constructor|].
  destruct (String.eqb k name); [by constructor|done].
Qed.

(** A named event changes the entry of its name to the next slot. *)
Lemma group_named evs st name ev : grouped evs st -> truthy name = true -> ~ numeral name ->
  is_object ev -> Forall (fun ev => is_object ev.2) evs ->
  group_event st (name, ev) = (set_prop name (default VUndef (slot (named name evs ++ [ev]))) st.1, st.2).
Proof.
  intros (_ & Hn & _) Ht Hnum Hev Hall. destruct st as [props cnt]. simpl in *.
  unfold group_event. rewrite Ht. unfold get_prop. rewrite Hn by done.
  pose proof (slot_snoc (named name evs) ev Hev (named_objects name evs Hall)) as Hs.
  destruct (slot (named name evs)) as [old|]; simpl; [|by rewrite Hs].
  destruct old as [| | | | | | |l|];
    match type of Hs with
    | _ /\ _ => destruct Hs as [Hs Ht']; rewrite Hs; cbn [default]; simpl in Ht' |- *; by rewrite ?Ht'
    | _ => by rewrite Hs
    end.
Qed.

Lemma slot_snoc_some l (ev : jsval) : exists v, slot (l ++ [ev]) = Some v.
Proof. destruct l as [|x [|y l]]; simpl; eauto. Qed.

Lemma grouped_step evs st name ev : grouped evs st -> is_object ev ->
  Forall (fun ev => is_object ev.2) evs -> ~ numeral name ->
  grouped (evs ++ [(name, ev)]) (group_event st (name, ev)).
Proof.
  intros Hg Hev Hall Hnum. destruct (truthy name) eqn:Ht.
  - rewrite (group_named evs) by done. destruct Hg as (Hc & Hn & Hi).
    assert (Hne : String.eqb name "" = false) by (unfold truthy in Ht; by destruct (String.eqb name "")).
    split_and!; cbn [fst snd].
    + rewrite named_app. simpl. rewrite Hne. by rewrite app_nil_r.
    + intros name' Ht' Hnum'. rewrite assoc_set_prop, named_app. simpl.
      rewrite (String.eqb_sym name name'). destruct (String.eqb_spec name' name) as [->|].
      * by destruct (slot_snoc_some (named name evs) ev) as [v ->].
      * rewrite app_nil_r. auto.
    + intros i. rewrite assoc_set_prop, named_app. simpl. rewrite Hne, app_nil_r.
      destruct (String.eqb_spec (pretty i) name) as [<-|]; [|apply Hi]. destruct Hnum. by exists i.
  - destruct Hg as (Hc & Hn & Hi). unfold truthy in Ht. apply negb_false_iff, String.eqb_eq in Ht as ->.
    destruct st as [props cnt]. simpl in Hc, Hn, Hi. 
    change (group_event (props, cnt) ("", ev)) with (set_prop (pretty cnt) ev props, S cnt).
    split_and!; cbn [fst snd].
    + rewrite named_app, length_app, <- Hc. simpl. lia.
    + intros name Ht Hnm. rewrite assoc_set_prop, named_app.
      destruct (String.eqb_spec name (pretty cnt)) as [->|]; [destruct Hnm; by exists cnt|].
      rewrite Hn by done. destruct name; [done|]. simpl. by rewrite app_nil_r.
    + intros i. rewrite assoc_set_prop, named_app. simpl. subst cnt.
      destruct (String.eqb_spec (pretty i) (pretty (length (named "" evs)))) as [Heq|Hne].
      * apply (inj pretty) in Heq as ->. by rewrite list_lookup_middle.
      * rewrite Hi. destruct (decide (i < length (named "" evs))%nat) as [Hlt|Hge].
        -- by rewrite lookup_app_l.
        -- rewrite lookup_ge_None_2 by lia. symmetry. apply lookup_ge_None.
           rewrite length_app. simpl. assert (i <> length (named "" evs)) by congruence. lia.
Qed.

Lemma group_events_grouped evs :
  Forall (fun ev => is_object ev.2 /\ ~ numeral ev.1) evs ->
  grouped evs (fold_left group_event evs ([], 0%nat)).
Proof.
  induction evs as [|[name ev] evs IH] using rev_ind; intros Hf.
  - split_and!; done.
  - apply Forall_app in Hf as [Hf [[Hev Hnum] _]%Forall_cons]. rewrite fold_left_app. simpl.
    apply grouped_step; auto. eapply Forall_impl; [exact Hf|]. by intros ? [].
Qed.
