(* ===== verification/RobustTheorems.v ===== *)
(** * Theorems about [utils/robust.js]: retries and Ethereum transactions *)

From Stdlib Require Import Ascii Strings.Byte.
From stdpp Require Import base list strings pretty.
From Stdlib Require Import ZArith Lia SpecFloat.
From S2P Require Import Prelude Js Effects Robust RobustSpec CallSpec.
Local Open Scope Z_scope.

Definition is_getBlock (ev : event) : bool := match ev with EvGetBlock _ _ => true | _ => false end.

(** [backoff(retries, fn, delay, wait)] runs [fn] until it does not throw,
    at most [retries] times (once when [retries] is 0), and sleeps after each
    failure but the last for [delay], [delay * wait] and then 1.2 times longer
    each time; it ends as the last run of [fn] ends. *)
Theorem backoff_refines_attempts {St N} `{Clock N} {A} (retries : nat) (fn : M St N event A)
    (delay wait : float) (w : world St N event) :
  attempts fn (delays (pred retries) delay wait) w
    (backoff retries fn delay wait w).1 (backoff retries fn delay wait w).2 /\
  length (delays (pred retries) delay wait) = pred retries.
Proof. split; [apply backoff_runs_attempts|apply length_delays]. Qed.

(** [RobustWeb3.getBlock] always ends, after one to ten requests: with a
    block that is not null and is the answer of the last request, or with an
    exception, and then it has made all ten; between requests it sleeps for the
    first durations of the sequence 500, 600, 720, ... ms (as doubles), each of
    which is between half a second and 2.15 seconds. *)
Theorem getBlock_robust {St N} `{Clock N} `{EthNode N} (url : string) (b : jsval)
    (w : world St N event) :
  exists tr n, trace (getBlock url b w).1 = trace w ++ tr /\ (1 <= n <= RETRY)%nat /\
    count is_getBlock tr = n /\ sleeps tr = take (pred n) (delays (pred RETRY) DELAY BACKOFF) /\
    Forall (fun d => f_leb (f_of_Z 500) d = true /\ f_leb d (f_of_Z 2150) = true) (sleeps tr) /\
    ((exists block tr', (getBlock url b w).2 = Ok block /\ block <> VNull /\
        tr = tr' ++ [EvGetBlock b (inr block)]) \/
     (exists e, (getBlock url b w).2 = Throw e /\ n = RETRY)).
Proof.
  destruct (getBlock url b w) as [w' o] eqn:E. unfold getBlock in E.
  apply (backoff_wrapped url is_getBlock) in E as (tr & n & Htr & Hn & Hc & Hs & Hres); try done.
  2:{ intros []; eauto. }
  exists tr, n. split_and!; try done; try lia.
  - rewrite Hs. apply Forall_take, default_delays_bounds.
  - destruct Hres as [(block & a & tr' & Ho & Ha & ->)|]; [|by right]. left. exists block, tr'.
    destruct a; simplify_eq; done.
Qed.

(** C25: the transactions that [callContract] sends for one call: all carry the
    same data and recipient; the next one is sent only after a timeout, at the
    same nonce and with the price doubled, after a nonce error, at the next nonce,
    or after a lost connection, unchanged; after a receipt or any other error none
    is sent.  The transactions carry the price of the loop, which stays below 1e13
    wei, only when the caller gives none: with a [gasPrice] among the options each
    carries that one, so that after a timeout the same transaction is sent again. *)
Theorem callContract_resends {St N} `{Clock N} `{EthNode N} `{Web3Utils} (url : string)
    (fuel : nat) (c : contract) (method : string) (args : list jsval) (o : options) (data : string)
    (w : world St N event) :
  c_encodeABI c method args = inr data ->
  (forall log, exists ev, c_decodeEventABI c log = inr ev) ->
  exists tr, trace (callContract url fuel c method args o w).1 = trace w ++ tr /\
    (sends tr = [] \/ exists g n, send_chain c o data g n (sends tr)) /\
    Forall (fun s => tx_data s.1 = data /\ tx_to s.1 = c_address c /\
      (o_gasPrice o = "" -> exists g, g < gas_limit /\ tx_gasPrice s.1 = toHex g) /\
      (o_gasPrice o <> "" -> tx_gasPrice s.1 = o_gasPrice o)) (sends tr).
Proof.
  intros Henc Hdec.
  destruct (callContract_run url c method args o data Henc Hdec fuel w)
    as [(tr & e & Htr & Hs & _)|(tr & g & n & _ & Htr & Hch & _)].
  - exists tr. rewrite Hs. auto.
  - eexists. split; [exact Htr|]. rewrite sends_app. simpl. split; [eauto|].
    eapply Forall_impl; [by eapply chain_Forall|].
    intros s (g' & n' & _ & Hg & _ & ->). unfold contract_tx. split_and!; [done..| |].
    + intros Ho. exists g'. by rewrite Ho.
    + intros Ho. cbn. by destruct (o_gasPrice o).
Qed.

(** C26: [callContract] ends: when the node's gas price is positive, no run times
    out more than 44 times, so the loop ends within any fuel above 44 plus the
    number of nonce and connection errors that the node answers with. *)
Theorem callContract_terminates {St N} `{Clock N} `{EthNode N} `{Web3Utils} (url : string)
    (fuel : nat) (c : contract) (method : string) (args : list jsval) (o : options) (data : string)
    (w : world St N event) :
  c_encodeABI c method args = inr data ->
  (forall log, exists ev, c_decodeEventABI c log = inr ev) ->
  (forall n g, (eth_getGasPrice n).2 = inr g -> 1 <= g) ->
  exists tr, trace (callContract url fuel c method args o w).1 = trace w ++ tr /\
    (count_sends slow (sends tr) <= 44)%nat /\
    ((44 + count_sends wrong_nonce (sends tr) + count_sends not_open (sends tr) < fuel)%nat ->
     (callContract url fuel c method args o w).2 <> OutOfFuel).
Proof.
  intros Henc Hdec Hgas.
  destruct (callContract_run url c method args o data Henc Hdec fuel w)
    as [(tr & e & Htr & Hs & He)|(tr & g & n & Hg & Htr & Hch & Hf)].
  - exists tr. rewrite Hs, He. split_and!; [done|apply Nat.le_0_l|done].
  - eexists. split; [exact Htr|]. rewrite sends_app. simpl.
    pose proof (chain_slow_44 c o data g n _ Hch (Hgas _ _ Hg)) as H44. split; [done|].
    intros Hfuel Hout%Hf. unfold retried in Hout. lia.
Qed.

(** The receipt that [callContract] returns keeps every event of the logs:
    under a name it holds the event object when there is one event of that
    name, the array of them in the order of the logs when there are several,
    and nothing when there is none; the events without a name are under their
    position, 0, 1, ...; the logs are gone and the other fields are kept. *)
Theorem receipt_events_complete (c : contract) (props : list (string * jsval)) (ls : list jsval)
    (evs : list (string * jsval)) :
  assoc "logs" props = Some (VArr ls) ->
  Forall2 (fun log ev => c_decodeEventABI c log = inr ev) ls evs ->
  Forall (fun ev => is_object ev.2 /\ ~ numeral ev.1) evs ->
  exists props' dict, decode_receipt c (VObj props) = Ok (VObj props') /\
    assoc "events" props' = Some (VObj dict) /\
    (forall name, truthy name = true -> ~ numeral name -> assoc name dict = slot (named name evs)) /\
    (forall i, assoc (pretty i) dict = named "" evs !! i) /\
    assoc "logs" props' = None /\
    (forall k, k <> "logs" -> k <> "events" -> assoc k props' = assoc k props).
Proof.
  intros Hlogs Hdec Hall. unfold decode_receipt, js_get; simpl. rewrite Hlogs; simpl.
  rewrite (mapM_out_ok _ ls evs); [simpl|eapply Forall2_impl; [exact Hdec|]; by intros ? ? ->].
  destruct (group_events_grouped evs Hall) as (_ & Hnamed & Hanon).
  eexists _, (group_events evs). split; [reflexivity|]. split_and!; [|done|done|apply assoc_delete_eq|].
  - by rewrite assoc_delete_ne, assoc_set_prop.
  - intros k Hk Hk'. rewrite assoc_delete_ne, assoc_set_prop by done.
    by rewrite (proj2 (String.eqb_neq k "events")).
Qed.

(** [normalizeEthKey] gives a key one form: lower case with the prefix 0x;
    it does not change a key in that form, and the key with and without the
    prefix, in any case, has the same form. *)
Theorem normalizeEthKey_canonical (key : string) :
  startsWith "0x" (normalizeEthKey key) = true /\
  toLowerCase (normalizeEthKey key) = normalizeEthKey key /\
  normalizeEthKey (normalizeEthKey key) = normalizeEthKey key /\
  (startsWith "0x" (toLowerCase key) = false ->
   normalizeEthKey ("0x" +:+ key) = normalizeEthKey key /\
   normalizeEthKey ("0X" +:+ key) = normalizeEthKey key).
Proof.
  assert (Hp : startsWith "0x" (normalizeEthKey key) = true).
  { unfold normalizeEthKey. destruct (startsWith "0x" (toLowerCase key)) eqn:E; [done|].
    apply startsWith_app. }
  assert (Hl : toLowerCase (normalizeEthKey key) = normalizeEthKey key).
  { unfold normalizeEthKey. destruct (startsWith "0x" (toLowerCase key)); [apply toLowerCase_idem|].
    change (toLowerCase ("0x" +:+ toLowerCase key)) with ("0x" +:+ toLowerCase (toLowerCase key)).
    by rewrite toLowerCase_idem. }
  split_and!; [done|done| |].
  - unfold normalizeEthKey at 1. by rewrite Hl, Hp.
  - intros Hk. unfold normalizeEthKey. rewrite Hk.
    assert (startsWith "0x" ("0x" +:+ toLowerCase key) = true) as Hx by apply startsWith_app.
    change (toLowerCase ("0x" +:+ key)) with ("0x" +:+ toLowerCase key).
    change (toLowerCase ("0X" +:+ key)) with ("0x" +:+ toLowerCase key).
    by rewrite Hx.
Qed.

(** ** Witnesses *)

(** A node whose first transaction never comes back, with a gas price of 20
    gwei. *)
#[local] Instance toy_clock : Clock nat := fun _ n => n.
#[local] Instance toy_eth : EthNode nat := {|
  eth_setProvider _ n := n;
  eth_close := None;
  eth_getBlockNumber n := (n, inr 7);
  eth_getBlock _ n := (n, inr VNull);
  eth_getTransactionReceipt _ n := (n, inr VNull);
  eth_getGasPrice n := (n, inr 20000000000);
  eth_getTransactionCount _ n := (n, inr 5);
  eth_call _ n := (n, inr tt);
  eth_sendTransaction _ n :=
    match n with
    | O => (1%nat, None)
    | _ => (n, Some (15000, inr (VObj [("status", VBool true); ("logs", VArr [])])))
    end
|}.
#[local] Instance toy_web3 : Web3Utils := {| toHex z := pretty z; toHex_inj := _ |}.

Definition toy_contract : contract :=
  mkContract "0xabc" (fun m _ => inr m) (fun log => inr ("Locked", log)).
Definition toy_options : options := mkOptions "0xdef" true 4000000 "".

Lemma callContract_resends_witness :
  exists tr, trace (callContract "ws://node" 50 toy_contract "challenge" [] toy_options
      (mkWorld tt 0%nat [])).1 = [] ++ tr /\
    (sends tr = [] \/ exists g n, send_chain toy_contract toy_options "challenge" g n (sends tr)) /\
    Forall (fun s => tx_data s.1 = "challenge" /\ tx_to s.1 = c_address toy_contract /\
      (o_gasPrice toy_options = "" -> exists g, g < gas_limit /\ tx_gasPrice s.1 = toHex g) /\
      (o_gasPrice toy_options <> "" -> tx_gasPrice s.1 = o_gasPrice toy_options)) (sends tr).
Proof.
  apply (callContract_resends "ws://node" 50 toy_contract "challenge" [] toy_options "challenge"
    (mkWorld tt 0%nat [])); [reflexivity|]. intros log. by eexists.
Defined.

Lemma callContract_terminates_witness :
  exists tr, trace (callContract "ws://node" 50 toy_contract "challenge" [] toy_options
      (mkWorld tt 0%nat [])).1 = [] ++ tr /\
    (count_sends slow (sends tr) <= 44)%nat /\
    ((44 + count_sends wrong_nonce (sends tr) + count_sends not_open (sends tr) < 50)%nat ->
     (callContract "ws://node" 50 toy_contract "challenge" [] toy_options
       (mkWorld tt 0%nat [])).2 <> OutOfFuel).
Proof.
  apply (callContract_terminates "ws://node" 50 toy_contract "challenge" [] toy_options "challenge"
    (mkWorld tt 0%nat [])); [reflexivity| |].
  - intros log. by eexists.
  - intros n g. simpl. intros [= <-]. lia.
Defined.

(** The slow transaction is replaced at the same nonce and twice the price. *)
Example toy_call_resends :
  map (fun s => (tx_gasPrice s.1, tx_nonce s.1))
    (sends (trace (callContract "ws://node" 50 toy_contract "challenge" [] toy_options
      (mkWorld tt 0%nat [])).1)) = [("20000000000", "5"); ("40000000000", "5")].
Proof. vm_compute. reflexivity. Qed.

Definition toy_logs : list jsval := [VObj [("a", VNum 1)]; VObj [("a", VNum 2)]].
Lemma receipt_events_complete_witness :
  exists props' dict, decode_receipt toy_contract (VObj [("logs", VArr toy_logs)]) = Ok (VObj props') /\
    assoc "events" props' = Some (VObj dict) /\
    (forall name, truthy name = true -> ~ numeral name ->
       assoc name dict = slot (named name (map (fun l => ("Locked", l)) toy_logs))) /\
    (forall i, assoc (pretty i) dict = named "" (map (fun l => ("Locked", l)) toy_logs) !! i) /\
    assoc "logs" props' = None /\
    (forall k, k <> "logs" -> k <> "events" -> assoc k props' = assoc k [("logs", VArr toy_logs)]).
Proof.
  apply (receipt_events_complete toy_contract [("logs", VArr toy_logs)] toy_logs).
  - reflexivity.
  - repeat constructor.
  - assert (~ numeral "Locked") as Hn by by apply not_numeral.
    repeat constructor; done.
Defined.
