(* ===== verification/NearTx.v ===== *)
(** * Sending NEAR transactions

    [signAndSendTransaction] and [nearJsonContractFunctionCall] of
    [utils/robust.js]; [signAndSendTransactionAsync], [txnStatus],
    [getBorshTransactionLastResult] and the class [BorshContract] of
    [utils/borsh.js]. *)

From Stdlib Require Import Ascii Strings.Byte.
From stdpp Require Import base list strings gmap pretty.
From Stdlib Require Import ZArith Lia.
From S2P Require Import Prelude Js Effects Borsh Schemas Robust.
Local Open Scope Z_scope.

(** The access key object that a program holds: its [nonce] field, or nothing
    when there is no key ([null], or a field that was never set). *)
Class KeySlot (St : Type) := {
  k_get : St -> option Z;
  k_set : option Z -> St -> St;
  k_get_set k s : k_get (k_set k s) = k
}.

Definition RETRY_SEND_TX : nat := 10.
Definition RETRY_TX_STATUS : nat := 10.
Definition DEFAULT_FUNC_CALL_AMOUNT : Z := 300000000000000.

(** The account a transaction is signed for. *)
Record account := mkAccount { accountId : string }.

(** [result.status.SuccessValue !== undefined || result.status.Failure !== undefined] *)
Definition final_status (r : txresult) : bool :=
  bool_decide (SuccessValue r <> None) || bool_decide (Failure r <> None).

Definition flatLogs (r : txresult) : list string :=
  transaction_logs r ++ concat (receipts_logs r).

Section sending.
Context {St N actions : Type} `{Clock N} `{NearNode N actions} `{KeySlot St}.
Abbreviation M := (M St N event).

(** [++accessKey.nonce] *)
Definition incr_nonce : M Z := fun w =>
  match k_get (store w) with
  | None => (w, Throw (TypeError "Cannot read property 'nonce' of null"))
  | Some n => (mkWorld (k_set (Some (n + 1)) (store w)) (net w) (trace w), Ok (n + 1))
  end.

(** The calls up to [signTransaction], which gives the hash and the signed
    transaction; the arguments are evaluated in order, the nonce before the
    block hash is decoded. *)
Definition sign_next (acct : account) (receiverId : string) (acts : actions)
    : M (string * list byte) :=
  latest_block_hash ← rpc near_status EvNearStatus;
  nonce ← incr_nonce;
  blockHash ← lift (of_sum (near_base_decode latest_block_hash));
  rpc (near_signTransaction receiverId nonce acts blockHash (accountId acct))
    (EvSign receiverId nonce).

Definition broadcast (bytes : list byte) : M unit :=
  rpc (near_broadcast_tx_async bytes) (EvBroadcast bytes).

Definition query_status (acct : account) (txHash : string) : M txresult :=
  rpc (near_txStatus txHash (accountId acct)) (EvTxStatus txHash).

(** *** [signAndSendTransaction] *)

(** The locals that survive an iteration of the loop: [txHash] and the bytes
    that [sendTxnAsync] sends, the flag [resendLast] and [errorMsg]. *)
Record locals := mkLocals {
  l_last : option (string * list byte);
  l_resend : bool;
  l_errorMsg : option string
}.

(** The first [try] block: the locals and whether it threw. *)
Definition send_block (acct : account) (receiverId : string) (acts : actions) (l : locals)
    : M (locals * (exn + unit)) :=
  if l_resend l then
    match l_last l with
    | Some (_, bytes) =>
        r ← attempt (broadcast bytes);
        match r with
        | inr _ => mret (mkLocals (l_last l) false (l_errorMsg l), r)
        | inl _ => mret (l, r)
        end
    | None => mret (l, inl (TypeError "sendTxnAsync is not a function"))
    end
  else
    s ← attempt (sign_next acct receiverId acts);
    match s with
    | inl e => mret (l, inl e)
    | inr (txHash, bytes) =>
        r ← attempt (broadcast bytes);
        mret (mkLocals (Some (txHash, bytes)) (l_resend l) (l_errorMsg l), r)
    end.

(** The loop over [j]: [n] rounds are left, [result] is the last answer. *)
Fixpoint poll (acct : account) (txHash : string) (n j : nat) (result : option txresult)
    (errorMsg : option string) : M (option txresult * option string) :=
  match n with
  | O => mret (result, errorMsg)
  | S n =>
      r ← attempt (query_status acct txHash);
      match r with
      | inr result =>
          if final_status result then mret (Some result, errorMsg)
          else poll acct txHash n (S j) (Some result) errorMsg
      | inl e =>
          sleep (f_of_Z (Z.of_nat (S j) * 500));;
          poll acct txHash n (S j) result (Some (e_message e))
      end
  end.

(** The loop over [i]: [n] rounds are left. *)
Fixpoint send_loop (acct : account) (receiverId : string) (acts : actions) (n : nat) (l : locals)
    : M txresult :=
  match n with
  | O => throw (Error (default "" (l_errorMsg l)))
  | S n =>
      '(l, r) ← send_block acct receiverId acts l;
      match r with
      | inl e =>
          sleep (f_of_Z 500);;
          send_loop acct receiverId acts n (mkLocals (l_last l) (l_resend l) (Some (e_message e)))
      | inr _ =>
          '(result, errorMsg) ←
            poll acct (default "" (fst <$> l_last l)) RETRY_TX_STATUS 0 None (l_errorMsg l);
          match result with
          | Some res =>
              emit (EvPrintLogs (flatLogs res));;
              match SuccessValue res with
              | Some _ => mret res
              | None =>
                  match Failure res with
                  | None => throw (TypeError "Cannot read property 'includes' of undefined")
                  | Some msg =>
                      if includes "Transaction nonce" msg then
                        send_loop acct receiverId acts n (mkLocals (l_last l) (l_resend l) (Some msg))
                      else throw (Error msg)
                  end
              end
          | None => send_loop acct receiverId acts n (mkLocals (l_last l) true errorMsg)
          end
      end
  end.

Definition signAndSendTransaction (acct : account) (receiverId : string) (acts : actions)
    : M txresult :=
  send_loop acct receiverId acts RETRY_SEND_TX (mkLocals None false None).

(** [nearJsonContractFunctionCall]; [json_args] is [JSON.stringify(args)]. *)
Definition nearJsonContractFunctionCall (contractId : string) (sender : account)
    (method json_args : string) (gas : Z) (amount : option Z) : M txresult :=
  accessKey ← rpc (near_findAccessKey (accountId sender))
    (fun r => EvFindAccessKey (accountId sender)
       match r with inr (Some _) => true | _ => false end);
  s ← get_store;
  put_store (k_set accessKey s);;
  signAndSendTransaction sender contractId (near_functionCall method (utf8 json_args) gas amount).

(** *** [utils/borsh.js] *)

Definition signAndSendTransactionAsync (acct : account) (receiverId : string) (acts : actions)
    : M string :=
  '(txHash, bytes) ← sign_next acct receiverId acts;
  broadcast bytes;;
  mret txHash.

Fixpoint txn_loop (acct : account) (txHash : string) (wait : Z) (n : nat) (result : option txresult)
    : M (option txresult) :=
  match n with
  | O => mret result
  | S n =>
      r ← attempt (query_status acct txHash);
      match r with
      | inr result =>
          if final_status result then mret (Some result)
          else txn_loop acct txHash wait n (Some result)
      | inl _ => sleep (f_of_Z wait);; txn_loop acct txHash wait n result
      end
  end.

(** [txnStatus(account, txHash, retries, wait)]; [JSON.stringify(undefined)]
    is [undefined], which makes an error with an empty message. *)
Definition txnStatus (acct : account) (txHash : string) (retries : nat) (wait : Z) : M txresult :=
  result ← txn_loop acct txHash wait retries None;
  match result with
  | None => throw (Error ("Transaction " +:+ txHash +:+ " didn't finish after "
      +:+ pretty (Z.of_nat retries * wait / 1000) +:+ " seconds"))
  | Some res =>
      emit (EvPrintLogs (flatLogs res));;
      match SuccessValue res with
      | Some _ => mret res
      | None => throw (Error (default "" (Failure res)))
      end
  end.
End sending.

(** *** [class BorshContract] *)

Section contract.
Context {St N actions : Type} `{Clock N} `{NearNode N actions} `{KeySlot St}.
Context {W : Type} `{BinaryWriter W} `{BNLib}.
(** [Buffer.from(s, 'base64')] *)
Variable base64 : string -> list byte.
Variable borshSchema : gmap string skind.
Variables (acct : account) (contractId : string).
Abbreviation M := (M St N event).

Definition getBorshTransactionLastResult (txResult : txresult) : list byte :=
  base64 (default "" (SuccessValue txResult)).

(** The value of a property defined for a view method; a query without a
    result, or with an empty one, gives [undefined] or [false]. *)
Definition view_method (d : method) (args : jsval) : M jsval :=
  bytes ← lift (serialize (W := W) borshSchema schema_fuel (inputFieldType d) args);
  let path := "call/" +:+ contractId +:+ "/" +:+ methodName d in
  result ← backoff 10 (q ← rpc (near_query path bytes) (EvQuery path bytes); mret q) DELAY BACKOFF;
  match q_logs result with Some logs => emit (EvPrintLogs logs) | None => mret tt end;;
  match q_result result with
  | None => mret VUndef
  | Some [] => mret (VBool false)
  | Some bs => lift (deserialize borshSchema schema_fuel (outputFieldType d) bs)
  end.

(** [gas || DEFAULT_FUNC_CALL_AMOUNT] *)
Definition gas_or_default (gas : option Z) : Z := default DEFAULT_FUNC_CALL_AMOUNT gas.

Definition change_method (d : method) (args : jsval) (gas amount : option Z) : M jsval :=
  bytes ← lift (serialize (W := W) borshSchema schema_fuel (inputFieldType d) args);
  rawResult ← signAndSendTransaction acct contractId
    (near_functionCall (methodName d) bytes (gas_or_default gas) amount);
  let result := getBorshTransactionLastResult rawResult in
  lift (deserialize borshSchema schema_fuel (outputFieldType d) result).

Definition change_method_async (d : method) (args : jsval) (gas amount : option Z) : M string :=
  bytes ← lift (serialize (W := W) borshSchema schema_fuel (inputFieldType d) args);
  signAndSendTransactionAsync acct contractId
    (near_functionCall (methodName d) bytes (gas_or_default gas) amount).

Definition accessKeyInit : M unit :=
  accessKey ← rpc (near_findAccessKey (accountId acct))
    (fun r => EvFindAccessKey (accountId acct)
       match r with inr (Some _) => true | _ => false end);
  s ← get_store;
  put_store (k_set accessKey s);;
  match accessKey with
  | None => throw (Error ("Can not sign transactions for account " +:+ accountId acct
      +:+ ", no matching key pair found in Signer."))
  | Some _ => mret tt
  end.
End contract.
