(* ===== verification/NearTxSpec.v ===== *)
(** * The protocol that a NEAR transaction follows

    An automaton over the events of a run: what may be signed, broadcast and
    asked for, given what happened before.  The lemmas show that the blocks of
    [signAndSendTransaction] move along the automaton, whatever the node
    answers. *)

From Stdlib Require Import Ascii Strings.Byte.
From stdpp Require Import base list strings gmap sorting.
From Stdlib Require Import ZArith Lia.
From S2P Require Import Prelude Js Effects Borsh Schemas Robust RobustSpec NearTx.
Local Open Scope Z_scope.

(** The last nonce used, the last transaction signed (hash and bytes), and the
    number of status queries that failed since the last answer, broadcast or
    signature, and whether the last signed transaction was not broadcast yet.
    Bytes are broadcast once after the signature, and again only after ten
    failed status queries in a row. *)
Record proto := mkProto {
  p_nonce : Z;
  p_last : option (string * list byte);
  p_failed : nat;
  p_fresh : bool
}.

Definition proto_step (st : proto) (ev : event) : option proto :=
  match ev with
  | EvSleep _ | EvNearStatus _ | EvPrintLogs _ => Some st
  | EvSign _ n r =>
      if (p_nonce st <? n) && (p_failed st <? RETRY_TX_STATUS)%nat then
        Some (mkProto n match r with inr hb => Some hb | inl _ => p_last st end 0
          match r with inr _ => true | inl _ => false end)
      else None
  | EvBroadcast bytes r =>
      match p_last st with
      | Some (_, bytes') =>
          if bool_decide (bytes = bytes') && (p_fresh st || (RETRY_TX_STATUS <=? p_failed st)%nat) then
            Some (mkProto (p_nonce st) (p_last st)
              match r with inr _ => 0%nat | inl _ => p_failed st end false)
          else None
      | None => None
      end
  | EvTxStatus hash r =>
      match p_last st with
      | Some (hash', _) =>
          if decide (hash = hash') then
            Some (mkProto (p_nonce st) (p_last st)
              match r with inr _ => 0%nat | inl _ => S (p_failed st) end (p_fresh st))
          else None
      | None => None
      end
  | _ => None
  end.

Fixpoint proto_run (st : proto) (tr : list event) : option proto :=
  match tr with
  | [] => Some st
  | ev :: tr => st' ← proto_step st ev; proto_run st' tr
  end.

Lemma proto_run_app st tr tr' : proto_run st (tr ++ tr') = st' ← proto_run st tr; proto_run st' tr'.
Proof.
  revert st. induction tr as [|ev tr IH]; intros st; simpl; [done|].
  destruct (proto_step st ev); simpl; auto.
Qed.

Definition is_broadcast (ev : event) : bool := match ev with EvBroadcast _ _ => true | _ => false end.
Definition is_sign (ev : event) : bool := match ev with EvSign _ _ _ => true | _ => false end.
Definition is_txStatus (ev : event) : bool := match ev with EvTxStatus _ _ => true | _ => false end.

(** Closes the side conditions on concrete events. *)
Ltac counts := solve [done | unfold count; simpl; lia | repeat split; unfold count; simpl; (done || lia)].

Section spec.
Context {St N actions : Type} `{Clock N} `{NearNode N actions} `{KeySlot St}.
Abbreviation W := (world St N event).

(** From [w] to [w'] the events take the automaton from [st] to [st']. *)
Definition follows (st : proto) (w : W) (tr : list event) (st' : proto) (w' : W) : Prop :=
  trace w' = trace w ++ tr /\ proto_run st tr = Some st'.

Lemma follows_refl st w : follows st w [] st w.
Proof. unfold follows. by rewrite app_nil_r. Qed.

Lemma follows_trans st w tr st1 w1 tr' st' w' :
  follows st w tr st1 w1 -> follows st1 w1 tr' st' w' -> follows st w (tr ++ tr') st' w'.
Proof.
  intros [H11 H12] [H21 H22]. split; [by rewrite H21, H11, app_assoc|].
  by rewrite proto_run_app, H12.
Qed.

Lemma follows_snoc st w tr st1 w1 ev st' w' :
  follows st w tr st1 w1 -> trace w' = trace w1 ++ [ev] -> proto_step st1 ev = Some st' ->
  follows st w (tr ++ [ev]) st' w'.
Proof.
  intros Hf Ht Hp. apply (follows_trans _ _ _ _ _ _ _ _ Hf). split; [done|]. simpl. by rewrite Hp.
Qed.

(** The nonce of the key is at least the last one used. *)
Definition nonce_ok (st : proto) (w : W) : Prop :=
  forall n, k_get (store w) = Some n -> p_nonce st <= n.

(** The locals of the loop agree with the automaton. *)
Definition ready (st : proto) (l : locals) (w : W) : Prop :=
  p_last st = l_last l /\ (l_resend l = true -> is_Some (l_last l) /\ (RETRY_TX_STATUS <= p_failed st)%nat) /\
  (l_resend l = false -> (p_failed st < RETRY_TX_STATUS)%nat) /\ nonce_ok st w.

(** [sign_next] signs at most once, with a fresh nonce. *)
Lemma sign_next_spec acct rcv (acts : actions) st (w : W) :
  (p_failed st < RETRY_TX_STATUS)%nat -> nonce_ok st w ->
  exists tr st' w' r, sign_next acct rcv acts w = (w', of_sum r) /\ follows st w tr st' w' /\
    (p_failed st' < RETRY_TX_STATUS)%nat /\ nonce_ok st' w' /\ count is_broadcast tr = 0%nat /\
    count is_txStatus tr = 0%nat /\ (count is_sign tr <= 1)%nat /\
    match r with
    | inr hb => p_last st' = Some hb /\ p_fresh st' = true
    | inl _ => p_last st' = p_last st
    end.
Proof.
  intros Hf Hn. unfold sign_next.
  destruct (near_status (net w)) as [n1 [e|h]] eqn:E1.
  { exists [EvNearStatus (inl e)], st. eexists _, (inl e).
    erewrite bind_throw by by eapply rpc_throw. split_and!; counts. }
  erewrite bind_run by by eapply rpc_run. set (w1 := mkWorld (store w) n1 _).
  assert (Hf1 : follows st w [EvNearStatus (inr h)] st w1) by done.
  destruct (k_get (store w)) as [n|] eqn:Ek.
  2:{ eexists _, st, w1, (inl (TypeError "Cannot read property 'nonce' of null")).
      rewrite (bind_throw _ _ w1 w1 (TypeError "Cannot read property 'nonce' of null"))
        by (unfold incr_nonce, w1; simpl; by rewrite Ek). split_and!; counts. }
  specialize (Hn n Ek).
  set (w2 := mkWorld (k_set (Some (n + 1)) (store w)) n1 (trace w1)).
  rewrite (bind_run _ _ w1 w2 (n + 1)) by (unfold incr_nonce; simpl; by rewrite Ek).
  assert (Hk : k_get (store w2) = Some (n + 1)) by apply k_get_set.
  destruct (near_base_decode h) as [e|bh].
  { eexists _, st, w2, (inl e). rewrite (bind_throw _ _ w2 w2 e) by done.
    split; [done|]. split; [exact Hf1|]. split_and!; try counts.
    intros m Hm. rewrite Hk in Hm. simplify_eq. lia. }
  rewrite (bind_run _ _ w2 w2 bh) by done.
  destruct (near_signTransaction rcv (n + 1) acts bh (accountId acct) (net w2)) as [n3 r] eqn:E3.
  exists ([EvNearStatus (inr h)] ++ [EvSign rcv (n + 1) r]).
  exists (mkProto (n + 1) match r with inr hb => Some hb | inl _ => p_last st end 0
    match r with inr _ => true | inl _ => false end).
  exists (mkWorld (store w2) n3 (trace w2 ++ [EvSign rcv (n + 1) r])), r.
  split; [unfold rpc; by rewrite E3|]. split; [|split; [simpl; unfold RETRY_TX_STATUS; lia|split]].
  - eapply follows_snoc; [exact Hf1|done|]. unfold proto_step.
    rewrite (proj2 (Z.ltb_lt _ _)), (proj2 (Nat.ltb_lt _ _)) by (done || lia). done.
  - intros m Hm. change (k_get (store w2) = Some m) in Hm. rewrite Hk in Hm. simplify_eq. simpl. lia.
  - split_and!; try counts. by destruct r.
Qed.

Lemma broadcast_spec bytes h st (w : W) : p_last st = Some (h, bytes) ->
  p_fresh st || (RETRY_TX_STATUS <=? p_failed st)%nat = true ->
  exists st' w' r, broadcast bytes w = (w', of_sum r) /\
    follows st w [EvBroadcast bytes r] st' w' /\ p_last st' = p_last st /\
    p_nonce st' = p_nonce st /\ store w' = store w /\
    p_failed st' = match r with inr _ => 0%nat | inl _ => p_failed st end.
Proof.
  intros Hl Hmay. unfold broadcast, rpc.
  destruct (near_broadcast_tx_async bytes (net w)) as [n' r].
  eexists (mkProto (p_nonce st) (p_last st) match r with inr _ => 0%nat | inl _ => p_failed st end false), _, r.
  split; [reflexivity|]. repeat split. cbn [proto_run proto_step]. rewrite Hl, Hmay. by rewrite bool_decide_eq_true_2.
Qed.
(** The first [try] block: at most one broadcast, of the last signed
    transaction; after a success the status queries start from zero. *)
Lemma send_block_spec acct rcv (acts : actions) st l (w : W) : ready st l w ->
  exists tr st' w' l' r, send_block acct rcv acts l w = (w', Ok (l', r)) /\
    follows st w tr st' w' /\ (count is_broadcast tr <= 1)%nat /\ (count is_sign tr <= 1)%nat /\
    count is_txStatus tr = 0%nat /\ ready st' l' w' /\
    match r with
    | inr _ => l_resend l' = false /\ p_failed st' = 0%nat /\
        exists h b tr', l_last l' = Some (h, b) /\ tr = tr' ++ [EvBroadcast b (inr tt)]
    | inl _ => True
    end.
Proof.
  intros (Hlast & Hre & Hf & Hn). unfold send_block. destruct (l_resend l) eqn:El.
  - destruct Hre as [[[h b] Hb] Hten]; [done|]. rewrite Hb.
    destruct (broadcast_spec b h st w) as (st' & w' & r & E & Hfo & Hl & Hno & Hs & Hfa);
      [by rewrite Hlast|rewrite (proj2 (Nat.leb_le _ _) Hten); by destruct (p_fresh st)|].
    assert (Hn' : nonce_ok st' w') by (unfold nonce_ok; by rewrite Hno, Hs).
    rewrite (bind_run _ _ _ _ _ (attempt_sum _ _ _ _ E)).
    destruct r as [e|[]]; eexists _, st', w', _, _; (split; [reflexivity|]);
      split_and!; try counts; try exact Hfo; unfold ready; simpl.
    + rewrite El, Hl, Hb, Hlast, Hfa. by split_and!.
    + rewrite Hl, Hlast, Hb, Hfa. split_and!; try done. unfold RETRY_TX_STATUS. lia.
    + by exists h, b, [].
  - destruct (sign_next_spec acct rcv acts st w (Hf eq_refl) Hn)
      as (tr & st1 & w1 & r1 & E & Hfo & Hf1 & Hn1 & Hc1 & Hc2 & Hc3 & Hr).
    rewrite (bind_run _ _ _ _ _ (attempt_sum _ _ _ _ E)).
    destruct r1 as [e|[h b]].
    { eexists tr, st1, w1, _, _. split; [reflexivity|]. split_and!; try done; [lia|].
      unfold ready. rewrite El, Hr, Hlast. by split_and!. }
    destruct Hr as [Hr Hfresh].
    destruct (broadcast_spec b h st1 w1 Hr ltac:(by rewrite Hfresh)) as (st' & w' & r & E' & Hfo' & Hl & Hno & Hs & Hfa).
    assert (Hn' : nonce_ok st' w') by (unfold nonce_ok; by rewrite Hno, Hs).
    rewrite (bind_run _ _ _ _ _ (attempt_sum _ _ _ _ E')).
    eexists (tr ++ [EvBroadcast b r]), st', w', _, r. split; [reflexivity|].
    rewrite !count_app, Hc1, Hc2, !count_cons. split_and!; try counts.
    + by eapply follows_trans.
    + simpl. change (count is_sign []) with 0%nat. lia.
    + unfold ready; simpl. rewrite Hl, Hr. split_and!; try done. intros _. rewrite Hfa.
      destruct r; [done|]. unfold RETRY_TX_STATUS. lia.
    + destruct r as [|[]]; [done|]. split_and!; [done..|]. by exists h, b, tr.
Qed.

(** The polling loop asks for the last transaction only, at most [n] times. *)
Lemma poll_spec acct h b n : forall j result em st (w : W),
  p_last st = Some (h, b) -> (p_failed st + n <= RETRY_TX_STATUS)%nat ->
  (result <> None -> (p_failed st + n < RETRY_TX_STATUS)%nat) ->
  exists tr st' w' res em', poll acct h n j result em w = (w', Ok (res, em')) /\
    follows st w tr st' w' /\ p_last st' = p_last st /\ p_nonce st' = p_nonce st /\
    store w' = store w /\ (res <> None -> (p_failed st' < RETRY_TX_STATUS)%nat) /\
    (res = None -> result = None /\ (p_failed st + n <= p_failed st')%nat) /\
    count is_broadcast tr = 0%nat /\ count is_sign tr = 0%nat /\ (count is_txStatus tr <= n)%nat /\
    (forall x, res = Some x -> final_status x = true ->
      result = Some x \/ exists tr', tr = tr' ++ [EvTxStatus h (inr x)]).
Proof.
  induction n as [|n IH]; intros j result em st w Hl Hle Hlt.
  { exists [], st, w, result, em. split_and!; try counts; try apply follows_refl; [..|by left].
    intros Hr. specialize (Hlt Hr). lia. }
  simpl. destruct (near_txStatus h (accountId acct) (net w)) as [n1 r] eqn:E.
  set (w1 := mkWorld (store w) n1 (trace w ++ [EvTxStatus h r])).
  assert (Hq : query_status acct h w = (w1, of_sum r)) by (unfold query_status, rpc; by rewrite E).
  rewrite (bind_run _ _ _ _ _ (attempt_sum _ _ _ _ Hq)).
  set (st1 := mkProto (p_nonce st) (p_last st) match r with inr _ => 0%nat | inl _ => S (p_failed st) end (p_fresh st)).
  assert (Hf1 : follows st w [EvTxStatus h r] st1 w1).
  { split; [done|]. unfold st1. simpl. rewrite Hl. by rewrite decide_True. }
  destruct r as [e|x].
  - set (w2 := (sleep (f_of_Z (Z.of_nat (S j) * 500)) w1).1).
    rewrite (bind_run _ _ w1 w2 tt) by done.
    destruct (IH (S j) result (Some (e_message e)) st1 w2) as (tr & st' & w' & res & em' & Hp & Hfo & ? & ? & ? & ? & Hten & Hb & Hs & Hc & Hfin);
      [done|simpl; lia|simpl; intros Hr; specialize (Hlt Hr); lia|].
    eexists _, st', w', res, em'. split; [exact Hp|].
    split; [eapply follows_trans; [exact Hf1|]; eapply (follows_trans _ _ [EvSleep _]); [|exact Hfo]; done|].
    rewrite !count_app, Hb, Hs, !count_cons. simpl in Hten.
    split_and!; try counts; try done; [intros Hn; destruct (Hten Hn); split; [done|lia]|unfold count in *; simpl; lia|].
    intros y Hy Hfy. destruct (Hfin y Hy Hfy) as [|[tr' ->]]; [by left|right].
    eexists. by rewrite !app_assoc.
  - destruct (final_status x) eqn:Efin.
    { eexists _, st1, w1, (Some x), em. split; [done|]. split; [exact Hf1|].
      split_and!; try counts.
      intros y [= <-] _. right. by exists []. }
    destruct (IH (S j) (Some x) em st1 w1) as (tr & st' & w' & res & em' & Hp & Hfo & ? & ? & ? & ? & Hten & Hb & Hs & Hc & Hfin);
      [done|simpl; lia|simpl; lia|].
    eexists _, st', w', res, em'. split; [exact Hp|].
    split; [eapply follows_trans; [exact Hf1|exact Hfo]|].
    rewrite !count_app, Hb, Hs, !count_cons.
    split_and!; try counts; try done; [by intros [? _]%Hten|unfold count in *; simpl; lia|].
    intros y Hy Hfy. destruct (Hfin y Hy Hfy) as [[= ->]|[tr' ->]]; [congruence|right].
    eexists. by rewrite !app_assoc.
Qed.

(** How [signAndSendTransaction] ends: with a result that has a success value,
    the answer to its last query, for a transaction whose broadcast the node
    took; or with an exception. *)
Definition sent_ok (st' : proto) (tr : list event) (o : outcome txresult) : Prop :=
  (exists res h b tr', o = Ok res /\ SuccessValue res <> None /\ p_last st' = Some (h, b) /\
     EvBroadcast b (inr tt) ∈ tr' /\
     tr = tr' ++ [EvTxStatus h (inr res); EvPrintLogs (flatLogs res)]) \/
  (exists e, o = Throw e).

Lemma sent_ok_app st' tr tr' o : sent_ok st' tr' o -> sent_ok st' (tr ++ tr') o.
Proof.
  intros [(res & h & b & tr1 & ? & ? & ? & Hin & ->)|]; [left|by right].
  exists res, h, b, (tr ++ tr1). rewrite app_assoc. split_and!; [done..| |done].
  apply elem_of_app. by right.
Qed.

(** A round of the loop in front of a run that behaves. *)
Definition loop_ok (n : nat) (st : proto) (w w' : W) (o : outcome txresult) : Prop :=
  exists tr st', follows st w tr st' w' /\ (count is_broadcast tr <= n)%nat /\
    (count is_sign tr <= n)%nat /\ (count is_txStatus tr <= n * RETRY_TX_STATUS)%nat /\
    sent_ok st' tr o.

Lemma loop_ok_step n st w tr st1 w1 w' o :
  follows st w tr st1 w1 -> (count is_broadcast tr <= 1)%nat -> (count is_sign tr <= 1)%nat ->
  (count is_txStatus tr <= RETRY_TX_STATUS)%nat -> loop_ok n st1 w1 w' o ->
  loop_ok (S n) st w w' o.
Proof.
  intros Hf Hb Hs Hc (tr' & st' & Hf' & ? & ? & ? & Hok).
  exists (tr ++ tr'), st'. rewrite !count_app. split_and!; try (rewrite ?Nat.mul_succ_l; lia).
  - by eapply follows_trans.
  - by apply sent_ok_app.
Qed.

Lemma loop_ok_throw n st w tr st' w' e :
  follows st w tr st' w' -> (count is_broadcast tr <= 1)%nat -> (count is_sign tr <= 1)%nat ->
  (count is_txStatus tr <= RETRY_TX_STATUS)%nat -> loop_ok (S n) st w w' (Throw e).
Proof.
  intros. exists tr, st'. split_and!; try done; try (rewrite ?Nat.mul_succ_l; lia). right. by exists e.
Qed.

Lemma final_success (res : txresult) : SuccessValue res <> None -> final_status res = true.
Proof. intros. unfold final_status. by rewrite bool_decide_eq_true_2. Qed.

Lemma send_loop_spec acct rcv (acts : actions) n : forall st l (w : W), ready st l w ->
  loop_ok n st w (send_loop acct rcv acts n l w).1 (send_loop acct rcv acts n l w).2.
Proof.
  induction n as [|n IH]; intros st l w Hr.
  { exists [], st. split_and!; try counts; [apply follows_refl|]. right. by eexists. }
  destruct (send_block_spec acct rcv acts st l w Hr)
    as (tr & st1 & w1 & l1 & r & E & Hf & Hb & Hs & Hc & Hready & Hres).
  cbn [send_loop]. rewrite (bind_run _ _ _ _ _ E). destruct r as [e|[]].
  - set (w2 := (sleep (f_of_Z 500) w1).1). rewrite (bind_run _ _ w1 w2 tt) by done.
    apply (loop_ok_step _ _ _ (tr ++ [EvSleep (f_of_Z 500)]) st1 w2).
    { eapply follows_snoc; [exact Hf|reflexivity|reflexivity]. }
    1-3: rewrite count_app; unfold count at 2; simpl; lia.
    by apply IH.
  - destruct Hres as (Hre & Hfa & h & b & tr0 & Hlast & ->).
    pose proof Hready as (Hl1 & _ & _ & Hn1). rewrite Hlast. cbn [default fst fmap option_fmap option_map].
    destruct (poll_spec acct h b RETRY_TX_STATUS 0 None (l_errorMsg l1) st1 w1)
      as (trp & st2 & w2 & res & em & Ep & Hfp & Hlp & Hnp & Hsp & Hfl & Hten & Hbp & Hsgp & Hcp & Hfin);
      [by rewrite Hl1|lia|done|].
    rewrite (bind_run _ _ _ _ _ Ep).
    assert (Hn2 : nonce_ok st2 w2) by (unfold nonce_ok; by rewrite Hnp, Hsp).
    pose proof (follows_trans _ _ _ _ _ _ _ _ Hf Hfp) as Hf2.
    destruct res as [res|].
    2:{ eapply loop_ok_step; [exact Hf2|rewrite count_app; lia..|]. apply IH.
        unfold ready; simpl. rewrite Hlp, Hl1, Hlast. split_and!; try done.
        intros _. split; [done|]. destruct (Hten eq_refl). lia. }
    set (w3 := (emit (EvPrintLogs (flatLogs res)) w2).1). rewrite (bind_run _ _ w2 w3 tt) by done.
    assert (Hf3 : follows st w (((tr0 ++ [EvBroadcast b (inr tt)]) ++ trp) ++ [EvPrintLogs (flatLogs res)]) st2 w3)
      by (by eapply follows_snoc).
    assert (Hcs : forall p, p (EvPrintLogs (flatLogs res)) = false ->
      count p (((tr0 ++ [EvBroadcast b (inr tt)]) ++ trp) ++ [EvPrintLogs (flatLogs res)])
      = (count p (tr0 ++ [EvBroadcast b (inr tt)]) + count p trp)%nat).
    { intros p Hp. rewrite (count_app p (_ ++ trp)), (count_app p _ trp), count_cons, Hp.
      change (count p []) with 0%nat. lia. }
    destruct (SuccessValue res) as [v|] eqn:Es.
    + eexists _, st2. split; [exact Hf3|]. rewrite !Hcs by done. split_and!; try (rewrite ?Nat.mul_succ_l; lia). left.
      destruct (Hfin res eq_refl) as [|[tr' ->]]; [apply final_success; by rewrite Es|done|].
      exists res, h, b, (tr0 ++ [EvBroadcast b (inr tt)] ++ tr'). split_and!; try done.
      * by rewrite Es.
      * by rewrite Hlp, Hl1.
      * rewrite !elem_of_app. right. left. by left.
      * by rewrite <- !app_assoc.
    + destruct (Failure res) as [msg|]; [|eapply loop_ok_throw; [exact Hf3|rewrite Hcs by done; lia..]].
      destruct (includes "Transaction nonce" msg);
        [|eapply loop_ok_throw; [exact Hf3|rewrite Hcs by done; lia..]].
      eapply loop_ok_step; [exact Hf3|rewrite Hcs by done; lia..|]. apply IH.
      unfold ready; simpl. rewrite Hlp, Hl1, Hre. split_and!; try done. intros _. by apply Hfl.
Qed.

(** The automaton at the start of a call: no transaction is signed yet. *)
Definition proto_start (w : W) : proto :=
  mkProto (default 0 (k_get (store w))) None 0 false.

Lemma start_ready (w : W) : ready (proto_start w) (mkLocals None false None) w.
Proof.
  split_and!; try done; [intros _; unfold RETRY_TX_STATUS; simpl; lia|].
  intros n Hn. unfold proto_start. by rewrite Hn.
Qed.

(** What the automaton says about the nonces: they increase. *)
Definition nonces (tr : list event) : list Z :=
  omap (fun ev => match ev with EvSign _ n _ => Some n | _ => None end) tr.

Lemma proto_nonces st tr st' : proto_run st tr = Some st' ->
  StronglySorted Z.lt (p_nonce st :: nonces tr).
Proof.
  revert st. induction tr as [|ev tr IH]; intros st Hrun; [by repeat constructor|].
  simpl in Hrun. destruct (proto_step st ev) as [st1|] eqn:Est; [|done]. simpl in Hrun.
  specialize (IH st1 Hrun).
  destruct ev; simpl in *; try done; repeat case_match; simplify_eq; try done.
  all: apply andb_true_iff in H2 as [Hlt%Z.ltb_lt _]; simpl in IH; constructor; [done|];
    inversion IH as [|? ? _ Hall]; simplify_eq; constructor; [done|];
    eapply Forall_impl; [exact Hall|]; simpl; intros; lia.
Qed.
End spec.
