(* ===== verification/NearTxTheorems.v ===== *)
(** * Theorems about NEAR transactions *)

From Stdlib Require Import Ascii Strings.Byte.
From stdpp Require Import base list strings gmap sorting pretty.
From Stdlib Require Import ZArith Lia.
From S2P Require Import Prelude Js Effects Borsh BorshSpec Schemas Instances Robust RobustSpec NearTx NearTxSpec.
Local Open Scope Z_scope.

(** C8: whatever the node answers, a call of [signAndSendTransaction] follows
    the protocol: it signs with strictly increasing nonces above the one of the
    key, broadcasts only the bytes of the transaction it signed last and asks
    only for the status of that one; when ten status queries in a row fail it
    does not sign another transaction but sends the same bytes again, and in no
    other case are the same bytes sent twice; it signs and broadcasts at most ten times and asks at most a hundred times. *)
Theorem signAndSendTransaction_protocol {St N actions} `{Clock N} `{NearNode N actions} `{KeySlot St}
    (acct : account) (receiverId : string) (acts : actions) (w : world St N event) :
  exists tr st', trace (signAndSendTransaction acct receiverId acts w).1 = trace w ++ tr /\
    proto_run (proto_start w) tr = Some st' /\
    StronglySorted Z.lt (default 0 (k_get (store w)) :: nonces tr) /\
    (count is_sign tr <= 10)%nat /\ (count is_broadcast tr <= 10)%nat /\
    (count is_txStatus tr <= 100)%nat.
Proof.
  destruct (send_loop_spec acct receiverId acts RETRY_SEND_TX _ _ w (start_ready w))
    as (tr & st' & [Htr Hrun] & Hb & Hs & Hc & _).
  exists tr, st'. split_and!; try done. by apply proto_nonces in Hrun.
Qed.

(** [signAndSendTransaction] always ends.  When it returns a result, that
    is the node's last answer, it has a success value, and it is for the last
    transaction that was signed, whose broadcast the node had taken; otherwise
    it throws. *)
Theorem signAndSendTransaction_result {St N actions} `{Clock N} `{NearNode N actions} `{KeySlot St}
    (acct : account) (receiverId : string) (acts : actions) (w : world St N event) :
  exists tr st', trace (signAndSendTransaction acct receiverId acts w).1 = trace w ++ tr /\
    proto_run (proto_start w) tr = Some st' /\
    sent_ok st' tr (signAndSendTransaction acct receiverId acts w).2.
Proof.
  destruct (send_loop_spec acct receiverId acts RETRY_SEND_TX _ _ w (start_ready w))
    as (tr & st' & [Htr Hrun] & _ & _ & _ & Hok).
  by exists tr, st'.
Qed.

(** *** A transaction that stays pending *)

Section pending.
Context {St N actions : Type} `{Clock N} `{NearNode N actions} `{KeySlot St}.
Variables (acct : account) (rcv : string) (acts : actions).
Definition pending (r : txresult) : Prop := SuccessValue r = None /\ Failure r = None.

Lemma pending_not_final r : pending r -> final_status r = false.
Proof. intros [Hs Hf]. unfold final_status. by rewrite Hs, Hf. Qed.

Lemma poll_pending h n : (forall n0, exists n1 r, near_txStatus h (accountId acct) n0 = (n1, inr r) /\ pending r) ->
  forall j result em (w : world St N event), (n = 0%nat -> exists r, result = Some r /\ pending r) ->
  exists w' r, poll acct h n j result em w = (w', Ok (Some r, em)) /\ pending r.
Proof.
  intros Hn. induction n as [|n IH]; intros j result em w Hres.
  { destruct (Hres eq_refl) as (r & -> & Hr). by exists w, r. }
  simpl. destruct (Hn (net w)) as (n1 & r & E & Hr).
  erewrite bind_run by (apply attempt_run; by apply rpc_run).
  cbn beta iota. rewrite pending_not_final by done. apply IH. eauto.
Qed.

Lemma send_loop_pending n l l' (w w1 : world St N event) h b :
  send_block acct rcv acts l w = (w1, Ok (mkLocals (Some (h, b)) false l', inr tt)) ->
  (forall n0, exists n1 r, near_txStatus h (accountId acct) n0 = (n1, inr r) /\ pending r) ->
  (send_loop acct rcv acts (S n) l w).2 = Throw (TypeError "Cannot read property 'includes' of undefined").
Proof.
  intros E Hn. cbn [send_loop]. rewrite (bind_run _ _ _ _ _ E).
  cbn [l_last default fmap option_fmap option_map fst l_errorMsg].
  destruct (poll_pending h RETRY_TX_STATUS Hn 0 None l' w1) as (w2 & r & Ep & Hs & Hf); [done|].
  rewrite (bind_run _ _ _ _ _ Ep). unfold emit at 1, mbind at 1, M_bind at 1. by rewrite Hs, Hf.
Qed.
End pending.

(** A transaction that the node takes and that is still pending after ten
    answered status queries makes [signAndSendTransaction] throw a
    [TypeError]: there is no failure to print, and the code searches the
    printed failure for a nonce error. *)
Theorem pending_transaction_typeerror {St N actions} `{Clock N} `{NearNode N actions} `{KeySlot St}
    (acct : account) (receiverId : string) (acts : actions) (w : world St N event) (nonce : Z) :
  k_get (store w) = Some nonce ->
  (forall n, exists n' h, near_status n = (n', inr h)) ->
  (forall h, exists bh, near_base_decode (NearNode := H0) h = inr bh) ->
  (forall r k a bh s n, exists n' h b, near_signTransaction r k a bh s n = (n', inr (h, b))) ->
  (forall b n, exists n', near_broadcast_tx_async (NearNode := H0) b n = (n', inr tt)) ->
  (forall h a n, exists n' r, near_txStatus (NearNode := H0) h a n = (n', inr r) /\ pending r) ->
  (signAndSendTransaction acct receiverId acts w).2 =
    Throw (TypeError "Cannot read property 'includes' of undefined").
Proof.
  intros Hk Hstatus Hdec Hsign Hbc Hpend.
  destruct (Hstatus (net w)) as (n1 & h & E1). destruct (Hdec h) as [bh E2].
  destruct (Hsign receiverId (nonce + 1) acts bh (accountId acct) n1) as (n2 & hash & b & E3).
  destruct (Hbc b n2) as [n3 E4].
  assert (exists w1, send_block acct receiverId acts (mkLocals None false None) w
    = (w1, Ok (mkLocals (Some (hash, b)) false None, inr tt))) as [w1 E].
  { unfold send_block; cbn [l_resend l_errorMsg]. eexists.
    erewrite bind_run; [|apply attempt_run; unfold sign_next;
      erewrite bind_run by (apply rpc_run; exact E1);
      erewrite bind_run by (unfold incr_nonce; simpl; by rewrite Hk); rewrite E2;
      erewrite bind_run by reflexivity; apply rpc_run; exact E3].
    cbn iota. erewrite bind_run by (apply attempt_run, rpc_run; exact E4). reflexivity. }
  unfold signAndSendTransaction, RETRY_SEND_TX.
  eapply send_loop_pending; [exact E|]. intros n. apply Hpend.
Qed.

(** *** [txnStatus] *)

(** The events of a status loop: queries for one hash, and sleeps. *)
Definition asks_only (h : string) (wait : Z) (ev : event) : Prop :=
  (exists r, ev = EvTxStatus h r) \/ ev = EvSleep (f_of_Z wait).

Lemma txn_loop_spec {St N actions} `{Clock N} `{NearNode N actions} acct h wait n :
  forall result (w : world St N event),
  exists tr w' res, txn_loop acct h wait n result w = (w', Ok res) /\ trace w' = trace w ++ tr /\
    (count is_txStatus tr <= n)%nat /\ Forall (asks_only h wait) tr /\
    (forall x, res = Some x -> final_status x = true ->
      result = Some x \/ exists tr', tr = tr' ++ [EvTxStatus h (inr x)]).
Proof.
  induction n as [|n IH]; intros result w.
  { exists [], w, result. rewrite app_nil_r. split_and!; try done. by left. }
  simpl. destruct (near_txStatus h (accountId acct) (net w)) as [n1 r] eqn:E.
  set (w1 := mkWorld (store w) n1 (trace w ++ [EvTxStatus h r])).
  assert (Hq : query_status acct h w = (w1, of_sum r)) by (unfold query_status, rpc; by rewrite E).
  rewrite (bind_run _ _ _ _ _ (attempt_sum _ _ _ _ Hq)).
  assert (Hask : asks_only h wait (EvTxStatus h r)) by (left; eauto).
  destruct r as [e|x].
  - set (w2 := (sleep (f_of_Z wait) w1).1). rewrite (bind_run _ _ w1 w2 tt) by done.
    destruct (IH result w2) as (tr & w' & res & Hl & Ht & Hc & Hall & Hfin).
    exists ([EvTxStatus h (inl e); EvSleep (f_of_Z wait)] ++ tr), w', res. split_and!.
    + done.
    + rewrite Ht. simpl. by rewrite <- !app_assoc.
    + unfold count in *; simpl; lia.
    + constructor; [done|]. constructor; [by right|done].
    + intros y Hy Hfy. destruct (Hfin y Hy Hfy) as [|[tr' ->]]; [by left|right].
      eexists. by rewrite app_assoc.
  - cbn beta iota. destruct (final_status x) eqn:Ef.
    { exists [EvTxStatus h (inr x)], w1, (Some x). split_and!; try done.
      - unfold count; simpl; lia.
      - by constructor.
      - intros y [= <-] _. right. by exists []. }
    destruct (IH (Some x) w1) as (tr & w' & res & Hl & Ht & Hc & Hall & Hfin).
    exists ([EvTxStatus h (inr x)] ++ tr), w', res. split_and!.
    + done.
    + rewrite Ht. simpl. by rewrite <- !app_assoc.
    + unfold count in *; simpl; lia.
    + by constructor.
    + intros y Hy Hfy. destruct (Hfin y Hy Hfy) as [[= ->]|[tr' ->]]; [congruence|right].
      eexists. by rewrite app_assoc.
Qed.

(** [txnStatus] always ends, after at most [retries] queries for the given
    transaction and sleeps of the given duration: it returns a result only when
    that has a success value and is the answer to the last query, and throws
    otherwise, also for a transaction that is still pending. *)
Theorem txnStatus_result {St N actions} `{Clock N} `{NearNode N actions} (acct : account)
    (txHash : string) (retries : nat) (wait : Z) (w : world St N event) :
  exists tr, trace (txnStatus acct txHash retries wait w).1 = trace w ++ tr /\
    (count is_txStatus tr <= retries)%nat /\
    Forall (fun ev => asks_only txHash wait ev \/ exists logs, ev = EvPrintLogs logs) tr /\
    ((exists res tr', (txnStatus acct txHash retries wait w).2 = Ok res /\ SuccessValue res <> None /\
        tr = tr' ++ [EvTxStatus txHash (inr res); EvPrintLogs (flatLogs res)]) \/
     (exists e, (txnStatus acct txHash retries wait w).2 = Throw e)).
Proof.
  unfold txnStatus.
  destruct (txn_loop_spec acct txHash wait retries None w) as (tr & w' & res & E & Ht & Hc & Hall & Hfin).
  rewrite (bind_run _ _ _ _ _ E).
  assert (Hall' : Forall (fun ev => asks_only txHash wait ev \/ exists logs, ev = EvPrintLogs logs) tr)
    by (eapply Forall_impl; [exact Hall|]; by left).
  destruct res as [res|].
  2:{ exists tr. split_and!; try done. right. by eexists. }
  set (w2 := (emit (EvPrintLogs (flatLogs res)) w').1). rewrite (bind_run _ _ w' w2 tt) by done.
  exists (tr ++ [EvPrintLogs (flatLogs res)]).
  assert (Hgoal : trace w2 = trace w ++ tr ++ [EvPrintLogs (flatLogs res)])
    by (simpl; by rewrite Ht, <- app_assoc).
  split; [by destruct (SuccessValue res)|]. split; [rewrite count_app; unfold count at 2; simpl; lia|].
  split; [apply Forall_app; split; [done|constructor; eauto]|].
  destruct (SuccessValue res) as [v|] eqn:Es; [left|right; by eexists].
  destruct (Hfin res eq_refl) as [|[tr' ->]]; [apply final_success; by rewrite Es|done|].
  exists res, tr'. split_and!; [done|by rewrite Es|by rewrite <- app_assoc].
Qed.

(** *** [BorshContract] *)

Lemma backoff_ok {St N} `{Clock N} {A} retries (fn : M St N event A) delay wait w w' a :
  fn w = (w', Ok a) -> backoff retries fn delay wait w = (w', Ok a).
Proof. intros E. destruct retries; simpl; unfold catch; by rewrite E. Qed.

(** The bytes that the contract expects as the input of a method. *)
Definition input_bytes (schema : gmap string skind) (d : method) (args : jsval) (bs : list byte) : Prop :=
  match inputFieldType d with
  | None => bs = []
  | Some ft => writes schema schema_fuel ft args bs
  end.

(** A view method of a [BorshContract] asks the node for the method of the
    contract with exactly the Borsh encoding of the arguments, and returns the
    value whose Borsh encoding the contract answered. *)
Theorem view_method_correct {St N actions W} `{Clock N} `{NearNode N actions} `{BinaryWriterLaws W} `{BNLaws}
    (schema : gmap string skind) (contractId : string) (d : method) (args v : jsval)
    (bs out : list byte) (ft : ftype) (logs : option (list string)) (w : world St N event) (n' : N) :
  input_bytes schema d args bs -> outputFieldType d = Some ft ->
  writes schema schema_fuel ft v out -> canonical schema schema_fuel ft v -> out <> [] ->
  near_query ("call/" +:+ contractId +:+ "/" +:+ methodName d) bs (net w)
    = (n', inr (mkQueryResult logs (Some out))) ->
  exists w', view_method (W := W) schema contractId d args w = (w', Ok v) /\
    EvQuery ("call/" +:+ contractId +:+ "/" +:+ methodName d) bs
      (inr (mkQueryResult logs (Some out))) ∈ trace w'.
Proof.
  intros Hin Hft Hout Hcan Hne Hq. unfold view_method.
  assert (serialize (W := W) schema schema_fuel (inputFieldType d) args = Ok bs) as Hser.
  { unfold input_bytes in Hin. destruct (inputFieldType d); [by apply serialize_writes|by subst]. }
  rewrite Hser, (bind_run _ _ w w bs) by done. cbn beta zeta.
  erewrite bind_run by (apply backoff_ok; erewrite bind_run by (by apply rpc_run); reflexivity).
  cbn [q_logs q_result]. set (w1 := mkWorld (store w) n' _).
  pose proof (deserialize_writes schema schema_fuel ft v out Hout Hcan) as Hdes.
  assert (Hin1 : EvQuery ("call/" +:+ contractId +:+ "/" +:+ methodName d) bs
      (inr (mkQueryResult logs (Some out))) ∈ trace w1).
  { unfold w1. simpl. apply elem_of_app. right. by left. }
  destruct logs as [logs|].
  - rewrite (bind_run _ _ w1 (emit (EvPrintLogs logs) w1).1 tt) by done.
    destruct out as [|b out]; [done|]. rewrite Hft, Hdes. eexists. split; [reflexivity|].
    simpl. apply elem_of_app. by left.
  - rewrite (bind_run _ _ w1 w1 tt) by done.
    destruct out as [|b out]; [done|]. rewrite Hft, Hdes. eexists. split; [reflexivity|]. done.
Qed.

(** ** Witnesses *)

(** A node that keeps the transactions it was given and answers that they are
    pending, with a key whose nonce is 7; the actions are the bytes of the
    call. *)
#[local] Instance toy_clock : Clock (list (list byte)) := fun _ n => n.
#[local] Instance toy_key : KeySlot (option Z) := {| k_get s := s; k_set k _ := k; k_get_set k s := eq_refl |}.

Definition toy_node (broadcast : list (list byte) -> exn + unit) (status : txresult)
    (answer : list byte) : NearNode (list (list byte)) (list byte) := {|
  near_status n := (n, inr "hash");
  near_signTransaction _ k a _ _ n := (n, inr (pretty k, le_bytes 8 k ++ a));
  near_broadcast_tx_async b n := (n ++ [b], broadcast n);
  near_txStatus _ _ n := (n, inr status);
  near_query _ _ n := (n, inr (mkQueryResult None (Some answer)));
  near_findAccessKey _ n := (n, inr (Some 7));
  near_base_decode _ := inr [];
  near_functionCall _ b _ _ := b
|}.

Definition pending_node := toy_node (fun _ => inr tt) (mkTxResult None None [] [] VNull) [].
Lemma pending_transaction_typeerror_witness :
  (signAndSendTransaction (H0 := pending_node) (mkAccount "relay") "client" [x2a]
     (mkWorld (Some 7) [] [])).2 = Throw (TypeError "Cannot read property 'includes' of undefined").
Proof.
  apply (pending_transaction_typeerror (H0 := pending_node) (mkAccount "relay") "client" [x2a]
    (mkWorld (Some 7) [] []) 7); simpl; eauto 10.
  intros h a n. eexists _, _. split; [reflexivity|done].
Defined.

(** The node takes the first transaction, but its answer is lost. *)
Definition lossy_node :=
  toy_node (fun n => match n with [] => inl (Error "socket hang up") | _ => inr tt end)
    (mkTxResult (Some "") None [] [] VNull) [].

(** When the node takes a transaction and its answer is lost, the call is
    executed twice: [signAndSendTransaction] signs the same actions again with
    the next nonce and broadcasts them as a second transaction, and returns the
    success of that one. *)
Theorem lost_answer_sends_twice :
  let '(w', o) := signAndSendTransaction (H0 := lossy_node) (mkAccount "relay") "client" [x2a]
    (mkWorld (Some 7) [] []) in
  net w' = [le_bytes 8 8 ++ [x2a]; le_bytes 8 9 ++ [x2a]] /\
  o = Ok (mkTxResult (Some "") None [] [] VNull).
Proof. vm_compute. done. Qed.

Definition height_node := toy_node (fun _ => inr tt) (mkTxResult None None [] [] VNull) (le_bytes 8 300).
Lemma view_method_correct_witness :
  exists w', view_method (H0 := height_node) (W := list byte) client_schema "client"
      (mkMethod "last_block_number" None (Some (FName "u64"))) VUndef (mkWorld tt [] [])
      = (w', Ok (VBN 300)) /\
    EvQuery "call/client/last_block_number" [] (inr (mkQueryResult None (Some (le_bytes 8 300)))) ∈ trace w'.
Proof.
  apply (view_method_correct (H0 := height_node) client_schema "client"
    (mkMethod "last_block_number" None (Some (FName "u64"))) VUndef (VBN 300) [] (le_bytes 8 300)
    (FName "u64") None (mkWorld tt [] []) []); try reflexivity.
  - exists 300. repeat split; vm_compute; congruence.
  - by eexists.
  - done.
Defined.
