(* ===== verification/Config.v ===== *)
(** * The configuration of the command line: [utils/config/index.js]

    The class [RainbowConfig]: declared options, the values collected from the
    command line and the environment, and the configuration file. *)

From Stdlib Require Import Ascii.
From stdpp Require Import base list strings.
From S2P Require Import Prelude Js.

(** [changeCase.paramCase], [changeCase.camelCase] and [changeCase.constantCase]
    of the package [change-case]. *)
Class ChangeCase := {
  paramCase : string -> string;
  snakeCase : string -> string;
  camelCase : string -> string;
  constantCase : string -> string
}.

Inductive paramType := PEnv | PArg | PConfig | PDefault.

Record declaration := mkDecl {
  d_description : string;
  d_defaultValue : jsval;
  d_noConfig : bool
}.

(** The static fields of the class.  An object used as a dictionary is the
    list of its properties in insertion order; the file is what [Configstore]
    keeps on disk. *)
Record config := mkConfig {
  paramValues : list (string * (jsval * paramType));
  paramDeclarations : list (string * declaration);
  configFile : list (string * jsval)
}.

(** An option registered with the command line parser. *)
Record cmdOption := mkCmdOption {
  co_flags : string;
  co_description : string;
  co_name : string;
  co_default : jsval
}.

Section config.
Context `{ChangeCase}.

(** [declareOption(name, description, defaultValue = '', noConfig = false)] *)
Definition declareOption (name description : string) (defaultValue : jsval) (noConfig : bool)
    (c : config) : config :=
  let defaultValue := match defaultValue with VUndef => VStr "" | _ => defaultValue end in
  mkConfig (paramValues c)
    (set_prop name (mkDecl description defaultValue noConfig) (paramDeclarations c)) (configFile c).

(** [null] is [VNull]. *)
Definition maybeGetParam (name : string) (c : config) : jsval :=
  match assoc name (paramValues c) with
  | Some (value, _) => value
  | None =>
      match assoc (camelCase name) (configFile c) with
      | Some value => value
      | None =>
          match assoc name (paramDeclarations c) with
          | Some decl => match d_defaultValue decl with VUndef => VNull | v => v end
          | None => VNull
          end
      end
  end.

Definition getParam (name : string) (c : config) : outcome jsval :=
  match maybeGetParam name c with
  | VNull => Throw (Error ("Parameter " +:+ name +:+ " must be specified."))
  | res => Ok res
  end.

Definition setParam (name : string) (value : jsval) (c : config) : config :=
  mkConfig (set_prop name (value, PConfig) (paramValues c)) (paramDeclarations c) (configFile c).

(** [for (const name in this.paramValues)]: every value goes to the file. *)
Definition saveConfig (c : config) : config :=
  mkConfig (paramValues c) (paramDeclarations c)
    (fold_left (fun file p => set_prop (camelCase p.1) p.2.1 file) (paramValues c) (configFile c)).

(** [_processArg(name, value, previous)]; [env] is [process.env]. *)
Definition processArg (env : string -> option string) (name : string) (value previous : jsval)
    (c : config) : outcome (config * jsval) :=
  match assoc name (paramValues c) with
  | Some _ => Exit 1
  | None =>
      let set value ty :=
        Ok (mkConfig (set_prop name (value, ty) (paramValues c)) (paramDeclarations c) (configFile c), value) in
      let from_env := default "" (env (constantCase name)) in
      if truthy from_env then set (VStr from_env) PEnv
      else if js_truthy value then set value PArg
      else match assoc (camelCase name) (configFile c) with
      | Some value => set value PConfig
      | None => if js_truthy previous then set previous PDefault else Exit 1
      end
  end.

(** [addOptions(command, handler, options)]: the options it registers. *)
Definition add_option (c : config) (option : string) : outcome cmdOption :=
  match assoc option (paramDeclarations c) with
  | None => Throw (TypeError "Cannot read property 'description' of undefined")
  | Some decl =>
      let defaultValue :=
        match maybeGetParam (paramCase option) c with
        | VNull => match d_defaultValue decl with VNull => VUndef | v => v end
        | v => v
        end in
      Ok (mkCmdOption ("--" +:+ paramCase option +:+ " <" +:+ snakeCase option +:+ ">")
            (d_description decl) option defaultValue)
  end.
Definition addOptions (options : list string) (c : config) : outcome (list cmdOption) :=
  mapM_out (add_option c) options.

(** The action that [addOptions] registers, after the handler returned. *)
Definition runAction (newConfigValues : option (list (string * jsval))) (c : config) : config :=
  match newConfigValues with
  | None => c
  | Some kvs =>
      let c := fold_left (fun c kv => setParam (paramCase kv.1) kv.2 c) kvs c in
      match kvs with [] => c | _ => saveConfig c end
  end.

(** A new process: nothing is collected yet, the file is as it was saved. *)
Definition restart (c : config) : config := mkConfig [] (paramDeclarations c) (configFile c).

(** ** Lemmas *)

(** Saving keeps, for every name, the last value written under its key. *)
Lemma save_lookup kvs : forall file k,
  assoc k (fold_left (fun f (p : string * (jsval * paramType)) => set_prop (camelCase p.1) p.2.1 f) kvs file) =
  match last (filter (fun p => camelCase p.1 = k) kvs) with
  | Some p => Some p.2.1
  | None => assoc k file
  end.
Proof.
  induction kvs as [|p kvs IH] using rev_ind; intros file k; [done|].
  rewrite fold_left_app, filter_app. simpl. rewrite assoc_set_prop, filter_cons.
  destruct (String.eqb_spec k (camelCase p.1)) as [->|Hne].
  - rewrite decide_True, filter_nil, last_snoc by done. done.
  - rewrite decide_False by done. rewrite filter_nil, app_nil_r. apply IH.
Qed.

(** When no two collected names share a key, each is saved under its own. *)
Lemma save_param c name v ty :
  NoDup (map fst (paramValues c)) ->
  (forall n n' v v', (n, v) ∈ paramValues c -> (n', v') ∈ paramValues c -> camelCase n = camelCase n' -> n = n') ->
  assoc name (paramValues c) = Some (v, ty) ->
  assoc (camelCase name) (configFile (saveConfig c)) = Some v.
Proof.
  intros Hnd Hinj Hv. unfold saveConfig; simpl. rewrite save_lookup.
  assert (Hin : (name, (v, ty)) ∈ paramValues c) by by apply assoc_elem.
  destruct (last _) as [[n [v' ty']]|] eqn:E.
  - apply last_Some_elem_of, list_elem_of_filter in E as [Hk Hin']. simpl in Hk.
    rewrite (Hinj _ _ _ _ Hin' Hin Hk) in Hin'.
    apply (assoc_nodup _ _ _ Hnd) in Hin'. rewrite Hv in Hin'. by simplify_eq.
  - apply last_None in E. assert ((name, (v, ty)) ∈ ([] : list (string * (jsval * paramType)))) as Hx.
    { rewrite <- E. apply list_elem_of_filter. done. }
    by apply elem_of_nil in Hx.
Qed.

Lemma set_prop_keys {A} k (v : A) props k' :
  k' ∈ map fst (set_prop k v props) <-> k' = k \/ k' ∈ map fst props.
Proof.
  induction props as [|[k0 x] props IH]; simpl; [by rewrite list_elem_of_singleton, elem_of_nil; tauto|].
  destruct (String.eqb_spec k k0) as [->|]; simpl; rewrite ?elem_of_cons; [tauto|]. rewrite IH. tauto.
Qed.

Lemma set_prop_nodup {A} k (v : A) props :
  NoDup (map fst props) -> NoDup (map fst (set_prop k v props)).
Proof.
  induction props as [|[k0 x] props IH]; simpl; intros Hnd; [apply NoDup_singleton|].
  apply NoDup_cons in Hnd as [Hk Hnd].
  destruct (String.eqb_spec k k0) as [->|]; simpl; [by apply NoDup_cons|].
  apply NoDup_cons. split; [rewrite set_prop_keys; by intros [->|]|auto].
Qed.

(** The values that a command returns, as the collected values hold them. *)
Lemma setParams_spec kvs : forall c,
  let c' := fold_left (fun c kv => setParam (paramCase kv.1) kv.2 c) kvs c in
  (NoDup (map fst (paramValues c)) -> NoDup (map fst (paramValues c'))) /\
  configFile c' = configFile c /\ paramDeclarations c' = paramDeclarations c /\
  (forall n, n ∈ map fst (paramValues c') -> n ∈ map fst (paramValues c) \/ n ∈ map (paramCase ∘ fst) kvs) /\
  (forall n, n ∉ map (paramCase ∘ fst) kvs -> assoc n (paramValues c') = assoc n (paramValues c)) /\
  (NoDup (map (paramCase ∘ fst) kvs) -> forall k v, (k, v) ∈ kvs ->
     assoc (paramCase k) (paramValues c') = Some (v, PConfig)).
Proof.
  induction kvs as [|[k v] kvs IH]; intros c; simpl.
  { split_and!; try done; [auto|]. intros _ k v Hin. by apply elem_of_nil in Hin. }
  destruct (IH (setParam (paramCase k) v c)) as (Hnd & Hf & Hd & Hkeys & Hother & Hset). simpl in *.
  split_and!; try done.
  - intros Hc. apply Hnd, set_prop_nodup, Hc.
  - intros n Hn. destruct (Hkeys n Hn) as [Hin|Hin]; [|right; by right].
    apply set_prop_keys in Hin as [->|]; [right; by left|by left].
  - intros n Hn. rewrite elem_of_cons in Hn. rewrite Hother by tauto.
    rewrite assoc_set_prop. destruct (String.eqb_spec n (paramCase k)); [tauto|done].
  - intros [Hk Hkvs]%NoDup_cons k' v' [[= -> ->]|Hin]%elem_of_cons; [|by apply Hset].
    rewrite Hother by done. by rewrite assoc_set_prop, String.eqb_refl.
Qed.
End config.
