(* ===== verification/ConfigTheorems.v ===== *)
(** * Theorems about the configuration *)

From Stdlib Require Import Ascii.
From stdpp Require Import base list strings.
From S2P Require Import Prelude Js Config.

(** The names under which values are collected or returned have distinct keys
    in the file. *)
Definition distinct_keys `{ChangeCase} (names : list string) : Prop :=
  forall n n', n ∈ names -> n' ∈ names -> camelCase n = camelCase n' -> n = n'.

(** A returned value is found by the processes that start later. *)
Lemma action_saved `{ChangeCase} (c : config) (kvs : list (string * jsval)) (k : string) (v : jsval) :
  NoDup (map fst (paramValues c)) -> NoDup (map (paramCase ∘ fst) kvs) ->
  distinct_keys (map fst (paramValues c) ++ map (paramCase ∘ fst) kvs) -> (k, v) ∈ kvs ->
  maybeGetParam (paramCase k) (restart (runAction (Some kvs) c)) = v.
Proof.
  intros Hnd Hkvs Hdist Hin.
  destruct (setParams_spec kvs c) as (Hnd' & _ & _ & Hkeys & _ & Hset).
  set (c' := fold_left _ kvs c) in *.
  assert (Hfile : configFile (runAction (Some kvs) c) = configFile (saveConfig c')).
  { unfold runAction. destruct kvs; [by apply elem_of_nil in Hin|done]. }
  unfold maybeGetParam, restart. cbn [paramValues assoc configFile]. rewrite Hfile.
  rewrite (save_param c' (paramCase k) v PConfig); [done|by apply Hnd'| |by apply Hset].
  intros n n' x x' Hn Hn'.
  assert (forall m y, (m, y) ∈ paramValues c' -> m ∈ map fst (paramValues c) ++ map (paramCase ∘ fst) kvs).
  { intros m y Hm. apply elem_of_app, Hkeys, list_elem_of_fmap. by exists (m, y). }
  apply Hdist; eauto.
Qed.

(** C37: what a command returns is what the next commands read: after the action
    ran and a new process started, every returned string is the value of its
    parameter, whatever was collected before, if no two names share a key in the
    file. *)
Theorem action_persists `{ChangeCase} (c : config) (kvs : list (string * jsval)) (k v : string) :
  NoDup (map fst (paramValues c)) -> NoDup (map (paramCase ∘ fst) kvs) ->
  distinct_keys (map fst (paramValues c) ++ map (paramCase ∘ fst) kvs) -> (k, VStr v) ∈ kvs ->
  let later := restart (runAction (Some kvs) c) in
  maybeGetParam (paramCase k) later = VStr v /\ getParam (paramCase k) later = Ok (VStr v).
Proof.
  intros Hnd Hkvs Hdist Hin. pose proof (action_saved c kvs k (VStr v) Hnd Hkvs Hdist Hin) as Hget.
  unfold getParam. by rewrite Hget.
Qed.

(** C28: the value that [_processArg] collects is the environment variable when
    there is one, else the argument, else the entry of the file, else the
    previous value; it is what [maybeGetParam] gives from then on, the file is
    not changed, and a second occurrence of the option ends the process. *)
Theorem processArg_priority `{ChangeCase} (env : string -> option string) (name : string)
    (value previous v : jsval) (c c' : config) :
  processArg env name value previous c = Ok (c', v) ->
  maybeGetParam name c' = v /\ configFile c' = configFile c /\
  (forall value' previous', processArg env name value' previous' c' = Exit 1) /\
  match env (constantCase name), js_truthy value, assoc (camelCase name) (configFile c) with
  | Some (String _ _ as e), _, _ => v = VStr e
  | _, true, _ => v = value
  | _, false, Some x => v = x
  | _, false, None => v = previous /\ js_truthy previous = true
  end.
Proof.
  unfold processArg at 1. destruct (assoc name (paramValues c)) eqn:Ea; [done|].
  assert (Hset : forall x ty,
    let c1 := mkConfig (set_prop name (x, ty) (paramValues c)) (paramDeclarations c) (configFile c) in
    maybeGetParam name c1 = x /\ configFile c1 = configFile c /\
    (forall value' previous', processArg env name value' previous' c1 = Exit 1)).
  { intros x ty. unfold maybeGetParam, processArg. simpl.
    by rewrite assoc_set_prop, String.eqb_refl. }
  destruct (env (constantCase name)) as [[|ch e]|]; simpl;
    destruct (js_truthy value); simpl;
    try destruct (assoc (camelCase name) (configFile c)); simpl;
    try destruct (js_truthy previous) eqn:Ep; simpl; try done; intros [= <- <-];
    (split; [eapply Hset|split; [eapply Hset|split; [eapply Hset|done]]]).
Qed.

(** Saving writes every collected value into the file, also one that came
    from an environment variable and one of an option that is declared not to
    be written. *)
Theorem saveConfig_writes_all `{ChangeCase} (c : config) (name : string) (v : jsval) (ty : paramType) :
  NoDup (map fst (paramValues c)) -> distinct_keys (map fst (paramValues c)) ->
  assoc name (paramValues c) = Some (v, ty) ->
  assoc (camelCase name) (configFile (saveConfig c)) = Some v.
Proof.
  intros Hnd Hd Hv. apply (save_param c name v ty); [done| |done].
  intros n n' x x' Hn Hn'. apply Hd; apply list_elem_of_fmap; by eexists (_, _).
Qed.

(** An option that is declared without a default is never reported as
    missing: its default is the empty string, which [getParam] returns. *)
Theorem declared_option_never_missing `{ChangeCase} (c : config) (name description : string) (noConfig : bool) :
  assoc name (paramValues c) = None -> assoc (camelCase name) (configFile c) = None ->
  getParam name (declareOption name description VUndef noConfig c) = Ok (VStr "").
Proof.
  intros Hv Hf. unfold getParam, maybeGetParam, declareOption; simpl.
  by rewrite Hv, Hf, assoc_set_prop, String.eqb_refl.
Qed.

(** ** Witnesses *)

(** The two names of the example, in each case. *)
Definition toy_case (params camels : list string) (s : string) : string :=
  match list_find (fun p => p.1 = s) (zip params camels) with
  | Some (_, (_, t)) => t
  | None => s
  end.
Definition kebabs := ["eth-master-sk"; "eth-client-address"].
Definition camels := ["ethMasterSk"; "ethClientAddress"].
#[local] Instance toy_cases : ChangeCase := {|
  paramCase := toy_case camels kebabs;
  snakeCase := id;
  camelCase := toy_case kebabs camels;
  constantCase := toy_case kebabs ["ETH_MASTER_SK"; "ETH_CLIENT_ADDRESS"]
|}.
Definition toy_env (s : string) : option string :=
  if String.eqb s "ETH_MASTER_SK" then Some "0x2a" else None.
Definition empty_config : config := mkConfig [] [] [].
Definition env_config : config := mkConfig [("eth-master-sk", (VStr "0x2a", PEnv))] [] [].

Lemma action_persists_witness :
  let later := restart (runAction (Some [("ethClientAddress", VStr "0xabc")]) env_config) in
  maybeGetParam (paramCase "ethClientAddress") later = VStr "0xabc" /\
  getParam (paramCase "ethClientAddress") later = Ok (VStr "0xabc").
Proof.
  apply (action_persists env_config [("ethClientAddress", VStr "0xabc")]).
  - apply (bool_decide_unpack _). vm_compute. exact I.
  - apply (bool_decide_unpack _). vm_compute. exact I.
  - intros n n' Hn Hn'. vm_compute in Hn, Hn'.
    repeat (apply elem_of_cons in Hn as [->|Hn]; [|try by apply elem_of_nil in Hn]);
    repeat (apply elem_of_cons in Hn' as [->|Hn']; [|try by apply elem_of_nil in Hn']); vm_compute; congruence.
  - by left.
Defined.

Lemma processArg_priority_witness :
  processArg toy_env "eth-master-sk" (VStr "0x01") VUndef empty_config = Ok (env_config, VStr "0x2a") /\
  (maybeGetParam "eth-master-sk" env_config = VStr "0x2a" /\ configFile env_config = configFile empty_config /\
   (forall value' previous', processArg toy_env "eth-master-sk" value' previous' env_config = Exit 1) /\
   VStr "0x2a" = VStr "0x2a").
Proof.
  assert (processArg toy_env "eth-master-sk" (VStr "0x01") VUndef empty_config = Ok (env_config, VStr "0x2a")) as E
    by reflexivity.
  split; [exact E|]. exact (processArg_priority _ _ _ _ _ _ _ E).
Defined.

Lemma saveConfig_writes_all_witness :
  assoc (camelCase "eth-master-sk") (configFile (saveConfig env_config)) = Some (VStr "0x2a").
Proof.
  apply (saveConfig_writes_all env_config "eth-master-sk" (VStr "0x2a") PEnv).
  - apply (bool_decide_unpack _). vm_compute. exact I.
  - intros n n' Hn Hn'. vm_compute in Hn, Hn'.
    apply list_elem_of_singleton in Hn as ->. by apply list_elem_of_singleton in Hn' as ->.
  - reflexivity.
Defined.

Lemma declared_option_never_missing_witness :
  getParam "eth-master-sk" (declareOption "eth-master-sk" "The secret key" VUndef false empty_config)
    = Ok (VStr "").
Proof. apply (declared_option_never_missing empty_config "eth-master-sk"); reflexivity. Defined.
