(* ===== verification/Traces.v ===== *)
(** * Which events a computation can emit

    [emits p m]: every event that a run of [m] adds to the trace satisfies
    [p].  The rules follow the structure of the program; those of the shared
    components are in the hint database [emits]. *)

From Stdlib Require Import Ascii Strings.Byte.
From stdpp Require Import base list strings gmap.
From Stdlib Require Import ZArith Lia.
From S2P Require Import Prelude Js Effects Borsh Schemas Robust NearTx.
Local Open Scope Z_scope.

Create HintDb emits.

Section emits.
Context {St N : Type}.
Abbreviation M := (M St N event).

Definition emits (p : event -> Prop) {A} (m : M A) : Prop :=
  forall w, exists tr, trace (m w).1 = trace w ++ tr /\ Forall p tr.

Lemma emits_weaken (p q : event -> Prop) {A} (m : M A) :
  (forall ev, p ev -> q ev) -> emits p m -> emits q m.
Proof.
  intros Hpq Hm w. destruct (Hm w) as (tr & Ht & Hf). exists tr. split; [done|].
  by eapply Forall_impl.
Qed.

Lemma emits_lift p {A} (o : outcome A) : emits p (lift o).
Proof. intros w. exists []. rewrite app_nil_r. by split. Qed.
Lemma emits_ret p {A} (a : A) : emits p (mret a).
Proof. apply (emits_lift p (Ok a)). Qed.
Lemma emits_throw p {A} e : emits p (throw (A := A) e).
Proof. apply (emits_lift p (Throw e)). Qed.
Lemma emits_exit p {A} c : emits p (exit (A := A) c).
Proof. apply (emits_lift p (Exit c)). Qed.
Lemma emits_out_of_fuel p {A} : emits p (out_of_fuel (A := A)).
Proof. apply (emits_lift p OutOfFuel). Qed.
Lemma emits_get p : emits p get_store.
Proof. intros w. exists []. rewrite app_nil_r. by split. Qed.
Lemma emits_put p s : emits p (put_store s).
Proof. intros w. exists []. rewrite app_nil_r. by split. Qed.

Lemma emits_emit (p : event -> Prop) ev : p ev -> emits p (emit ev).
Proof. intros Hp w. exists [ev]. split; [done|by constructor]. Qed.
Lemma emits_sleep `{Clock N} (p : event -> Prop) d : p (EvSleep d) -> emits p (sleep d).
Proof. intros Hp w. exists [EvSleep d]. split; [done|by constructor]. Qed.
Lemma emits_rpc (p : event -> Prop) {A} (f : N -> N * (exn + A)) ev :
  (forall r, p (ev r)) -> emits p (rpc f ev).
Proof.
  intros Hp w. unfold rpc. destruct (f (net w)) as [n' r]. exists [ev r].
  split; [done|by constructor].
Qed.

(** Two runs in a row. *)
Lemma emits_seq (p : event -> Prop) (w w1 w2 : world St N event) :
  (exists tr, trace w1 = trace w ++ tr /\ Forall p tr) ->
  (exists tr, trace w2 = trace w1 ++ tr /\ Forall p tr) ->
  exists tr, trace w2 = trace w ++ tr /\ Forall p tr.
Proof.
  intros (tr & -> & Hf) (tr' & -> & Hf'). exists (tr ++ tr').
  rewrite app_assoc. split; [done|by apply Forall_app].
Qed.

Lemma emits_bind p {A B} (m : M A) (f : A -> M B) :
  emits p m -> (forall a, emits p (f a)) -> emits p (m ≫= f).
Proof.
  intros Hm Hf w. specialize (Hm w). unfold mbind, M_bind.
  destruct (m w) as [w1 [a|e|c|]]; simpl in *; try done.
  eapply emits_seq; [exact Hm|apply Hf].
Qed.
Lemma emits_catch p {A} (m : M A) h :
  emits p m -> (forall e, emits p (h e)) -> emits p (catch m h).
Proof.
  intros Hm Hh w. specialize (Hm w). unfold catch.
  destruct (m w) as [w1 [a|e|c|]]; simpl in *; try done.
  eapply emits_seq; [exact Hm|apply Hh].
Qed.
Lemma emits_attempt p {A} (m : M A) : emits p m -> emits p (attempt m).
Proof.
  intros Hm w. specialize (Hm w). unfold attempt. by destruct (m w) as [w1 []].
Qed.
End emits.

#[export] Hint Resolve emits_lift emits_ret emits_throw emits_exit emits_out_of_fuel
  emits_get emits_put : emits.

Ltac emits_step :=
  first
    [ solve [auto with emits]
    | apply emits_bind; [|intros ?]
    | apply emits_catch; [|intros ?]
    | apply emits_attempt
    | apply emits_emit; solve [auto with emits]
    | apply emits_sleep; solve [auto with emits]
    | apply emits_rpc; intros ?; solve [auto with emits]
    | case_match
    | progress cbn beta iota zeta ].
Ltac emits_auto := repeat emits_step.

(** ** Triples over an automaton

    An automaton follows the events: [update] gives its next state and [ok]
    says which events are allowed in a state.  [triple P m Q]: from a state of
    [P], every run of [m] emits allowed events only, and leaves the automaton
    in a state of [Q a] when the run returns [a]. *)
Section triples.
Context {St N G : Type}.
Variables (update : G -> event -> G) (ok : G -> event -> Prop).
Abbreviation M := (M St N event).

Fixpoint accepts (g : G) (tr : list event) : Prop :=
  match tr with
  | [] => True
  | ev :: tr => ok g ev /\ accepts (update g ev) tr
  end.

Lemma accepts_app g tr tr' :
  accepts g (tr ++ tr') <-> accepts g tr /\ accepts (fold_left update tr g) tr'.
Proof.
  revert g. induction tr as [|ev tr IH]; intros g; simpl; [tauto|]. rewrite IH. tauto.
Qed.

Definition triple (P : G -> Prop) {A} (m : M A) (Q : A -> G -> Prop) : Prop :=
  forall w g, P g -> exists tr, trace (m w).1 = trace w ++ tr /\ accepts g tr /\
    (forall a, (m w).2 = Ok a -> Q a (fold_left update tr g)).

Lemma triple_conseq (P P' : G -> Prop) {A} (m : M A) (Q Q' : A -> G -> Prop) :
  (forall g, P g -> P' g) -> (forall a g, Q' a g -> Q a g) -> triple P' m Q' -> triple P m Q.
Proof.
  intros HP HQ Hm w g Hg. destruct (Hm w g (HP g Hg)) as (tr & Ht & Hs & Ha).
  exists tr. split_and!; auto.
Qed.

Lemma triple_lift (P : G -> Prop) {A} (o : outcome A) (Q : A -> G -> Prop) :
  (forall g a, P g -> o = Ok a -> Q a g) -> triple P (lift o) Q.
Proof. intros H w g Hg. exists []. rewrite app_nil_r. split_and!; [done|done|]. simpl. eauto. Qed.
Lemma triple_ret (P : G -> Prop) {A} (a : A) (Q : A -> G -> Prop) :
  (forall g, P g -> Q a g) -> triple P (mret a) Q.
Proof. intros H. apply (triple_lift P (Ok a)). intros g a' Hg [= <-]. auto. Qed.
Lemma triple_throw (P : G -> Prop) {A} e (Q : A -> G -> Prop) : triple P (throw e) Q.
Proof. by apply (triple_lift P (Throw e)). Qed.
Lemma triple_exit (P : G -> Prop) {A} c (Q : A -> G -> Prop) : triple P (exit c) Q.
Proof. by apply (triple_lift P (Exit c)). Qed.
Lemma triple_out_of_fuel (P : G -> Prop) {A} (Q : A -> G -> Prop) : triple P out_of_fuel Q.
Proof. by apply (triple_lift P OutOfFuel). Qed.

Lemma triple_rpc (P : G -> Prop) {A} (f : N -> N * (exn + A)) ev (Q : A -> G -> Prop) :
  (forall g r, P g -> ok g (ev r)) ->
  (forall g a, P g -> Q a (update g (ev (inr a)))) -> triple P (rpc f ev) Q.
Proof.
  intros Hok HQ w g Hg. unfold rpc. destruct (f (net w)) as [n' r].
  exists [ev r]. split_and!; [done|by split; [apply Hok|]|].
  simpl. destruct r; simpl; [done|]. intros a0 [= <-]. auto.
Qed.

(** Events that are always allowed and change nothing. *)
Lemma triple_emits (p : event -> Prop) (P : G -> Prop) {A} (m : M A) :
  (forall g ev, p ev -> ok g ev /\ update g ev = g) -> emits p m -> triple P m (fun _ => P).
Proof.
  intros Hp Hm w g Hg. destruct (Hm w) as (tr & Ht & Hf). exists tr. split; [done|]. clear Ht.
  enough (accepts g tr /\ fold_left update tr g = g) as [? ->] by done.
  induction Hf as [|ev tr Hev _ IH]; simpl; [done|]. destruct (Hp g ev Hev) as [? ->]. tauto.
Qed.

Lemma triple_bind (P : G -> Prop) {A B} (m : M A) (f : A -> M B) (Q : A -> G -> Prop) (R : B -> G -> Prop) :
  triple P m Q -> (forall a, triple (Q a) (f a) R) -> triple P (m ≫= f) R.
Proof.
  intros Hm Hf w g Hg. destruct (Hm w g Hg) as (tr & Ht & Hs & Ha). unfold mbind, M_bind.
  destruct (m w) as [w1 [a|e|c|]]; simpl in *; try (exists tr; by split_and!).
  destruct (Hf a w1 _ (Ha a eq_refl)) as (tr' & Ht' & Hs' & Ha').
  exists (tr ++ tr'). rewrite accepts_app, fold_left_app, Ht', Ht, app_assoc. by split_and!.
Qed.

Lemma triple_catch (P : G -> Prop) {A} (m : M A) h (Q : A -> G -> Prop) :
  triple P m Q -> (forall e, triple (fun _ => True) (h e) Q) -> triple P (catch m h) Q.
Proof.
  intros Hm Hh w g Hg. destruct (Hm w g Hg) as (tr & Ht & Hs & Ha). unfold catch.
  destruct (m w) as [w1 [a|e|c|]]; simpl in *; try (exists tr; by split_and!).
  destruct (Hh e w1 (fold_left update tr g) I) as (tr' & Ht' & Hs' & Ha').
  exists (tr ++ tr'). rewrite accepts_app, fold_left_app, Ht', Ht, app_assoc. by split_and!.
Qed.

Lemma triple_attempt (P : G -> Prop) {A} (m : M A) (Q : A -> G -> Prop) :
  triple P m Q -> triple P (attempt m) (fun r g => match r with inr a => Q a g | inl _ => True end).
Proof.
  intros Hm w g Hg. destruct (Hm w g Hg) as (tr & Ht & Hs & Ha). exists tr. unfold attempt.
  destruct (m w) as [w1 [a|e|c|]]; simpl in *; split_and!; try done.
  - intros r [= <-]. auto.
  - by intros r [= <-].
Qed.
End triples.

(** ** The events of the shared components *)

(** What [RobustWeb3]'s queries emit, and what the NEAR calls emit. *)
Definition eth_query (ev : event) : Prop :=
  match ev with
  | EvSleep _ | EvSetProvider _ | EvGetBlockNumber _ | EvGetBlock _ _ | EvGetReceipt _ _ => True
  | _ => False
  end.
Definition near_call (ev : event) : Prop :=
  match ev with
  | EvSleep _ | EvNearStatus _ | EvSign _ _ _ | EvBroadcast _ _ | EvTxStatus _ _ | EvQuery _ _ _
  | EvFindAccessKey _ _ | EvPrintLogs _ => True
  | _ => False
  end.

Section shared.
Context {St N actions : Type} `{Clock N} `{EthNode N} `{NearNode N actions} `{KeySlot St}.
Context {W : Type} `{BinaryWriter W} `{BNLib}.
Abbreviation M := (M St N event).

Lemma emits_backoff (p : event -> Prop) {A} n (fn : M A) : (forall d, p (EvSleep d)) ->
  emits p fn -> forall d wt, emits p (backoff n fn d wt).
Proof.
  intros Hs Hfn. induction n as [|[|n] IH]; intros d wt; simpl; apply emits_catch; try done;
    intros e; auto with emits.
  apply emits_bind; [by apply emits_sleep|]. intros _. apply IH.
Qed.

Lemma emits_setProvider url : emits (St := St) eth_query (setProvider url).
Proof. intros w. exists [EvSetProvider url]. split; [done|by constructor]. Qed.
Lemma emits_reconnect url {A} e : emits (St := St) eth_query (reconnect_and_throw (A := A) url e).
Proof.
  unfold reconnect_and_throw. apply emits_bind; [|intros ?; apply emits_throw].
  destruct (String.eqb _ _); [apply emits_setProvider|apply emits_ret].
Qed.
Lemma emits_getBlockNumber url : emits (St := St) eth_query (getBlockNumber url).
Proof.
  apply emits_backoff; [done|]. apply emits_catch; [|intros; apply emits_reconnect].
  apply emits_bind; [by apply emits_rpc|intros; apply emits_ret].
Qed.
Lemma emits_getBlock url b : emits (St := St) eth_query (getBlock url b).
Proof.
  apply emits_backoff; [done|]. apply emits_catch; [|intros; apply emits_reconnect].
  apply emits_bind; [by apply emits_rpc|intros; apply emits_lift].
Qed.

Lemma emits_incr_nonce p : emits (St := St) (N := N) p incr_nonce.
Proof. intros w. exists []. rewrite app_nil_r. unfold incr_nonce. by destruct (k_get (store w)). Qed.
Lemma emits_sign_next acct rcv (acts : actions) : emits (St := St) near_call (sign_next acct rcv acts).
Proof.
  unfold sign_next. apply emits_bind; [by apply emits_rpc|intros].
  apply emits_bind; [apply emits_incr_nonce|intros].
  apply emits_bind; [apply emits_lift|intros; by apply emits_rpc].
Qed.
Lemma emits_signAsync acct rcv (acts : actions) :
  emits (St := St) near_call (signAndSendTransactionAsync acct rcv acts).
Proof.
  unfold signAndSendTransactionAsync. apply emits_bind; [apply emits_sign_next|intros [h b]].
  apply emits_bind; [by apply emits_rpc|intros; apply emits_ret].
Qed.
Lemma emits_txnStatus acct h n wait : emits (St := St) near_call (txnStatus acct h n wait).
Proof.
  unfold txnStatus. apply emits_bind.
  - generalize (@None txresult). induction n as [|n IH]; intros r; simpl; [apply emits_ret|].
    apply emits_bind; [apply emits_attempt; by apply emits_rpc|intros [e|x]].
    + apply emits_bind; [by apply emits_sleep|auto].
    + destruct (final_status x); [apply emits_ret|auto].
  - intros [res|]; [|apply emits_throw]. apply emits_bind; [by apply emits_emit|intros].
    destruct (SuccessValue res); [apply emits_ret|apply emits_throw].
Qed.
Lemma emits_view_method schema c d args :
  emits (St := St) near_call (view_method (W := W) schema c d args).
Proof.
  unfold view_method. apply emits_bind; [apply emits_lift|intros bs]. cbn zeta.
  apply emits_bind.
  { apply emits_backoff; [done|]. apply emits_bind; [by apply emits_rpc|intros; apply emits_ret]. }
  intros q. apply emits_bind; [destruct (q_logs q); [by apply emits_emit|apply emits_ret]|intros _].
  destruct (q_result q) as [[|b bs']|]; auto with emits.
Qed.
Lemma emits_change_async schema acct c d args gas amount :
  emits (St := St) near_call (change_method_async (W := W) schema acct c d args gas amount).
Proof.
  unfold change_method_async. apply emits_bind; [apply emits_lift|intros; apply emits_signAsync].
Qed.
End shared.

(** The events of a contract call. *)
Definition call_event (ev : event) : Prop :=
  match ev with
  | EvSetProvider _ | EvGasPrice _ | EvTransactionCount _ _ | EvEthCall _ | EvSend _ _ => True
  | _ => False
  end.
Lemma emits_callContract {St N} `{EthNode N} `{Web3Utils} url fuel c method args opts :
  emits (St := St) (N := N) call_event (callContract url fuel c method args opts).
Proof.
  unfold callContract. apply emits_bind; [by apply emits_rpc|intros gasPrice].
  apply emits_bind; [by apply emits_rpc|intros nonce].
  revert gasPrice nonce. induction fuel as [|fuel IH]; intros gasPrice nonce; cbn [call_loop]; [apply emits_out_of_fuel|].
  destruct (gasPrice <? gas_limit); [|apply emits_throw].
  apply emits_bind; [apply emits_attempt|].
  - unfold send_once. apply emits_bind; [apply emits_lift|intros data]. cbn zeta.
    apply emits_bind; [apply emits_catch; [by apply emits_rpc|intros; apply emits_ret]|intros _].
    apply emits_bind; [by apply emits_rpc|intros; apply emits_lift].
  - intros [e|receipt]; [|apply emits_ret]. repeat case_match; try apply IH; try apply emits_throw.
    apply emits_bind; [|intros _; apply IH]. intros w. exists [EvSetProvider url]. split; [done|by constructor].
Qed.
