(* ===== verification/Eth2NearRelay.v ===== *)
(** * The relay of Ethereum blocks to NEAR

    [eth2near-block-relay/index.js] and the clients of the two NEAR contracts,
    [eth-on-near-client.js] and [eth-on-near-prover.js]. *)

From Stdlib Require Import Ascii Strings.Byte.
From stdpp Require Import base list strings gmap pretty.
From Stdlib Require Import ZArith Lia.
From S2P Require Import Prelude Js Effects Borsh Schemas Robust NearTx.
Local Open Scope Z_scope.

(** Library functions that the relay calls: [JSON.parse] and [parseInt(s, 10)]
    on values, the header encoding of [ethereumjs-block] and [rlp.encode], and
    [web3.utils.padLeft]. *)
Class RelayLib := {
  JSON_parse : string -> outcome jsval;
  parseInt10 : jsval -> jsval;
  header_rlp_of : jsval -> outcome (list byte);
  padLeft : jsval -> nat -> outcome string
}.

Definition MAX_SUBMIT_BLOCK : Z := 10.

(** [bn.toNumber()] *)
Definition toNumber (v : jsval) : outcome Z :=
  match v with
  | VBN z => if Z.abs z <? 2 ^ 53 then Ok z
             else Throw (Error "Number can only safely store up to 53 bits")
  | _ => Throw (TypeError "toNumber is not a function")
  end.

(** [a === b] for a string [b]; no other value is strictly equal to one. *)
Definition equals_string (a b : jsval) : bool :=
  match a, b with VStr x, VStr y => String.eqb x y && truthy y | _, _ => false end.

(** [arr.filter((_, index) => index % 2 === 0)] and the elements in between *)
Fixpoint evens {A} (l : list A) : list A :=
  match l with
  | x :: _ :: l => x :: evens l
  | [x] => [x]
  | [] => []
  end.

(** [v.elements] and the like, as arrays of values. *)
Definition js_array (v : jsval) : outcome (list jsval) :=
  match v with VArr l => Ok l | _ => Throw (TypeError "not an array") end.

Definition js_nat (v : jsval) : nat := match v with VNum z => Z.to_nat z | _ => 0%nat end.

(** [arr[i]] *)
Definition js_at (l : list jsval) (i : nat) : jsval := default VUndef (l !! i).

(** [arr.map((element, index) => ...)] *)
Fixpoint imapM_out {A B} (f : nat -> A -> outcome B) (i : nat) (l : list A) : outcome (list B) :=
  match l with
  | [] => Ok []
  | x :: l => y ← f i x; ys ← imapM_out f (S i) l; Ok (y :: ys)
  end.

Section relay.
Context {St N actions : Type} `{Clock N} `{EthNode N} `{NearNode N actions} `{Shell N} `{KeySlot St}.
Context {W : Type} `{BinaryWriter W} `{BNLib} `{HexUtils} `{RelayLib}.
Variables (ethNodeUrl : string) (acct : account) (contractId : string) (BRIDGE_SRC_DIR : string).
Abbreviation M := (M St N event).

(** *** [eth-on-near-client.js] *)

(** [web3BlockToRlp(blockData)] *)
Definition web3BlockToRlp (blockData : jsval) : outcome (list byte) :=
  match blockData with
  | VObj props =>
      let get k p := get_prop k p in
      let props := set_prop "difficulty"
        (parseInt10 (if js_truthy (get "difficulty" props) then get "difficulty" props else VStr "0")) props in
      let props := set_prop "totalDifficulty" (parseInt10 (get "totalDifficulty" props)) props in
      let props := set_prop "uncleHash" (get "sha3Uncles" props) props in
      let props := set_prop "coinbase" (get "miner" props) props in
      let props := set_prop "transactionTrie" (get "transactionsRoot" props) props in
      let props := set_prop "receiptTrie" (get "receiptsRoot" props) props in
      let props := set_prop "bloom" (get "logsBloom" props) props in
      header_rlp_of (VObj props)
  | _ => Throw (TypeError "Cannot read property 'difficulty'")
  end.

Definition initialized : M jsval :=
  view_method (W := W) client_schema contractId (mkMethod "initialized" None (Some (FName "bool"))) VUndef.
Definition dag_merkle_root (epoch : Z) : M jsval :=
  view_method (W := W) client_schema contractId
    (mkMethod "dag_merkle_root" (Some (FName "dagMerkleRootInput")) (Some (FName "H128")))
    (VObj [("epoch", VNum epoch)]).
Definition last_block_number : M jsval :=
  view_method (W := W) client_schema contractId
    (mkMethod "last_block_number" None (Some (FName "u64"))) VUndef.
Definition known_hashes (n : Z) : M jsval :=
  view_method (W := W) client_schema contractId
    (mkMethod "known_hashes" (Some (FName "u64")) (Some (FArr (FName "H256")))) (VNum n).
Definition add_block_header_async (args : jsval) (gas : Z) : M string :=
  change_method_async (W := W) client_schema acct contractId
    (mkMethod "add_block_header" (Some (FName "addBlockHeaderInput")) None) args (Some gas) None.

Variable base64 : string -> list byte.
(** [roots.dag_merkle_roots] of the file [dag_merkle_roots.json] *)
Variable dag_merkle_roots : list jsval.

Definition firstRoot_expected : jsval := VStr "0x55b891e842e58f58956a847cbbf67821".
Definition lastRoot_expected : jsval := VStr "0x4aa6ca6ebef942d8766065b2e590fd32".

Definition client_init_args (validateEthash : bool) (trustedSigner : jsval) (blockRlp : list byte) : jsval :=
  VObj [("validate_ethash", VBool validateEthash);
        ("dags_start_epoch", VNum 0);
        ("dags_merkle_roots", VArr dag_merkle_roots);
        ("first_header", VBytes blockRlp);
        ("hashes_gc_threshold", VNum 40000);
        ("finalized_gc_threshold", VNum 500);
        ("num_confirmations", VNum 10);
        ("trusted_signer", trustedSigner)].

(** [EthOnNearClientContract.maybeInitialize] *)
Definition client_maybeInitialize (validateEthash : bool) (trustedSigner : jsval) : M unit :=
  accessKeyInit acct;;
  initialized ← catch initialized (fun _ => mret (VBool false));
  (if js_truthy initialized then mret tt
   else
     lastBlockNumber ← getBlockNumber ethNodeUrl;
     block ← getBlock ethNodeUrl (VNum lastBlockNumber);
     blockRlp ← lift (web3BlockToRlp block);
     change_method (W := W) base64 client_schema acct contractId
       (mkMethod "init" (Some (FName "initInput")) None)
       (client_init_args validateEthash trustedSigner blockRlp) (Some 300000000000000) None;;
     mret tt);;
  firstRoot ← dag_merkle_root 0;
  lastRoot ← dag_merkle_root 511;
  if equals_string firstRoot firstRoot_expected && equals_string lastRoot lastRoot_expected
  then mret tt else exit 1.

(** [EthOnNearProverContract.maybeInitialize]; [contractId] is the prover. *)
Definition prover_maybeInitialize (ethClientAccId : string) : M unit :=
  accessKeyInit acct;;
  catch
    (change_method (W := W) base64 prover_schema acct contractId
       (mkMethod "init" (Some (FName "initInput")) None)
       (VObj [("bridge_smart_contract", VStr ethClientAccId)]) None None;;
     mret tt)
    (fun e =>
       if truthy (e_message e) && includes "The contract is already initialized" (e_message e)
       then mret tt else throw e).

(** *** [Eth2NearRelay] *)

Definition ethashproof (command : string) : M string := fun w =>
  let '(n', out) := exec_stdout command (net w) in
  (mkWorld (store w) n' (trace w ++ [EvExec command]), Ok out).

(** [getParseBlock(blockNumber)]; an error is logged and gives [undefined]. *)
Definition getParseBlock (blockNumber : Z) : M jsval :=
  catch
    (block ← getBlock ethNodeUrl (VNum blockNumber);
     rlp ← lift (web3BlockToRlp block);
     unparsedBlock ← ethashproof (BRIDGE_SRC_DIR +:+ "/eth2near/ethashproof/cmd/relayer/relayer "
       +:+ bytesToHex rlp +:+ " | sed -e '1,/Json output/d'");
     lift (JSON_parse unparsedBlock))
    (fun _ => mret VUndef).

(** The arguments of [add_block_header] that [submitBlock] makes of the output
    of the prover. *)
Definition block_h512s (elements : list jsval) : outcome (list string) :=
  imapM_out (fun index element =>
    a ← padLeft element 64;
    b ← padLeft (js_at elements (index * 2 + 1)) 64;
    Ok (a +:+ substr_from 2 b)) 0 (evens elements).

Definition block_dag_nodes (h512s : list string) (merkle_proofs : list jsval) (proof_length : nat)
    : outcome (list jsval) :=
  imapM_out (fun index element =>
    proof ← mapM_out (fun leaf => padLeft leaf 32)
      (slice (index * proof_length) ((index + 1) * proof_length) merkle_proofs);
    Ok (VObj [("dag_nodes", VArr [VStr element; match h512s !! (index * 2 + 1)%nat with Some s => VStr s | None => VUndef end]);
              ("proof", VArr (map VStr proof))])) 0 (evens h512s).

Definition submit_args (block : jsval) : outcome jsval :=
  elements ← js_get block "elements" ≫= js_array;
  h512s ← block_h512s elements;
  header_rlp ← js_get block "header_rlp";
  header ← hexToBytes header_rlp;
  merkle_proofs ← js_get block "merkle_proofs";
  proof_length ← js_get block "proof_length";
  dag_nodes ←
    match evens h512s with
    | [] => Ok []
    | _ => proofs ← js_array merkle_proofs; block_dag_nodes h512s proofs (js_nat proof_length)
    end;
  Ok (VObj [("block_header", VBytes header); ("dag_nodes", VArr dag_nodes)]).

Definition submitBlock (block : jsval) (blockNumber : Z) : M string :=
  args ← lift (submit_args block);
  emit (EvSubmitBlock blockNumber);;
  add_block_header_async args 300000000000000.

(** The [try] block of the inner loop: does the client know the hash of the
    chain's block of that number? *)
Definition chain_block_known (clientBlockNumber : Z) : M bool :=
  chainBlock ← getBlock ethNodeUrl (VNum clientBlockNumber);
  chainBlockHash ← lift (js_get chainBlock "hash");
  clientHashes ← known_hashes clientBlockNumber;
  hashes ← lift (js_array clientHashes);
  mret (existsb (fun x => equals_string x chainBlockHash) hashes).

(** The inner loop: step back until the client knows the chain's block. *)
Fixpoint backtrack (fuel : nat) (clientBlockNumber : Z) : M Z :=
  match fuel with
  | O => out_of_fuel
  | S fuel =>
      r ← attempt (chain_block_known clientBlockNumber);
      match r with
      | inr true => mret clientBlockNumber
      | inr false => backtrack fuel (clientBlockNumber - 1)
      | inl _ => backtrack fuel clientBlockNumber
      end
  end.

(** [endBlock] *)
Definition end_block (clientBlockNumber chainBlockNumber : Z) : Z :=
  if clientBlockNumber <? 5 then clientBlockNumber + 1
  else Z.min (clientBlockNumber + MAX_SUBMIT_BLOCK) chainBlockNumber.

(** The numbers from [a + 1] to [b]. *)
Definition block_range (a b : Z) : list Z := map (fun k => a + 1 + Z.of_nat k) (seq 0 (Z.to_nat (b - a))).

Fixpoint mapM_M {A B} (f : A -> M B) (l : list A) : M (list B) :=
  match l with
  | [] => mret []
  | x :: l => y ← f x; ys ← mapM_M f l; mret (y :: ys)
  end.

(** The [try] block that gets, submits and waits for the blocks after
    [clientBlockNumber]. *)
Definition submit_blocks (clientBlockNumber chainBlockNumber : Z) : M unit :=
  let range := block_range clientBlockNumber (end_block clientBlockNumber chainBlockNumber) in
  blocks ← mapM_M getParseBlock range;
  txHashes ← mapM_M (fun p => submitBlock p.2 p.1) (zip range blocks);
  mapM_M (fun txHash => txnStatus acct txHash 10 2000) txHashes;;
  mret tt.

(** One round of the outer loop. *)
Definition relay_round (fuel : nat) : M unit :=
  r ← attempt
    (v ← last_block_number;
     clientBlockNumber ← lift (toNumber v);
     chainBlockNumber ← getBlockNumber ethNodeUrl;
     mret (clientBlockNumber, chainBlockNumber));
  match r with
  | inl _ => mret tt
  | inr (clientBlockNumber, chainBlockNumber) =>
      clientBlockNumber ← backtrack fuel clientBlockNumber;
      if clientBlockNumber <? chainBlockNumber then
        catch (submit_blocks clientBlockNumber chainBlockNumber) (fun _ => mret tt)
      else sleep (f_of_Z 10000)
  end.

Fixpoint run (fuel : nat) : M unit :=
  match fuel with
  | O => out_of_fuel
  | S fuel => relay_round fuel;; run fuel
  end.
End relay.
