(* ===== verification/Eth2NearSpec.v ===== *)
(** * Lemmas about the relay of Ethereum blocks *)

From Stdlib Require Import Ascii Strings.Byte.
From stdpp Require Import base list strings gmap.
From Stdlib Require Import ZArith Lia.
From S2P Require Import Prelude Js Effects Borsh Schemas Robust RobustSpec NearTx Traces Eth2NearRelay.
Local Open Scope Z_scope.

(** The numbers of the blocks submitted, in order. *)
Definition submitted (tr : list event) : list Z :=
  omap (fun ev => match ev with EvSubmitBlock n => Some n | _ => None end) tr.

Definition no_submit (ev : event) : Prop := match ev with EvSubmitBlock _ => False | _ => True end.

Lemma submitted_app tr tr' : submitted (tr ++ tr') = submitted tr ++ submitted tr'.
Proof. apply omap_app. Qed.

Lemma submitted_none tr : Forall no_submit tr -> submitted tr = [].
Proof. induction 1 as [|ev tr Hev _ IH]; simpl; [done|]. by destruct ev. Qed.

Lemma eth_no_submit ev : eth_query ev -> no_submit ev.
Proof. by destruct ev. Qed.
Lemma near_no_submit ev : near_call ev -> no_submit ev.
Proof. by destruct ev. Qed.

(** ** Ranges of block numbers *)

Lemma block_range_spec a b n : n ∈ block_range a b <-> a < n <= b.
Proof.
  unfold block_range. rewrite list_elem_of_fmap. setoid_rewrite elem_of_seq. split.
  - intros (k & -> & Hk). lia.
  - intros Hn. exists (Z.to_nat (n - a - 1)). lia.
Qed.

Lemma length_block_range a b : length (block_range a b) = Z.to_nat (b - a).
Proof. unfold block_range. by rewrite length_map, length_seq. Qed.

Lemma end_block_window m chain : m < chain ->
  m < end_block m chain <= chain /\ end_block m chain <= m + MAX_SUBMIT_BLOCK.
Proof. unfold end_block, MAX_SUBMIT_BLOCK. destruct (Z.ltb_spec m 5); lia. Qed.

Section spec.
Context {St N actions : Type} `{Clock N} `{EthNode N} `{NearNode N actions} `{Shell N} `{KeySlot St}.
Context {W : Type} `{BinaryWriter W} `{BNLib} `{HexUtils} `{RelayLib}.
Variables (url : string) (acct : account) (contractId : string) (dir : string).
Abbreviation M := (M St N event).

Lemma quiet_getBlock b : emits (St := St) no_submit (getBlock url b).
Proof. eapply emits_weaken; [exact eth_no_submit|apply emits_getBlock]. Qed.
Lemma quiet_getBlockNumber : emits (St := St) no_submit (getBlockNumber url).
Proof. eapply emits_weaken; [exact eth_no_submit|apply emits_getBlockNumber]. Qed.
Lemma quiet_view d args : emits (St := St) no_submit (view_method (W := W) client_schema contractId d args).
Proof. eapply emits_weaken; [exact near_no_submit|apply emits_view_method]. Qed.
Lemma quiet_txnStatus h n wait : emits (St := St) no_submit (txnStatus acct h n wait).
Proof. eapply emits_weaken; [exact near_no_submit|apply emits_txnStatus]. Qed.
Lemma quiet_ethashproof c : emits (St := St) no_submit (ethashproof c).
Proof.
  intros w. unfold ethashproof. destruct (exec_stdout c (net w)) as [n' out].
  exists [EvExec c]. split; [done|by constructor].
Qed.
#[local] Hint Resolve quiet_getBlock quiet_getBlockNumber quiet_view quiet_txnStatus quiet_ethashproof : emits.

Lemma quiet_getParseBlock n : emits (St := St) no_submit (getParseBlock url dir n).
Proof. unfold getParseBlock. emits_auto. Qed.
Lemma quiet_known n : emits (St := St) no_submit (chain_block_known (W := W) url contractId n).
Proof. unfold chain_block_known, known_hashes. emits_auto. Qed.
#[local] Hint Resolve quiet_getParseBlock quiet_known : emits.

Lemma quiet_backtrack fuel n : emits (St := St) no_submit (backtrack (W := W) url contractId fuel n).
Proof.
  revert n. induction fuel as [|fuel IH]; intros n; simpl; [apply emits_out_of_fuel|].
  apply emits_bind; [apply emits_attempt, quiet_known|]. intros [e|[]]; auto with emits.
Qed.

Lemma quiet_mapM {A B} (f : A -> M B) l :
  (forall x, emits no_submit (f x)) -> emits no_submit (mapM_M f l).
Proof. intros Hf. induction l as [|x l IH]; simpl; emits_auto; auto. Qed.

(** A run that submits blocks: the numbers are the first ones of a given list,
    and all of them when it succeeds. *)
Definition submits (l : list Z) {A} (m : M A) : Prop := forall w,
  exists tr, trace (m w).1 = trace w ++ tr /\ submitted tr `prefix_of` l /\
    (forall a, (m w).2 = Ok a -> submitted tr = l).

Lemma submits_quiet {A} (m : M A) : emits no_submit m -> submits [] m.
Proof.
  intros Hm w. destruct (Hm w) as (tr & Ht & Hf). exists tr. by rewrite submitted_none.
Qed.

Lemma submits_app l l' {A B} (m : M A) (f : A -> M B) :
  submits l m -> (forall a, submits l' (f a)) -> submits (l ++ l') (m ≫= f).
Proof.
  intros Hm Hf w. destruct (Hm w) as (tr & Ht & Hs & Hok).
  unfold mbind, M_bind. destruct (m w) as [w1 [a|e|c|]]; simpl in *;
    try (exists tr; split_and!; [done|by apply prefix_app_r|done]).
  destruct (Hf a w1) as (tr' & Ht' & Hs' & Hok'). exists (tr ++ tr').
  rewrite submitted_app, (Hok a eq_refl). split_and!.
  - by rewrite Ht', Ht, app_assoc.
  - by apply prefix_app.
  - intros b Hb. by rewrite (Hok' b Hb).
Qed.

Lemma submits_submitBlock block n : submits [n] (submitBlock (W := W) acct contractId block n).
Proof.
  unfold submitBlock. apply (submits_app []); [apply submits_quiet, emits_lift|intros args].
  rewrite <- (app_nil_r [n]). apply submits_app.
  - intros w. exists [EvSubmitBlock n]. split_and!; [done|reflexivity|done].
  - intros _. apply submits_quiet. eapply emits_weaken; [exact near_no_submit|apply emits_change_async].
Qed.

Lemma submits_mapM (l : list (Z * jsval)) :
  submits (map fst l) (mapM_M (fun p => submitBlock (W := W) acct contractId p.2 p.1) l).
Proof.
  induction l as [|[n b] l IH]; simpl; [apply submits_quiet, emits_ret|].
  apply (submits_app [n]); [apply submits_submitBlock|intros h].
  rewrite <- (app_nil_r (map fst l)). apply submits_app; [exact IH|intros hs].
  apply submits_quiet, emits_ret.
Qed.

Lemma mapM_M_length {A B} (f : A -> M B) l : forall w w' ys,
  mapM_M f l w = (w', Ok ys) -> length ys = length l.
Proof.
  induction l as [|x l IH]; simpl; intros w w' ys Hrun; [by injection Hrun as <- <-|].
  run_ok Hrun. run_ok Hrun. injection Hrun as <- <-. simpl. f_equal. by eapply IH.
Qed.

(** The blocks submitted after block [m]. *)
Lemma submits_blocks m chain :
  forall w, exists tr, trace (submit_blocks (W := W) url acct contractId dir m chain w).1 = trace w ++ tr /\
    submitted tr `prefix_of` block_range m (end_block m chain).
Proof.
  intros w. unfold submit_blocks. set (range := block_range m (end_block m chain)).
  pose proof (quiet_mapM (getParseBlock url dir) range quiet_getParseBlock w) as (tr & Ht & Hq).
  unfold mbind at 1, M_bind at 1. destruct (mapM_M (getParseBlock url dir) range w) as [w1 o] eqn:E.
  simpl in Ht. apply submitted_none in Hq.
  destruct o as [blocks|e|c|]; simpl; try (exists tr; rewrite Hq; split; [done|apply prefix_nil]).
  apply mapM_M_length in E.
  assert (Hr : map fst (zip range blocks) = range) by (apply fst_zip; lia).
  destruct (submits_app (map fst (zip range blocks)) [] _ (fun txHashes =>
      mapM_M (fun txHash => txnStatus acct txHash 10 2000) txHashes;; mret tt)
      (submits_mapM (zip range blocks))
      (fun hs => submits_quiet _ (emits_bind _ _ _ (quiet_mapM _ hs (fun h => quiet_txnStatus h 10 2000))
        (fun _ => emits_ret _ _))) w1) as (tr' & Ht' & Hs' & _).
  rewrite app_nil_r, Hr in Hs'. exists (tr ++ tr').
  rewrite submitted_app, Hq. split; [|done]. rewrite app_assoc, <- Ht. exact Ht'.
Qed.

(** What the inner loop has established when it ends: the client knows the
    hash of the chain's block [m]. *)
Definition known_at (m : Z) (w' : world St N event) : Prop :=
  exists w1 w2 blk h hashes, getBlock url (VNum m) w1 = (w2, Ok blk) /\
    js_get blk "hash" = Ok (VStr h) /\
    known_hashes (W := W) contractId m w2 = (w', Ok (VArr hashes)) /\ VStr h ∈ hashes.

Lemma chain_block_known_sound m w w' :
  chain_block_known (W := W) url contractId m w = (w', Ok true) -> known_at m w'.
Proof.
  unfold chain_block_known. intros Hrun.
  apply bind_ok in Hrun as (blk & w2 & Hblk & Hrun).
  apply bind_ok in Hrun as (h & w3 & Hh & Hrun).
  apply bind_ok in Hrun as (v & w4 & Hv & Hrun).
  apply bind_ok in Hrun as (hashes & w5 & Hhs & Hrun).
  injection Hh as <- Hh. injection Hhs as <- Hhs. injection Hrun as <- Hex.
  destruct v; try discriminate Hhs. injection Hhs as <-.
  apply existsb_exists in Hex as (x & Hin & Heq).
  destruct x as [| | | | |s| | |], h as [| | | | |s'| | |]; try done.
  simpl in Heq. apply andb_true_iff in Heq as [->%String.eqb_eq _].
  exists w, w2, blk, s', l. split_and!; [done..|by apply list_elem_of_In].
Qed.

Lemma backtrack_sound_run fuel : forall n w w' m,
  backtrack (W := W) url contractId fuel n w = (w', Ok m) -> m <= n /\ known_at m w'.
Proof.
  induction fuel as [|fuel IH]; intros n w w' m Hrun; [done|]. simpl in Hrun.
  apply bind_ok in Hrun as (r & w1 & Hr & Hrun). unfold attempt in Hr.
  destruct (chain_block_known url contractId n w) as [w2 [b|e|c|]] eqn:E; simplify_eq.
  - destruct b; [|apply IH in Hrun as [? ?]; split; [lia|done]].
    unfold mret, M_ret in Hrun. simplify_eq. split; [lia|]. by eapply chain_block_known_sound.
  - by apply IH in Hrun.
Qed.

(** The loop ends when the node answers and there is a block of the chain that
    the client knows. *)
Lemma backtrack_ends g : forall fuel n (w : world St N event), g <= n -> (Z.to_nat (n - g) < fuel)%nat ->
  (forall k (w : world St N event), g <= k <= n -> exists w' b,
     chain_block_known (W := W) url contractId k w = (w', Ok b) /\ (k = g -> b = true)) ->
  exists w' m, backtrack (W := W) url contractId fuel n w = (w', Ok m) /\ g <= m <= n.
Proof.
  induction fuel as [|fuel IH]; intros n w Hg Hf Hk; [lia|]. simpl.
  destruct (Hk n w ltac:(lia)) as (w1 & b & E & Hb).
  rewrite (bind_run _ _ _ _ _ (attempt_run _ _ _ _ E)).
  destruct b; [exists w1, n; split; [done|lia]|].
  assert (n <> g) by (intros ->; by discriminate Hb).
  destruct (IH (n - 1) w1) as (w' & m & Hr & Hm); [lia|lia|intros; apply Hk; lia|].
  exists w', m. split; [done|lia].
Qed.

Lemma getBlockNumber_ok w w' n : getBlockNumber (St := St) url w = (w', Ok n) ->
  exists tr, trace w' = trace w ++ tr /\ EvGetBlockNumber (inr n) ∈ tr.
Proof.
  unfold getBlockNumber. intros E.
  apply (backoff_wrapped url (fun ev => match ev with EvGetBlockNumber _ => true | _ => false end)
    eth_getBlockNumber EvGetBlockNumber Ok) in E as (tr & k & Ht & _ & _ & _ & Hres); try done; [|eauto].
  exists tr. split; [done|]. destruct Hres as [(b & a & tr' & [= ->] & [= ->] & ->)|(e & [=] & _)].
  apply elem_of_app. right. by left.
Qed.

(** The first [try] block of a round asks the chain for its height. *)
Lemma numbers_chain w w' cl chain tr :
  (v ← last_block_number (W := W) contractId; clientBlockNumber ← lift (toNumber v);
   chainBlockNumber ← getBlockNumber (St := St) url; mret (clientBlockNumber, chainBlockNumber)) w
    = (w', Ok (cl, chain)) ->
  trace w' = trace w ++ tr -> EvGetBlockNumber (inr chain) ∈ tr.
Proof.
  intros E Ht. apply bind_ok in E as (v & wa & Ha & E). apply bind_ok in E as (z & wb & Hb & E).
  apply bind_ok in E as (ch & wc & Hch & E). injection E as <- <- <-. injection Hb as <- _.
  apply getBlockNumber_ok in Hch as (trc & Htc & Hin).
  destruct (quiet_view (mkMethod "last_block_number" None (Some (FName "u64"))) VUndef w) as (tra & Hta & _).
  unfold last_block_number in Ha. rewrite Ha in Hta. simpl in Hta.
  rewrite Htc, Hta, <- app_assoc in Ht. apply app_inv_head in Ht as <-. apply elem_of_app. by right.
Qed.

(** A round of the relay, up to the number of the block to start from. *)
Lemma relay_round_run fuel w :
  exists tr1 tr2 w1, trace w1 = trace w ++ tr1 /\ submitted tr1 = [] /\
    trace (relay_round (W := W) url acct contractId dir fuel w).1 = trace w1 ++ tr2 /\
    (submitted tr2 = [] \/ exists m chain, m < chain /\ known_at m w1 /\
       EvGetBlockNumber (inr chain) ∈ tr1 /\ submitted tr2 `prefix_of` block_range m (end_block m chain)).
Proof.
  unfold relay_round. set (q := v ← last_block_number contractId; _).
  assert (Hq : emits (St := St) no_submit q) by (unfold q, last_block_number; emits_auto).
  destruct (Hq w) as (tr & Ht & Hf%submitted_none).
  unfold mbind at 1, M_bind at 1, attempt. destruct (q w) as [w0 [[cl chain]|e|c|]] eqn:E; simpl in Ht.
  2-4: exists tr, [], w0; rewrite app_nil_r; by eauto 10.
  assert (Hin : EvGetBlockNumber (inr chain) ∈ tr) by (by eapply numbers_chain).
  destruct (quiet_backtrack fuel cl w0) as (trb & Htb & Hfb%submitted_none).
  unfold mbind at 1, M_bind at 1.
  destruct (backtrack url contractId fuel cl w0) as [w1 [m|e|c|]] eqn:Eb; simpl in Htb.
  2-4: exists (tr ++ trb), [], w1; rewrite app_nil_r, submitted_app, Hf, Hfb;
    split_and!; [by rewrite Htb, Ht, app_assoc|done|done|by left].
  apply backtrack_sound_run in Eb as [_ Hknown].
  exists (tr ++ trb).
  assert (Htr1 : trace w1 = trace w ++ tr ++ trb /\ submitted (tr ++ trb) = [] /\
    EvGetBlockNumber (inr chain) ∈ tr ++ trb).
  { rewrite submitted_app, Hf, Hfb, Htb, Ht, app_assoc. split_and!; [done..|]. apply elem_of_app. by left. }
  destruct Htr1 as (Htr1 & Hsub & Hin').
  destruct (Z.ltb_spec m chain) as [Hlt|Hge].
  2:{ exists [EvSleep (f_of_Z 10000)], w1. by eauto 10. }
  destruct (submits_blocks m chain w1) as (trs & Hts & Hps). exists trs, w1.
  split_and!; [done..| |right; exists m, chain; by split_and!].
  unfold catch. by destruct (submit_blocks url acct contractId dir m chain w1) as [w2 []].
Qed.
End spec.

(** ** The layout of the proof of work *)

(** Induction two elements at a time. *)
Lemma list_pair_ind {A} (P : list A -> Prop) :
  P [] -> (forall x, P [x]) -> (forall x y l, P l -> P (x :: y :: l)) -> forall l, P l.
Proof.
  intros H0 H1 H2. fix IH 1. intros [|x [|y l]]; [done|done|]. apply H2, IH.
Qed.

Lemma evens_lookup {A} (l : list A) : forall i, evens l !! i = l !! (2 * i)%nat.
Proof.
  induction l as [|x|x y l IH] using list_pair_ind; intros i.
  - done.
  - by destruct i.
  - destruct i as [|i]; [done|]. replace (2 * S i)%nat with (S (S (2 * i))) by lia. simpl. apply IH.
Qed.

Lemma length_evens {A} (l : list A) k : length l = (2 * k)%nat -> length (evens l) = k.
Proof.
  revert k. induction l as [|x|x y l IH] using list_pair_ind; simpl; intros k Hk; [lia..|].
  destruct k as [|k]; [lia|]. f_equal. apply IH. lia.
Qed.

Lemma imapM_out_ok {A B} (f : nat -> A -> outcome B) (g : nat -> A -> B) l : forall i,
  (forall j x, l !! j = Some x -> f (i + j)%nat x = Ok (g (i + j)%nat x)) ->
  exists ys, imapM_out f i l = Ok ys /\ length ys = length l /\
    (forall j x, l !! j = Some x -> ys !! j = Some (g (i + j)%nat x)).
Proof.
  induction l as [|x l IH]; intros i Hf; [by exists []|]. simpl.
  pose proof (Hf 0%nat x eq_refl) as Hx. rewrite Nat.add_0_r in Hx. rewrite Hx. simpl.
  destruct (IH (S i)) as (ys & -> & Hl & Hy).
  { intros j y Hj. specialize (Hf (S j) y Hj). by rewrite Nat.add_succ_r in Hf. }
  exists (g i x :: ys). split_and!; [done|simpl; by rewrite Hl|].
  intros [|j] y Hj; simpl in *; [simplify_eq; by rewrite Nat.add_0_r|].
  rewrite (Hy j y Hj). by rewrite Nat.add_succ_r.
Qed.

Section layout.
Context `{HexUtils} `{RelayLib}.
Variable pad : string -> nat -> string.
Hypothesis padLeft_pad : forall s n, padLeft (VStr s) n = Ok (pad s n).

(** Two 32-byte elements make a 64-byte node. *)
Definition node512 (a b : string) : string := pad a 64 +:+ substr_from 2 (pad b 64).

Lemma block_h512s_ok (es : list string) m : length es = (2 * m)%nat ->
  exists hs, block_h512s (map VStr es) = Ok hs /\ length hs = m /\
    forall j a b, es !! (2 * j)%nat = Some a -> es !! (2 * j + 1)%nat = Some b ->
      hs !! j = Some (node512 a b).
Proof using padLeft_pad.
  intros Hl. unfold block_h512s.
  destruct (imapM_out_ok (fun index element => a ← padLeft element 64;
      b ← padLeft (js_at (map VStr es) (index * 2 + 1)) 64; Ok (a +:+ substr_from 2 b))
    (fun index element => match element, es !! (index * 2 + 1)%nat with
       | VStr a, Some b => node512 a b | _, _ => "" end) (evens (map VStr es)) 0)
    as (hs & Hhs & Hlen & Hlook).
  - intros j x Hx. simpl. rewrite evens_lookup, list_lookup_fmap in Hx.
    destruct (es !! (2 * j)%nat) as [a|] eqn:Ea; simplify_eq/=. rewrite padLeft_pad. simpl.
    assert (2 * j < length es)%nat by by eapply lookup_lt_Some.
    destruct (lookup_lt_is_Some_2 es (j * 2 + 1)) as [b Eb]; [lia|].
    unfold js_at. rewrite list_lookup_fmap, Eb. simpl. by rewrite padLeft_pad.
  - exists hs. split_and!; [done| |].
    + rewrite Hlen. apply length_evens. by rewrite length_map.
    + intros j a b Ha Hb. rewrite (Hlook j (VStr a)); simpl.
      * replace (j * 2 + 1)%nat with (2 * j + 1)%nat by lia. by rewrite Hb.
      * by rewrite evens_lookup, list_lookup_fmap, Ha.
Qed.

Definition dag_node (h h' : string) (proof : list string) : jsval :=
  VObj [("dag_nodes", VArr [VStr h; VStr h']); ("proof", VArr (map (fun s => VStr (pad s 32)) proof))].

Lemma mapM_padLeft ps : mapM_out (fun leaf => padLeft leaf 32) (map VStr ps) = Ok (map (fun s => pad s 32) ps).
Proof using padLeft_pad. induction ps as [|p ps IH]; simpl; [done|]. rewrite padLeft_pad. simpl. by rewrite IH. Qed.

Lemma slice_map {A B} (f : A -> B) a b l : slice a b (map f l) = map f (slice a b l).
Proof. unfold slice. by rewrite fmap_take, fmap_drop. Qed.

Lemma block_dag_nodes_ok (hs ps : list string) pl k : length hs = (2 * k)%nat ->
  exists nodes, block_dag_nodes hs (map VStr ps) pl = Ok nodes /\ length nodes = k /\
    forall i h h', hs !! (2 * i)%nat = Some h -> hs !! (2 * i + 1)%nat = Some h' ->
      nodes !! i = Some (dag_node h h' (slice (i * pl) ((i + 1) * pl) ps)).
Proof using padLeft_pad.
  intros Hl. unfold block_dag_nodes. set (f := fun (index : nat) (element : string) => _).
  destruct (imapM_out_ok f (fun index h => match hs !! (index * 2 + 1)%nat with
       | Some h' => dag_node h h' (slice (index * pl) ((index + 1) * pl) ps)
       | None => VUndef end) (evens hs) 0) as (ns & Hns & Hlen & Hlook).
  - intros j h Hh. unfold f. simpl. rewrite evens_lookup in Hh.
    rewrite slice_map, mapM_padLeft. simpl.
    assert (2 * j < length hs)%nat by by eapply lookup_lt_Some.
    destruct (lookup_lt_is_Some_2 hs (j * 2 + 1)) as [h' Eh']; [lia|]. rewrite Eh'.
    unfold dag_node. by rewrite map_map.
  - exists ns. split_and!; [done|rewrite Hlen; by apply length_evens|].
    intros i h h' Hh Hh'. rewrite (Hlook i h); simpl; [|by rewrite evens_lookup].
    replace (i * 2 + 1)%nat with (2 * i + 1)%nat by lia. by rewrite Hh'.
Qed.
End layout.
