(* ===== verification/Eth2NearTheorems.v ===== *)
(** * Theorems about the relay of Ethereum blocks *)

From Stdlib Require Import Ascii Strings.Byte.
From stdpp Require Import base list strings gmap pretty.
From Stdlib Require Import ZArith Lia.
From S2P Require Import Prelude Js Effects Borsh Schemas Instances Robust NearTx Traces Eth2NearRelay Eth2NearSpec.
Local Open Scope Z_scope.


(** C32: the search for the fork ends: when the node answers and the client knows
    the chain's block [g], the loop stops within [n - g + 1] rounds, at a block
    between [g] and [n] whose hash the client knows. *)
Theorem backtrack_finds_known_block {St N actions W} `{Clock N} `{EthNode N} `{NearNode N actions}
    `{KeySlot St} `{BinaryWriter W} `{BNLib} `{HexUtils}
    (url contractId : string) (g n : Z) (fuel : nat) (w : world St N event) :
  g <= n -> (Z.to_nat (n - g) < fuel)%nat ->
  (forall k (w : world St N event), g <= k <= n -> exists w' b,
     chain_block_known (W := W) url contractId k w = (w', Ok b) /\ (k = g -> b = true)) ->
  exists w' m, backtrack (W := W) url contractId fuel n w = (w', Ok m) /\ g <= m <= n /\
    known_at (W := W) url contractId m w'.
Proof.
  intros Hg Hf Hk. destruct (backtrack_ends (W := W) url contractId g fuel n w Hg Hf Hk)
    as (w' & m & Hr & Hm).
  exists w', m. split_and!; [done|lia|lia|]. by eapply backtrack_sound_run.
Qed.

(** The arguments of [add_block_header] hold the whole proof of work in
    order: the 32-byte elements 4i to 4i+3 of the prover's output are the two
    64-byte nodes of pair i, and the leaves of its proof are those from
    [i * proof_length] on; nothing is dropped or reordered. *)
Theorem submit_args_layout `{HexUtils} `{RelayLib} (pad : string -> nat -> string) (k : nat)
    (es ps : list string) (pl : nat) (header_rlp : jsval) (header : list byte) :
  (forall s n, padLeft (VStr s) n = Ok (pad s n)) -> length es = (4 * k)%nat ->
  hexToBytes header_rlp = Ok header ->
  exists nodes,
    submit_args (VObj [("elements", VArr (map VStr es)); ("header_rlp", header_rlp);
      ("merkle_proofs", VArr (map VStr ps)); ("proof_length", VNum (Z.of_nat pl))])
    = Ok (VObj [("block_header", VBytes header); ("dag_nodes", VArr nodes)]) /\
    length nodes = k /\
    forall i a b c d, es !! (4 * i)%nat = Some a -> es !! (4 * i + 1)%nat = Some b ->
      es !! (4 * i + 2)%nat = Some c -> es !! (4 * i + 3)%nat = Some d ->
      nodes !! i = Some (dag_node pad (node512 pad a b) (node512 pad c d)
        (slice (i * pl) ((i + 1) * pl) ps)).
Proof.
  intros Hpad Hl Hh. unfold submit_args, js_get. simpl.
  destruct (block_h512s_ok pad Hpad es (2 * k)) as (hs & Hhs & Hhl & Hlook); [lia|].
  rewrite Hhs. simpl. rewrite Hh. simpl.
  destruct (block_dag_nodes_ok pad Hpad hs ps pl k Hhl) as (nodes & Hn & Hnl & Hnlook).
  pose proof (length_evens hs k Hhl) as He. exists nodes.
  split; [|split; [done|]].
  { destruct (evens hs) as [|h l]; simpl in *.
    - destruct nodes; [done|]. simpl in *. lia.
    - rewrite Nat2Z.id. by rewrite Hn. }
  intros i a b c d Ha Hb Hc Hd. apply Hnlook.
  - apply Hlook; [by replace (2 * (2 * i))%nat with (4 * i)%nat by lia
                 |by replace (2 * (2 * i) + 1)%nat with (4 * i + 1)%nat by lia].
  - apply Hlook; [by replace (2 * (2 * i + 1))%nat with (4 * i + 2)%nat by lia
                 |by replace (2 * (2 * i + 1) + 1)%nat with (4 * i + 3)%nat by lia].
Qed.

(** ** Witnesses *)

#[local] Instance toy_clock : Clock unit := fun _ n => n.
#[local] Instance toy_key : KeySlot (option Z) := {| k_get s := s; k_set k _ := k; k_get_set k s := eq_refl |}.

(** A chain and a client that agree on every block. *)
Definition toy_hash : list byte := replicate 32 x11.
#[local] Instance toy_eth : EthNode unit := {|
  eth_setProvider _ n := n;
  eth_close := None;
  eth_getBlockNumber n := (n, inr 8);
  eth_getBlock _ n := (n, inr (VObj [("hash", VStr (bytesToHex toy_hash))]));
  eth_getTransactionReceipt _ n := (n, inr VNull);
  eth_getGasPrice n := (n, inr 1);
  eth_getTransactionCount _ n := (n, inr 0);
  eth_call _ n := (n, inr tt);
  eth_sendTransaction _ n := (n, None)
|}.
#[local] Instance toy_near : NearNode unit (list byte) := {|
  near_status n := (n, inr "hash");
  near_signTransaction _ k a _ _ n := (n, inr (pretty k, le_bytes 8 k ++ a));
  near_broadcast_tx_async b n := (n, inr tt);
  near_txStatus _ _ n := (n, inr (mkTxResult (Some "") None [] [] VNull));
  near_query _ _ n := (n, inr (mkQueryResult None (Some (le_bytes 4 1 ++ toy_hash))));
  near_findAccessKey _ n := (n, inr (Some 7));
  near_base_decode _ := inr [];
  near_functionCall _ b _ _ := b
|}.

Lemma toy_known (w : world (option Z) unit event) : exists w',
  chain_block_known (W := list byte) "ws://node" "client" 7 w = (w', Ok true).
Proof. destruct w as [s [] tr]. eexists. vm_compute. reflexivity. Qed.

Lemma backtrack_finds_known_block_witness :
  exists w' m, backtrack (W := list byte) "ws://node" "client" 1 7 (mkWorld (Some 7) tt []) = (w', Ok m) /\
    7 <= m <= 7 /\ known_at (St := option Z) (W := list byte) "ws://node" "client" m w'.
Proof.
  apply (backtrack_finds_known_block "ws://node" "client" 7 7 1 (mkWorld (Some 7) tt [])).
  - lia.
  - simpl; lia.
  - intros k w Hk. assert (k = 7) as -> by lia.
    destruct (toy_known w) as [w' E]. by exists w', true.
Defined.

Definition toy_pad (s : string) (n : nat) : string := s.
#[local] Instance toy_lib : RelayLib := {|
  JSON_parse _ := Throw (Error "Unexpected end of JSON input");
  parseInt10 v := v;
  header_rlp_of _ := Ok [];
  padLeft v n := match v with VStr s => Ok (toy_pad s n) | _ => Throw (TypeError "not a string") end
|}.

Lemma submit_args_layout_witness :
  exists nodes,
    submit_args (VObj [("elements", VArr (map VStr ["0x1"; "0x2"; "0x3"; "0x4"]));
      ("header_rlp", VStr (bytesToHex [xf9]));
      ("merkle_proofs", VArr (map VStr ["0xa"; "0xb"])); ("proof_length", VNum (Z.of_nat 2))])
    = Ok (VObj [("block_header", VBytes [xf9]); ("dag_nodes", VArr nodes)]) /\
    length nodes = 1%nat /\
    forall i a b c d, ["0x1"; "0x2"; "0x3"; "0x4"] !! (4 * i)%nat = Some a ->
      ["0x1"; "0x2"; "0x3"; "0x4"] !! (4 * i + 1)%nat = Some b ->
      ["0x1"; "0x2"; "0x3"; "0x4"] !! (4 * i + 2)%nat = Some c ->
      ["0x1"; "0x2"; "0x3"; "0x4"] !! (4 * i + 3)%nat = Some d ->
      nodes !! i = Some (dag_node toy_pad (node512 toy_pad a b) (node512 toy_pad c d)
        (slice (i * 2) ((i + 1) * 2) ["0xa"; "0xb"])).
Proof.
  apply (submit_args_layout toy_pad 1 ["0x1"; "0x2"; "0x3"; "0x4"] ["0xa"; "0xb"] 2
    (VStr (bytesToHex [xf9])) [xf9]).
  - done.
  - reflexivity.
  - apply (hexToBytes_bytesToHex [xf9]).
Defined.
