(* ===== verification/Near2EthRelay.v ===== *)
(** * The relay of NEAR blocks to Ethereum

    [near2eth-block-relay/index.js].  The contract [NearBridge] is called by
    the names of its methods; what it answers is up to the outside. *)

From Stdlib Require Import Ascii Strings.Byte.
From stdpp Require Import base list strings pretty.
From Stdlib Require Import ZArith Lia.
From S2P Require Import Prelude Js Borsh Borshify Effects Robust.
Local Open Scope Z_scope.

(** [toBuffer] of [eth-util-lite] and [bs58.encode]. *)
Class HashLib := {
  toBuffer : jsval -> outcome (list byte);
  bs58_encode : list byte -> string
}.

Section near2eth.
Context {St N : Type} `{Clock N} `{EthNode N} `{EthContracts N} `{NearLightClient N} `{Random N}.
Context `{BNLib} `{EncLib} `{HashLib}.
Variables (ethNodeUrl clientAddress ethMasterAccount : string).
Abbreviation M := (M St N event).

(** [clientContract.methods[method](...args).call()] *)
Definition client_call (method : string) (args : list jsval) : M jsval :=
  rpc (eth_view clientAddress method args) (EvView clientAddress method args).

(** [clientContract.methods[method](...args).send(opts)] *)
Definition client_send (method : string) (args : list jsval) (opts : list (string * jsval)) : M unit :=
  rpc (eth_contract_send clientAddress method args opts) (EvContractSend clientAddress method args opts).

(** [web3.utils.toBN] on the values of a contract call *)
Definition toBN_value (v : jsval) : outcome Z :=
  match v with
  | VStr s => toBN (JStr s)
  | VNum z => toBN (JNum z)
  | VBN z => Ok z
  | _ => Throw (Error "Given input is not a valid number")
  end.

(** [currentHeight < lastBlock.inner_lite.height]: a string on the left is
    compared as a number with a number, and as a string with a string. *)
Definition height_less (currentHeight : jsval) (h : jsnum) : bool :=
  match currentHeight, h with
  | VStr s, JNum z => match decimal s with Some x => x <? z | None => false end
  | VStr s, JStr t => String.ltb s t
  | VNum x, JNum z => x <? z
  | VNum x, JStr t => match decimal t with Some z => x <? z | None => false end
  | _, _ => false
  end.

(** [new BN(await web3.eth.getGasPrice()).mul(new BN(ethGasMultiplier))] *)
Definition gas_price (ethGasMultiplier : Z) : M Z :=
  g ← rpc eth_getGasPrice EvGasPrice; mret (g * ethGasMultiplier).

Definition send_opts (gas gasPrice : Z) : list (string * jsval) :=
  [("from", VStr ethMasterAccount); ("gas", VNum gas); ("handleRevert", VBool true);
   ("gasPrice", VBN gasPrice)].

(** [bn.toNumber()] *)
Definition bn_toNumber (z : Z) : outcome Z :=
  if Z.abs z <? 2 ^ 53 then Ok z else Throw (Error "Number can only safely store up to 53 bits").

(** [buf[i] += 1] *)
Definition bump_byte (i : nat) (bs : list byte) : list byte :=
  alter (fun b => byte_of_Z (Z_of_byte b + 1)) i bs.

(** *** [initialize] *)

(** The loop that waits for the final block; the fuel bounds the rounds. *)
Fixpoint wait_final_block (fuel : nat) (lastFinalBlockHash : string)
    : M (list ValidatorView * LightClientBlockView) :=
  match fuel with
  | O => out_of_fuel
  | S fuel =>
      currentValidators ← rpc (near_validators_ordered lastFinalBlockHash) (EvValidators lastFinalBlockHash);
      match currentValidators with
      | None => sleep (f_of_Z 300);; wait_final_block fuel lastFinalBlockHash
      | Some currentValidators =>
          lightClientBlock ← rpc (near_next_light_client_block lastFinalBlockHash) (EvNextBlock lastFinalBlockHash);
          match lightClientBlock with
          | None => sleep (f_of_Z 300);; wait_final_block fuel lastFinalBlockHash
          | Some lightClientBlock => mret (currentValidators, lightClientBlock)
          end
      end
  end.

Definition UNDERPRICED : string := "replacement transaction underpriced".

(** The loop that sends [initWithValidators], with the gas price raised by a
    tenth after each underpriced replacement; the result is the price it ends
    with and [err]. *)
Fixpoint init_validators_loop (n : nat) (bytes : list byte) (gasPrice : Z) : M (Z * option exn) :=
  match n with
  | O => mret (gasPrice, None)
  | S n =>
      r ← attempt (client_send "initWithValidators" [VBytes bytes] (send_opts 4000000 gasPrice));
      match r with
      | inr _ => mret (gasPrice, None)
      | inl e =>
          if includes UNDERPRICED (e_message e)
          then init_validators_loop n bytes (gasPrice * 11 / 10)
          else mret (gasPrice, Some e)
      end
  end.

(** The loop that sends [initWithBlock]: here the gas price is asked for anew
    each time and the raised one is not used. *)
Fixpoint init_block_loop (n : nat) (bytes : list byte) (ethGasMultiplier : Z) : M (option exn) :=
  match n with
  | O => mret None
  | S n =>
      r ← attempt (gasPrice ← gas_price ethGasMultiplier;
                   client_send "initWithBlock" [VBytes bytes] (send_opts 4000000 gasPrice));
      match r with
      | inr _ => mret None
      | inl e =>
          if includes UNDERPRICED (e_message e)
          then init_block_loop n bytes ethGasMultiplier
          else mret (Some e)
      end
  end.

(** The part of [initialize] after the connections are set up. *)
Definition initialize (fuel : nat) (ethGasMultiplier : Z) : M unit :=
  catch
    (isInitialized ← client_call "initialized" [];
     if js_truthy isInitialized then mret tt
     else
       latest_block_height ← rpc near_latest_height EvNearHeight;
       lastFinalBlockHash ← rpc (near_last_final_block latest_block_height) (EvNearBlock latest_block_height);
       '(currentValidators, lightClientBlock) ← wait_final_block fuel lastFinalBlockHash;
       borshInitialValidators ← lift (borshifyInitialValidators currentValidators);
       gasPrice ← gas_price ethGasMultiplier;
       '(_, err) ← init_validators_loop 10 borshInitialValidators gasPrice;
       match err with
       | Some _ => exit 1
       | None =>
           borshBlock ← lift (borshify lightClientBlock);
           err ← init_block_loop 10 borshBlock ethGasMultiplier;
           match err with Some _ => exit 1 | None => mret tt end
       end)
    (fun _ => exit 1).

(** *** [runInternal] *)

Record relay_opts := mkRelayOpts {
  submitInvalidBlock : bool;
  minDelay : Z;
  maxDelay : Z;
  errorDelay : Z;
  gasMultiplier : Z
}.

(** What a round reads before it decides. *)
Record bridge_view := mkBridgeView {
  bv_currentHeight : jsval;
  bv_nextValidAt : Z;
  bv_replaceDelay : option Z;
  bv_lastBlock : LightClientBlockView
}.

(** [lastBlock.inner_lite] of a null block *)
Definition not_null_block (b : option LightClientBlockView) : outcome LightClientBlockView :=
  match b with
  | Some b => Ok b
  | None => Throw (TypeError "Cannot read property 'inner_lite' of null")
  end.

Definition read_bridge : M bridge_view :=
  bridgeState ← client_call "bridgeState" [];
  currentHeight ← lift (js_get bridgeState "currentHeight");
  hash ← client_call "blockHashes" [currentHeight];
  currentBlockHash ← lift (toBuffer hash);
  lastBlock ← rpc (near_next_light_client_block (bs58_encode currentBlockHash))
    (EvNextBlock (bs58_encode currentBlockHash));
  rd ← client_call "replaceDuration" [];
  replaceDuration ← lift (toBN_value rd);
  nextValidAt ← lift (js_get bridgeState "nextValidAt" ≫= toBN_value);
  replaceDelay ← lift
    (if nextValidAt =? 0 then Ok None
     else
       nextTimestamp ← js_get bridgeState "nextTimestamp" ≫= toBN_value;
       block ← not_null_block lastBlock;
       ts ← toBN (timestamp (inner_lite block));
       Ok (Some (nextTimestamp + replaceDuration - ts)));
  block ← lift (not_null_block lastBlock);
  mret (mkBridgeView currentHeight nextValidAt replaceDelay block).

(** The condition under which a block is submitted. *)
Definition should_submit (v : bridge_view) : bool :=
  height_less (bv_currentHeight v) (height (inner_lite (bv_lastBlock v))) &&
  ((bv_nextValidAt v =? 0) || match bv_replaceDelay v with Some d => d <=? 0 | None => false end).

Definition submit_block (o : relay_opts) (v : bridge_view) : M unit :=
  lockEthAmount ← client_call "lockEthAmount" [];
  balance ← client_call "balanceOf" [VStr ethMasterAccount];
  match balance with
  | VStr b =>
      if String.eqb b "0" then
        gasPrice ← gas_price (gasMultiplier o);
        client_send "deposit" [] (send_opts 1000000 gasPrice ++ [("value", lockEthAmount)])
      else mret tt
  | _ => mret tt
  end;;
  borshBlock ← lift (borshify (bv_lastBlock v));
  borshBlock ←
    (if submitInvalidBlock o then fun w =>
       let '(n', i) := random_index (length borshBlock) (net w) in
       (mkWorld (store w) n' (trace w), Ok (bump_byte i borshBlock))
     else mret borshBlock);
  gasPrice ← gas_price (gasMultiplier o);
  client_send "addLightClientBlock" [VBytes borshBlock] (send_opts 4000000 gasPrice);;
  if submitInvalidBlock o then exit 0 else mret tt.

(** The delay in seconds before the next round. *)
Definition round_delay (o : relay_opts) (v : bridge_view) : M Z :=
  delay ←
    (if bv_nextValidAt v =? 0 then mret (maxDelay o)
     else
       latestBlock ← getBlock ethNodeUrl (VStr "latest");
       ts ← lift (js_get latestBlock "timestamp");
       ts ← lift match ts with VNum z => Ok z | _ => Throw (TypeError "timestamp is not a number") end;
       valid ← lift (bn_toNumber (bv_nextValidAt v));
       let delay := Z.min (maxDelay o) (valid - ts) in
       rd ← lift (bn_toNumber (Z.quot (default 0 (bv_replaceDelay v)) 1000000000));
       mret (Z.min delay rd));
  mret (Z.max delay (minDelay o)).

Definition relay_try (o : relay_opts) : M unit :=
  v ← read_bridge;
  if should_submit v then submit_block o v
  else
    delay ← round_delay o v;
    sleep (f_of_Z (1000 * delay)).

(** One round of the loop of [runInternal]. *)
Definition near_round (o : relay_opts) : M unit :=
  catch (relay_try o) (fun _ => sleep (f_of_Z (1000 * errorDelay o))).

Fixpoint runInternal (fuel : nat) (o : relay_opts) : M unit :=
  match fuel with
  | O => out_of_fuel
  | S fuel => near_round o;; runInternal fuel o
  end.
End near2eth.
