(* ===== verification/Near2EthSpec.v ===== *)
(** * Lemmas about the relay of NEAR blocks

    The condition under which a block may be sent is an automaton over the
    events: it remembers what the contract and the NEAR node answered last and
    accepts a block only when these answers allow it. *)

From Stdlib Require Import Ascii Strings.Byte.
From stdpp Require Import base list strings pretty.
From Stdlib Require Import ZArith Lia.
From S2P Require Import Prelude Js Borsh Borshify Effects Robust RobustSpec NearTx Traces Near2EthRelay.
Local Open Scope Z_scope.

(** The last answers: [bridgeState()], [replaceDuration()] and the next light
    client block. *)
Record answers := mkAnswers {
  a_state : jsval;
  a_replaceDuration : jsval;
  a_block : option LightClientBlockView
}.

Section spec.
Context {St N : Type} `{Clock N} `{EthNode N} `{EthContracts N} `{NearLightClient N} `{Random N}.
Context `{BNLib} `{EncLib} `{HashLib}.
Variables (url addr acct : string).

Definition state_number (v : jsval) (k : string) : outcome Z := js_get v k ≫= toBN_value.

(** The block may replace the contract's unconfirmed one, if there is one. *)
Definition may_replace (a : answers) (b : LightClientBlockView) : Prop :=
  state_number (a_state a) "nextValidAt" = Ok 0 \/
  exists next rd ts, state_number (a_state a) "nextTimestamp" = Ok next /\
    toBN_value (a_replaceDuration a) = Ok rd /\ toBN (timestamp (inner_lite b)) = Ok ts /\
    next + rd <= ts.

(** The bytes may be sent: they encode the last light client block, which is
    above the contract's height and may replace its unconfirmed block. *)
Definition may_submit (a : answers) (bytes : list byte) : Prop :=
  exists b h, a_block a = Some b /\ borshify b = Ok bytes /\
    js_get (a_state a) "currentHeight" = Ok h /\ height_less h (height (inner_lite b)) = true /\
    may_replace a b.

(** The automaton: every answer is remembered, and a block may be sent only
    when the answers allow it. *)
Definition remember (a : answers) (ev : event) : answers :=
  match ev with
  | EvView _ m _ (inr v) =>
      if String.eqb m "bridgeState" then mkAnswers v (a_replaceDuration a) (a_block a)
      else if String.eqb m "replaceDuration" then mkAnswers (a_state a) v (a_block a)
      else a
  | EvNextBlock _ (inr b) => mkAnswers (a_state a) (a_replaceDuration a) b
  | _ => a
  end.

Definition allowed (a : answers) (ev : event) : Prop :=
  match ev with
  | EvContractSend _ m args _ _ =>
      m = "addLightClientBlock" -> exists bytes, args = [VBytes bytes] /\ may_submit a bytes
  | _ => True
  end.

Abbreviation T := (triple (St := St) (N := N) remember allowed).

Lemma T_call (P : answers -> Prop) m args :
  (m <> "bridgeState" /\ m <> "replaceDuration") -> T P (client_call addr m args) (fun _ => P).
Proof.
  intros [Hb Hr]. apply triple_rpc; [done|]. intros a v HP. simpl.
  by rewrite (proj2 (String.eqb_neq m _) Hb), (proj2 (String.eqb_neq m _) Hr).
Qed.
Lemma T_send (P : answers -> Prop) m args opts :
  (forall a, P a -> allowed a (EvContractSend addr m args opts (inr tt))) ->
  T P (client_send addr m args opts) (fun _ => P).
Proof. intros Hok. apply triple_rpc; [|done]. intros a r HP. exact (Hok a HP). Qed.
Lemma T_gas (P : answers -> Prop) k : T P (gas_price k) (fun _ => P).
Proof. apply (triple_bind _ _ _ _ _ (fun _ => P)); [by apply triple_rpc|]. intros. by apply triple_ret. Qed.

(** What [read_bridge] returns is what the answers say. *)
Definition reads (v : bridge_view) (a : answers) : Prop :=
  js_get (a_state a) "currentHeight" = Ok (bv_currentHeight v) /\
  state_number (a_state a) "nextValidAt" = Ok (bv_nextValidAt v) /\
  a_block a = Some (bv_lastBlock v) /\
  (forall d, bv_replaceDelay v = Some d -> exists next rd ts,
     state_number (a_state a) "nextTimestamp" = Ok next /\ toBN_value (a_replaceDuration a) = Ok rd /\
     toBN (timestamp (inner_lite (bv_lastBlock v))) = Ok ts /\ d = next + rd - ts).

(** Inversion of a pure bind. *)

Lemma T_read_bridge : T (fun _ => True) (read_bridge addr) reads.
Proof.
  unfold read_bridge.
  apply (triple_bind _ _ _ _ _ (fun bs a => a_state a = bs)); [by apply triple_rpc|intros bs].
  apply (triple_bind _ _ _ _ _ (fun h a => a_state a = bs /\ js_get bs "currentHeight" = Ok h)).
  { apply triple_lift. by intros a h -> ->. }
  intros h. eapply triple_bind; [by apply T_call|intros hash].
  eapply triple_bind; [apply triple_lift; intros a x HP _; exact HP|intros hb].
  apply (triple_bind _ _ _ _ _ (fun lb a =>
    (a_state a = bs /\ js_get bs "currentHeight" = Ok h) /\ a_block a = lb)).
  { apply triple_rpc; [done|]. by intros a lb HP. }
  intros lb.
  apply (triple_bind _ _ _ _ _ (fun rd a =>
    ((a_state a = bs /\ js_get bs "currentHeight" = Ok h) /\ a_block a = lb) /\ a_replaceDuration a = rd)).
  { apply triple_rpc; [done|]. by intros a rd HP. }
  intros rdv.
  eapply triple_bind; [apply triple_lift; intros a rd HP Hrd; exact (conj HP Hrd)|intros rd].
  eapply triple_bind; [apply triple_lift; intros a nv HP Hnv; exact (conj HP Hnv)|intros nv].
  eapply triple_bind; [apply triple_lift; intros a rdl HP Hrdl; exact (conj HP Hrdl)|intros rdl].
  eapply triple_bind; [apply triple_lift; intros a blk HP Hblk; exact (conj HP Hblk)|intros blk].
  apply triple_ret.
  intros a (((((((Hs & Hh) & Hb) & Hrv) & Hrd) & Hnv) & Hrdl) & Hblk).
  destruct lb as [b|]; simpl in Hblk; simplify_eq.
  split_and!; simpl; try done.
  intros d ->. destruct (nv =? 0); [done|].
  apply obind_ok in Hrdl as (next & Hnext & Hrdl). apply obind_ok in Hrdl as (b' & Hb' & Hrdl).
  apply obind_ok in Hrdl as (ts & Hts & Hd). simpl in Hb'. simplify_eq. by exists next, rd, ts.
Qed.

(** The decision of the code is the condition of the automaton. *)
Lemma should_submit_may v a bytes : reads v a -> should_submit v = true ->
  borshify (bv_lastBlock v) = Ok bytes -> may_submit a bytes.
Proof.
  intros (Hh & Hnv & Hb & Hrd) [Hlt Hor]%andb_true_iff Hbytes.
  exists (bv_lastBlock v), (bv_currentHeight v). split_and!; try done.
  apply orb_true_iff in Hor as [Hz%Z.eqb_eq|Hd]; [left; by rewrite <- Hz|right].
  destruct (bv_replaceDelay v) as [d|]; [|done]. apply Z.leb_le in Hd.
  destruct (Hrd d eq_refl) as (next & rd & ts & ? & ? & ? & ->). exists next, rd, ts. split_and!; [done..|lia].
Qed.

Lemma T_submit_block o v : submitInvalidBlock o = false -> should_submit v = true ->
  T (reads v) (submit_block addr acct o v) (fun _ _ => True).
Proof.
  intros Hinv Hs. unfold submit_block. rewrite Hinv.
  eapply triple_bind; [by apply T_call|intros lock].
  eapply triple_bind; [by apply T_call|intros balance].
  apply (triple_bind _ _ _ _ _ (fun _ => reads v)).
  { destruct balance as [| | | | |b| | |]; try (by apply triple_ret).
    destruct (String.eqb b "0"); [|by apply triple_ret].
    eapply triple_bind; [apply T_gas|intros g]. by apply T_send. }
  intros _.
  eapply triple_bind; [apply triple_lift; intros a bytes HP Hb; exact (conj HP Hb)|intros bytes].
  apply (triple_bind _ _ _ _ _ (fun bytes' a => bytes' = bytes /\ reads v a /\ borshify (bv_lastBlock v) = Ok bytes)).
  { apply triple_ret. by intros a HP. }
  intros bytes'. eapply triple_bind; [apply T_gas|intros g].
  eapply triple_bind; [apply T_send|intros ?; by apply triple_ret].
  intros a (-> & HP & Hb) _. exists bytes. split; [done|]. by eapply should_submit_may.
Qed.

Lemma T_getBlock (P : answers -> Prop) b : T P (getBlock url b) (fun _ => P).
Proof.
  apply (triple_emits _ _ eth_query); [|apply emits_getBlock]. intros a ev Hev. by destruct ev.
Qed.
Lemma T_sleep (P : answers -> Prop) d : T P (sleep d) (fun _ => P).
Proof.
  apply (triple_emits _ _ eth_query); [|by apply emits_sleep]. intros a ev Hev. by destruct ev.
Qed.

Lemma T_pure (P : answers -> Prop) {A} (x : outcome A) : T P (lift x) (fun _ => P).
Proof. by apply triple_lift. Qed.

Lemma T_round_delay (P : answers -> Prop) o v : T P (round_delay url o v) (fun _ => P).
Proof.
  unfold round_delay. apply (triple_bind _ _ _ _ _ (fun _ => P)); [|intros; by apply triple_ret].
  destruct (bv_nextValidAt v =? 0); [by apply triple_ret|].
  eapply triple_bind; [apply T_getBlock|intros b].
  do 4 (eapply triple_bind; [apply T_pure|intros ?]). by apply triple_ret.
Qed.

Lemma T_round o : submitInvalidBlock o = false ->
  T (fun _ => True) (near_round url addr acct o) (fun _ _ => True).
Proof.
  intros Hinv. unfold near_round. apply triple_catch; [|intros e; apply T_sleep].
  unfold relay_try. eapply triple_bind; [apply T_read_bridge|intros v].
  destruct (should_submit v) eqn:Hs; [by apply T_submit_block|].
  eapply triple_bind; [apply T_round_delay|intros d].
  eapply triple_conseq; [intros a HP; exact HP| |apply T_sleep]. done.
Qed.

Lemma T_run fuel o : submitInvalidBlock o = false ->
  T (fun _ => True) (runInternal url addr acct fuel o) (fun _ _ => True).
Proof.
  intros Hinv. induction fuel as [|fuel IH]; simpl; [apply triple_out_of_fuel|].
  eapply triple_bind; [by apply T_round|intros ?; exact IH].
Qed.

(** The delay between the configured bounds. *)
Lemma round_delay_run o v (w w' : world St N event) d :
  round_delay url o v w = (w', Ok d) ->
  minDelay o <= d <= Z.max (minDelay o) (maxDelay o) /\
  (bv_nextValidAt v <> 0 -> exists ts, EvGetBlock (VStr "latest") (inr ts) ∈ trace w' /\
     forall t, js_get ts "timestamp" = Ok (VNum t) -> d <= Z.max (minDelay o) (bv_nextValidAt v - t)).
Proof.
  unfold round_delay. intros Hrun. apply bind_ok in Hrun as (d0 & w1 & Hd0 & Hrun).
  injection Hrun as -> <-.
  destruct (bv_nextValidAt v =? 0) eqn:E.
  { injection Hd0 as -> <-. apply Z.eqb_eq in E. split; [lia|done]. }
  apply bind_ok in Hd0 as (blk & w2 & Hblk & Hd0). apply bind_ok in Hd0 as (tv & w3 & Htv & Hd0).
  apply bind_ok in Hd0 as (t & w4 & Ht & Hd0). apply bind_ok in Hd0 as (nv & w5 & Hnv & Hd0).
  apply bind_ok in Hd0 as (rd & w6 & Hrd & Hd0).
  injection Htv as <- Htv. injection Ht as <- Ht. injection Hnv as <- Hnv. injection Hrd as <- Hrd.
  injection Hd0 as <- <-.
  unfold bn_toNumber in Hnv. destruct (Z.abs (bv_nextValidAt v) <? 2 ^ 53); [|done]. injection Hnv as <-.
  split; [lia|]. intros _. exists blk. split.
  - by eapply getBlock_ok.
  - intros t' Ht'. rewrite Htv in Ht'. simplify_eq/=. lia.
Qed.
End spec.
