(* ===== verification/Near2EthTheorems.v ===== *)
(** * Theorems about the relay of NEAR blocks *)

From Stdlib Require Import Ascii Strings.Byte.
From stdpp Require Import base list strings pretty.
From Stdlib Require Import ZArith Lia.
From S2P Require Import Prelude Js Borsh BorshSpec Borshify NearDecoder BorshifySpec Instances Samples.
From S2P Require Import Effects Robust RobustSpec Traces Near2EthRelay Near2EthSpec.
Local Open Scope Z_scope.

(** C9: in every run of the relay, of any length and whatever the nodes answer,
    each block that is sent to the contract is the encoding of the last light
    client block that the NEAR node gave, its height is above the height that
    the contract reported last, and when the contract had an unconfirmed block
    the new one is newer than it by at least the contract's replace duration. *)
Theorem near2eth_submissions_allowed {St N} `{Clock N} `{EthNode N} `{EthContracts N}
    `{NearLightClient N} `{Random N} `{BNLib} `{EncLib} `{HashLib}
    (url addr acct : string) (fuel : nat) (o : relay_opts) (a : answers) (w : world St N event) :
  submitInvalidBlock o = false ->
  exists tr, trace (runInternal url addr acct fuel o w).1 = trace w ++ tr /\
    accepts remember allowed a tr.
Proof.
  intros Hinv. destruct (T_run url addr acct fuel o Hinv w a I) as (tr & Ht & Hs & _). eauto.
Qed.

(** C38: the delay before the next round is at least the minimal one, and at most
    the maximal one or the minimal one, when this is larger.  While a block is in
    its challenge period the delay is also at most the time that remains of it, as
    the last Ethereum block dates it, or the minimal delay: the relay sleeps past
    the end of the period only when less than the minimal delay remains. *)
Theorem round_delay_bounds {St N} `{Clock N} `{EthNode N} (url : string) (o : relay_opts)
    (v : bridge_view) (w w' : world St N event) (d : Z) :
  round_delay url o v w = (w', Ok d) ->
  minDelay o <= d <= Z.max (minDelay o) (maxDelay o) /\
  (bv_nextValidAt v <> 0 -> exists block, EvGetBlock (VStr "latest") (inr block) ∈ trace w' /\
     forall t, js_get block "timestamp" = Ok (VNum t) ->
       d <= Z.max (minDelay o) (bv_nextValidAt v - t)).
Proof. apply round_delay_run. Qed.

(** *** Initialization with underpriced transactions *)

Section underpriced.
Context {St N : Type} `{Clock N} `{EthNode N} `{EthContracts N} `{NearLightClient N} `{BNLib} `{EncLib}.
Variables (addr acct : string).

(** The node refuses every transaction as underpriced. *)
Definition refuses : Prop := forall a m args opts n, exists n' e,
  eth_contract_send a m args opts n = (n', inl e) /\ includes UNDERPRICED (e_message e) = true.
Definition has_gas_price : Prop := forall n, exists n' g, eth_getGasPrice n = (n', inr g).

Lemma init_validators_underpriced n bytes : refuses -> forall gp (w : world St N event),
  exists w' gp', init_validators_loop addr acct n bytes gp w = (w', Ok (gp', None)).
Proof.
  intros Hr. induction n as [|n IH]; intros gp w; [by eexists _, _|]. simpl.
  destruct (Hr addr "initWithValidators" [VBytes bytes] (send_opts acct 4000000 gp) (net w)) as (n' & e & E & He).
  erewrite bind_run by (eapply attempt_throw, rpc_throw; exact E).
  cbn iota beta. rewrite He. apply IH.
Qed.

Lemma init_block_underpriced n bytes k : refuses -> has_gas_price -> forall (w : world St N event),
  exists w', init_block_loop addr acct n bytes k w = (w', Ok None).
Proof.
  intros Hr Hg. induction n as [|n IH]; intros w; [by eexists|]. simpl.
  destruct (Hg (net w)) as (n1 & g & Eg).
  destruct (Hr addr "initWithBlock" [VBytes bytes] (send_opts acct 4000000 (g * k)) n1) as (n' & e & E & He).
  erewrite bind_run.
  2:{ eapply attempt_throw. erewrite bind_run.
      2:{ unfold gas_price. erewrite bind_run by (apply rpc_run; exact Eg). reflexivity. }
      apply rpc_throw. exact E. }
  cbn iota beta. rewrite He. apply IH.
Qed.
End underpriced.

(** When the node refuses every transaction as underpriced, [initialize]
    returns as if the contract were initialized: after ten refusals the loops
    end with no error recorded. *)
Theorem underpriced_initialization_succeeds {St N} `{Clock N} `{EthNode N} `{EthContracts N}
    `{NearLightClient N} `{BNLib} `{EncLib} (addr acct : string) (k : Z) (w : world St N event)
    (vs : list ValidatorView) (b : LightClientBlockView) (bvs bb : list byte) :
  refuses -> has_gas_price ->
  (forall n, exists n', eth_view addr "initialized" [] n = (n', inr (VBool false))) ->
  (forall n, exists n' h, near_latest_height n = (n', inr h)) ->
  (forall h n, exists n' hash, near_last_final_block h n = (n', inr hash)) ->
  (forall hash n, exists n', near_validators_ordered hash n = (n', inr (Some vs))) ->
  (forall hash n, exists n', near_next_light_client_block hash n = (n', inr (Some b))) ->
  borshifyInitialValidators vs = Ok bvs -> borshify b = Ok bb ->
  exists w', initialize addr acct 1 k w = (w', Ok tt).
Proof.
  intros Hr Hg Hi Hh Hf Hv Hb Hbvs Hbb. unfold initialize, catch.
  destruct (Hi (net w)) as (n1 & E1). destruct (Hh n1) as (n2 & h & E2).
  destruct (Hf h n2) as (n3 & hash & E3). destruct (Hv hash n3) as (n4 & E4).
  destruct (Hb hash n4) as (n5 & E5). destruct (Hg n5) as (n6 & g & E6).
  erewrite bind_run by (apply rpc_run; exact E1). cbn [js_truthy].
  erewrite bind_run by (apply rpc_run; exact E2).
  erewrite bind_run by (apply rpc_run; exact E3).
  erewrite bind_run.
  2:{ simpl. erewrite bind_run by (apply rpc_run; exact E4). cbn iota beta.
      erewrite bind_run by (apply rpc_run; exact E5). reflexivity. }
  cbn iota beta. rewrite Hbvs. erewrite bind_run by reflexivity.
  erewrite bind_run by (unfold gas_price; erewrite bind_run by (apply rpc_run; exact E6); reflexivity).
  match goal with |- context [(init_validators_loop _ _ _ _ ?gp ≫= _) ?w0] =>
    destruct (init_validators_underpriced addr acct 10 bvs Hr gp w0) as (w1 & gp' & Ev) end.
  rewrite (bind_run _ _ _ _ _ Ev). cbn iota beta. rewrite Hbb. erewrite bind_run by reflexivity.
  destruct (init_block_underpriced addr acct 10 bb k Hr Hg w1) as (w2 & Eb).
  rewrite (bind_run _ _ _ _ _ Eb). by eexists.
Qed.

(** ** Witnesses *)

#[local] Instance toy_clock : Clock unit := fun _ n => n.
#[local] Instance toy_random : Random unit := fun _ n => (n, 0%nat).
#[local] Instance toy_hashes : HashLib := {| toBuffer _ := Ok zero32; bs58_encode _ := ones 32 |}.
#[local] Instance toy_eth : EthNode unit := {|
  eth_setProvider _ n := n;
  eth_close := None;
  eth_getBlockNumber n := (n, inr 8);
  eth_getBlock _ n := (n, inr (VObj [("timestamp", VNum 1000)]));
  eth_getTransactionReceipt _ n := (n, inr VNull);
  eth_getGasPrice n := (n, inr 1);
  eth_getTransactionCount _ n := (n, inr 0);
  eth_call _ n := (n, inr tt);
  eth_sendTransaction _ n := (n, None)
|}.
(** A contract that is not initialized, or at height 9000 with no unconfirmed
    block, and that refuses transactions. *)
Definition toy_state : jsval :=
  VObj [("currentHeight", VStr "9000"); ("nextTimestamp", VStr "0"); ("nextValidAt", VStr "0")].
#[local] Instance toy_contracts : EthContracts unit := {|
  eth_view _ m _ n := (n, inr (if String.eqb m "initialized" then VBool false
    else if String.eqb m "bridgeState" then toy_state
    else if String.eqb m "balanceOf" then VStr "1" else VStr "0"));
  eth_contract_send _ _ _ _ n := (n, inl (Error UNDERPRICED))
|}.
#[local] Instance toy_near : NearLightClient unit := {|
  near_latest_height n := (n, inr 9605);
  near_last_final_block _ n := (n, inr (ones 32));
  near_validators_ordered _ n := (n, inr (Some [sample_validator]));
  near_next_light_client_block _ n := (n, inr (Some sample_block))
|}.

Definition toy_opts : relay_opts := mkRelayOpts false 1 600 1 1.
Definition toy_answers : answers := mkAnswers VUndef VUndef None.

Lemma near2eth_submissions_allowed_witness :
  submitInvalidBlock toy_opts = false /\
  exists tr, trace (runInternal "ws://node" "0xclient" "0xacct" 3 toy_opts (mkWorld tt tt [])).1 = [] ++ tr /\
    accepts remember allowed toy_answers tr.
Proof.
  split; [reflexivity|].
  apply (near2eth_submissions_allowed "ws://node" "0xclient" "0xacct" 3 toy_opts toy_answers (mkWorld tt tt [])).
  reflexivity.
Defined.

(** The toy run does send a block. *)
Example toy_run_sends :
  existsb (fun ev => match ev with EvContractSend _ m _ _ _ => String.eqb m "addLightClientBlock" | _ => false end)
    (trace (near_round "ws://node" "0xclient" "0xacct" toy_opts (mkWorld tt tt [])).1) = true.
Proof. vm_compute. reflexivity. Qed.

Definition toy_view : bridge_view := mkBridgeView (VStr "9000") 1300 (Some 250000000000) sample_block.
Lemma round_delay_bounds_witness :
  exists w', round_delay "ws://node" toy_opts toy_view (mkWorld tt tt []) = (w', Ok 250) /\
  1 <= 250 <= Z.max 1 600 /\
  (bv_nextValidAt toy_view <> 0 -> exists block, EvGetBlock (VStr "latest") (inr block) ∈ trace w' /\
     forall t, js_get block "timestamp" = Ok (VNum t) -> 250 <= Z.max 1 (bv_nextValidAt toy_view - t)).
Proof.
  eexists. assert (round_delay "ws://node" toy_opts toy_view (mkWorld tt tt []) = (_, Ok 250)) as E
    by reflexivity.
  split; [exact E|]. exact (round_delay_bounds "ws://node" toy_opts toy_view _ _ _ E).
Defined.

Lemma underpriced_initialization_succeeds_witness :
  exists w', initialize (St := unit) "0xclient" "0xacct" 1 1 (mkWorld tt tt []) = (w', Ok tt).
Proof.
  apply (underpriced_initialization_succeeds "0xclient" "0xacct" 1 (mkWorld tt tt [])
    [sample_validator] sample_block (enc_vec enc_validator [sample_validator']) (enc_block sample_block')).
  - intros a m args opts n. by eexists _, _.
  - intros n. by eexists _, _.
  - intros n. by eexists.
  - intros n. by eexists _, _.
  - intros h n. by eexists _, _.
  - intros h n. by eexists.
  - intros h n. by eexists.
  - apply borshify_validators_ok; [done|].
    apply Forall2_cons_2; [apply sample_validator_means|apply Forall2_nil_2].
  - apply (borshify_block_ok toy_hash), sample_block_means.
Defined.
