(* ===== verification/Watchdog.v ===== *)
(** * The watchdog: [near2eth/watchdog/index.js]

    It checks the signatures of the contract's unconfirmed block and challenges
    the first one that is not valid.  The file imports [promiseWithTimeout] from
    the package [rainbow-bridge-utils], whose [index.js] does not export it: the
    name is [undefined] and calling it throws, after its arguments have been
    evaluated, that is after the transaction has been sent. *)

From Stdlib Require Import Ascii Strings.Byte.
From stdpp Require Import base list strings.
From Stdlib Require Import ZArith Lia.
From S2P Require Import Prelude Js Borshify Effects Robust.
Local Open Scope Z_scope.

(** [contract.methods.challenge(receiver, i).encodeABI()], and the signing and
    sending of the raw transaction; the promise that [sendSignedTransaction]
    returns is dropped. *)
Class RawSend (N : Type) := {
  encode_challenge : string -> Z -> exn + string;
  eth_sendRaw : Z -> Z -> string -> N -> N * (exn + unit)
}.

(** [Number(v)] on the values of a contract call; [None] is [NaN]. *)
Definition js_number (v : jsval) : option Z :=
  match v with
  | VNum z => Some z
  | VStr s => decimal s
  | _ => None
  end.

Section watchdog.
Context {St N : Type} `{Clock N} `{EthNode N} `{EthContracts N} `{RawSend N}.
Variables (clientAddress ethMasterAccount : string) (watchdogDelay watchdogErrorDelay : Z).
Abbreviation M := (M St N event).

Definition NOT_A_FUNCTION : exn := TypeError "promiseWithTimeout is not a function".

(** The [try] block of the innermost loop. *)
Definition send_challenge (i gasPrice nonce : Z) : M unit :=
  data ← lift (of_sum (encode_challenge ethMasterAccount i));
  attempt (rpc (eth_sendRaw nonce gasPrice data) (EvRawSend nonce gasPrice data));;
  throw NOT_A_FUNCTION.

Fixpoint challenge_loop (fuel : nat) (i gasPrice nonce : Z) : M unit :=
  match fuel with
  | O => out_of_fuel
  | S fuel =>
      if gasPrice <? gas_limit then
        r ← attempt (send_challenge i gasPrice nonce);
        match r with
        | inr _ => mret tt
        | inl e =>
            if String.eqb (e_message e) SLOW_TX_ERROR_MSG
            then challenge_loop fuel i (gasPrice * 2) nonce
            else throw e
        end
      else mret tt
  end.

(** A challenge of signature [i]; an error is logged. *)
Definition challenge (fuel : nat) (i : Z) : M unit :=
  catch
    (gasPrice ← rpc eth_getGasPrice EvGasPrice;
     nonce ← rpc (eth_getTransactionCount ethMasterAccount) (EvTransactionCount ethMasterAccount);
     challenge_loop fuel i gasPrice nonce)
    (fun _ => mret tt).

Definition check_signature (i : Z) : M jsval :=
  rpc (eth_view clientAddress "checkBlockProducerSignatureInHead" [VNum i])
    (EvView clientAddress "checkBlockProducerSignatureInHead" [VNum i]).

(** [for (let i = 0; i < n; i++)], with [n] rounds left. *)
Fixpoint check_loop (fuel : nat) (n : nat) (i : Z) : M unit :=
  match n with
  | O => mret tt
  | S n =>
      r ← attempt (check_signature i);
      match r with
      | inl e =>
          if truthy (e_reason e) && truthy (e_signature e) then check_loop fuel n (i + 1)
          else throw e
      | inr result =>
          if js_truthy result then check_loop fuel n (i + 1)
          else challenge fuel i
      end
  end.

Definition watchdog_round (fuel : nat) : M unit :=
  catch
    (bridgeState ← rpc (eth_view clientAddress "bridgeState" []) (EvView clientAddress "bridgeState" []);
     nextValidAt ← lift (js_get bridgeState "nextValidAt");
     (if bool_decide (js_number nextValidAt = Some 0) then mret tt
      else
        numBlockProducers ← lift (js_get bridgeState "numBlockProducers");
        check_loop fuel (Z.to_nat (default 0 (js_number numBlockProducers))) 0);;
     sleep (f_of_Z (watchdogDelay * 1000)))
    (fun _ => sleep (f_of_Z (watchdogErrorDelay * 1000))).

Fixpoint run (fuel : nat) : M unit :=
  match fuel with
  | O => out_of_fuel
  | S fuel => watchdog_round fuel;; run fuel
  end.
End watchdog.
