(* ===== verification/WatchdogTheorems.v ===== *)
(** * Theorems about the watchdog *)

From Stdlib Require Import Ascii Strings.Byte.
From stdpp Require Import base list strings.
From Stdlib Require Import ZArith Lia.
From S2P Require Import Prelude Js Borshify Effects Robust RobustSpec Traces Watchdog.
Local Open Scope Z_scope.

(** The automaton: the signature that the contract called invalid last, until a
    challenge is sent. *)
Definition last_invalid (g : option Z) (ev : event) : option Z :=
  match ev with
  | EvView _ m [VNum i] (inr v) =>
      if String.eqb m "checkBlockProducerSignatureInHead" then
        if js_truthy v then None else Some i
      else g
  | EvRawSend _ _ _ _ => None
  | _ => g
  end.

Section spec.
Context {St N : Type} `{Clock N} `{EthNode N} `{EthContracts N} `{RawSend N}.
Variables (addr acct : string) (delay errorDelay : Z).

(** A challenge may be sent only for that signature, below the gas limit. *)
Definition justified (g : option Z) (ev : event) : Prop :=
  match ev with
  | EvRawSend _ gasPrice data _ =>
      gasPrice < gas_limit /\ exists i, g = Some i /\ encode_challenge acct i = inr data
  | _ => True
  end.
Abbreviation T := (triple (St := St) (N := N) last_invalid justified).

(** The transaction is sent and then the call of [undefined] throws. *)
Lemma send_challenge_run i gp nonce data (w : world St N event) :
  encode_challenge acct i = inr data ->
  exists n' r, send_challenge acct i gp nonce w =
    (mkWorld (store w) n' (trace w ++ [EvRawSend nonce gp data r]), Throw NOT_A_FUNCTION).
Proof.
  intros E. unfold send_challenge. rewrite E, (bind_run _ _ w w data) by done.
  destruct (eth_sendRaw nonce gp data (net w)) as [n' r] eqn:Er. exists n', r.
  erewrite bind_run by (eapply attempt_sum with (r := r); unfold rpc; by rewrite Er). done.
Qed.

Lemma challenge_loop_sends fuel i gp nonce data (w : world St N event) :
  encode_challenge acct i = inr data -> gp < gas_limit ->
  exists n' r, challenge_loop acct (S fuel) i gp nonce w =
    (mkWorld (store w) n' (trace w ++ [EvRawSend nonce gp data r]), Throw NOT_A_FUNCTION).
Proof.
  intros E Hgp. simpl. rewrite (proj2 (Z.ltb_lt _ _) Hgp).
  destruct (send_challenge_run i gp nonce data w E) as (n' & r & Hs). exists n', r.
  by rewrite (bind_run _ _ _ _ _ (attempt_throw _ _ _ _ Hs)).
Qed.

Lemma W_challenge_loop fuel i nonce : forall gp,
  T (fun g => g = Some i) (challenge_loop acct fuel i gp nonce) (fun _ _ => True).
Proof.
  induction fuel as [|fuel IH]; intros gp; [apply triple_out_of_fuel|].
  destruct (Z.ltb_spec gp gas_limit) as [Hgp|Hgp].
  2:{ simpl. rewrite (proj2 (Z.ltb_ge _ _) Hgp). by apply triple_ret. }
  intros w g Hg. destruct (encode_challenge acct i) as [e|data] eqn:E.
  - simpl. rewrite (proj2 (Z.ltb_lt _ _) Hgp).
    assert (send_challenge acct i gp nonce w = (w, Throw e)) as Hs.
    { unfold send_challenge. rewrite E. by apply bind_throw. }
    rewrite (bind_run _ _ _ _ _ (attempt_throw _ _ _ _ Hs)). cbn beta iota.
    destruct (String.eqb _ _); [by apply IH|]. exists []. by rewrite app_nil_r.
  - destruct (challenge_loop_sends fuel i gp nonce data w E Hgp) as (n' & r & ->).
    exists [EvRawSend nonce gp data r]. split_and!; [done| |done]. simpl. split_and!; eauto.
Qed.

Lemma W_challenge fuel i : T (fun g => g = Some i) (challenge acct fuel i) (fun _ _ => True).
Proof.
  unfold challenge. apply triple_catch; [|intros; by apply triple_ret].
  apply (triple_bind _ _ _ _ _ (fun _ g => g = Some i)); [by apply triple_rpc|intros gp].
  apply (triple_bind _ _ _ _ _ (fun _ g => g = Some i)); [by apply triple_rpc|intros nonce].
  apply W_challenge_loop.
Qed.

Lemma W_check_loop fuel n : forall i, T (fun _ => True) (check_loop addr acct fuel n i) (fun _ _ => True).
Proof.
  induction n as [|n IH]; intros i; simpl; [by apply triple_ret|].
  eapply triple_bind.
  { apply triple_attempt, (triple_rpc _ _ _ _ _ (fun v g => js_truthy v = false -> g = Some i)); [done|].
    intros g v _ Hv. simpl. by rewrite Hv. }
  intros [e|v].
  - destruct (truthy (e_reason e) && truthy (e_signature e)); [apply IH|apply triple_throw].
  - destruct (js_truthy v) eqn:Hv.
    + eapply triple_conseq; [|intros a g Hq; exact Hq|apply IH]. done.
    + eapply triple_conseq; [|intros a g Hq; exact Hq|apply W_challenge].
      intros g Hg. by apply Hg.
Qed.

Lemma W_sleep (P : option Z -> Prop) d : T P (sleep d) (fun _ => P).
Proof.
  apply (triple_emits _ _ eth_query); [|by apply emits_sleep]. intros g ev Hev. by destruct ev.
Qed.

Lemma W_round fuel : T (fun _ => True) (watchdog_round addr acct delay errorDelay fuel) (fun _ _ => True).
Proof.
  unfold watchdog_round. apply triple_catch; [|intros; apply W_sleep].
  apply (triple_bind _ _ _ _ _ (fun _ _ => True)); [by apply triple_rpc|intros bs].
  apply (triple_bind _ _ _ _ _ (fun _ _ => True)); [by apply triple_lift|intros nv].
  apply (triple_bind _ _ _ _ _ (fun _ _ => True)); [|intros; apply W_sleep].
  case_bool_decide; [by apply triple_ret|].
  apply (triple_bind _ _ _ _ _ (fun _ _ => True)); [by apply triple_lift|intros nb].
  apply W_check_loop.
Qed.

Lemma W_run fuel : T (fun _ => True) (run addr acct delay errorDelay fuel) (fun _ _ => True).
Proof.
  induction fuel as [|fuel IH]; simpl; [apply triple_out_of_fuel|].
  eapply triple_bind; [apply W_round|intros ?; exact IH].
Qed.
End spec.

(** C31: in every run of the watchdog, of any length, each challenge that is sent
    is for the signature that the contract called invalid in the answer to the
    last check, with a gas price below 1e13 wei, and there is at most one
    challenge per such answer. *)
Theorem watchdog_challenges_justified {St N} `{Clock N} `{EthNode N} `{EthContracts N} `{RawSend N}
    (addr acct : string) (delay errorDelay : Z) (fuel : nat) (w : world St N event) :
  exists tr, trace (run addr acct delay errorDelay fuel w).1 = trace w ++ tr /\
    accepts last_invalid (justified acct) None tr.
Proof.
  destruct (W_run addr acct delay errorDelay fuel w None I) as (tr & Ht & Hs & _). eauto.
Qed.

(** *** The first invalid signature is challenged *)

Section finds.
Context {St N : Type} `{Clock N} `{EthNode N} `{EthContracts N} `{RawSend N}.
Variables (addr acct : string).

(** The contract's answer for a signature: valid or skipped. *)
Definition passes (i : Z) : Prop := forall n, exists n' r,
  eth_view addr "checkBlockProducerSignatureInHead" [VNum i] n = (n', r) /\
  match r with
  | inr v => js_truthy v = true
  | inl e => truthy (e_reason e) && truthy (e_signature e) = true
  end.
Definition fails (i : Z) : Prop := forall n, exists n' v,
  eth_view addr "checkBlockProducerSignatureInHead" [VNum i] n = (n', inr v) /\ js_truthy v = false.

Lemma check_loop_finds fuel k : forall n i (w : world St N event), (k < n)%nat ->
  (forall j, i <= j < i + Z.of_nat k -> passes j) -> fails (i + Z.of_nat k) ->
  exists w1, check_loop addr acct fuel n i w = challenge acct fuel (i + Z.of_nat k) w1.
Proof.
  induction k as [|k IH]; intros n i w Hn Hp Hf; (destruct n as [|n]; [lia|]); simpl.
  - rewrite Z.add_0_r in *. destruct (Hf (net w)) as (n' & v & E & Hv).
    eexists. erewrite bind_run by (apply attempt_run, rpc_run; exact E). cbn beta iota.
    rewrite Hv. reflexivity.
  - destruct (Hp i ltac:(lia) (net w)) as (n' & r & E & Hr).
    erewrite bind_run by (eapply attempt_sum with (r := r); unfold check_signature, rpc; by rewrite E).
    destruct r as [e|v]; cbn beta iota; rewrite Hr;
      replace (i + Z.of_nat (S k)) with (i + 1 + Z.of_nat k) in * by lia;
      (apply IH; [lia|intros j Hj; apply Hp; lia|done]).
Qed.
End finds.

(** When signatures 0 to k-1 pass and signature k is invalid, the loop of a
    round sends a challenge of signature k with the node's gas price and nonce;
    the loop ends there, whatever becomes of the transaction, so that it is
    never sent again with a higher price. *)
Theorem watchdog_challenges_once {St N} `{Clock N} `{EthNode N} `{EthContracts N} `{RawSend N}
    (addr acct : string) (fuel n k : nat) (w : world St N event) (g nonce : Z) (data : string) :
  (k < n)%nat -> (forall j, 0 <= j < Z.of_nat k -> passes addr j) -> fails addr (Z.of_nat k) ->
  (forall s, exists s', eth_getGasPrice s = (s', inr g)) -> g < gas_limit ->
  (forall s, exists s', eth_getTransactionCount acct s = (s', inr nonce)) ->
  encode_challenge acct (Z.of_nat k) = inr data ->
  exists w' tr r, check_loop addr acct (S fuel) n 0 w = (w', Ok tt) /\
    trace w' = tr ++ [EvRawSend nonce g data r].
Proof.
  intros Hk Hp Hf Hg Hlim Hn Hd.
  destruct (check_loop_finds addr acct (S fuel) k n 0 w Hk Hp Hf) as (w1 & ->).
  change (0 + Z.of_nat k) with (Z.of_nat k). unfold challenge, catch.
  destruct (Hg (net w1)) as (s1 & E1). destruct (Hn s1) as (s2 & E2).
  erewrite bind_run by (apply rpc_run; exact E1). erewrite bind_run by (apply rpc_run; exact E2).
  match goal with |- context [challenge_loop _ _ _ _ _ ?w2] =>
    destruct (challenge_loop_sends acct fuel (Z.of_nat k) g nonce data w2 Hd Hlim) as (n' & r & E) end.
  rewrite E. by eexists _, _, r.
Qed.

(** ** Witnesses *)

#[local] Instance toy_clock : Clock unit := fun _ n => n.
#[local] Instance toy_eth : EthNode unit := {|
  eth_setProvider _ n := n;
  eth_close := None;
  eth_getBlockNumber n := (n, inr 8);
  eth_getBlock _ n := (n, inr VNull);
  eth_getTransactionReceipt _ n := (n, inr VNull);
  eth_getGasPrice n := (n, inr 20000000000);
  eth_getTransactionCount _ n := (n, inr 3);
  eth_call _ n := (n, inr tt);
  eth_sendTransaction _ n := (n, None)
|}.
(** Signature 0 is valid, signature 1 was skipped, signature 2 is invalid. *)
#[local] Instance toy_contract : EthContracts unit := {|
  eth_view _ _ args n := (n,
    match args with
    | [VNum 0] => inr (VBool true)
    | [VNum 1] => inl (mkExn "Error" "revert" "" "This signature was skipped" "Error(string)")
    | _ => inr (VBool false)
    end);
  eth_contract_send _ _ _ _ n := (n, inr tt)
|}.
#[local] Instance toy_raw : RawSend unit := {|
  encode_challenge _ i := inr "0x1234";
  eth_sendRaw _ _ _ n := (n, inr tt)
|}.

Lemma watchdog_challenges_once_witness :
  exists w' tr r, check_loop "0xclient" "0xacct" 1 4 0 (mkWorld tt tt []) = (w', Ok tt) /\
    trace w' = tr ++ [EvRawSend 3 20000000000 "0x1234" r].
Proof.
  apply (watchdog_challenges_once "0xclient" "0xacct" 0 4 2 (mkWorld tt tt []) 20000000000 3 "0x1234").
  - lia.
  - intros j Hj n. assert (j = 0 \/ j = 1) as [->| ->] by lia; eexists _, _; split; reflexivity.
  - intros n. eexists _, _. split; reflexivity.
  - intros s. by eexists.
  - vm_compute. reflexivity.
  - intros s. by eexists.
  - reflexivity.
Defined.
