(* ===== verification/BridgeCompose.v ===== *)
(** * The contracts with the programs that use them

    The relay of NEAR blocks, the watchdog and the prover, each against the
    contract [NearBridge]. *)

From Stdlib Require Import Ascii Strings.Byte.
From stdpp Require Import base list strings pretty gmap relations.
From Stdlib Require Import ZArith Lia.
From S2P Require Import Prelude Js Borsh BorshSpec NearDecoder NearBridge NearBridgeSpec NearBridgeInv.
From S2P Require Import NearBridgeHistory NearBridgeStakes NearBridgeTheorems NearProver.
From S2P Require Import NearProverTheorems.
From S2P Require Import Borshify BorshifySpec Instances Samples Effects Robust RobustSpec Traces.
From S2P Require Import Near2EthRelay Near2EthSpec Near2EthTheorems Watchdog WatchdogTheorems.
Local Open Scope Z_scope.

Abbreviation time_of := NearBridge.block_timestamp.

(** ** The relay *)

(** The contract once a block whose challenge period is over is committed. *)
Definition due (c : call_ctx) (s : NearBridge) : NearBridge :=
  match commitBlock c s with Ok s1 => s1 | _ => s end.

Lemma due_height c s : bi_height (head (due c s)) = bs_currentHeight (bridgeState (time_of c) s).
Proof.
  unfold due, bridgeState, commitBlock.
  destruct (Z.ltb_spec (time_of c) (lastValidAt s)), (Z.eqb_spec (lastValidAt s) 0) as [E|E];
    rewrite ?E; cbn [negb andb require mbind outcome_bind]; try done; try lia.
  - rewrite (proj2 (Z.leb_gt _ _)) by lia. done.
  - rewrite (proj2 (Z.leb_le _ _)) by lia. cbn [require mbind outcome_bind].
    cbn. by destruct (untrustedHeadIsFromNextEpoch s).
Qed.
Lemma due_stakes `{Crypto} c s : stakes s -> stakes (due c s).
Proof. intros Hs. unfold due. destruct (commitBlock c s) eqn:E; try done. by eapply commit_stakes. Qed.

(** The state looks the same at two times when the challenge period does not end
    between them. *)
Definition same_phase (now now' : Z) (s : NearBridge) : Prop :=
  now <= now' /\ (now < lastValidAt s -> now' < lastValidAt s).
Lemma bridgeState_phase now now' s : same_phase now now' s -> bridgeState now' s = bridgeState now s.
Proof.
  intros [Hle Hlt]. unfold bridgeState.
  destruct (Z.ltb_spec now (lastValidAt s)), (Z.ltb_spec now' (lastValidAt s)); try done; lia.
Qed.

(** Late enough to replace an unconfirmed block, if there is one. *)
Definition late_enough (now : Z) (s : NearBridge) (ts : Z) : Prop :=
  bs_nextValidAt (bridgeState now s) = 0 \/
  bs_nextTimestamp (bridgeState now s) + replaceDuration (cfg s) <= ts.

Lemma settle_described c l s : 0 <= il_timestamp (lc_inner_lite l) < 2 ^ 64 ->
  late_enough (time_of c) s (il_timestamp (lc_inner_lite l)) ->
  0 <= time_of c -> commit_or_replace c l s = Ok (due c s).
Proof.
  intros Hts Hor Hc. unfold due, commit_or_replace, commitBlock. unfold late_enough, bridgeState in Hor.
  destruct (Z.leb_spec (lastValidAt s) (time_of c)), (Z.eqb_spec (lastValidAt s) 0) as [E|E]; try done; try lia.
  rewrite (proj2 (Z.ltb_lt _ _)) in Hor by lia. cbn in Hor.
  destruct Hor as [|Hor]; [lia|]. cbn [negb andb require mbind outcome_bind].
  unfold safe_add. rewrite (proj2 (Z.ltb_lt _ _)).
  - cbn [mbind outcome_bind]. by rewrite (proj2 (Z.leb_le _ _)) by lia.
  - unfold uint256_limit. assert (2 ^ 64 < 2 ^ 256) by (vm_compute; reflexivity). lia.
Qed.

(** A block that extends the chain of the contract's head, whose producers are
    known: it is of the head's epoch, or of the next one and names the producers
    of the epoch after it by their hash; and more than two thirds of the stake of
    its epoch approve it. *)
Definition approved (l : LightClientBlock) (producers : BlockProducerInfo) : Prop :=
  (bpsLength producers <= length (lc_approvals_after_next l))%nat /\
  2 * totalStake producers < 3 * weight producers (approves l).
Definition extends (l : LightClientBlock) (s : NearBridge) : Prop :=
  let epoch := il_epoch_id (lc_inner_lite l) in
  bi_height (head s) < il_height (lc_inner_lite l) /\
  ((epoch = bi_epochId (head s) /\ approved l (currentBlockProducers s)) \/
   (epoch <> bi_epochId (head s) /\ epoch = bi_nextEpochId (head s) /\ approved l (nextBlockProducers s) /\
    ovs_none (lc_next_bps l) = false /\ ovs_hash (lc_next_bps l) = il_next_bp_hash (lc_inner_lite l))).

Lemma extends_checks `{Crypto} l s : extends l s -> stakes s -> u128_list (ovs_validatorStakes (lc_next_bps l)) ->
  exists fromNext info, block_epoch l (head s) = Ok fromNext /\ _checkBp l (producers_of fromNext s) = Ok tt /\
    (fromNext = true -> check_next_bps l = Ok tt) /\
    (if fromNext then setBlockProducers (ovs_validatorStakes (lc_next_bps l)) (untrustedNextBlockProducers s)
     else Ok (untrustedNextBlockProducers s)) = Ok info.
Proof.
  intros [_ Hor] [Hc Hn _] Hl. unfold block_epoch.
  destruct Hor as [[He [Ha Hq]]|(Hne & He & [Ha Hq] & Hnone & Hhash)].
  - exists false, (untrustedNextBlockProducers s). rewrite bool_decide_eq_true_2 by done.
    split_and!; [done|by apply checkBp_run|done|done].
  - destruct (setBlockProducers_run _ (untrustedNextBlockProducers s) Hl) as [info Hinfo].
    exists true, info. rewrite bool_decide_eq_false_2, bool_decide_eq_true_2 by done.
    split_and!; [done|by apply checkBp_run| |done]. intros _. unfold check_next_bps. rewrite Hnone.
    cbn [negb require mbind outcome_bind]. by rewrite bool_decide_eq_true_2.
Qed.

(** The contract accepts the encoding of such a block. *)
Lemma encoded_block_accepted `{BNLaws} `{EncLaws} `{Crypto} s c b l :
  stakes s -> block_means sha256 b l -> extends l (due c s) ->
  late_enough (time_of c) s (il_timestamp (lc_inner_lite l)) ->
  0 <= time_of c -> time_of c + lockDuration (cfg s) < uint256_limit -> initialized s = true ->
  lockEthAmount (cfg s) <= balance s (msg_sender c) -> msg_value c = 0 ->
  exists s', bridge_exec c (CallAddLightClientBlock (enc_block l)) s = Ok s' /\
    untrustedHead s' = block_info l /\ lastSubmitter s' = msg_sender c /\
    lastValidAt s' = time_of c + lockDuration (cfg s).
Proof.
  intros Hs Hm Hex Hlate Ht Hlim Hi Hbal Hv.
  pose proof (reads_whole _ _ _ (reads_block _ _ _ Hm)) as Hd.
  pose proof (yields_block _ _ _ _ Hd) as Hu.
  assert (commit_or_replace c l s = Ok (due c s)) as Hset.
  { apply settle_described; [|done|done]. by destruct Hm as (_ & _ & (_ & _ & _ & _ & _ & (_ & Hr) & _) & _). }
  destruct (commit_or_replace_same _ _ _ _ Hset) as (Hc & _ & _).
  destruct (extends_checks l (due c s) Hex (due_stakes _ _ Hs) Hu) as (fn & info & He & Hq & Hn & Hinfo).
  eexists. split.
  - unfold bridge_exec. rewrite Hv. cbn [Z.eqb require mbind outcome_bind].
    eapply (addLightClientBlock_run c _ s l fn (due c s)).
    split; [done|done| |done|apply Hex|done|done|done|by rewrite Hc|by exists info].
    eapply decode_all_run; [exact Hd|apply Nat.eqb_refl].
  - cbn. by rewrite Hc.
Qed.

(** *** The bond *)

Definition deposit_ctx (c : call_ctx) (amount : Z) : call_ctx := mkCtx (msg_sender c) amount (time_of c) (receives c).
(** The contract after the relay's deposit, which it makes when it has no bond. *)
Definition bonded (c : call_ctx) (s : NearBridge) : NearBridge :=
  if balance s (msg_sender c) =? 0
  then set_balanceOf (<[msg_sender c := lockEthAmount (cfg s)]> (balanceOf s))
         (set_ether (ether s + lockEthAmount (cfg s)) s)
  else s.

Lemma bonded_deposit `{Crypto} c s : balance s (msg_sender c) = 0 -> lockEthAmount (cfg s) < uint256_limit ->
  bridge_exec (deposit_ctx c (lockEthAmount (cfg s))) CallDeposit s = Ok (bonded c s).
Proof.
  intros Hb Hl. unfold bonded, bridge_exec, deposit, balance in *. cbn in *. rewrite Hb, !Z.eqb_refl.
  cbn [andb require mbind outcome_bind]. unfold safe_add. by rewrite (proj2 (Z.ltb_lt _ _)) by done.
Qed.
Lemma bonded_balance now c s : accounts now s -> lockEthAmount (cfg (bonded c s)) <= balance (bonded c s) (msg_sender c).
Proof.
  intros Ha. unfold bonded. destruct (Z.eqb_spec (balance s (msg_sender c)) 0) as [E|E].
  - unfold balance. cbn. rewrite map_get_insert. lia.
  - destruct (acc_balance now s (msg_sender c) Ha); [done|lia].
Qed.
Lemma bonded_view c now s : bridgeState now (bonded c s) = bridgeState now s /\ cfg (bonded c s) = cfg s /\
  initialized (bonded c s) = initialized s /\ (stakes s -> stakes (bonded c s)).
Proof. unfold bonded. destruct (_ =? 0); split_and!; try done. by intros []. Qed.
Lemma bonded_due c s l : extends l (due c s) -> extends l (due c (bonded c s)).
Proof.
  unfold bonded. destruct (_ =? 0); [|done]. unfold due, commitBlock; cbn.
  destruct (negb _ && _); cbn; [|done]. by destruct (untrustedHeadIsFromNextEpoch s).
Qed.

(** *** A round *)

(** The nodes answer the relay: Ethereum the contract's views, and NEAR the block
    after the head that the contract shows. *)
Record relay_views {N} `{EthNode N} `{EthContracts N} `{NearLightClient N} `{BNLib} `{EncLib} `{HashLib}
    (addr acct : string) (now sender : Z) (s : NearBridge) (b : LightClientBlockView) : Prop := {
  rv_state n : exists n' v current, eth_view addr "bridgeState" [] n = (n', inr v) /\
    js_get v "currentHeight" = Ok (VStr current) /\
    decimal current = Some (bs_currentHeight (bridgeState now s)) /\
    state_number v "nextValidAt" = Ok (bs_nextValidAt (bridgeState now s)) /\
    state_number v "nextTimestamp" = Ok (bs_nextTimestamp (bridgeState now s));
  rv_hash n current : decimal current = Some (bs_currentHeight (bridgeState now s)) -> exists n' v,
    eth_view addr "blockHashes" [VStr current] n = (n', inr v) /\
    toBuffer v = Ok (blockHashes now (bs_currentHeight (bridgeState now s)) s);
  rv_block n : exists n', near_next_light_client_block
      (bs58_encode (blockHashes now (bs_currentHeight (bridgeState now s)) s)) n = (n', inr (Some b));
  rv_replace n : exists n' v, eth_view addr "replaceDuration" [] n = (n', inr v) /\
    toBN_value v = Ok (replaceDuration (cfg s));
  rv_lock n : exists n' v, eth_view addr "lockEthAmount" [] n = (n', inr v);
  rv_balance n : exists n' amount, eth_view addr "balanceOf" [VStr acct] n = (n', inr (VStr amount)) /\
    String.eqb amount "0" = (balance s sender =? 0);
  rv_gas n : exists n' g, eth_getGasPrice n = (n', inr g);
  rv_deposit n opts : exists n', eth_contract_send addr "deposit" [] opts n = (n', inr tt)
}.

(** A transaction that a run sends to the contract. *)
Definition sends {St N A} (addr method : string) (args : list jsval) (r : world St N event * outcome A) : Prop :=
  exists opts res, EvContractSend addr method args opts res ∈ trace r.1.

Section relay_round.
Context `{BNLaws} `{EncLaws} {St N : Type} `{Clock N} `{EthNode N} `{EthContracts N} `{NearLightClient N} `{Random N}.
Context `{HashLib}.
Variables (url addr acct : string) (now sender : Z) (s : NearBridge) (b : LightClientBlockView).
Hypothesis views : relay_views addr acct now sender s b.

(** What the round reads is what the contract's state and the block say. *)
Lemma read_bridge_views ts (w : world St N event) :
  toBN (timestamp (inner_lite b)) = Ok ts ->
  exists w' current, read_bridge addr w = (w', Ok (mkBridgeView (VStr current) (bs_nextValidAt (bridgeState now s))
      (if bs_nextValidAt (bridgeState now s) =? 0 then None
       else Some (bs_nextTimestamp (bridgeState now s) + replaceDuration (cfg s) - ts)) b)) /\
    decimal current = Some (bs_currentHeight (bridgeState now s)).
Proof.
  intros Hts. destruct (rv_state _ _ _ _ _ _ views (net w)) as (n1 & v & cur & E1 & Hcur & Hdec & Hnv & Hnt).
  destruct (rv_hash _ _ _ _ _ _ views n1 cur Hdec) as (n2 & hv & E2 & Hh).
  destruct (rv_block _ _ _ _ _ _ views n2) as (n3 & E3).
  destruct (rv_replace _ _ _ _ _ _ views n3) as (n4 & rv & E4 & Hrd).
  eexists _, cur. split; [|exact Hdec]. unfold read_bridge, state_number in *.
  erewrite bind_run by (apply rpc_run; exact E1). erewrite bind_run by (unfold lift; by rewrite Hcur).
  erewrite bind_run by (apply rpc_run; exact E2). erewrite bind_run by (unfold lift; by rewrite Hh).
  erewrite bind_run by (apply rpc_run; exact E3). erewrite bind_run by (apply rpc_run; exact E4).
  erewrite bind_run by (unfold lift; by rewrite Hrd). erewrite bind_run by (unfold lift; by rewrite Hnv).
  destruct (bs_nextValidAt (bridgeState now s) =? 0).
  - by do 2 (erewrite bind_run by reflexivity).
  - erewrite bind_run by (unfold lift; rewrite Hnt; cbn [mbind outcome_bind not_null_block]; by rewrite Hts).
    by erewrite bind_run by reflexivity.
Qed.

(** The transaction with the block is the last thing a submission does. *)
Lemma submit_block_last o v bytes (w : world St N event) : submitInvalidBlock o = false -> bv_lastBlock v = b ->
  borshify b = Ok bytes ->
  exists w1 opts, submit_block addr acct o v w =
      (client_send addr "addLightClientBlock" [VBytes bytes] opts;; mret tt) w1 /\
    (balance s sender = 0 -> exists dopts, EvContractSend addr "deposit" [] dopts (inr tt) ∈ trace w1).
Proof.
  intros Hinv Hlb Hb. unfold submit_block. rewrite Hinv, Hlb, Hb.
  destruct (rv_lock _ _ _ _ _ _ views (net w)) as (n1 & lv & E1).
  destruct (rv_balance _ _ _ _ _ _ views n1) as (n2 & amount & E2 & Hz).
  erewrite bind_run by (apply rpc_run; exact E1). erewrite bind_run by (apply rpc_run; exact E2).
  cbn iota beta. rewrite Hz. destruct (Z.eqb_spec (balance s sender) 0) as [E|E].
  - destruct (rv_gas _ _ _ _ _ _ views n2) as (n3 & g & E3).
    set (opts := send_opts acct 1000000 (g * gasMultiplier o) ++ [("value", lv)]).
    destruct (rv_deposit _ _ _ _ _ _ views n3 opts) as (n4 & E4).
    destruct (rv_gas _ _ _ _ _ _ views n4) as (n5 & g' & E5).
    erewrite bind_run.
    2:{ unfold gas_price. erewrite bind_run by (erewrite bind_run by (apply rpc_run; exact E3); reflexivity).
        apply rpc_run. exact E4. }
    do 2 (erewrite bind_run by reflexivity).
    unfold gas_price at 1. erewrite bind_run by (erewrite bind_run by (apply rpc_run; exact E5); reflexivity).
    eexists _, _. split; [reflexivity|]. intros _. exists opts. cbn. set_solver.
  - destruct (rv_gas _ _ _ _ _ _ views n2) as (n5 & g' & E5). do 3 (erewrite bind_run by reflexivity).
    unfold gas_price at 1. erewrite bind_run by (erewrite bind_run by (apply rpc_run; exact E5); reflexivity).
    eexists _, _. by split; [reflexivity|].
Qed.

Lemma submit_block_sends o v bytes (w : world St N event) : submitInvalidBlock o = false -> bv_lastBlock v = b ->
  borshify b = Ok bytes ->
  let r := submit_block addr acct o v w in
  sends addr "addLightClientBlock" [VBytes bytes] r /\ (balance s sender = 0 -> sends addr "deposit" [] r) /\
  match r.2 with Ok _ | Throw _ => True | _ => False end.
Proof.
  intros Hinv Hlb Hb. destruct (submit_block_last o v bytes w Hinv Hlb Hb) as (w1 & opts & -> & Hdep).
  unfold client_send, rpc, mbind, M_bind.
  destruct (eth_contract_send _ _ _ _ (net w1)) as [n' [e|[]]]; cbn; (split_and!; [eexists opts, _; apply elem_of_app; right; by left| |done]);
    intros E; destruct (Hdep E) as (dopts & Hin); exists dopts, (inr tt); cbn; set_solver.
Qed.

Lemma round_sends_block o bytes z ts (w : world St N event) : submitInvalidBlock o = false ->
  borshify b = Ok bytes -> height (inner_lite b) = JNum z -> bs_currentHeight (bridgeState now s) < z ->
  toBN (timestamp (inner_lite b)) = Ok ts -> late_enough now s ts ->
  let r := near_round url addr acct o w in
  sends addr "addLightClientBlock" [VBytes bytes] r /\ (balance s sender = 0 -> sends addr "deposit" [] r).
Proof.
  intros Hinv Hb Hz Hlt Hts Hlate. destruct (read_bridge_views ts w Hts) as (w1 & cur & Hread & Hdec).
  unfold near_round, relay_try, catch. rewrite (bind_run _ _ _ _ _ Hread). set (v := mkBridgeView _ _ _ _).
  assert (should_submit v = true) as ->.
  { unfold should_submit, v; cbn. rewrite Hz; cbn. rewrite Hdec, (proj2 (Z.ltb_lt _ _) Hlt); cbn.
    destruct (Z.eqb_spec (bs_nextValidAt (bridgeState now s)) 0); [done|]. cbn. apply Z.leb_le.
    destruct Hlate; [done|lia]. }
  destruct (submit_block_sends o v bytes w1 Hinv eq_refl Hb) as (Hadd & Hdep & Hend).
  destruct (submit_block addr acct o v w1) as [w2 [u|e|code|]]; try done. split.
  - destruct Hadd as (opts & res & Hin). exists opts, res. cbn. apply elem_of_app. by left.
  - intros E. destruct (Hdep E) as (opts & res & Hin). exists opts, res. cbn. apply elem_of_app. by left.
Qed.
End relay_round.

(** ** The watchdog *)

(** The node answers the contract's views: a number as a value that [Number]
    reads, a boolean as such, and a revert as an error with its reason and the
    signature of the error. *)
Record bridge_views `{Crypto} {N} `{EthContracts N} (addr : string) (now : Z) (s : NearBridge) : Prop := {
  views_state n : exists n' v x y, eth_view addr "bridgeState" [] n = (n', inr v) /\
    js_get v "nextValidAt" = Ok x /\ js_number x = Some (bs_nextValidAt (bridgeState now s)) /\
    js_get v "numBlockProducers" = Ok y /\
    js_number y = Some (Z.of_nat (bs_numBlockProducers (bridgeState now s)));
  views_check n i : exists n' r,
    eth_view addr "checkBlockProducerSignatureInHead" [VNum (Z.of_nat i)] n = (n', r) /\
    match checkBlockProducerSignatureInHead i s with
    | Ok b => r = inr (VBool b)
    | _ => exists e, r = inl e /\ truthy (e_reason e) && truthy (e_signature e) = true
    end
}.

Section watchdog_contract.
Context `{Crypto} {St N : Type} `{Clock N} `{EthNode N} `{EthContracts N} `{RawSend N}.
Variables (addr acct : string) (delay errorDelay now : Z) (s : NearBridge).
Hypothesis views : bridge_views addr now s.

Lemma views_passes i : checkBlockProducerSignatureInHead i s <> Ok false -> passes addr (Z.of_nat i).
Proof.
  intros Hne n. destruct (views_check _ _ _ views n i) as (n' & r & E & Hr). exists n', r. split; [done|].
  destruct (checkBlockProducerSignatureInHead i s) as [[]| | |]; try done; subst; try done;
    destruct Hr as (? & -> & ?); done.
Qed.
Lemma views_fails i : checkBlockProducerSignatureInHead i s = Ok false -> fails addr (Z.of_nat i).
Proof.
  intros Hf n. destruct (views_check _ _ _ views n i) as (n' & r & E & Hr). rewrite Hf in Hr. subst.
  by eexists n', _.
Qed.

Lemma check_in_range i b : checkBlockProducerSignatureInHead i s = Ok b ->
  (i < bpsLength (untrustedBlockProducers s))%nat.
Proof.
  unfold checkBlockProducerSignatureInHead. intros Hrun. sol_step Hrun. by apply Nat.ltb_lt in E.
Qed.

Lemma round_sends_challenge fuel k g nonce data (w : world St N event) :
  now < lastValidAt s -> 0 <= now ->
  (forall j, (j < k)%nat -> checkBlockProducerSignatureInHead j s <> Ok false) ->
  checkBlockProducerSignatureInHead k s = Ok false ->
  (forall n, exists n', eth_getGasPrice n = (n', inr g)) -> g < gas_limit ->
  (forall n, exists n', eth_getTransactionCount acct n = (n', inr nonce)) ->
  encode_challenge acct (Z.of_nat k) = inr data ->
  exists r, EvRawSend nonce g data r ∈ trace (watchdog_round addr acct delay errorDelay (S fuel) w).1.
Proof.
  intros Hlt Hnow Hp Hf Hg Hlim Hn Hd. destruct (views_state _ _ _ views (net w)) as (n1 & v & x & y & E & Ex & Hx & Ey & Hy).
  unfold bridgeState in Hx, Hy. rewrite (proj2 (Z.ltb_lt _ _) Hlt) in Hx, Hy. cbn in Hx, Hy.
  destruct (watchdog_challenges_once addr acct fuel (bpsLength (untrustedBlockProducers s)) k
    (mkWorld (store w) n1 (trace w ++ [EvView addr "bridgeState" [] (inr v)])) g nonce data) as (w' & tr & r & Ec & Et).
  - by apply (check_in_range _ false).
  - intros j Hj. rewrite <- (Z2Nat.id j) by lia. apply views_passes, Hp. lia.
  - by apply views_fails.
  - done.
  - done.
  - done.
  - done.
  - exists r. unfold watchdog_round, catch.
    erewrite bind_run by (apply rpc_run; exact E).
    erewrite bind_run by (unfold lift; by rewrite Ex).
    rewrite bool_decide_eq_false_2 by (rewrite Hx; intros [=]; lia).
    erewrite (bind_run (_ ≫= _)); [|erewrite bind_run by (unfold lift; by rewrite Ey);
      rewrite Hy; cbn [default from_option id]; rewrite Nat2Z.id; exact Ec].
    cbn. rewrite Et. set_solver.
Qed.
End watchdog_contract.

(** C15: an invalid block does not survive a watchdog.  When the contract has an
    unconfirmed block whose first invalid signature has index [k], one round of
    the watchdog sends the challenge of signature [k], and this challenge,
    executed at any time before the end of the challenge period, removes the
    block: the contract has no unconfirmed block any more and never shows the
    hash. *)
Theorem watchdog_removes_invalid_block `{Crypto} {St N : Type} `{Clock N} `{EthNode N} `{EthContracts N}
    `{RawSend N} (addr acct : string) (delay errorDelay lock ld rd : Z) (ch : chain) (fuel k : nat)
    (g nonce : Z) (data : string) (w : world St N event) :
  let s := ch_bridge ch in
  0 <= lock -> reachable lock ld rd ch -> ch_now ch < lastValidAt s ->
  bridge_views addr (ch_now ch) s ->
  (forall j, (j < k)%nat -> checkBlockProducerSignatureInHead j s <> Ok false) ->
  checkBlockProducerSignatureInHead k s = Ok false ->
  (forall n, exists n', eth_getGasPrice n = (n', inr g)) -> g < gas_limit ->
  (forall n, exists n', eth_getTransactionCount acct n = (n', inr nonce)) ->
  encode_challenge acct (Z.of_nat k) = inr data ->
  (exists r, EvRawSend nonce g data r ∈ trace (watchdog_round addr acct delay errorDelay (S fuel) w).1) /\
  forall c receiver, ch_now ch <= time_of c < lastValidAt s -> msg_value c = 0 ->
    receives c receiver (lock / 2) = true -> receives c burner (lock - lock / 2) = true ->
    exists s', bridge_exec c (CallChallenge receiver k) s = Ok s' /\
      bs_nextValidAt (bridgeState (time_of c) s') = 0 /\
      (forall now, blockHashes now (bi_height (untrustedHead s)) s' = zero32).
Proof.
  intros s Hl Hr Hlt Hv Hp Hf Hg Hlim Hn Hd. split.
  - eapply round_sends_challenge; try done. apply (inv_now _ (reachable_invariant _ _ _ _ Hl Hr)).
  - intros c receiver [Hle Hlt'] Hval Hr1 Hr2.
    destruct (challenge_runs lock ld rd ch c receiver k) as (s' & Hrun & _ & _ & _ & Hb & Hnv); try done.
    by exists s'.
Qed.

(** ** The prover *)

(** The bridge that a prover asks. *)
Definition bridge_roots (ch : chain) (height : Z) : list byte :=
  blockMerkleRoots (ch_now ch) height (ch_bridge ch).

(** C19: the prover relies on final blocks only: a proof that it accepts against a
    root the bridge shows is accepted at every later time, and the root is the
    one in the block of that height that the bridge was initialized with or that
    passed its challenge period unopposed. *)
Theorem accepted_proof_final `{Crypto} (lock ld rd : Z) (ch ch' : chain) (data : list byte) (height : Z) :
  0 <= lock -> reachable lock ld rd ch -> rtc chain_step ch ch' ->
  proveOutcome (bridge_roots ch) data height = Ok true -> bridge_roots ch height <> zero32 ->
  proveOutcome (bridge_roots ch') data height = Ok true /\
  exists b, il_height (lc_inner_lite b) = height /\
    il_block_merkle_root (lc_inner_lite b) = bridge_roots ch height /\
    settled ld (ch_past ch) (ch_now ch) b.
Proof.
  intros Hl Hr Hsteps Hp Hne. pose proof (reachable_invariant _ _ _ _ Hl Hr) as [_ _ Hh _ Hpr].
  pose proof (reachable_config _ _ _ _ Hr) as Hc.
  assert (stored_in blockMerkleRoots_ bi_merkleRoot) as Hg by (by right). split.
  - apply proveOutcome_ok in Hp as (_ & f & r & Hd & Hf & Ho & Hb).
    eapply proveOutcome_run; try done. rewrite Hb. symmetry.
    by apply (shows_steps blockMerkleRoots_ bi_merkleRoot ch).
  - destruct (shown_settled _ _ ch height _ Hg Hh Hpr eq_refl Hne) as (b & ? & ? & Hs).
    rewrite Hc in Hs. by exists b.
Qed.

(** ** Witnesses *)

#[local] Existing Instance toy_crypto.

(** A contract with block 9000 and two producers, of whom the second has most of
    the stake and approves block 9100, which account 5 submits, and the sample
    block, which replaces it. *)
Definition relay_validators : list ValidatorStake :=
  [toy_validator; mkValidatorStake (utf8 "node1") (mkPublicKey 0 toy_key (0, 0)) 90].
Definition relay_pending : LightClientBlock :=
  mkLightClientBlock zero32 zero32
    (mkBlockHeaderInnerLite 9100 zero32 toy_key zero32 zero32 8000 zero32 zero32 []) zero32
    (mkOptionalValidatorStakes false [toy_validator] []) [zero_approval; toy_approval toy_key] [] [].
Definition relay_calls : list (call_ctx * bridge_call) :=
  [ (toy_ctx 5 20 1000, CallDeposit);
    (toy_ctx 1 0 1001, CallInitWithValidators (enc_vec enc_validator relay_validators));
    (toy_ctx 1 0 1002, CallInitWithBlock (enc_block (toy_block 9000 7000 toy_key)));
    (toy_ctx 5 0 1003, CallAddLightClientBlock (enc_block relay_pending)) ].
Definition relay_chain : chain := default (start 20 60 30) (run_chain relay_calls (start 20 60 30)).
Lemma relay_reachable : reachable 20 60 30 relay_chain.
Proof. apply (run_chain_reaches relay_calls). vm_compute. reflexivity. Qed.

#[local] Instance toy_clock : Clock unit := fun _ n => n.
#[local] Instance toy_eth : EthNode unit := {|
  eth_setProvider _ n := n;
  eth_close := None;
  eth_getBlockNumber n := (n, inr 8);
  eth_getBlock _ n := (n, inr VNull);
  eth_getTransactionReceipt _ n := (n, inr VNull);
  eth_getGasPrice n := (n, inr 20000000000);
  eth_getTransactionCount _ n := (n, inr 3);
  eth_call _ n := (n, inr tt);
  eth_sendTransaction _ n := (n, None)
|}.
(** The contract as its views describe it, to a relay without a bond. *)
Section relay_witness.
#[local] Instance relay_contract : EthContracts unit := {|
  eth_view _ m args n := (n, inr
    (if String.eqb m "bridgeState" then
       VObj [("currentHeight", VStr "9000"); ("nextTimestamp", VStr "8000"); ("nextValidAt", VStr "1063")]
     else if String.eqb m "replaceDuration" then VStr "30"
     else if String.eqb m "balanceOf" then VStr "0" else VStr "20"));
  eth_contract_send _ _ _ _ n := (n, inr tt)
|}.
#[local] Instance relay_near : NearLightClient unit := {|
  near_latest_height n := (n, inr 9605);
  near_last_final_block _ n := (n, inr (ones 32));
  near_validators_ordered _ n := (n, inr (Some [sample_validator]));
  near_next_light_client_block _ n := (n, inr (Some sample_block))
|}.
#[local] Instance relay_random : Random unit := fun _ n => (n, 0%nat).
#[local] Instance relay_hashes : HashLib :=
  {| toBuffer _ := Ok (blockHashes 1003 9000 (ch_bridge relay_chain)); bs58_encode _ := ones 32 |}.

Lemma relay_views_sample : relay_views "0xclient" "0xacct" 1003 6 (ch_bridge relay_chain) sample_block.
Proof.
  split.
  - intros n. eexists _, _, "9000". repeat split; vm_compute; reflexivity.
  - intros n current _. eexists _, _. repeat split; vm_compute; reflexivity.
  - intros n. by eexists.
  - intros n. eexists _, _. repeat split; vm_compute; reflexivity.
  - intros n. by eexists _, _.
  - intros n. eexists _, _. repeat split; vm_compute; reflexivity.
  - intros n. by eexists _, _.
  - intros n opts. by eexists.
Qed.

End relay_witness.

#[local] Instance toy_raw : RawSend unit := {|
  encode_challenge _ i := inr "0x1234";
  eth_sendRaw _ _ _ n := (n, inr tt)
|}.
(** The contract after the submission of a block with an invalid signature. *)
#[local] Instance bridge_contract : EthContracts unit := {|
  eth_view _ m args n := (n,
    if String.eqb m "bridgeState" then
      inr (VObj [("nextValidAt", VStr "1063"); ("numBlockProducers", VStr "1")])
    else match args with
    | [VNum i] =>
        match checkBlockProducerSignatureInHead (Z.to_nat i) (ch_bridge (toy_chain zero32)) with
        | Ok b => inr (VBool b)
        | _ => inl (mkExn "Error" "revert" "" "reverted" "Error(string)")
        end
    | _ => inr VUndef
    end);
  eth_contract_send _ _ _ _ n := (n, inr tt)
|}.

Lemma watchdog_removes_invalid_block_witness :
  (exists r, EvRawSend 3 20000000000 "0x1234" r ∈
     trace (watchdog_round "0xclient" "0xacct" 60 30 1 (mkWorld tt tt [])).1) /\
  forall c receiver, ch_now (toy_chain zero32) <= time_of c < lastValidAt (ch_bridge (toy_chain zero32)) ->
    msg_value c = 0 ->
    receives c receiver (20 / 2) = true -> receives c burner (20 - 20 / 2) = true ->
    exists s', bridge_exec c (CallChallenge receiver 0) (ch_bridge (toy_chain zero32)) = Ok s' /\
      bs_nextValidAt (bridgeState (time_of c) s') = 0 /\
      (forall now, blockHashes now (bi_height (untrustedHead (ch_bridge (toy_chain zero32)))) s' = zero32).
Proof.
  apply (watchdog_removes_invalid_block "0xclient" "0xacct" 60 30 20 60 30 (toy_chain zero32) 0 0
    20000000000 3 "0x1234" (mkWorld tt tt [])).
  - lia.
  - apply toy_bad_reachable.
  - vm_compute. reflexivity.
  - split.
    + intros n. eexists _, _, (VStr "1063"), (VStr "1"). split; [reflexivity|].
      split; [reflexivity|]. split; [vm_compute; reflexivity|]. split; [reflexivity|]. vm_compute. reflexivity.
    + intros n i. eexists _, _. split; [reflexivity|]. cbn -[checkBlockProducerSignatureInHead toy_chain].
      rewrite Nat2Z.id. destruct (checkBlockProducerSignatureInHead i _); [done|by eexists..].
  - intros j Hj. lia.
  - vm_compute. reflexivity.
  - intros n. by eexists.
  - vm_compute. reflexivity.
  - intros n. by eexists.
  - reflexivity.
Defined.

(** A contract whose block 100 has the root of the prover's sample chain. *)
Definition root_block : LightClientBlock :=
  mkLightClientBlock zero32 zero32
    (mkBlockHeaderInnerLite 100 zero32 toy_key zero32 zero32 7000 zero32 (root prover_blocks) []) zero32
    (mkOptionalValidatorStakes false [toy_validator] []) [] [] [].
Definition prover_calls : list (call_ctx * bridge_call) :=
  [ (toy_ctx 1 0 1001, CallInitWithValidators (enc_vec enc_validator [toy_validator]));
    (toy_ctx 1 0 1002, CallInitWithBlock (enc_block root_block)) ].
Definition prover_chain : chain := default (start 20 60 30) (run_chain prover_calls (start 20 60 30)).

Lemma prover_reachable : reachable 20 60 30 prover_chain.
Proof.
  assert (run_chain prover_calls (start 20 60 30) = Some prover_chain) as E by (vm_compute; reflexivity).
  exact (run_chain_reaches _ _ _ E).
Qed.

Lemma accepted_proof_final_witness :
  proveOutcome (bridge_roots (wait_until 5000 prover_chain)) (enc_proof prover_proof') 100 = Ok true /\
  exists b, il_height (lc_inner_lite b) = 100 /\
    il_block_merkle_root (lc_inner_lite b) = bridge_roots prover_chain 100 /\
    settled 60 (ch_past prover_chain) (ch_now prover_chain) b.
Proof.
  apply (accepted_proof_final 20 60 30 prover_chain (wait_until 5000 prover_chain)).
  - lia.
  - apply prover_reachable.
  - apply rtc_once, wait_step. vm_compute. congruence.
  - vm_compute. reflexivity.
  - vm_compute. congruence.
Defined.
