(* ===== verification/EthClient.v ===== *)
(** * The contract [EthClient]

    [contracts/near/eth-client/src/lib.rs]: the Ethereum light client on NEAR,
    and the block header of [contracts/near/eth-types/src/lib.rs].  It keeps the
    headers of the last blocks of every known fork, the total difficulty of
    each, and the hashes of the heaviest chain by number.

    A panic is a thrown error, after which the storage is the one before the
    call.  The workspace is compiled with [overflow-checks = true]: an integer
    operation that leaves its type panics, as do the operations of [U256].
    [usize] has 32 bits on the target.  An [UnorderedMap] is a finite map whose
    [insert] answers the previous value.  The crates [rlp] and [ethash] and the
    hash functions of the host are parameters. *)

From Stdlib Require Import Strings.Byte.
From stdpp Require Import base list strings gmap.
From Stdlib Require Import ZArith Lia.
From S2P Require Import Prelude Js.
Local Open Scope Z_scope.

#[export] Instance byte_countable : Countable byte.
Proof.
  apply (inj_countable Byte.to_nat Byte.of_nat). intros b. apply Byte.of_to_nat.
Defined.

(** ** Checked integers *)

Definition panic {A} (message : string) : outcome A := Throw (Error message).
Definition assert (cond : bool) (message : string) : outcome unit :=
  if cond then Ok tt else panic message.
Definition unwrap {A} (o : option A) (message : string) : outcome A :=
  match o with Some a => Ok a | None => panic message end.

Definition checked (bits : Z) (z : Z) : outcome Z :=
  if (0 <=? z) && (z <? 2 ^ bits) then Ok z else panic "arithmetic operation overflowed".
Definition u64_add (a b : Z) : outcome Z := checked 64 (a + b).
Definition u64_sub (a b : Z) : outcome Z := checked 64 (a - b).
Definition u256_add (a b : Z) : outcome Z := checked 256 (a + b).
Definition u256_mul (a b : Z) : outcome Z := checked 256 (a * b).
Definition as_usize (z : Z) : Z := z mod 2 ^ 32.

(** ** [BlockHeader] *)

Abbreviation H256 := (list byte) (only parsing).

Record BlockHeader := mkBlockHeader {
  bh_parent_hash : H256;
  bh_uncles_hash : H256;
  bh_author : list byte;
  bh_state_root : H256;
  bh_transactions_root : H256;
  bh_receipts_root : H256;
  bh_log_bloom : list byte;
  bh_difficulty : Z;
  bh_number : Z;
  bh_gas_limit : Z;
  bh_gas_used : Z;
  bh_timestamp : Z;
  bh_extra_data : list byte;
  bh_mix_hash : H256;
  bh_nonce : list byte;
  bh_hash : option H256;
  bh_partial_hash : option H256
}.

(** An item of an RLP list: bytes of a hash, a byte vector or an integer. *)
Inductive rlp_item :=
| RlpBytes (bs : list byte)
| RlpUint (z : Z).

(** The host's hash functions, the crate [rlp] (reading item [i] of a list as
    [n] bytes, as a byte vector or as an integer of [bits] bits, and writing a
    list), and the crate [ethash], whose [hashimoto] looks the nodes of the DAG
    up through a function with a state. *)
Class EthLibs := {
  near_sha256 : list byte -> list byte;
  near_keccak256 : list byte -> list byte;
  rlp_hash_at : nat -> list byte -> nat -> outcome (list byte);
  rlp_vec_at : list byte -> nat -> outcome (list byte);
  rlp_uint_at : Z -> list byte -> nat -> outcome Z;
  rlp_stream : list rlp_item -> list byte;
  cross_boundary : Z -> Z;
  get_full_size : Z -> Z;
  hashimoto_with_hasher : forall {S : Type}, H256 -> list byte -> Z ->
    (Z -> S -> outcome (list byte * S)) -> S -> outcome ((H256 * H256) * S)
}.

Section eth_client.
Context `{EthLibs}.

(** [stream_rlp(stream, partial)] *)
Definition stream_rlp (h : BlockHeader) (partial : bool) : list byte :=
  rlp_stream
    ([RlpBytes (bh_parent_hash h); RlpBytes (bh_uncles_hash h); RlpBytes (bh_author h);
      RlpBytes (bh_state_root h); RlpBytes (bh_transactions_root h); RlpBytes (bh_receipts_root h);
      RlpBytes (bh_log_bloom h); RlpUint (bh_difficulty h); RlpUint (bh_number h);
      RlpUint (bh_gas_limit h); RlpUint (bh_gas_used h); RlpUint (bh_timestamp h);
      RlpBytes (bh_extra_data h)]
     ++ if partial then [] else [RlpBytes (bh_mix_hash h); RlpBytes (bh_nonce h)]).

(** [rlp::decode::<BlockHeader>] *)
Definition decode_header (serialized : list byte) : outcome BlockHeader :=
  parent_hash ← rlp_hash_at 32 serialized 0;
  uncles_hash ← rlp_hash_at 32 serialized 1;
  author ← rlp_hash_at 20 serialized 2;
  state_root ← rlp_hash_at 32 serialized 3;
  transactions_root ← rlp_hash_at 32 serialized 4;
  receipts_root ← rlp_hash_at 32 serialized 5;
  log_bloom ← rlp_hash_at 256 serialized 6;
  difficulty ← rlp_uint_at 256 serialized 7;
  number ← rlp_uint_at 64 serialized 8;
  gas_limit ← rlp_uint_at 256 serialized 9;
  gas_used ← rlp_uint_at 256 serialized 10;
  timestamp ← rlp_uint_at 64 serialized 11;
  extra_data ← rlp_vec_at serialized 12;
  mix_hash ← rlp_hash_at 32 serialized 13;
  nonce ← rlp_hash_at 8 serialized 14;
  let header hash partial_hash :=
    mkBlockHeader parent_hash uncles_hash author state_root transactions_root receipts_root log_bloom
      difficulty number gas_limit gas_used timestamp extra_data mix_hash nonce hash partial_hash in
  let hash := Some (near_keccak256 serialized) in
  Ok (header hash (Some (near_keccak256 (stream_rlp (header hash None) true)))).

(** ** [DoubleNodeWithMerkleProof] *)

Record DoubleNodeWithMerkleProof := mkDoubleNode {
  dag_nodes : list (list byte);
  dag_proof : list (list byte)
}.

Definition truncate_to_h128 (arr : H256) : list byte := drop 16 arr.
Definition hash_h128 (l r : list byte) : list byte :=
  truncate_to_h128 (near_sha256 (replicate 16 x00 ++ l ++ replicate 16 x00 ++ r)).

(** The loop, from index [i] of the proof; a shift by 64 or more panics. *)
Fixpoint merkle_loop (index : Z) (proof : list (list byte)) (i : Z) (leaf : list byte)
    : outcome (list byte) :=
  match proof with
  | [] => Ok leaf
  | p :: proof =>
      if i <? 64 then
        merkle_loop index proof (i + 1)
          (if Z.shiftr index i mod 2 =? 0 then hash_h128 leaf p else hash_h128 p leaf)
      else panic "attempt to shift right with overflow"
  end.

Definition apply_merkle_proof (node : DoubleNodeWithMerkleProof) (index : Z) : outcome (list byte) :=
  n0 ← unwrap (dag_nodes node !! 0%nat) "index out of bounds";
  n1 ← unwrap (dag_nodes node !! 1%nat) "index out of bounds";
  merkle_loop index (dag_proof node) 0 (truncate_to_h128 (near_sha256 (n0 ++ n1))).

(** ** The contract *)

Record HeaderInfo := mkHeaderInfo {
  total_difficulty : Z;
  parent_hash : H256;
  number : Z
}.
Definition zero_hash : H256 := replicate 32 x00.
Definition default_info : HeaderInfo := mkHeaderInfo 0 zero_hash 0.

Record EthClient := mkEthClient {
  validate_ethash : bool;
  dags_start_epoch : Z;
  dags_merkle_roots : list (list byte);
  best_header_hash : H256;
  hashes_gc_threshold : Z;
  finalized_gc_threshold : Z;
  num_confirmations : Z;
  canonical_header_hashes : gmap Z H256;
  all_header_hashes : gmap Z (list H256);
  headers : gmap H256 BlockHeader;
  infos : gmap H256 HeaderInfo;
  trusted_signer : option string
}.

(** [EthClient::init], with the state that [env::state_read] finds. *)
Definition client_init (state : option EthClient) (validate_ethash : bool) (dags_start_epoch : Z)
    (dags_merkle_roots : list (list byte)) (first_header : list byte)
    (hashes_gc_threshold finalized_gc_threshold num_confirmations : Z)
    (trusted_signer : option string) : outcome EthClient :=
  assert (negb (bool_decide (is_Some state))) "Already initialized";;
  header ← decode_header first_header;
  header_hash ← unwrap (bh_hash header) "called `Option::unwrap()` on a `None` value";
  let header_number := bh_number header in
  Ok (mkEthClient validate_ethash dags_start_epoch dags_merkle_roots header_hash
        hashes_gc_threshold finalized_gc_threshold num_confirmations
        {[ header_number := header_hash ]} {[ header_number := [header_hash] ]}
        {[ header_hash := header ]} {[ header_hash := mkHeaderInfo 0 zero_hash header_number ]}
        trusted_signer).

Definition dag_merkle_root (c : EthClient) (epoch : Z) : outcome (list byte) :=
  i ← u64_sub epoch (dags_start_epoch c);
  unwrap (dags_merkle_roots c !! Z.to_nat (as_usize i)) "index out of bounds".

Definition last_block_number (c : EthClient) : Z :=
  number (default default_info (infos c !! best_header_hash c)).
Definition block_hash (c : EthClient) (index : Z) : option H256 := canonical_header_hashes c !! index.
Definition known_hashes (c : EthClient) (index : Z) : list H256 :=
  default [] (all_header_hashes c !! index).

Definition block_hash_safe (c : EthClient) (index : Z) : outcome (option H256) :=
  match block_hash c index with
  | None => Ok None
  | Some header_hash =>
      limit ← u64_add index (num_confirmations c);
      Ok (if last_block_number c <? limit then None else Some header_hash)
  end.

(** *** Garbage collection *)

(** The loop of [gc_canonical_chain]; it goes down from [header_number], so that
    [header_number + 1] rounds are enough. *)
Fixpoint gc_canonical_chain (fuel : nat) (header_number : Z) (canonical : gmap Z H256) : gmap Z H256 :=
  match fuel with
  | O => canonical
  | S fuel =>
      match canonical !! header_number with
      | Some _ =>
          let canonical := delete header_number canonical in
          if header_number =? 0 then canonical
          else gc_canonical_chain fuel (header_number - 1) canonical
      | None => canonical
      end
  end.

Fixpoint remove_all {V} (hashes : list H256) (m : gmap H256 V) : gmap H256 V :=
  match hashes with
  | [] => m
  | hash :: hashes => remove_all hashes (delete hash m)
  end.

Fixpoint gc_headers (fuel : nat) (header_number : Z)
    (st : gmap Z (list H256) * gmap H256 BlockHeader * gmap H256 HeaderInfo)
    : gmap Z (list H256) * gmap H256 BlockHeader * gmap H256 HeaderInfo :=
  match fuel with
  | O => st
  | S fuel =>
      let '(all, hs, ifs) := st in
      match all !! header_number with
      | Some all_headers =>
          let st := (delete header_number all, remove_all all_headers hs, remove_all all_headers ifs) in
          if header_number =? 0 then st else gc_headers fuel (header_number - 1) st
      | None => st
      end
  end.

(** *** The canonical chain *)

(** [for number in from..=to { remove(&number) }], [n] numbers from [from]. *)
Fixpoint remove_numbers (n : nat) (from : Z) (canonical : gmap Z H256) : gmap Z H256 :=
  match n with
  | O => canonical
  | S n => remove_numbers n (from + 1) (delete from canonical)
  end.

(** Replacing past hashes until the chains converge; [number + 1] rounds are
    enough. *)
Fixpoint converge (fuel : nat) (ifs : gmap H256 HeaderInfo) (number : Z) (current_hash : H256)
    (canonical : gmap Z H256) : gmap Z H256 :=
  match fuel with
  | O => canonical
  | S fuel =>
      let prev_value := canonical !! number in
      let canonical := <[number := current_hash]> canonical in
      if (number =? 0) || bool_decide (prev_value = Some current_hash) then canonical
      else match ifs !! current_hash with
           | Some info => converge fuel ifs (number - 1) (parent_hash info) canonical
           | None => canonical
           end
  end.

(** The branch of [record_header] that makes the new header the best one; the
    other maps already hold it. *)
Definition adopt_header (c : EthClient) (header : BlockHeader) (header_hash : H256)
    (info best_info : HeaderInfo) (all : gmap Z (list H256)) (hs : gmap H256 BlockHeader)
    (ifs : gmap H256 HeaderInfo) : outcome EthClient :=
  let header_number := bh_number header in
  let canonical :=
    if number info <? number best_info
    then remove_numbers (Z.to_nat (number best_info - number info)) (number info + 1)
           (canonical_header_hashes c)
    else canonical_header_hashes c in
  let canonical := <[header_number := header_hash]> canonical in
  n ← u64_sub (bh_number header) 1;
  let canonical := converge (S (Z.to_nat n)) ifs n (parent_hash info) canonical in
  let canonical :=
    if hashes_gc_threshold c <=? header_number then
      let n := header_number - hashes_gc_threshold c in
      gc_canonical_chain (S (Z.to_nat n)) n canonical
    else canonical in
  let '(all, hs, ifs) :=
    if finalized_gc_threshold c <=? header_number then
      let n := header_number - finalized_gc_threshold c in
      gc_headers (S (Z.to_nat n)) n (all, hs, ifs)
    else (all, hs, ifs) in
  Ok (mkEthClient (validate_ethash c) (dags_start_epoch c) (dags_merkle_roots c) header_hash
        (hashes_gc_threshold c) (finalized_gc_threshold c) (num_confirmations c)
        canonical all hs ifs (trusted_signer c)).

Definition record_header (c : EthClient) (header : BlockHeader) : outcome EthClient :=
  best_info ← unwrap (infos c !! best_header_hash c) "called `Option::unwrap()` on a `None` value";
  header_hash ← unwrap (bh_hash header) "called `Option::unwrap()` on a `None` value";
  let header_number := bh_number header in
  oldest ← u64_add header_number (finalized_gc_threshold c);
  assert (negb (oldest <? number best_info))
    "Header is too old to have a chance to appear on the canonical chain.";;
  parent_info ← unwrap (infos c !! bh_parent_hash header)
    "Header has unknown parent. Parent should be submitted first.";
  let all_hashes := default [] (all_header_hashes c !! header_number) in
  assert (negb (bool_decide (header_hash ∈ all_hashes))) "Header is already known.";;
  let all := <[header_number := all_hashes ++ [header_hash]]> (all_header_hashes c) in
  let hs := <[header_hash := header]> (headers c) in
  total ← u256_add (total_difficulty parent_info) (bh_difficulty header);
  let info := mkHeaderInfo total (bh_parent_hash header) header_number in
  let ifs := <[header_hash := info]> (infos c) in
  if (total_difficulty best_info <? total_difficulty info)
     || ((total_difficulty info =? total_difficulty best_info) && (bh_difficulty header mod 2 =? 0))
  then adopt_header c header header_hash info best_info all hs ifs
  else Ok (mkEthClient (validate_ethash c) (dags_start_epoch c) (dags_merkle_roots c)
             (best_header_hash c) (hashes_gc_threshold c) (finalized_gc_threshold c)
             (num_confirmations c) (canonical_header_hashes c) all hs ifs (trusted_signer c)).

(** *** Verification *)

(** The function that looks a DAG node up; its state is the [RefCell] index. *)
Definition lookup_node (c : EthClient) (nodes : list DoubleNodeWithMerkleProof) (merkle_root : list byte)
    (offset : Z) (index : nat) : outcome (list byte * nat) :=
  node ← unwrap (nodes !! (index / 2)%nat) "index out of bounds";
  (if (index mod 2 =? 0)%nat && validate_ethash c then
     r ← apply_merkle_proof node (offset / 2);
     assert (bool_decide (merkle_root = r)) "assertion failed"
   else Ok tt);;
  data ← unwrap (dag_nodes node !! (index mod 2)%nat) "index out of bounds";
  Ok (reverse (take 32 data) ++ reverse (drop 32 data), S index).

Definition hashimoto_merkle (c : EthClient) (header_hash : H256) (nonce : list byte)
    (header_number : Z) (nodes : list DoubleNodeWithMerkleProof) : outcome (H256 * H256) :=
  merkle_root ← dag_merkle_root c (as_usize header_number / 30000);
  r ← hashimoto_with_hasher header_hash nonce (get_full_size (as_usize header_number / 30000))
        (lookup_node c nodes merkle_root) 0%nat;
  Ok r.1.

(** [a && b], where [b] is evaluated only when [a] holds. *)
Definition and_then (a b : outcome bool) : outcome bool := x ← a; if (x : bool) then b else Ok false.

(** [header.difficulty < header.difficulty * 101 / 100 && header.difficulty >
    header.difficulty * 99 / 100] *)
Definition difficulty_check (header : BlockHeader) : outcome bool :=
  and_then (d ← u256_mul (bh_difficulty header) 101; Ok (bh_difficulty header <? d / 100))
    (d ← u256_mul (bh_difficulty header) 99; Ok (d / 100 <? bh_difficulty header)).

Definition verify_header (c : EthClient) (header prev : BlockHeader)
    (nodes : list DoubleNodeWithMerkleProof) : outcome bool :=
  partial_hash ← unwrap (bh_partial_hash header) "called `Option::unwrap()` on a `None` value";
  p ← hashimoto_merkle c partial_hash (bh_nonce header) (bh_number header) nodes;
  let result := p.2 in
  and_then (Ok (Z_of_le (reverse result) <? cross_boundary (bh_difficulty header)))
  (and_then
    (if validate_ethash c then difficulty_check header else Ok true)
  (and_then (Ok (bh_gas_used header <=? bh_gas_limit header))
  (and_then (g ← u256_mul (bh_gas_limit prev) 1025; Ok (bh_gas_limit header <? g / 1024))
  (and_then (g ← u256_mul (bh_gas_limit prev) 1023; Ok (g / 1024 <? bh_gas_limit header))
  (and_then (Ok (5000 <=? bh_gas_limit header))
  (and_then (Ok (bh_timestamp prev <? bh_timestamp header))
  (and_then (n ← u64_add (bh_number prev) 1; Ok (bh_number header =? n))
  (and_then (h ← unwrap (bh_hash prev) "called `Option::unwrap()` on a `None` value";
             Ok (bool_decide (bh_parent_hash header = h)))
            (Ok (length (bh_extra_data header) <=? 32)%nat))))))))).

Definition add_block_header (c : EthClient) (signer_account_id : string) (block_header : list byte)
    (nodes : list DoubleNodeWithMerkleProof) : outcome EthClient :=
  header ← decode_header block_header;
  match trusted_signer c with
  | Some trusted => assert (String.eqb signer_account_id trusted)
      "Eth-client is deployed as trust mode, only trusted_signer can add a new header"
  | None =>
      prev ← unwrap (headers c !! bh_parent_hash header)
        "Parent header should be present to add a new header";
      valid ← verify_header c header prev nodes;
      assert valid "The new header should be valid"
  end;;
  record_header c header.
End eth_client.
