(* ===== verification/EthClientSpec.v ===== *)
(** * Lemmas about the contract [EthClient]

    What the loops of [record_header] do to the maps, and the invariant: the
    headers that are kept form a window of numbers, each header of the window
    but the lowest has its parent in it, the best header is a heaviest one, and
    the canonical hashes of the window are its chain of ancestors. *)

From Stdlib Require Import Strings.Byte.
From stdpp Require Import base list strings gmap.
From Stdlib Require Import ZArith Lia.
From S2P Require Import Prelude Js EthClient.
Local Open Scope Z_scope.

(** ** Inversion *)

Lemma assert_ok b m u : assert b m = Ok u -> b = true.
Proof. by destruct b. Qed.
Lemma unwrap_ok {A} (o : option A) m a : unwrap o m = Ok a -> o = Some a.
Proof. destruct o; simpl; [by intros [= ->]|done]. Qed.
Lemma checked_ok bits z z' : checked bits z = Ok z' -> z' = z /\ 0 <= z < 2 ^ bits.
Proof.
  unfold checked. destruct (_ && _) eqn:E; [|done]. intros [= <-].
  apply andb_true_iff in E as [?%Z.leb_le ?%Z.ltb_lt]. done.
Qed.
Lemma checked_run bits z : 0 <= z < 2 ^ bits -> checked bits z = Ok z.
Proof. intros [H1 H2]. unfold checked. by rewrite (proj2 (Z.leb_le _ _) H1), (proj2 (Z.ltb_lt _ _) H2). Qed.

Ltac rust_step H :=
  let a := fresh "a" in let E := fresh "E" in
  apply obind_ok in H as (a & E & H); cbn beta zeta in H;
  first
    [ apply assert_ok in E; clear a
    | apply unwrap_ok in E
    | apply checked_ok in E as [-> E]
    | idtac ].

(** ** The loops *)

Lemma remove_all_lookup {V : Type} (hashes : list (list byte)) (m : gmap (list byte) V) (h : list byte) :
  remove_all hashes m !! h = if decide (h ∈ hashes) then None else m !! h.
Proof.
  revert m. induction hashes as [|x hashes IH]; intros m; cbn [remove_all].
  - by rewrite decide_False by apply not_elem_of_nil.
  - rewrite IH. destruct (decide (h ∈ hashes)) as [Hin|Hni].
    + by rewrite decide_True by (by right).
    + destruct (decide (h = x)) as [->|Hne].
      * rewrite decide_True by (by left). apply lookup_delete_eq.
      * rewrite decide_False by (intros [|]%elem_of_cons; done). by rewrite lookup_delete_ne.
Qed.

Lemma remove_numbers_lookup n : forall from canon m,
  remove_numbers n from canon !! m =
  if decide (from <= m < from + Z.of_nat n) then None else canon !! m.
Proof.
  induction n as [|n IH]; intros from canon m; simpl; [by rewrite decide_False by lia|].
  rewrite IH. destruct (decide (m = from)) as [->|Hne].
  - rewrite decide_False by lia. rewrite decide_True by lia. apply lookup_delete_eq.
  - rewrite lookup_delete_ne by done.
    destruct (decide (from + 1 <= m < from + 1 + Z.of_nat n)), (decide (from <= m < from + Z.of_nat (S n)));
      try done; lia.
Qed.

(** Collecting the canonical chain touches nothing above its start. *)
Lemma gc_canonical_above fuel : forall n canon m, n < m ->
  gc_canonical_chain fuel n canon !! m = canon !! m.
Proof.
  induction fuel as [|fuel IH]; intros n canon m Hm; simpl; [done|].
  destruct (canon !! n); [|done]. destruct (n =? 0).
  - by rewrite lookup_delete_ne by lia.
  - rewrite IH by lia. by rewrite lookup_delete_ne by lia.
Qed.
Lemma gc_canonical_sub fuel : forall n canon m h,
  gc_canonical_chain fuel n canon !! m = Some h -> canon !! m = Some h.
Proof.
  induction fuel as [|fuel IH]; intros n canon m h; simpl; [done|].
  destruct (canon !! n); [|done]. destruct (n =? 0); intros Hm; [|apply IH in Hm];
    by apply lookup_delete_Some in Hm as [_ ?].
Qed.

(** A map over hashes without the headers of a number up to [n]. *)
Definition above {V : Type} (n : Z) (ifs : gmap (list byte) HeaderInfo) (m : gmap (list byte) V)
    (h : list byte) : option V :=
  match ifs !! h with
  | Some i => if decide (number i <= n) then None else m !! h
  | None => m !! h
  end.

Lemma above_all {V : Type} (n : Z) (ifs : gmap (list byte) HeaderInfo) (m : gmap (list byte) V) (h : list byte) :
  (forall h i, ifs !! h = Some i -> n < number i) -> above n ifs m h = m !! h.
Proof.
  intros Hn. unfold above. destruct (ifs !! h) as [i|] eqn:Ei; [|done].
  specialize (Hn h i Ei). by rewrite decide_False by lia.
Qed.

Lemma above_infos (n : Z) (ifs : gmap (list byte) HeaderInfo) (h : list byte) i :
  above n ifs ifs h = Some i <-> ifs !! h = Some i /\ n < number i.
Proof.
  unfold above. destruct (ifs !! h) as [j|] eqn:Ej; [|split; [done|by intros [? _]]].
  destruct (decide (number j <= n)); (split; [|intros [[= <-] ?]]); try done; try lia.
  intros [= <-]. split; [done|lia].
Qed.

Section remove_number.
Context (n : Z) (l : list (list byte)) (ifs : gmap (list byte) HeaderInfo).
Hypothesis Hl : forall h, h ∈ l <-> exists i, ifs !! h = Some i /\ number i = n.

Lemma remove_number_some h i : remove_all l ifs !! h = Some i <-> ifs !! h = Some i /\ number i <> n.
Proof.
  rewrite remove_all_lookup. destruct (decide (h ∈ l)) as [Hh|Hh].
  - split; [done|]. intros [Hi Hne]. apply Hl in Hh as (i' & ? & ?). congruence.
  - split; [|by intros [? _]]. intros Hi. split; [done|]. intros <-. apply Hh, Hl. eauto.
Qed.

(** Removing the headers of number [n] and then those below is removing them all. *)
Lemma above_step {V : Type} (m : gmap (list byte) V) h :
  above (n - 1) (remove_all l ifs) (remove_all l m) h = above n ifs m h.
Proof.
  unfold above. rewrite (remove_all_lookup l m). destruct (remove_all l ifs !! h) as [i|] eqn:Ei.
  - apply remove_number_some in Ei as [Ei Hne]. rewrite Ei.
    destruct (decide (h ∈ l)) as [(i' & ? & ?)%Hl|]; [congruence|].
    destruct (decide (number i <= n - 1)), (decide (number i <= n)); try done; lia.
  - destruct (decide (h ∈ l)) as [(i & -> & <-)%Hl|Hh]; [by rewrite decide_True by lia|].
    destruct (ifs !! h) as [i|] eqn:Ei'; [|done].
    destruct (decide (number i = n)) as [E|E]; [exfalso; apply Hh, Hl; eauto|].
    assert (remove_all l ifs !! h = Some i) by (by apply remove_number_some). congruence.
Qed.
End remove_number.

(** Collecting the headers removes exactly those with a number up to the start,
    when the numbers are an interval from [lo]. *)
Lemma gc_headers_spec lo fuel : forall n all hs ifs,
  (Z.to_nat n < fuel)%nat -> 0 <= n -> 0 <= lo ->
  (forall m, m <= n -> is_Some (all !! m) <-> lo <= m) ->
  (forall m l h, all !! m = Some l -> h ∈ l <-> exists i, ifs !! h = Some i /\ number i = m) ->
  (forall h i, ifs !! h = Some i -> lo <= number i) ->
  let st := gc_headers fuel n (all, hs, ifs) in
  (forall m, st.1.1 !! m = if decide (m <= n) then None else all !! m) /\
  (forall h, st.2 !! h = above n ifs ifs h) /\ (forall h, st.1.2 !! h = above n ifs hs h).
Proof.
  induction fuel as [|fuel IH]; intros n all hs ifs Hf Hn Hlo Hall Hin Hifs; [lia|]. simpl.
  destruct (all !! n) as [l|] eqn:El.
  2:{ (* nothing at [n], hence nothing below *)
    assert (n < lo) as Hlt.
    { destruct (Z.lt_ge_cases n lo) as [|Hge]; [done|]. destruct (proj2 (Hall n ltac:(lia)) Hge). congruence. }
    simpl. split_and!; [|intros h; rewrite above_all; [done|]; intros h' i Hi; specialize (Hifs h' i Hi); lia..].
    intros m. destruct (decide (m <= n)); [|done]. destruct (all !! m) eqn:Em; [|done].
    assert (lo <= m) by (apply Hall; eauto). lia. }
  assert (lo <= n) as Hle by (apply Hall; [lia|eauto]).
  assert (forall h, h ∈ l <-> exists i, ifs !! h = Some i /\ number i = n) as Hl by (intros h; by apply Hin).
  assert (forall h i, remove_all l ifs !! h = Some i -> lo <= number i /\ number i <> n) as Hrm.
  { intros h i [Hi Hne]%(remove_number_some n l ifs Hl). split; [by eapply Hifs|done]. }
  destruct (Z.eqb_spec n 0) as [->|Hnz].
  { simpl. split_and!; [|intros h; rewrite <- (above_step 0 l ifs Hl), above_all; [done|];
      intros h' i [? ?]%Hrm; lia..].
    intros m. destruct (decide (m = 0)) as [->|Hne]; [apply lookup_delete_eq|].
    rewrite lookup_delete_ne by done. destruct (decide (m <= 0)); [|done].
    destruct (all !! m) eqn:Em; [|done]. assert (lo <= m) by (apply Hall; [lia|eauto]). lia. }
  destruct (IH (n - 1) (delete n all) (remove_all l hs) (remove_all l ifs)) as (H1 & H2 & H3).
  - lia.
  - lia.
  - done.
  - intros m Hm. rewrite lookup_delete_ne by lia. apply Hall. lia.
  - intros m l' h Hm. apply lookup_delete_Some in Hm as [Hne Hm]. rewrite (Hin m l' h Hm).
    setoid_rewrite (remove_number_some n l ifs Hl). split; intros (i & Hi); exists i; intuition congruence.
  - intros h i [? _]%Hrm. done.
  - split_and!; [|intros h; rewrite ?H2, ?H3; by apply above_step..].
    intros m. rewrite H1. destruct (decide (m = n)) as [->|Hne].
    + rewrite decide_False, decide_True by lia. apply lookup_delete_eq.
    + rewrite lookup_delete_ne by done. destruct (decide (m <= n - 1)), (decide (m <= n)); try done; lia.
Qed.
