(* ===== verification/EthClientInv.v ===== *)
(** * The invariant of the contract [EthClient] *)

From Stdlib Require Import Strings.Byte.
From stdpp Require Import base list strings gmap.
From Stdlib Require Import ZArith Lia.
From S2P Require Import Prelude Js EthClient EthClientSpec.
Local Open Scope Z_scope.

Abbreviation hash_map V := (gmap (list byte) V) (only parsing).

(** ** The canonical chain *)

(** From [lo] to [top] every number has a hash whose header is kept and has that
    number, and above [lo] the hash below it is its parent's. *)
Definition linked (ifs : hash_map HeaderInfo) (lo top : Z) (canon : gmap Z (list byte)) : Prop :=
  forall n, lo <= n <= top -> exists h i, canon !! n = Some h /\ ifs !! h = Some i /\ number i = n /\
    (lo < n -> canon !! (n - 1) = Some (parent_hash i)).

Section converge.
Context (ifs : hash_map HeaderInfo) (lo : Z).
Hypothesis lo_nonneg : 0 <= lo.
Hypothesis ifs_lo : forall h i, ifs !! h = Some i -> lo <= number i.
Hypothesis ifs_parent : forall h i, ifs !! h = Some i -> lo < number i ->
  exists j, ifs !! parent_hash i = Some j /\ number j = number i - 1.
Hypothesis ifs_number : forall h i j, ifs !! h = Some i -> ifs !! parent_hash i = Some j ->
  number j = number i - 1.

(** The old hashes up to [n]: each one is linked to the one below. *)
Definition old_links (n : Z) (canon : gmap Z (list byte)) : Prop :=
  forall m h, lo <= m <= n -> canon !! m = Some h -> exists i, ifs !! h = Some i /\ number i = m /\
    (lo < m -> canon !! (m - 1) = Some (parent_hash i)).

Lemma old_links_down k : forall n canon h, old_links n canon -> canon !! n = Some h ->
  (k <= Z.to_nat (n - lo))%nat -> is_Some (canon !! (n - Z.of_nat k)).
Proof.
  induction k as [|k IH]; intros n canon h Ho Hn Hk; [rewrite Z.sub_0_r; eauto|].
  destruct (IH n canon h Ho Hn ltac:(lia)) as [h' Hh'].
  destruct (Ho (n - Z.of_nat k) h' ltac:(lia) Hh') as (i & _ & _ & Hl).
  exists (parent_hash i). rewrite <- Hl by lia. f_equal. lia.
Qed.

Lemma old_links_linked n canon h : old_links n canon -> canon !! n = Some h -> linked ifs lo n canon.
Proof.
  intros Ho Hn m Hm. destruct (old_links_down (Z.to_nat (n - m)) n canon h Ho Hn ltac:(lia)) as [h' Hh'].
  replace (n - Z.of_nat (Z.to_nat (n - m))) with m in Hh' by lia.
  destruct (Ho m h' Hm Hh') as (i & ? & ? & ?). eauto 10.
Qed.

Lemma converge_ok fuel : forall n cur canon, (Z.to_nat n < fuel)%nat -> 0 <= n -> lo - 1 <= n ->
  (lo <= n -> exists j, ifs !! cur = Some j /\ number j = n) ->
  (forall j, ifs !! cur = Some j -> number j = n) -> old_links n canon ->
  let canon' := converge fuel ifs n cur canon in
  (forall m, n < m -> canon' !! m = canon !! m) /\ canon' !! n = Some cur /\ linked ifs lo n canon' /\
  (forall m h, canon' !! m = Some h -> m <= n \/ canon !! m = Some h).
Proof.
  induction fuel as [|fuel IH]; intros n cur canon Hf Hn Hlo Hcur Hnum Ho; [lia|]. cbn zeta. simpl.
  assert (forall m h, <[n:=cur]> canon !! m = Some h -> m <= n \/ canon !! m = Some h) as Hsub.
  { intros m h [[<- _]|[_ ?]]%lookup_insert_Some; [left; lia|by right]. }
  destruct (decide (canon !! n = Some cur)) as [Heq|Hne].
  { rewrite (bool_decide_eq_true_2 _ Heq), orb_true_r, insert_id by done.
    split_and!; [done|done|by eapply old_links_linked|by right]. }
  rewrite (bool_decide_eq_false_2 _ Hne), orb_false_r.
  assert (n <= lo -> linked ifs lo n (<[n:=cur]> canon)) as Hlow.
  { intros Hle m Hm. assert (m = n) as -> by lia. destruct (Hcur ltac:(lia)) as (j & Hj & Hjn).
    exists cur, j. split_and!; [apply lookup_insert_eq|done|done|lia]. }
  destruct (Z.eqb_spec n 0) as [->|Hnz].
  { split_and!; [|apply lookup_insert_eq|apply Hlow; lia|done]. intros m Hm. by rewrite lookup_insert_ne by lia. }
  destruct (ifs !! cur) as [i|] eqn:Ei.
  2:{ assert (n < lo). { destruct (Z.lt_ge_cases n lo) as [|Hge]; [done|]. destruct (Hcur Hge) as (? & ? & _). congruence. }
      split_and!; [|apply lookup_insert_eq|apply Hlow; lia|done]. intros m Hm. by rewrite lookup_insert_ne by lia. }
  pose proof (Hnum i eq_refl) as Hi. pose proof (ifs_lo cur i Ei).
  destruct (IH (n - 1) (parent_hash i) (<[n:=cur]> canon)) as (H1 & H2 & H3 & H4).
  - lia.
  - lia.
  - lia.
  - intros Hge. destruct (ifs_parent cur i Ei ltac:(lia)) as (j & ? & ?). exists j. split; [done|lia].
  - intros j Hj. pose proof (ifs_number cur i j Ei Hj). lia.
  - intros m h Hm. rewrite lookup_insert_ne by lia. intros Hmh.
    destruct (Ho m h ltac:(lia) Hmh) as (i' & ? & ? & Hl). exists i'. split_and!; [done|done|].
    intros. rewrite lookup_insert_ne by lia. auto.
  - split_and!.
    + intros m Hm. rewrite H1 by lia. by rewrite lookup_insert_ne by lia.
    + rewrite H1 by lia. apply lookup_insert_eq.
    + intros m Hm. destruct (decide (m = n)) as [->|Hmn]; [|apply H3; lia].
      exists cur, i. split_and!; [rewrite H1 by lia; apply lookup_insert_eq|done|done|done].
    + intros m h [|Hmh%Hsub]%H4; [left; lia|done].
Qed.
End converge.

(** ** The stored headers *)

Section invariant.
(** The headers of Ethereum that are considered: no two have the same hash, and
    none has the hash zero. *)
Context (eth : BlockHeader -> Prop).
Definition collision_free : Prop :=
  (forall h1 h2, eth h1 -> eth h2 -> bh_hash h1 = bh_hash h2 -> h1 = h2) /\
  (forall h, eth h -> bh_hash h <> Some zero_hash /\ 0 <= bh_difficulty h).

Record stored (lo : Z) (all : gmap Z (list (list byte))) (hs : hash_map BlockHeader)
    (ifs : hash_map HeaderInfo) : Prop := {
  st_nonneg : 0 <= lo;
  st_headers h hd : hs !! h = Some hd -> eth hd /\ bh_hash hd = Some h /\
    exists i, ifs !! h = Some i /\ number i = bh_number hd;
  st_infos h i : ifs !! h = Some i -> is_Some (hs !! h) /\ lo <= number i;
  st_parent h i : ifs !! h = Some i -> lo < number i ->
    exists j, ifs !! parent_hash i = Some j /\ number j = number i - 1;
  st_number h i hd : ifs !! h = Some i -> eth hd -> bh_hash hd = Some (parent_hash i) ->
    bh_number hd = number i - 1;
  st_all m l h : all !! m = Some l -> h ∈ l <-> exists i, ifs !! h = Some i /\ number i = m;
  st_listed h i : ifs !! h = Some i -> is_Some (all !! number i);
  st_interval : exists hi, forall m, is_Some (all !! m) <-> lo <= m <= hi
}.

(** The header of an info. *)
Lemma stored_header lo all hs ifs h i : stored lo all hs ifs -> ifs !! h = Some i ->
  exists hd, hs !! h = Some hd /\ eth hd /\ bh_hash hd = Some h /\ bh_number hd = number i.
Proof.
  intros Hs Hi. destruct (st_infos _ _ _ _ Hs h i Hi) as [[hd Hhd] _].
  destruct (st_headers _ _ _ _ Hs h hd Hhd) as (? & ? & j & ? & ?). exists hd. split_and!; congruence.
Qed.

Lemma stored_number lo all hs ifs h i j : stored lo all hs ifs -> ifs !! h = Some i ->
  ifs !! parent_hash i = Some j -> number j = number i - 1.
Proof.
  intros Hs Hi Hj. destruct (stored_header _ _ _ _ _ _ Hs Hj) as (hd & _ & He & Hh & <-).
  by eapply st_number.
Qed.

Section add.
Context (free : collision_free).
Context (lo : Z) (all : gmap Z (list (list byte))) (hs : hash_map BlockHeader) (ifs : hash_map HeaderInfo).
Context (st : stored lo all hs ifs).
Context (hd : BlockHeader) (hh : list byte) (pi : HeaderInfo) (total : Z).
Context (Heth : eth hd) (Hhash : bh_hash hd = Some hh) (Hpi : ifs !! bh_parent_hash hd = Some pi)
  (Hnum : bh_number hd = number pi + 1).

Let hashes := default [] (all !! bh_number hd).
Let info := mkHeaderInfo total (bh_parent_hash hd) (bh_number hd).

(** A header that is not in its list is not stored at all. *)
Lemma stored_fresh : hh ∉ hashes -> ifs !! hh = None.
Proof.
  intros Hni. destruct (ifs !! hh) as [i|] eqn:Ei; [|done]. exfalso. apply Hni.
  destruct (stored_header _ _ _ _ _ _ st Ei) as (hd' & _ & He & Hh & Hn).
  assert (hd' = hd) as -> by (apply free; congruence).
  destruct (st_listed _ _ _ _ st hh i Ei) as [l Hl]. unfold hashes. rewrite Hn, Hl. simpl.
  apply (st_all _ _ _ _ st _ _ _ Hl). eauto.
Qed.

Lemma stored_add_all m l h : ifs !! hh = None ->
  <[bh_number hd := hashes ++ [hh]]> all !! m = Some l ->
  h ∈ l <-> exists i, <[hh := info]> ifs !! h = Some i /\ number i = m.
Proof.
  intros Hfr [[<- <-]|[Hm Hl]]%lookup_insert_Some.
  - rewrite elem_of_app, list_elem_of_singleton. destruct (decide (h = hh)) as [->|Hne].
    { rewrite lookup_insert_eq. split; [|by right]. intros _. by exists info. }
    rewrite lookup_insert_ne by done. unfold hashes. destruct (all !! bh_number hd) as [l|] eqn:El; simpl.
    + rewrite (st_all _ _ _ _ st _ _ _ El). split; [by intros [|]|by left].
    + split; [by intros [?%not_elem_of_nil|]|]. intros (i & Hi & Hin).
      destruct (st_listed _ _ _ _ st h i Hi). congruence.
  - rewrite (st_all _ _ _ _ st _ _ _ Hl). destruct (decide (h = hh)) as [->|Hne].
    + rewrite lookup_insert_eq, Hfr. split; [by intros (? & ? & _)|]. intros (i & Hi & Hn). simplify_eq.
    + by rewrite lookup_insert_ne.
Qed.

Lemma stored_parent_number hd' : eth hd' -> bh_hash hd' = Some (bh_parent_hash hd) ->
  bh_number hd' = bh_number hd - 1.
Proof.
  intros He' Hh'. destruct (stored_header _ _ _ _ _ _ st Hpi) as (p & _ & Hpe & Hph & Hpn).
  assert (hd' = p) as -> by (apply free; congruence). lia.
Qed.

Lemma stored_add : ifs !! hh = None ->
  stored lo (<[bh_number hd := hashes ++ [hh]]> all) (<[hh := hd]> hs) (<[hh := info]> ifs).
Proof.
  intros Hfr. destruct (st_infos _ _ _ _ st _ _ Hpi) as [_ Hplo].
  assert (forall h i, ifs !! h = Some i -> <[hh := info]> ifs !! h = Some i) as Hkeep.
  { intros h i Hi. rewrite lookup_insert_ne; [done|]. intros ->. congruence. }
  split.
  - apply st.
  - intros h hd' [[<- <-]|[Hne Hh]]%lookup_insert_Some.
    + split_and!; [done|done|]. exists info. by rewrite lookup_insert_eq.
    + destruct (st_headers _ _ _ _ st h hd' Hh) as (? & ? & i & Hi & ?). eauto 10.
  - intros h i [[<- <-]|[Hne Hi]]%lookup_insert_Some; [rewrite lookup_insert_eq; simpl; eauto with lia|].
    destruct (st_infos _ _ _ _ st h i Hi) as [? ?]. by rewrite lookup_insert_ne.
  - intros h i [[<- <-]|[Hne Hi]]%lookup_insert_Some Hlt; simpl in *.
    + exists pi. split; [by apply Hkeep|lia].
    + destruct (st_parent _ _ _ _ st h i Hi Hlt) as (j & ? & ?). eauto.
  - intros h i hd' [[<- <-]|[Hne Hi]]%lookup_insert_Some He' Hh'; simpl in *.
    + by apply stored_parent_number.
    + by eapply (st_number _ _ _ _ st).
  - intros m l h. by apply stored_add_all.
  - intros h i [[<- <-]|[Hne Hi]]%lookup_insert_Some; simpl.
    + rewrite lookup_insert_eq. eauto.
    + apply lookup_insert_is_Some'. right. by eapply (st_listed _ _ _ _ st).
  - destruct (st_interval _ _ _ _ st) as [hi Hhi]. exists (Z.max hi (bh_number hd)). intros m.
    pose proof (proj1 (Hhi (number pi)) (st_listed _ _ _ _ st _ _ Hpi)).
    rewrite lookup_insert_is_Some', Hhi. lia.
Qed.
End add.

Lemma above_headers lo all hs ifs n h hd : stored lo all hs ifs ->
  above n ifs hs h = Some hd <-> hs !! h = Some hd /\ n < bh_number hd.
Proof.
  intros Hs. unfold above. destruct (ifs !! h) as [j|] eqn:Ej.
  - destruct (stored_header _ _ _ _ _ _ Hs Ej) as (hd' & Hhd' & _ & _ & Hnum).
    destruct (decide (number j <= n)); (split; [|intros [? ?]]); try done; [simplify_eq; lia|].
    intros ?. simplify_eq. split; [done|lia].
  - split; [|by intros [? _]]. intros Hhd.
    destruct (st_headers _ _ _ _ Hs h hd Hhd) as (_ & _ & i & ? & _). congruence.
Qed.

(** Collection raises the lower end of the window. *)
Lemma stored_gc lo all hs ifs n hi0 : stored lo all hs ifs -> 0 <= n ->
  (exists h i, ifs !! h = Some i /\ number i = hi0) -> n < hi0 ->
  let st := gc_headers (S (Z.to_nat n)) n (all, hs, ifs) in
  stored (Z.max lo (n + 1)) st.1.1 st.1.2 st.2 /\ (forall h, st.2 !! h = above n ifs ifs h).
Proof.
  intros Hs Hn (h0 & i0 & Hi0 & Hhi0) Hlt.
  destruct (st_interval _ _ _ _ Hs) as [hi Hhi].
  pose proof (proj1 (Hhi _) (st_listed _ _ _ _ Hs _ _ Hi0)) as Hin.
  destruct (gc_headers_spec lo (S (Z.to_nat n)) n all hs ifs) as (H1 & H2 & H3); [lia|done|apply Hs|..].
  { intros m Hm. rewrite Hhi. lia. }
  { apply Hs. }
  { intros h i Hi. by apply (st_infos _ _ _ _ Hs h). }
  set (stg := gc_headers _ _ _) in *. cbn zeta. split; [|exact H2].
  assert (forall h i, stg.2 !! h = Some i <-> ifs !! h = Some i /\ n < number i) as H2'
    by (intros h i; rewrite H2; apply above_infos).
  assert (forall h hd, stg.1.2 !! h = Some hd <-> hs !! h = Some hd /\ n < bh_number hd) as H3'
    by (intros h hd; rewrite H3; by apply (above_headers lo all)).
  split.
  - pose proof (st_nonneg _ _ _ _ Hs). lia.
  - intros h hd [Hhd Hgt]%H3'. destruct (st_headers _ _ _ _ Hs h hd Hhd) as (? & ? & i & Hi & Hn').
    split_and!; [done|done|]. exists i. split; [|done]. apply H2'. split; [done|lia].
  - intros h i [Hi Hgt]%H2'. destruct (stored_header _ _ _ _ _ _ Hs Hi) as (hd & Hhd & _ & _ & Hnum).
    split; [|destruct (st_infos _ _ _ _ Hs h i Hi); lia]. exists hd. apply H3'. split; [done|lia].
  - intros h i [Hi Hgt]%H2' Hlo. destruct (st_parent _ _ _ _ Hs h i Hi ltac:(lia)) as (j & Hj & Hjn).
    exists j. split; [|done]. apply H2'. split; [done|lia].
  - intros h i hd [Hi _]%H2'. by apply (st_number _ _ _ _ Hs h).
  - intros m l h Hm. rewrite H1 in Hm. destruct (decide (m <= n)); [done|].
    rewrite (st_all _ _ _ _ Hs _ _ _ Hm). setoid_rewrite H2'.
    split; [intros (i & ? & <-); exists i; split_and!; [done|lia|done]|intros (i & [? ?] & ?); eauto].
  - intros h i [Hi Hgt]%H2'. rewrite H1, decide_False by lia. by apply (st_listed _ _ _ _ Hs h).
  - exists hi. intros m. rewrite H1. destruct (decide (m <= n)).
    + split; [by intros [? ?]|lia].
    + rewrite Hhi. lia.
Qed.

(** ** The contract *)

Definition names (n : Z) (h : list byte) : Prop :=
  forall hd, eth hd -> bh_hash hd = Some h -> bh_number hd = n.

Record client_ok (c : EthClient) (lo : Z) : Prop := {
  ok_thresholds : 1 <= finalized_gc_threshold c <= hashes_gc_threshold c;
  ok_stored : stored lo (all_header_hashes c) (headers c) (infos c);
  ok_numbers n h : canonical_header_hashes c !! n = Some h -> names n h;
  ok_best : exists b, infos c !! best_header_hash c = Some b /\
    (forall h i, infos c !! h = Some i -> total_difficulty i <= total_difficulty b) /\
    canonical_header_hashes c !! number b = Some (best_header_hash c) /\
    (forall m h, canonical_header_hashes c !! m = Some h -> m <= number b) /\
    linked (infos c) lo (number b) (canonical_header_hashes c)
}.

(** Every canonical hash is the hash of a header of its number, kept or not. *)
Lemma converge_numbers lo all hs ifs fuel : forall n cur canon, stored lo all hs ifs -> names n cur ->
  (forall m h, canon !! m = Some h -> names m h) ->
  forall m h, converge fuel ifs n cur canon !! m = Some h -> names m h.
Proof.
  induction fuel as [|fuel IH]; intros n cur canon Hs Hcur Hc; simpl; [done|].
  assert (forall m h, <[n := cur]> canon !! m = Some h -> names m h) as Hins.
  { intros m h [[<- <-]|[_ ?]]%lookup_insert_Some; auto. }
  destruct (_ || _); [done|]. destruct (ifs !! cur) as [i|] eqn:Ei; [|done].
  apply IH; [done| |done]. intros hd He Hh. rewrite (st_number _ _ _ _ Hs cur i hd Ei He Hh).
  destruct (stored_header _ _ _ _ _ _ Hs Ei) as (hd0 & _ & He0 & Hh0 & <-). by rewrite (Hcur hd0 He0 Hh0).
Qed.

Lemma adopt_names lo all hs ifs (HT hn top : Z) hh par canon : stored lo all hs ifs -> names hn hh ->
  names (hn - 1) par -> (forall m h, canon !! m = Some h -> names m h) ->
  let canon1 := if hn <? top then remove_numbers (Z.to_nat (top - hn)) (hn + 1) canon else canon in
  let canon3 := converge (S (Z.to_nat (hn - 1))) ifs (hn - 1) par (<[hn := hh]> canon1) in
  forall m h,
  (if HT <=? hn then gc_canonical_chain (S (Z.to_nat (hn - HT))) (hn - HT) canon3 else canon3) !! m = Some h ->
  names m h.
Proof.
  intros Hs Hhh Hpar Hc canon1 canon3 m h Hm.
  assert (canon3 !! m = Some h) as Hm3 by (destruct (HT <=? hn); [by eapply gc_canonical_sub|done]).
  clear Hm. revert m h Hm3. apply (converge_numbers lo all hs ifs); try done.
  intros m h [[<- <-]|[_ Hm]]%lookup_insert_Some; [done|]. apply Hc. unfold canon1 in Hm.
  destruct (hn <? top); [|done]. rewrite remove_numbers_lookup in Hm. by destruct (decide _).
Qed.

Lemma canonical_number c lo n h i : client_ok c lo -> canonical_header_hashes c !! n = Some h ->
  infos c !! h = Some i -> number i = n.
Proof.
  intros Hok Hn Hi. destruct (stored_header _ _ _ _ _ _ (ok_stored _ _ Hok) Hi) as (hd & _ & He & Hh & <-).
  by eapply (ok_numbers _ _ Hok).
Qed.

Lemma linked_restrict (ifs ifs' : hash_map HeaderInfo) lo lo' top canon canon' : lo <= lo' ->
  (forall m, lo' <= m <= top -> canon' !! m = canon !! m) ->
  (forall h i, ifs !! h = Some i -> lo' <= number i -> ifs' !! h = Some i) ->
  linked ifs lo top canon -> linked ifs' lo' top canon'.
Proof.
  intros Hlo Hc Hi Hl n Hn. destruct (Hl n ltac:(lia)) as (h & i & Hh & Hhi & <- & Hp).
  exists h, i. rewrite !Hc by lia. split_and!; [done|by apply Hi; [|lia]|done|].
  intros. rewrite Hc by lia. apply Hp. lia.
Qed.

(** The chain of ancestors of a new head, before the collection. *)
Lemma adopt_linked (ifs ifs' : hash_map HeaderInfo) lo top canon hn hh pi info :
  (forall h i, ifs !! h = Some i -> ifs' !! h = Some i) ->
  ifs' !! hh = Some info -> number info = hn -> ifs' !! parent_hash info = Some pi -> number pi = hn - 1 ->
  0 <= lo <= hn - 1 ->
  (forall h i, ifs' !! h = Some i -> lo <= number i) ->
  (forall h i, ifs' !! h = Some i -> lo < number i ->
     exists j, ifs' !! parent_hash i = Some j /\ number j = number i - 1) ->
  (forall h i j, ifs' !! h = Some i -> ifs' !! parent_hash i = Some j -> number j = number i - 1) ->
  linked ifs lo top canon -> (forall m h, canon !! m = Some h -> m <= top) ->
  let canon1 := if hn <? top then remove_numbers (Z.to_nat (top - hn)) (hn + 1) canon else canon in
  let canon3 := converge (S (Z.to_nat (hn - 1))) ifs' (hn - 1) (parent_hash info) (<[hn := hh]> canon1) in
  linked ifs' lo hn canon3 /\ canon3 !! hn = Some hh /\ (forall m h, canon3 !! m = Some h -> m <= hn).
Proof.
  intros Hsub Hhh Hin Hpi Hpn Hlo H1 H2 H3 Hl Htop canon1 canon3.
  assert (forall m, m <= hn -> canon1 !! m = canon !! m) as Hlow.
  { intros m Hm. unfold canon1. destruct (hn <? top); [|done].
    rewrite remove_numbers_lookup. by rewrite decide_False by lia. }
  assert (forall m h, canon1 !! m = Some h -> m <= hn) as Hhigh.
  { intros m h. unfold canon1. destruct (Z.ltb_spec hn top).
    - rewrite remove_numbers_lookup. destruct (decide _); [done|]. intros Hm%Htop. lia.
    - intros Hm%Htop. lia. }
  destruct (converge_ok ifs' lo ltac:(lia) H1 H2 H3 (S (Z.to_nat (hn - 1))) (hn - 1) (parent_hash info)
    (<[hn := hh]> canon1)) as (Hab & Hcur & Hlk & Hsrc); [lia|lia|lia| | | |].
  { intros _. by exists pi. }
  { intros j Hj. congruence. }
  { intros m h Hm. rewrite lookup_insert_ne by lia. rewrite Hlow by lia. intros Hmh.
    destruct (Hl m) as (h' & i & Hh' & Hi & Hni & Hpar); [specialize (Htop m h Hmh); lia|].
    simplify_eq. exists i. split_and!; [by apply Hsub|done|]. intros.
    rewrite lookup_insert_ne by lia. rewrite Hlow by lia. auto. }
  fold canon3 in Hab, Hcur, Hlk, Hsrc. assert (canon3 !! hn = Some hh) as Hhd.
  { rewrite Hab by lia. apply lookup_insert_eq. }
  split_and!; [|done|].
  - intros n Hn. destruct (decide (n = hn)) as [->|Hne]; [|apply Hlk; lia].
    exists hh, info. by split_and!.
  - intros m h [|[[<- _]|[_ ?%Hhigh]]%lookup_insert_Some]%Hsrc; lia.
Qed.

(** What does not change. *)
Definition same_settings (c c' : EthClient) : Prop :=
  validate_ethash c' = validate_ethash c /\ dags_start_epoch c' = dags_start_epoch c /\
  dags_merkle_roots c' = dags_merkle_roots c /\ hashes_gc_threshold c' = hashes_gc_threshold c /\
  finalized_gc_threshold c' = finalized_gc_threshold c /\
  num_confirmations c' = num_confirmations c /\ trusted_signer c' = trusted_signer c.

(** The collections after a new head: the window moves up. *)
Lemma collected lo all hs ifs hn hh info (F H : Z) canon :
  stored lo all hs ifs -> 1 <= F <= H -> 0 <= hn ->
  ifs !! hh = Some info -> number info = hn ->
  linked ifs lo hn canon -> canon !! hn = Some hh -> (forall m h, canon !! m = Some h -> m <= hn) ->
  let canon' := if H <=? hn then gc_canonical_chain (S (Z.to_nat (hn - H))) (hn - H) canon else canon in
  let st := if F <=? hn then gc_headers (S (Z.to_nat (hn - F))) (hn - F) (all, hs, ifs) else (all, hs, ifs) in
  exists lo', stored lo' st.1.1 st.1.2 st.2 /\ linked st.2 lo' hn canon' /\ canon' !! hn = Some hh /\
    (forall m h, canon' !! m = Some h -> m <= hn) /\ st.2 !! hh = Some info /\
    (forall h i, st.2 !! h = Some i -> ifs !! h = Some i) /\ hn - F < lo'.
Proof.
  intros Hs HFH Hhn Hhh Hin Hl Hhd Htop canon' st.
  assert (forall m, hn - H < m -> canon' !! m = canon !! m) as Hab.
  { intros m Hm. unfold canon'. destruct (H <=? hn); [by apply gc_canonical_above|done]. }
  assert (forall m h, canon' !! m = Some h -> m <= hn) as Htop'.
  { intros m h. unfold canon'. destruct (H <=? hn); [|apply Htop]. intros Hm%gc_canonical_sub. by eapply Htop. }
  assert (canon' !! hn = Some hh) as Hhd' by (rewrite Hab by lia; done).
  unfold st. destruct (Z.leb_spec F hn) as [HF|HF].
  - destruct (stored_gc lo all hs ifs (hn - F) hn Hs ltac:(lia)) as [Hs' Hab']; [by exists hh, info|lia|].
    assert (forall h i, (gc_headers (S (Z.to_nat (hn - F))) (hn - F) (all, hs, ifs)).2 !! h = Some i <->
      ifs !! h = Some i /\ hn - F < number i) as Hsub by (intros h i; rewrite Hab'; apply above_infos).
    eexists. split; [exact Hs'|]. split; [|split; [done|split; [done|]]].
    + eapply linked_restrict, Hl; [lia| |].
      * intros m Hm. apply Hab. lia.
      * intros h i Hi Hlt. apply Hsub. split; [done|lia].
    + split_and!; [apply Hsub; split; [done|lia]|by intros h i [? _]%Hsub|lia].
  - exists lo. split_and!; try done.
    + eapply linked_restrict, Hl; [lia| |done]. intros m Hm. unfold canon'. by rewrite (proj2 (Z.leb_gt _ _)) by lia.
    + pose proof (st_nonneg _ _ _ _ Hs). lia.
Qed.

Record recorded (c : EthClient) (header : BlockHeader) (c' : EthClient) : Prop := {
  rec_ok : exists lo', client_ok c' lo';
  rec_settings : same_settings c c';
  rec_infos h i : infos c' !! h = Some i -> Some h = bh_hash header \/ infos c !! h = Some i;
  rec_best b pi hh : infos c !! best_header_hash c = Some b -> infos c !! bh_parent_hash header = Some pi ->
    bh_hash header = Some hh -> total_difficulty b < total_difficulty pi + bh_difficulty header ->
    best_header_hash c' = hh /\ infos c' !! hh = Some (mkHeaderInfo
      (total_difficulty pi + bh_difficulty header) (bh_parent_hash header) (bh_number header))
}.

Lemma record_header_ok c lo header c' : collision_free -> client_ok c lo -> eth header ->
  (forall pi, infos c !! bh_parent_hash header = Some pi -> bh_number header = number pi + 1) ->
  record_header c header = Ok c' -> recorded c header c'.
Proof.
  intros Hfree [HFH Hst Hnames (b & Hb & Hmax & Hbc & Htop & Hlk)] Heth Hpn Hrun. unfold record_header in Hrun.
  rust_step Hrun. rust_step Hrun. rust_step Hrun. rust_step Hrun. rust_step Hrun. rust_step Hrun. rust_step Hrun.
  rename a0 into hh, a1 into pi, E0 into Hhash, E3 into Hpi. simplify_eq.
  apply negb_true_iff, bool_decide_eq_false in E4.
  pose proof (stored_fresh Hfree _ _ _ _ Hst header hh Heth Hhash E4) as Hfr.
  pose proof (Hpn _ Hpi) as Hn.
  pose proof (stored_add Hfree _ _ _ _ Hst header hh pi (total_difficulty pi + bh_difficulty header)
    Heth Hhash Hpi Hn Hfr) as Hst'.
  set (info := mkHeaderInfo _ _ _) in *. set (ifs' := <[hh := info]> (infos c)) in *.
  assert (forall h i, infos c !! h = Some i -> ifs' !! h = Some i) as Hkeep.
  { intros h i Hi. unfold ifs'. rewrite lookup_insert_ne; [done|]. intros ->. congruence. }
  assert (ifs' !! hh = Some info) as Hhh by apply lookup_insert_eq.
  assert (forall h i, ifs' !! h = Some i -> Some h = bh_hash header \/ infos c !! h = Some i) as Hsrc.
  { intros h i [[<- _]|[_ ?]]%lookup_insert_Some; [by left|by right]. }
  assert (forall bound, total_difficulty b <= bound -> total_difficulty info <= bound ->
    forall h i, ifs' !! h = Some i -> total_difficulty i <= bound) as Hmax'.
  { intros bound Hb1 Hb2 h i [[<- <-]|[_ Hi]]%lookup_insert_Some; [done|]. specialize (Hmax h i Hi). lia. }
  destruct (_ || _) eqn:Hbetter in Hrun.
  - unfold adopt_header in Hrun. rust_step Hrun. cbn [number info] in Hrun.
    destruct (adopt_linked (infos c) ifs' lo (number b) (canonical_header_hashes c) (bh_number header) hh pi info)
      as (Hl' & Hhd' & Htop'); try done; [by apply Hkeep|lia| | | | |].
    { destruct (st_infos _ _ _ _ Hst _ _ Hpi). pose proof (st_nonneg _ _ _ _ Hst). lia. }
    { intros h i Hi. by apply (st_infos _ _ _ _ Hst' h). }
    { intros h i. apply (st_parent _ _ _ _ Hst'). }
    { intros h i j. by apply (stored_number _ _ _ _ _ _ _ Hst'). }
    destruct (collected lo _ _ ifs' (bh_number header) hh info (finalized_gc_threshold c) (hashes_gc_threshold c)
      _ Hst' HFH ltac:(lia) Hhh eq_refl Hl' Hhd' Htop') as (lo' & Hs2 & Hl2 & Hhd2 & Htop2 & Hhh2 & Hsub2 & _).
    cbn [number info] in *. destruct (if finalized_gc_threshold c <=? bh_number header then _ else _) as [[all2 hs2] ifs2].
    injection Hrun as <-. split; [|done|intros h i Hi%Hsub2; by apply Hsrc|].
    2:{ cbn. intros b' pi' hh' _ Hpi' Hhash' _. rewrite Hpi in Hpi'. rewrite Hhash in Hhash'. by simplify_eq. }
    exists lo'. split; cbn; [done|done| |].
    { intros n h. apply (adopt_names _ _ _ _ _ _ _ _ _ _ Hst'); [| |done].
      - intros hd He Hh. assert (hd = header) as -> by (apply Hfree; congruence). done.
      - intros hd. apply (stored_parent_number Hfree _ _ _ _ Hst header pi Hpi Hn). }
    exists info. split_and!; [done| |done|done|done].
    intros h i Hi%Hsub2. eapply Hmax'; [|done|exact Hi].
    apply orb_true_iff in Hbetter as [Hlt%Z.ltb_lt|[Heq%Z.eqb_eq _]%andb_true_iff]; cbn in *; lia.
  - apply orb_false_iff in Hbetter as [Hge%Z.ltb_ge _]. injection Hrun as <-. split; [|done|done|].
    2:{ cbn in *. intros b' pi' hh' Hb' Hpi' _. rewrite Hb in Hb'. rewrite Hpi in Hpi'. simplify_eq. lia. }
    exists lo. split; cbn; [done|done|done|]. exists b.
    split_and!; [by apply Hkeep|by apply Hmax'|done|done|].
    eapply linked_restrict, Hlk; [lia|done|]. intros h i Hi _. by apply Hkeep.
Qed.
End invariant.
