(* ===== verification/EthClientTheorems.v ===== *)
(** * Theorems about the contract [EthClient] *)

From Stdlib Require Import Strings.Byte.
From stdpp Require Import base list strings gmap.
From Stdlib Require Import ZArith Lia.
From S2P Require Import Prelude Js EthClient EthClientSpec EthClientInv.
Local Open Scope Z_scope.

(** ** Verification *)

Lemma and_then_ok a b : and_then a b = Ok true -> a = Ok true /\ b = Ok true.
Proof. unfold and_then. intros (x & Ha & Hb)%obind_ok. by destruct x. Qed.

Section verify.
Context `{EthLibs}.

(** What an accepted header satisfies. *)
Lemma verify_header_ok c header prev nodes : verify_header c header prev nodes = Ok true ->
  bh_number header = bh_number prev + 1 /\ Some (bh_parent_hash header) = bh_hash prev /\
  bh_timestamp prev < bh_timestamp header /\ bh_gas_used header <= bh_gas_limit header.
Proof.
  unfold verify_header. intros Hv. rust_step Hv. apply obind_ok in Hv as (p & _ & Hv). cbn zeta in Hv.
  apply and_then_ok in Hv as [_ Hv]. apply and_then_ok in Hv as [_ Hv].
  apply and_then_ok in Hv as [Hgu Hv]. apply and_then_ok in Hv as [_ Hv].
  apply and_then_ok in Hv as [_ Hv]. apply and_then_ok in Hv as [_ Hv].
  apply and_then_ok in Hv as [Ht Hv]. apply and_then_ok in Hv as [Hn Hv].
  apply and_then_ok in Hv as [Hp _]. injection Ht as Ht%Z.ltb_lt. injection Hgu as Hgu%Z.leb_le.
  rust_step Hn. injection Hn as Hn%Z.eqb_eq. rust_step Hp. injection Hp as Hp%bool_decide_eq_true.
  split_and!; [done|congruence|done|done].
Qed.

(** The verification reads the settings only. *)
Lemma lookup_node_settings c c' nodes r : validate_ethash c' = validate_ethash c ->
  lookup_node c' nodes r = lookup_node c nodes r.
Proof. unfold lookup_node. by intros ->. Qed.
Lemma verify_header_settings c c' header prev nodes : same_settings c c' ->
  verify_header c' header prev nodes = verify_header c header prev nodes.
Proof.
  intros (Hv & Hs & Hr & _). unfold verify_header, hashimoto_merkle, dag_merkle_root.
  rewrite Hv, Hs, Hr. destruct (bh_partial_hash header) as [ph|]; [|done]. cbn [unwrap mbind outcome_bind].
  destruct (u64_sub _ _ ≫= _) as [root| | |]; try done. cbn [mbind outcome_bind].
  by rewrite (lookup_node_settings c c').
Qed.
End verify.

(** ** Reachable states *)

Section reach.
Context `{EthLibs} (eth : BlockHeader -> Prop).

(** A client that validates headers itself, from its initialization with a
    header, by accepted calls of [add_block_header]. *)
Inductive client_reach : EthClient -> Prop :=
| reach_init vd se roots data header HT F conf c :
    decode_header data = Ok header -> eth header -> 0 <= bh_number header -> 1 <= F <= HT ->
    client_init None vd se roots data HT F conf None = Ok c -> client_reach c
| reach_add c signer data header nodes c' :
    client_reach c -> decode_header data = Ok header -> eth header ->
    add_block_header c signer data nodes = Ok c' -> client_reach c'.

Lemma client_init_ok vd se roots data header HT F conf c :
  decode_header data = Ok header -> collision_free eth -> eth header -> 0 <= bh_number header -> 1 <= F <= HT ->
  client_init None vd se roots data HT F conf None = Ok c ->
  client_ok eth c (bh_number header) /\ trusted_signer c = None.
Proof.
  intros Hd [Hinj Hnz] He Hn HFH Hrun. unfold client_init in Hrun. rust_step Hrun.
  rewrite Hd in Hrun. cbn [mbind outcome_bind] in Hrun. rust_step Hrun. injection Hrun as <-.
  split; [|done]. rename a into hh, E0 into Hhash. clear E. destruct (Hnz _ He) as [Hzero _].
  set (info := mkHeaderInfo 0 zero_hash (bh_number header)).
  split; cbn; [done| | |].
  - split.
    + done.
    + intros h hd [<- <-]%lookup_singleton_Some. split_and!; [done|done|]. exists info.
      by rewrite lookup_singleton_eq.
    + intros h i [<- <-]%lookup_singleton_Some. rewrite lookup_singleton_eq. split; [eauto|done].
    + intros h i [<- <-]%lookup_singleton_Some. cbn. lia.
    + intros h i hd [<- <-]%lookup_singleton_Some He' Hh'. cbn in Hh'.
      destruct (Hnz _ He') as [Hz _]. by rewrite Hh' in Hz.
    + intros m l h [<- <-]%lookup_singleton_Some. rewrite list_elem_of_singleton. split.
      * intros ->. exists info. by rewrite lookup_singleton_eq.
      * by intros (i & [<- <-]%lookup_singleton_Some & _).
    + intros h i [<- <-]%lookup_singleton_Some. cbn. rewrite lookup_singleton_eq. eauto.
    + exists (bh_number header). intros m. destruct (decide (m = bh_number header)) as [->|Hne].
      * rewrite lookup_singleton_eq. split; [lia|eauto].
      * rewrite lookup_singleton_ne by done. split; [by intros [? ?]|lia].
  - intros n h [<- <-]%lookup_singleton_Some hd He' Hh'. by rewrite (Hinj hd header He' He) by congruence.
  - exists info. rewrite lookup_singleton_eq. split_and!; [done| |apply lookup_singleton_eq| |].
    + intros h i [<- <-]%lookup_singleton_Some. done.
    + intros m h [<- <-]%lookup_singleton_Some. done.
    + intros n Hn'. cbn in Hn'. assert (n = bh_number header) as -> by lia. exists hh, info.
      rewrite !lookup_singleton_eq. split_and!; [done|done|done|lia].
Qed.

Lemma add_block_header_ok c lo signer data header nodes c' :
  decode_header data = Ok header -> collision_free eth -> eth header -> client_ok eth c lo ->
  trusted_signer c = None -> add_block_header c signer data nodes = Ok c' ->
  recorded eth c header c'.
Proof.
  intros Hd Hfree He Hok Htr Hrun. unfold add_block_header in Hrun. rewrite Hd, Htr in Hrun.
  cbn [mbind outcome_bind] in Hrun. apply obind_ok in Hrun as (u & Hv & Hrun).
  apply obind_ok in Hv as (prev & Hprev%unwrap_ok & Hv). apply obind_ok in Hv as (valid & Hval & Hv).
  apply assert_ok in Hv as ->. apply verify_header_ok in Hval as (Hn & _).
  eapply record_header_ok; try done. intros pi Hpi.
  destruct (st_headers _ _ _ _ _ (ok_stored _ _ _ Hok) _ _ Hprev) as (_ & _ & i & Hi & Hin).
  rewrite Hpi in Hi. simplify_eq. lia.
Qed.

Lemma client_reach_ok c : collision_free eth -> client_reach c ->
  (exists lo, client_ok eth c lo) /\ trusted_signer c = None.
Proof.
  intros Hfree. induction 1 as [vd se roots data header HT F conf c Hd He Hn HFH Hrun|
    c signer data header nodes c' _ [[lo Hok] Htr] Hd He Hrun].
  - edestruct client_init_ok as [Hok Htr]; try done. eauto.
  - edestruct add_block_header_ok as [Hok' (_ & _ & _ & _ & _ & _ & ->) _ _]; done.
Qed.
End reach.

(** The [k]-th ancestor of a header, through the kept infos. *)
Fixpoint ancestor (k : nat) (ifs : gmap (list byte) HeaderInfo) (h : list byte) : option (list byte) :=
  match k with
  | O => Some h
  | S k => i ← ifs !! h; ancestor k ifs (parent_hash i)
  end.

Lemma linked_ancestor ifs lo top canon k : forall n h, linked ifs lo top canon ->
  lo <= n <= top -> canon !! n = Some h -> (Z.of_nat k <= n - lo) ->
  ancestor k ifs h = canon !! (n - Z.of_nat k).
Proof.
  induction k as [|k IH]; intros n h Hl Hn Hh Hk; [by rewrite Z.sub_0_r|].
  destruct (Hl n Hn) as (h' & i & Hh' & Hi & _ & Hp). simplify_eq. simpl. rewrite Hi. simpl.
  rewrite (IH (n - 1) (parent_hash i)); [|done|lia|apply Hp; lia|lia]. f_equal. lia.
Qed.

(** C3: in every reachable state of a client that has no trusted signer, and so
    validates headers itself, the best header is a heaviest one of those that are
    kept, its number is the last block number, nothing above it is on the
    canonical chain, and the canonical hash of every number in the window of kept
    headers is the ancestor of the best header at that number.  The headers
    submitted are any set without a hash collision.  Nothing is said of the
    canonical hashes below the window (see [stale_canonical_hash]). *)
Theorem canonical_chain_heaviest `{EthLibs} (eth : BlockHeader -> Prop) (c : EthClient) :
  collision_free eth -> client_reach eth c ->
  exists lo b, infos c !! best_header_hash c = Some b /\ last_block_number c = number b /\
    (forall h i, infos c !! h = Some i -> lo <= number i /\ total_difficulty i <= total_difficulty b) /\
    (forall n, number b < n -> block_hash c n = None) /\
    (forall n, lo <= n <= number b -> exists h, block_hash c n = Some h /\
       ancestor (Z.to_nat (number b - n)) (infos c) (best_header_hash c) = Some h /\ is_Some (headers c !! h)).
Proof.
  intros Hfree Hr. destruct (client_reach_ok _ _ Hfree Hr) as [[lo [_ Hst _ (b & Hb & Hmax & Hbc & Htop & Hl)]] _].
  exists lo, b. split_and!; [done| | | |].
  - unfold last_block_number. by rewrite Hb.
  - intros h i Hi. split; [by apply (st_infos _ _ _ _ _ Hst h)|by apply (Hmax h)].
  - intros n Hn. unfold block_hash. destruct (canonical_header_hashes c !! n) as [h|] eqn:E; [|done].
    specialize (Htop n h E). lia.
  - intros n Hn. destruct (Hl n Hn) as (h & i & Hh & Hi & _). exists h. split_and!; [done| |].
    + pose proof (st_infos _ _ _ _ _ Hst _ _ Hb) as [_ Hlo].
      rewrite (linked_ancestor _ _ _ _ _ (number b) _ Hl); [|lia|done|lia].
      rewrite <- Hh. f_equal. lia.
    + by apply (st_infos _ _ _ _ _ Hst h i).
Qed.

(** A safe hash in the window is an ancestor of the head. *)
Lemma safe_hash_ancestor `{EthLibs} (eth : BlockHeader -> Prop) (c : EthClient) (n : Z) (h : list byte) :
  collision_free eth -> client_reach eth c -> 0 <= num_confirmations c ->
  block_hash_safe c n = Ok (Some h) -> is_Some (infos c !! h) ->
  exists k, num_confirmations c <= Z.of_nat k /\ ancestor k (infos c) (best_header_hash c) = Some h.
Proof.
  intros Hfree Hr Hconf Hsafe [i Hi].
  destruct (client_reach_ok _ _ Hfree Hr) as [[lo Hok] _].
  destruct (ok_best _ _ _ Hok) as (b & Hb & _ & Hbc & Htop & Hl).
  unfold block_hash_safe in Hsafe. destruct (block_hash c n) as [h'|] eqn:Eh; [|done].
  rust_step Hsafe. destruct (Z.ltb_spec (last_block_number c) (n + num_confirmations c)); [done|].
  injection Hsafe as ->. unfold last_block_number in *. rewrite Hb in *. cbn in *.
  assert (lo <= n) as Hlo.
  { rewrite <- (canonical_number _ _ _ _ _ _ Hok Eh Hi). by apply (st_infos _ _ _ _ _ (ok_stored _ _ _ Hok) h). }
  exists (Z.to_nat (number b - n)). split; [lia|].
  rewrite (linked_ancestor _ _ _ _ _ (number b) _ Hl); [|lia|done|lia].
  unfold block_hash in Eh. rewrite <- Eh. f_equal. lia.
Qed.

(** A hash that [block_hash_safe] answers for a number in the window is the
    hash of a header with at least [num_confirmations] descendants on the way to
    the heaviest header. *)
Theorem safe_hash_confirmed `{EthLibs} (eth : BlockHeader -> Prop) (c : EthClient) (n : Z) (h : list byte) :
  collision_free eth -> client_reach eth c -> 0 <= num_confirmations c ->
  block_hash_safe c n = Ok (Some h) -> is_Some (infos c !! h) ->
  exists k, num_confirmations c <= Z.of_nat k /\ ancestor k (infos c) (best_header_hash c) = Some h.
Proof. apply safe_hash_ancestor. Qed.

(** ** Extension of the head *)

Section extend.
Context `{EthLibs} (eth : BlockHeader -> Prop) (free : collision_free eth).

Lemma decode_header_hash data header : decode_header data = Ok header ->
  bh_hash header = Some (near_keccak256 data).
Proof.
  unfold decode_header. intros Hd. repeat (apply obind_ok in Hd as (? & _ & Hd)). by injection Hd as <-.
Qed.

(** A valid header on top of the best one is accepted and becomes the best. *)
Lemma extend_head c lo signer data nodes header prev b hh :
  client_ok eth c lo -> trusted_signer c = None -> eth header ->
  infos c !! best_header_hash c = Some b -> headers c !! best_header_hash c = Some prev ->
  decode_header data = Ok header -> bh_hash header = Some hh -> verify_header c header prev nodes = Ok true ->
  0 < bh_difficulty header -> 0 <= total_difficulty b ->
  total_difficulty b + bh_difficulty header < 2 ^ 256 ->
  bh_number header + finalized_gc_threshold c < 2 ^ 64 -> infos c !! hh = None ->
  exists c', add_block_header c signer data nodes = Ok c' /\ recorded eth c header c' /\
    best_header_hash c' = hh /\
    infos c' !! hh = Some (mkHeaderInfo (total_difficulty b + bh_difficulty header)
                             (best_header_hash c) (number b + 1)) /\
    headers c' !! hh = Some header.
Proof.
  intros Hok Htr He Hb Hprev Hd Hhash Hv Hdiff Htot0 Htot Hlim Hfr.
  pose proof (ok_thresholds _ _ _ Hok) as HFH. pose proof (ok_stored _ _ _ Hok) as Hst.
  destruct (verify_header_ok _ _ _ _ Hv) as (Hn & Hp & _).
  destruct (st_headers _ _ _ _ _ Hst _ _ Hprev) as (_ & Hph & i & Hi & Hin).
  rewrite Hph in Hp. injection Hp as Hp. rewrite Hb in Hi. injection Hi as <-.
  destruct (st_infos _ _ _ _ _ Hst _ _ Hb) as [_ Hblo]. pose proof (st_nonneg _ _ _ _ _ Hst).
  assert (hh ∉ default [] (all_header_hashes c !! bh_number header)) as Hni.
  { destruct (all_header_hashes c !! bh_number header) as [l|] eqn:El; [|apply not_elem_of_nil]. simpl.
    intros (j & Hj & _)%(st_all _ _ _ _ _ Hst _ _ _ El). congruence. }
  assert (exists c', record_header c header = Ok c') as [c' Hrec].
  { unfold record_header. rewrite Hb, Hhash. cbn [unwrap mbind outcome_bind].
    unfold u64_add. rewrite checked_run by lia. cbn [mbind outcome_bind].
    rewrite (proj2 (Z.ltb_ge _ _)) by lia. cbn [assert negb mbind outcome_bind].
    rewrite Hp, Hb. cbn [unwrap mbind outcome_bind].
    rewrite bool_decide_eq_false_2 by done. cbn [assert negb mbind outcome_bind].
    unfold u256_add. rewrite checked_run by lia. cbn [mbind outcome_bind total_difficulty].
    rewrite (proj2 (Z.ltb_lt _ _)) by lia. cbn [orb]. unfold adopt_header, u64_sub.
    rewrite checked_run by lia. cbn [mbind outcome_bind].
    destruct (if finalized_gc_threshold c <=? bh_number header then _ else _) as [[all2 hs2] ifs2]. eauto. }
  assert (add_block_header c signer data nodes = Ok c') as Hadd.
  { unfold add_block_header. rewrite Hd, Htr. cbn [mbind outcome_bind]. rewrite Hp, Hprev.
    cbn [unwrap mbind outcome_bind]. rewrite Hv. cbn [assert mbind outcome_bind]. exact Hrec. }
  exists c'. split; [done|].
  pose proof (add_block_header_ok eth _ _ _ _ _ _ _ Hd free He Hok Htr Hadd) as Hr. split; [done|].
  destruct (rec_best _ _ _ _ Hr b b hh) as [Hbest Hinfo]; [done|by rewrite Hp|done|lia|].
  rewrite Hp in Hinfo. replace (bh_number header) with (number b + 1) in Hinfo by lia. split_and!; [done|done|].
  destruct (rec_ok _ _ _ _ Hr) as [lo' Hok'].
  destruct (stored_header _ _ _ _ _ _ _ (ok_stored _ _ _ Hok') Hinfo) as (hd & Hhd & Hehd & Hhhd & _).
  assert (hd = header) as -> by (apply free; congruence). done.
Qed.

Abbreviation block_input := (list byte * list DoubleNodeWithMerkleProof)%type.

(** The calls of [add_block_header] for a list of blocks, in order. *)
Fixpoint add_headers (c : EthClient) (signer : string) (blocks : list block_input) : outcome EthClient :=
  match blocks with
  | [] => Ok c
  | (data, nodes) :: blocks => c' ← add_block_header c signer data nodes; add_headers c' signer blocks
  end.

(** Blocks that each pass the verification on top of the one before. *)
Inductive valid_range (c : EthClient) : BlockHeader -> list block_input -> list BlockHeader -> Prop :=
| range_nil prev : valid_range c prev [] []
| range_cons prev data nodes header blocks hds :
    decode_header data = Ok header -> verify_header c header prev nodes = Ok true ->
    valid_range c header blocks hds ->
    valid_range c prev ((data, nodes) :: blocks) (header :: hds).

Lemma reach_headers blocks : forall c signer c', client_reach eth c -> add_headers c signer blocks = Ok c' ->
  Forall (fun b => exists header, decode_header b.1 = Ok header /\ eth header) blocks -> client_reach eth c'.
Proof.
  induction blocks as [|[data nodes] blocks IH]; intros c signer c' Hr Hrun Hall; simpl in Hrun.
  - by injection Hrun as <-.
  - apply obind_ok in Hrun as (c1 & Hc1 & Hrun). apply Forall_cons in Hall as [(header & Hd & He) Hall].
    eapply IH; [|exact Hrun|done]. by eapply reach_add.
Qed.

Lemma valid_range_settings c c' prev blocks hds : same_settings c c' ->
  valid_range c prev blocks hds -> valid_range c' prev blocks hds.
Proof.
  intros Hs. induction 1; constructor; try done. by rewrite (verify_header_settings c c').
Qed.

Definition sum_difficulty (hds : list BlockHeader) : Z := foldr (fun hd z => bh_difficulty hd + z) 0 hds.

(** New, with a positive difficulty, and with numbers and totals in range. *)
Definition addable (c : EthClient) (b : HeaderInfo) (hds : list BlockHeader) : Prop :=
  Forall (fun hd => eth hd /\ 0 < bh_difficulty hd /\ bh_number hd + finalized_gc_threshold c < 2 ^ 64 /\
    forall h, bh_hash hd = Some h -> infos c !! h = None) hds /\
  0 <= total_difficulty b /\ total_difficulty b + sum_difficulty hds < 2 ^ 256.

Lemma sum_difficulty_nonneg hds : Forall (fun hd => 0 < bh_difficulty hd) hds -> 0 <= sum_difficulty hds.
Proof. induction 1; simpl; lia. Qed.

(** The headers of a range have numbers above the first one's. *)
Lemma valid_range_numbers c prev blocks hds : valid_range c prev blocks hds ->
  Forall (fun hd => bh_number prev < bh_number hd) hds.
Proof.
  induction 1 as [|prev data nodes header blocks hds Hd Hv _ IH]; constructor.
  - destruct (verify_header_ok _ _ _ _ Hv). lia.
  - destruct (verify_header_ok _ _ _ _ Hv) as [Hn _]. eapply Forall_impl; [exact IH|]. simpl. lia.
Qed.

Lemma addable_next c c' b header hh rest : addable c b (header :: rest) -> recorded eth c header c' ->
  bh_hash header = Some hh -> Forall (fun hd => bh_number header < bh_number hd) rest ->
  addable c' (mkHeaderInfo (total_difficulty b + bh_difficulty header) (best_header_hash c) (number b + 1)) rest.
Proof.
  intros [[(He & Hd & _) Hall]%Forall_cons [H0 Hsum]] Hr Hhash Hnum. simpl in Hsum.
  destruct (rec_settings _ _ _ _ Hr) as (_ & _ & _ & _ & HF & _). split; [|simpl; split; lia].
  rewrite Forall_forall in Hall, Hnum |- *. intros hd Hin. specialize (Hall hd Hin). specialize (Hnum hd Hin).
  destruct Hall as (He' & ? & ? & Hni). rewrite HF. split_and!; [done|done|done|].
  intros h Hh. destruct (infos c' !! h) as [i|] eqn:Ei; [|done].
  destruct (rec_infos _ _ _ _ Hr h i Ei) as [Heq|Hold]; [|by rewrite (Hni h Hh) in Hold].
  assert (hd = header) as -> by (apply free; congruence). lia.
Qed.

Lemma add_headers_ok blocks : forall c lo signer prev hds b,
  client_ok eth c lo -> trusted_signer c = None ->
  infos c !! best_header_hash c = Some b -> headers c !! best_header_hash c = Some prev ->
  valid_range c prev blocks hds -> addable c b hds ->
  exists c' lo', add_headers c signer blocks = Ok c' /\ client_ok eth c' lo' /\
    last_block_number c' = number b + Z.of_nat (length hds) /\
    (forall hd, last hds = Some hd -> bh_hash hd = Some (best_header_hash c')).
Proof.
  induction blocks as [|[data nodes] blocks IH]; intros c lo signer prev hds b Hok Htr Hb Hprev Hrange Hadd;
    inversion Hrange as [|? ? ? header ? hds' Hd Hv Hrest]; subst.
  { exists c, lo. split_and!; [done|done| |done]. unfold last_block_number. rewrite Hb. simpl. lia. }
  pose proof (valid_range_numbers _ _ _ _ Hrest) as Hnum.
  pose proof Hadd as [[(He & Hdiff & Hlim & Hnew) Hrest']%Forall_cons [H0 Hsum]].
  pose proof (decode_header_hash _ _ Hd) as Hhash.
  assert (0 <= sum_difficulty hds') as Hs0.
  { apply sum_difficulty_nonneg. eapply Forall_impl; [exact Hrest'|]. by intros hd (_ & ? & _). }
  simpl in Hsum.
  destruct (extend_head c lo signer data nodes header prev b (near_keccak256 data)) as (c1 & Hc1 & Hr & Hbest & Hinfo & Hhd);
    try done; [lia|by apply Hnew|].
  destruct (rec_ok _ _ _ _ Hr) as [lo1 Hok1]. pose proof (rec_settings _ _ _ _ Hr) as Hset.
  destruct (IH c1 lo1 signer header hds' (mkHeaderInfo (total_difficulty b + bh_difficulty header)
    (best_header_hash c) (number b + 1))) as (c' & lo' & Hc' & Hok' & Hlast & Hlb).
  - done.
  - destruct Hset as (_ & _ & _ & _ & _ & _ & ->). done.
  - by rewrite Hbest.
  - by rewrite Hbest.
  - by apply (valid_range_settings c c1).
  - by eapply addable_next.
  - exists c', lo'. cbn [add_headers]. rewrite Hc1. cbn [mbind outcome_bind]. split_and!; [done|done| |].
    + rewrite Hlast. cbn [number length]. lia.
    + intros hd Hl. destruct hds' as [|hd' hds']; [|by apply Hlb].
      simpl in Hl. injection Hl as <-. inversion Hrest; subst. cbn in Hc'. injection Hc' as <-. by rewrite Hbest.
Qed.
End extend.

(** C18: a range of blocks that the relay submits on top of the client's head, each
    one valid on top of the one before, is accepted in full: every call of
    [add_block_header] succeeds, the last header is the new head and the last
    block number has grown by the number of blocks. *)
Theorem relayed_range_accepted `{EthLibs} (eth : BlockHeader -> Prop) (c : EthClient) (signer : string)
    (blocks : list (list byte * list DoubleNodeWithMerkleProof)) (hds : list BlockHeader)
    (prev : BlockHeader) (b : HeaderInfo) :
  collision_free eth -> client_reach eth c ->
  infos c !! best_header_hash c = Some b -> headers c !! best_header_hash c = Some prev ->
  valid_range c prev blocks hds -> addable eth c b hds ->
  exists c', add_headers c signer blocks = Ok c' /\
    last_block_number c' = last_block_number c + Z.of_nat (length blocks) /\
    (forall hd, last hds = Some hd -> bh_hash hd = Some (best_header_hash c')).
Proof.
  intros Hfree Hr Hb Hprev Hrange Hadd. destruct (client_reach_ok _ _ Hfree Hr) as [[lo Hok] Htr].
  destruct (add_headers_ok eth Hfree blocks c lo signer prev hds b) as (c' & lo' & Hc' & _ & Hl & Hlast); try done.
  exists c'. split_and!; [done| |done]. rewrite Hl. unfold last_block_number. rewrite Hb. simpl. f_equal.
  clear -Hrange. induction Hrange; simpl; lia.
Qed.

(** The header with another difficulty. *)
Definition with_difficulty (d : Z) (h : BlockHeader) : BlockHeader :=
  mkBlockHeader (bh_parent_hash h) (bh_uncles_hash h) (bh_author h) (bh_state_root h)
    (bh_transactions_root h) (bh_receipts_root h) (bh_log_bloom h) d (bh_number h) (bh_gas_limit h)
    (bh_gas_used h) (bh_timestamp h) (bh_extra_data h) (bh_mix_hash h) (bh_nonce h) (bh_hash h)
    (bh_partial_hash h).

(** The difficulty of a new header is not checked against its parent's: the
    check compares the header's difficulty with itself, which always holds from
    100 on, so that the verification has the same result whatever difficulty the
    parent has. *)
Theorem difficulty_not_checked `{EthLibs} (c : EthClient) (header prev : BlockHeader)
    (nodes : list DoubleNodeWithMerkleProof) (d : Z) :
  verify_header c header (with_difficulty d prev) nodes = verify_header c header prev nodes /\
  (100 <= bh_difficulty header -> bh_difficulty header * 101 < 2 ^ 256 -> difficulty_check header = Ok true).
Proof.
  split; [done|]. intros Hlo Hhi. unfold difficulty_check, u256_mul. rewrite !checked_run by lia.
  cbn [mbind outcome_bind]. unfold and_then. cbn [mbind outcome_bind].
  rewrite (proj2 (Z.ltb_lt (bh_difficulty header) _)) by (apply Z.lt_le_trans with (bh_difficulty header + 1); [lia|]; apply Z.div_le_lower_bound; lia).
  f_equal. apply Z.ltb_lt. apply Z.div_lt_upper_bound; lia.
Qed.

(** ** Witnesses *)

(** Headers of five bytes: number, branch and difficulty, and the number and
    branch of the parent; the hash is made of the number and the branch.  The
    receipts root is the hash of nodes that begin with [xff; x00], leaves with the
    path of receipt 0 and a value after these bytes. *)
Definition toy_header_hash (number branch : byte) : list byte := [number; branch; x01] ++ replicate 29 x00.
Definition byte_at (d : list byte) (i : nat) : byte := default x00 (d !! i).
#[local] Instance toy_eth_libs : EthLibs := {|
  near_sha256 bs := take 32 (bs ++ replicate 32 x00);
  near_keccak256 d := toy_header_hash (byte_at d 0) (byte_at d 1);
  rlp_hash_at n d i := Ok
    (if decide (i = 0%nat) then take n (toy_header_hash (byte_at d 3) (byte_at d 4))
     else if decide (i = 5%nat) then toy_header_hash xff x00 else replicate n x00);
  rlp_vec_at d i := Ok
    (if decide (i = 0%nat) then [x20; x80] else if decide (i = 1%nat) then drop 2 d else []);
  rlp_uint_at bits d i := Ok
    (if decide (i = 7%nat) then Z_of_byte (byte_at d 2)
     else if decide (i = 8%nat) then Z_of_byte (byte_at d 0)
     else if decide (i = 9%nat) then 5000000
     else if decide (i = 11%nat) then Z_of_byte (byte_at d 0) * 15 else 0);
  rlp_stream items := [];
  cross_boundary d := 2 ^ 256;
  get_full_size e := e;
  hashimoto_with_hasher S h n size lookup s := Ok ((replicate 32 x00, replicate 32 x00), s)
|}.

(** Block 5, and on it a branch of two blocks and a heavier block. *)
Definition toy_data : list (list byte) :=
  [ [x05; x00; x09; x04; x00]; [x06; x00; x03; x05; x00]; [x07; x00; x03; x06; x00];
    [x06; x01; x09; x05; x00] ].
Definition toy_header (i : nat) : BlockHeader :=
  match decode_header (default [] (toy_data !! i)) with Ok h => h | _ => with_difficulty 0 (mkBlockHeader [] [] [] [] [] [] [] 0 0 0 0 0 [] [] [] None None) end.
Definition toy_eth_headers (h : BlockHeader) : Prop := h ∈ map toy_header (seq 0 4).

Lemma toy_header_cases h : toy_eth_headers h ->
  h = toy_header 0 \/ h = toy_header 1 \/ h = toy_header 2 \/ h = toy_header 3.
Proof. unfold toy_eth_headers. intros Hin. cbn [map seq] in Hin. rewrite !elem_of_cons, elem_of_nil in Hin. tauto. Qed.

Lemma toy_collision_free : collision_free toy_eth_headers.
Proof.
  split.
  - intros h1 h2 [->|[->|[->| ->]]]%toy_header_cases [->|[->|[->| ->]]]%toy_header_cases; vm_compute; congruence.
  - intros h [->|[->|[->| ->]]]%toy_header_cases; vm_compute; (split; congruence).
Qed.

Definition empty_client : EthClient := mkEthClient false 0 [] [] 0 0 0 ∅ ∅ ∅ ∅ None.
Definition toy_init : outcome EthClient :=
  client_init None false 0 [replicate 16 x00] [x05; x00; x09; x04; x00] 40000 500 1 None.
Definition toy_client_0 : EthClient := from_ok empty_client toy_init.
Lemma toy_reach_0 : client_reach toy_eth_headers toy_client_0.
Proof.
  apply (reach_init _ false 0 [replicate 16 x00] [x05; x00; x09; x04; x00] (toy_header 0) 40000 500 1).
  - vm_compute. reflexivity.
  - unfold toy_eth_headers. cbn [map seq]. by left.
  - vm_compute. congruence.
  - lia.
  - apply (from_ok_spec empty_client toy_init). vm_compute. reflexivity.
Qed.

Definition toy_blocks : list (list byte * list DoubleNodeWithMerkleProof) :=
  [([x06; x00; x03; x05; x00], []); ([x07; x00; x03; x06; x00], [])].
Lemma relayed_range_accepted_witness :
  exists c', add_headers toy_client_0 "relay.near" toy_blocks = Ok c' /\
    last_block_number c' = last_block_number toy_client_0 + Z.of_nat (length toy_blocks) /\
    (forall hd, last [toy_header 1; toy_header 2] = Some hd -> bh_hash hd = Some (best_header_hash c')).
Proof.
  apply (relayed_range_accepted toy_eth_headers toy_client_0 "relay.near" toy_blocks
    [toy_header 1; toy_header 2] (toy_header 0) (mkHeaderInfo 0 zero_hash 5)).
  - apply toy_collision_free.
  - apply toy_reach_0.
  - vm_compute. reflexivity.
  - vm_compute. reflexivity.
  - repeat constructor; vm_compute; reflexivity.
  - split; [|vm_compute; split; congruence].
    repeat constructor; try (unfold toy_eth_headers; cbn [map seq]; set_solver);
      try (vm_compute; reflexivity); intros h; vm_compute; by intros [= <-].
Defined.

(** Blocks 6 and 7 of the first branch, then the heavier block 6. *)
Definition toy_run : outcome EthClient :=
  add_headers toy_client_0 "relay.near" (toy_blocks ++ [([x06; x01; x09; x05; x00], [])]).
Definition toy_client_3 : EthClient := from_ok toy_client_0 toy_run.
Lemma toy_reach_3 : client_reach toy_eth_headers toy_client_3.
Proof.
  assert (toy_run = Ok toy_client_3) as E by (apply from_ok_spec; vm_compute; reflexivity).
  apply (reach_headers toy_eth_headers _ _ "relay.near" _ toy_reach_0 E).
  assert (forall i, (i < 4)%nat -> toy_eth_headers (toy_header i)) as Hin.
  { intros i Hi. apply list_elem_of_fmap. exists i. split; [done|]. apply elem_of_seq. lia. }
  repeat apply Forall_cons_2; [| | |apply Forall_nil_2];
    [exists (toy_header 1)|exists (toy_header 2)|exists (toy_header 3)];
    (split; [vm_compute; reflexivity|apply Hin; lia]).
Qed.

(** The heavier branch is canonical, and the longer one is not. *)
Example toy_reorganised :
  map (block_hash toy_client_3) [5; 6; 7] =
  [Some (toy_header_hash x05 x00); Some (toy_header_hash x06 x01); None].
Proof. vm_compute. reflexivity. Qed.

Lemma canonical_chain_heaviest_witness :
  exists lo b, infos toy_client_3 !! best_header_hash toy_client_3 = Some b /\
    last_block_number toy_client_3 = number b /\
    (forall h i, infos toy_client_3 !! h = Some i -> lo <= number i /\ total_difficulty i <= total_difficulty b) /\
    (forall n, number b < n -> block_hash toy_client_3 n = None) /\
    (forall n, lo <= n <= number b -> exists h, block_hash toy_client_3 n = Some h /\
       ancestor (Z.to_nat (number b - n)) (infos toy_client_3) (best_header_hash toy_client_3) = Some h /\
       is_Some (headers toy_client_3 !! h)).
Proof.
  apply (canonical_chain_heaviest toy_eth_headers toy_client_3); [apply toy_collision_free|apply toy_reach_3].
Defined.

(** *** Below the window

    Two branches on block 5, fed in turn to a client that keeps headers for two
    blocks: when the second becomes heavier, its blocks replace canonical hashes
    down to block 7, whose header is no longer kept, and the hash of block 6 stays
    that of the other branch. *)
Definition branch_header (number parent branch prev difficulty : byte) : list byte :=
  [number; branch; difficulty; parent; prev].
Definition fork_data : list (list byte) :=
  [branch_header x06 x05 x00 x00 x03; branch_header x06 x05 x01 x00 x03;
   branch_header x07 x06 x00 x00 x03; branch_header x07 x06 x01 x01 x03;
   branch_header x08 x07 x00 x00 x03; branch_header x08 x07 x01 x01 x03;
   branch_header x09 x08 x00 x00 x03; branch_header x09 x08 x01 x01 x09].
Definition any_header (h : BlockHeader) : Prop := True.
Definition fork_init : outcome EthClient :=
  client_init None false 0 [replicate 16 x00] [x05; x00; x09; x04; x00] 40000 2 1 None.
Definition fork_run : outcome EthClient :=
  add_headers (from_ok empty_client fork_init) "relay.near" (map (fun d => (d, [])) fork_data).
Definition fork_client : EthClient := from_ok empty_client fork_run.

Definition header_of (data : list byte) : BlockHeader :=
  match decode_header data with Ok h => h | _ => toy_header 0 end.
Lemma header_of_fork : Forall (fun d => decode_header d = Ok (header_of d)) fork_data.
Proof. repeat apply Forall_cons_2; try apply Forall_nil_2; vm_compute; reflexivity. Qed.

Lemma fork_reach : client_reach any_header fork_client.
Proof.
  assert (fork_run = Ok fork_client) as E by (apply from_ok_spec; vm_compute; reflexivity).
  refine (reach_headers any_header _ _ "relay.near" _ _ E _).
  - apply (reach_init _ false 0 [replicate 16 x00] [x05; x00; x09; x04; x00] (toy_header 0) 40000 2 1).
    + vm_compute. reflexivity.
    + exact I.
    + vm_compute. congruence.
    + lia.
    + apply (from_ok_spec empty_client fork_init). vm_compute. reflexivity.
  - apply Forall_fmap. eapply Forall_impl; [apply header_of_fork|]. intros d Hd. exists (header_of d). exact (conj Hd I).
Qed.

(** The client gives block 6 of the first branch as safe, although the best header
    is of the second: block 7 of the canonical chain has another parent. *)
Lemma stale_canonical_hash :
  client_reach any_header fork_client /\ best_header_hash fork_client = toy_header_hash x09 x01 /\
  block_hash fork_client 7 = Some (toy_header_hash x07 x01) /\
  bh_hash (header_of (branch_header x07 x06 x01 x01 x03)) = Some (toy_header_hash x07 x01) /\
  bh_parent_hash (header_of (branch_header x07 x06 x01 x01 x03)) = toy_header_hash x06 x01 /\
  block_hash_safe fork_client 6 = Ok (Some (toy_header_hash x06 x00)).
Proof. split; [apply fork_reach|]. split_and!; vm_compute; reflexivity. Qed.

Lemma safe_hash_confirmed_witness :
  exists k, 1 <= Z.of_nat k /\
    ancestor k (infos toy_client_3) (best_header_hash toy_client_3) = Some (toy_header_hash x05 x00).
Proof.
  apply (safe_hash_confirmed toy_eth_headers toy_client_3 5 (toy_header_hash x05 x00)).
  - apply toy_collision_free.
  - apply toy_reach_3.
  - vm_compute. congruence.
  - vm_compute. reflexivity.
  - vm_compute. by eexists.
Defined.
