(* ===== verification/EthProver.v ===== *)
(** * The contract [EthProver]

    [contracts/near/eth-prover/src/lib.rs] and the log entries and receipts of
    [contracts/near/eth-types/src/lib.rs]: the proof that an Ethereum block has a
    log entry.  A panic is a thrown error.  A call that schedules others returns
    a promise: the number to ask the client for and the hash to compare its
    answer with.  Bytes of keys and nibbles are integers below 256. *)

From Stdlib Require Import Strings.Byte.
From stdpp Require Import base list strings gmap.
From Stdlib Require Import ZArith Lia.
From S2P Require Import Prelude Js EthClient.
Local Open Scope Z_scope.

(** The parts of the crate [rlp] that lists of items need: the number of items,
    and item [i] as a boolean, as a list of hashes or as a list of raw items; and
    the encoding of a [u64]. *)
Class RlpLists := {
  rlp_count : list byte -> nat;
  rlp_bool_at : list byte -> nat -> outcome bool;
  rlp_hashes_at : list byte -> nat -> outcome (list (list byte));
  rlp_items_at : list byte -> nat -> outcome (list (list byte));
  rlp_encode_u64 : Z -> list byte
}.

Record LogEntry := mkLogEntry {
  le_address : list byte;
  le_topics : list (list byte);
  le_data : list byte
}.
Record Receipt := mkReceipt {
  rc_status : bool;
  rc_gas_used : Z;
  rc_log_bloom : list byte;
  rc_logs : list LogEntry
}.
#[export] Instance LogEntry_eq_dec : EqDecision LogEntry.
Proof. solve_decision. Defined.

(** A value, or a promise of [block_hash_safe(number)] and then
    [on_block_hash(hash)]. *)
Inductive promise_or_value :=
| PValue (b : bool)
| PBlockHash (number : Z) (hash : list byte).

Section eth_prover.
Context `{EthLibs} `{RlpLists}.

Definition decode_log (rlp : list byte) : outcome LogEntry :=
  address ← rlp_hash_at 20 rlp 0;
  topics ← rlp_hashes_at rlp 1;
  data ← rlp_vec_at rlp 2;
  Ok (mkLogEntry address topics data).

Definition decode_receipt (rlp : list byte) : outcome Receipt :=
  status ← rlp_bool_at rlp 0;
  gas_used ← rlp_uint_at 256 rlp 1;
  log_bloom ← rlp_hash_at 256 rlp 2;
  items ← rlp_items_at rlp 3;
  logs ← mapM_out decode_log items;
  Ok (mkReceipt status gas_used log_bloom logs).

(** ** Nibbles *)

Definition extract_nibbles (a : list byte) : list Z :=
  flat_map (fun b => [Z.shiftr (Z_of_byte b) 4; Z.land (Z_of_byte b) 15]) a.

(** The pairs of elements at even and odd places, without a last single one. *)
Fixpoint concat_nibbles (a : list Z) : list Z :=
  match a with
  | x :: y :: a => Z.lor (Z.shiftl x 4 mod 256) y :: concat_nibbles a
  | _ => []
  end.

(** [H256::from(Vec<u8>)]: padded with zeros on the left; longer vectors panic. *)
Definition to_h256 (item : list byte) : outcome (list byte) :=
  if (length item <=? 32)%nat then Ok (replicate (32 - length item) x00 ++ item)
  else panic "attempt to subtract with overflow".

(** ** Slices *)

Definition at_index {A} (l : list A) (i : nat) : outcome A := unwrap (l !! i) "index out of bounds".
Definition slice_from {A} (l : list A) (i : nat) : outcome (list A) :=
  if (i <=? length l)%nat then Ok (drop i l) else panic "range start index out of range".
Definition slice_range {A} (l : list A) (i j : nat) : outcome (list A) :=
  if (j <=? length l)%nat then Ok (take (j - i) (drop i l)) else panic "range end index out of range".

(** ** The trie proof *)

(** The check of the node against the expected root. *)
Definition check_node (expected_root node : list byte) (key_index : nat) : outcome unit :=
  if (key_index =? 0)%nat then assert (bool_decide (near_keccak256 node = expected_root)) "assertion failed"
  else if (length node <? 32)%nat then assert (bool_decide (node = expected_root)) "assertion failed"
  else assert (bool_decide (near_keccak256 node = expected_root)) "assertion failed".

Definition u8s (bs : list byte) : list Z := map Z_of_byte bs.

(** [_verify_trie_proof], on the part of the proof from [proof_index] on. *)
Fixpoint _verify_trie_proof (expected_root : list byte) (key : list Z) (proof : list (list byte))
    (key_index : nat) (expected_value : list byte) : outcome bool :=
  match proof with
  | [] => panic "index out of bounds"
  | node :: proof =>
      check_node expected_root node key_index;;
      let no := Ok (length expected_value =? 0)%nat in
      if (rlp_count node =? 17)%nat then
        if (key_index =? length key)%nat then
          v ← rlp_vec_at node 16;
          if bool_decide (v = expected_value) then Ok true else no
        else if (key_index <? length key)%nat then
          k ← at_index key key_index;
          new_expected_root ← rlp_vec_at node (Z.to_nat k);
          if negb (length new_expected_root =? 0)%nat then
            root ← to_h256 new_expected_root;
            _verify_trie_proof root key proof (key_index + 1) expected_value
          else no
        else panic "This should not be reached if the proof has the correct format"
      else if (rlp_count node =? 2)%nat then
        path ← rlp_vec_at node 0;
        let nibbles := extract_nibbles path in
        prefix ← at_index nibbles 0;
        nibble ← at_index nibbles 1;
        let key_end := drop 2 nibbles in
        if prefix =? 2 then
          rest ← slice_from key key_index;
          if bool_decide (concat_nibbles key_end = rest) then
            v ← rlp_vec_at node 1;
            if bool_decide (expected_value = v) then Ok true else no
          else no
        else if prefix =? 3 then
          k ← at_index key key_index;
          if nibble =? k then
            rest ← slice_from key (key_index + 1);
            if bool_decide (concat_nibbles key_end = rest) then
              v ← rlp_vec_at node 1;
              if bool_decide (expected_value = v) then Ok true else no
            else no
          else no
        else if prefix =? 0 then
          let extension_length := length key_end in
          shared ← slice_range key key_index (key_index + extension_length);
          if bool_decide (concat_nibbles key_end = shared) then
            new_expected_root ← rlp_vec_at node 1;
            root ← to_h256 new_expected_root;
            _verify_trie_proof root key proof (key_index + extension_length) expected_value
          else no
        else if prefix =? 1 then
          let extension_length := (1 + length key_end)%nat in
          k ← at_index key key_index;
          if nibble =? k then
            shared ← slice_range key (key_index + 1) (key_index + extension_length);
            if bool_decide (concat_nibbles key_end = shared) then
              new_expected_root ← rlp_vec_at node 1;
              root ← to_h256 new_expected_root;
              _verify_trie_proof root key proof (key_index + extension_length) expected_value
            else no
          else no
        else panic "This should not be reached if the proof has the correct format"
      else panic "This should not be reached if the proof has the correct format"
  end.

(** The key of the proof: two nibbles per byte, but the byte itself at the place
    before the last node of the proof. *)
Fixpoint actual_key (key : list byte) (proof_len : nat) (acc : list Z) : list Z :=
  match key with
  | [] => acc
  | el :: key =>
      let el := Z_of_byte el in
      actual_key key proof_len
        (if (length acc + 1 =? proof_len)%nat then acc ++ [el] else acc ++ [el / 16; el mod 16])
  end.

Definition verify_trie_proof (expected_root key : list byte) (proof : list (list byte))
    (expected_value : list byte) : outcome bool :=
  _verify_trie_proof expected_root (actual_key key (length proof) []) proof 0 expected_value.

(** ** The methods *)

Definition prover_init (state : option string) (bridge_smart_contract : string) : outcome string :=
  assert (negb (bool_decide (is_Some state))) "The contract is already initialized";;
  Ok bridge_smart_contract.

(** [on_block_hash], called by [predecessor]. *)
Definition on_block_hash (current predecessor : string) (block_hash : option (list byte))
    (expected_block_hash : list byte) : outcome bool :=
  assert (String.eqb current predecessor) "assertion failed";;
  Ok (bool_decide (block_hash = Some expected_block_hash)).

Definition assert_ethclient_hash (block_number : Z) (expected_block_hash : list byte) : promise_or_value :=
  PBlockHash block_number expected_block_hash.

Definition verify_log_entry (log_index : Z) (log_entry_data : list byte) (receipt_index : Z)
    (receipt_data header_data : list byte) (proof : list (list byte)) (skip_bridge_call : bool)
    : outcome promise_or_value :=
  log_entry ← decode_log log_entry_data;
  receipt ← decode_receipt receipt_data;
  header ← decode_header header_data;
  log ← at_index (rc_logs receipt) (Z.to_nat (as_usize log_index));
  assert (bool_decide (log = log_entry)) "assertion failed";;
  verification_result ← verify_trie_proof (bh_receipts_root header) (rlp_encode_u64 receipt_index) proof
                          receipt_data;
  if verification_result && skip_bridge_call then Ok (PValue true)
  else if negb verification_result then Ok (PValue false)
  else hash ← unwrap (bh_hash header) "called `Option::unwrap()` on a `None` value";
       Ok (PBlockHash (bh_number header) hash).

(** What the promise comes to: the client's answer, compared by the callback
    that the prover makes to itself. *)
Definition resolve (self : string) (client : EthClient) (p : promise_or_value) : outcome bool :=
  match p with
  | PValue b => Ok b
  | PBlockHash number hash =>
      answer ← block_hash_safe client number;
      on_block_hash self self answer hash
  end.
End eth_prover.
