(* ===== verification/EthProverTheorems.v ===== *)
(** * Theorems about the contract [EthProver]

    The reference is a Merkle Patricia trie given by its nodes: what a root holds
    at a path of nibbles. *)

From Stdlib Require Import Strings.Byte.
From stdpp Require Import base list strings gmap.
From Stdlib Require Import ZArith Lia.
From S2P Require Import Prelude Js EthClient EthClientSpec EthClientInv EthClientTheorems EthProver.
Local Open Scope Z_scope.

(** A key spells a path: every element is a nibble of it, or two of them packed
    into a byte. *)
Inductive spells : list Z -> list Z -> Prop :=
| spells_nil : spells [] []
| spells_nibble n path key : spells path key -> spells (n :: path) (n :: key)
| spells_byte x y path key :
    spells path key -> spells (x :: y :: path) (Z.lor (Z.shiftl x 4 mod 256) y :: key).

Lemma spells_app p k p' k' : spells p k -> spells p' k' -> spells (p ++ p') (k ++ k').
Proof. induction 1; simpl; intros; [done|constructor; auto|constructor; auto]. Qed.

Lemma even_ind (P : list Z -> Prop) :
  P [] -> (forall x y l, P l -> P (x :: y :: l)) -> forall l, Nat.even (length l) = true -> P l.
Proof.
  intros H0 H2 l. remember (length l) as n eqn:Hn. revert l Hn.
  induction n as [n IH] using lt_wf_ind; intros [|x [|y l]] -> Hl; simpl in *; [done|done|].
  apply H2, (IH (length l)); [lia|done|done].
Qed.

Lemma spells_concat l : Nat.even (length l) = true -> spells l (concat_nibbles l).
Proof. revert l. apply even_ind; [constructor|]. intros x y l IH. simpl. by constructor. Qed.
Lemma length_concat_nibbles l : Nat.even (length l) = true ->
  (length (concat_nibbles l) + length (concat_nibbles l) = length l)%nat.
Proof. revert l. apply even_ind; [done|]. intros x y l IH. simpl. lia. Qed.

Lemma extract_nibbles_even bs : Nat.even (length (extract_nibbles bs)) = true.
Proof. induction bs as [|b bs IH]; [done|]. cbn. exact IH. Qed.
Lemma key_end_even bs : Nat.even (length (drop 2 (extract_nibbles bs))) = true.
Proof. destruct bs as [|b bs]; [done|]. cbn. apply extract_nibbles_even. Qed.

Section trie.
Context `{EthLibs} `{RlpLists}.

Inductive trie_holds (v : list byte) : list byte -> list Z -> Prop :=
| holds_branch_value root node :
    near_keccak256 node = root -> rlp_count node = 17%nat -> rlp_vec_at node 16 = Ok v ->
    trie_holds v root []
| holds_branch root node n child root' path :
    near_keccak256 node = root -> rlp_count node = 17%nat -> rlp_vec_at node (Z.to_nat n) = Ok child ->
    to_h256 child = Ok root' -> trie_holds v root' path -> trie_holds v root (n :: path)
| holds_leaf root node hp path :
    near_keccak256 node = root -> rlp_count node = 2%nat -> rlp_vec_at node 0 = Ok hp ->
    (extract_nibbles hp !! 0%nat = Some 2 /\ path = drop 2 (extract_nibbles hp) \/
     extract_nibbles hp !! 0%nat = Some 3 /\ path = drop 1 (extract_nibbles hp)) ->
    rlp_vec_at node 1 = Ok v -> trie_holds v root path
| holds_extension root node hp child root' shared path :
    near_keccak256 node = root -> rlp_count node = 2%nat -> rlp_vec_at node 0 = Ok hp ->
    (extract_nibbles hp !! 0%nat = Some 0 /\ shared = drop 2 (extract_nibbles hp) \/
     extract_nibbles hp !! 0%nat = Some 1 /\ shared = drop 1 (extract_nibbles hp)) ->
    rlp_vec_at node 1 = Ok child -> to_h256 child = Ok root' -> trie_holds v root' path ->
    trie_holds v root (shared ++ path).

Lemma to_h256_length item root : to_h256 item = Ok root -> length root = 32%nat.
Proof.
  unfold to_h256. destruct (Nat.leb_spec (length item) 32); [|done]. intros [= <-].
  rewrite length_app, length_replicate. lia.
Qed.

(** A node that passes the check has the hash of the root; short nodes never do. *)
Lemma check_node_ok root node ki u : check_node root node ki = Ok u ->
  (ki <> 0%nat -> length root = 32%nat) -> near_keccak256 node = root.
Proof.
  unfold check_node. destruct (Nat.eqb_spec ki 0).
  - by intros Hb%assert_ok%bool_decide_eq_true.
  - destruct (Nat.ltb_spec (length node) 32).
    + intros Hb%assert_ok%bool_decide_eq_true Hlen. subst. specialize (Hlen ltac:(done)). lia.
    + by intros Hb%assert_ok%bool_decide_eq_true.
Qed.

Lemma at_index_ok {A} (l : list A) i x : at_index l i = Ok x -> l !! i = Some x.
Proof. apply unwrap_ok. Qed.
Lemma slice_from_ok {A} (l : list A) i s : slice_from l i = Ok s -> s = drop i l.
Proof. unfold slice_from. destruct (_ <=? _)%nat; [by intros [= <-]|done]. Qed.
Lemma slice_range_ok {A} (l : list A) i j s : slice_range l i j = Ok s ->
  s = take (j - i) (drop i l) /\ (j <= length l)%nat.
Proof. unfold slice_range. destruct (Nat.leb_spec j (length l)); [by intros [= <-]|done]. Qed.

Lemma drop_at {A} (l : list A) i x : l !! i = Some x -> drop i l = x :: drop (S i) l.
Proof. apply drop_S. Qed.

(** The nibbles after the first, when the second is known. *)
Lemma drop_1_nibbles (l : list Z) n : l !! 1%nat = Some n -> drop 1 l = n :: drop 2 l.
Proof. apply drop_at. Qed.

(** What the rest of a proof shows of the rest of a key. *)
Definition rest_sound (v : list byte) (proof : list (list byte)) : Prop := forall root key ki,
  (ki <> 0%nat -> length root = 32%nat) -> _verify_trie_proof root key proof ki v = Ok true ->
  exists path, trie_holds v root path /\ spells path (drop ki key).

Lemma value_not_empty (v : list byte) : v <> [] -> Ok (length v =? 0)%nat <> Ok true.
Proof. intros Hv [= Hz%Nat.eqb_eq]. by apply length_zero_iff_nil in Hz. Qed.

Lemma branch_sound v node proof root key ki : v <> [] -> rest_sound v proof ->
  near_keccak256 node = root -> rlp_count node = 17%nat ->
  _verify_trie_proof root key (node :: proof) ki v = Ok true ->
  exists path, trie_holds v root path /\ spells path (drop ki key).
Proof.
  intros Hv IH Hck Hcount Hrun. pose proof (value_not_empty _ Hv) as Hno.
  cbn [_verify_trie_proof] in Hrun. apply obind_ok in Hrun as (u & _ & Hrun). rewrite Hcount in Hrun.
  cbn [Nat.eqb] in Hrun. cbn zeta in Hrun.
  destruct (Nat.eqb_spec ki (length key)) as [->|Hne].
  - apply obind_ok in Hrun as (v' & Hv' & Hrun). destruct (bool_decide_reflect (v' = v)) as [->|]; [|done].
    exists []. split; [by eapply holds_branch_value|]. rewrite drop_all. constructor.
  - destruct (ki <? length key)%nat; [|done].
    apply obind_ok in Hrun as (k & Hk%at_index_ok & Hrun). apply obind_ok in Hrun as (child & Hc & Hrun).
    destruct (length child =? 0)%nat; [done|]. simpl in Hrun. apply obind_ok in Hrun as (r' & Hr' & Hrun).
    destruct (IH r' key (ki + 1)%nat) as (path & Hp & Hs); [intros _; by eapply to_h256_length|done|].
    exists (k :: path). split; [by eapply holds_branch|]. rewrite (drop_at _ _ _ Hk), <- Nat.add_1_r. by constructor.
Qed.

Lemma pair_sound v node proof root key ki : v <> [] -> rest_sound v proof ->
  near_keccak256 node = root -> rlp_count node = 2%nat ->
  _verify_trie_proof root key (node :: proof) ki v = Ok true ->
  exists path, trie_holds v root path /\ spells path (drop ki key).
Proof.
  intros Hv IH Hck Hcount Hrun. pose proof (value_not_empty _ Hv) as Hno.
  cbn [_verify_trie_proof] in Hrun. apply obind_ok in Hrun as (u & _ & Hrun). rewrite Hcount in Hrun.
  cbn [Nat.eqb] in Hrun. cbn zeta in Hrun.
  apply obind_ok in Hrun as (hp & Hhp & Hrun). apply obind_ok in Hrun as (prefix & Hpre%at_index_ok & Hrun).
  apply obind_ok in Hrun as (nib & Hnib%at_index_ok & Hrun). cbn zeta in Hrun.
  pose proof (spells_concat _ (key_end_even hp)) as Hsp. pose proof (drop_1_nibbles _ _ Hnib) as Hd1.
  set (key_end := drop 2 (extract_nibbles hp)) in *.
  destruct (Z.eqb_spec prefix 2) as [->|_].
  { apply obind_ok in Hrun as (rest & ->%slice_from_ok & Hrun). case_bool_decide as Hc; [|done].
    apply obind_ok in Hrun as (v' & Hv' & Hrun). case_bool_decide; [subst v'|done].
    exists key_end. split; [eapply holds_leaf; eauto|]. by rewrite <- Hc. }
  destruct (Z.eqb_spec prefix 3) as [->|_].
  { apply obind_ok in Hrun as (k & Hk%at_index_ok & Hrun). destruct (Z.eqb_spec nib k) as [->|]; [|done].
    apply obind_ok in Hrun as (rest & ->%slice_from_ok & Hrun). case_bool_decide as Hc; [|done].
    apply obind_ok in Hrun as (v' & Hv' & Hrun). case_bool_decide; [subst v'|done].
    exists (k :: key_end). split; [eapply holds_leaf; eauto|].
    rewrite (drop_at _ _ _ Hk), <- Nat.add_1_r, <- Hc. by constructor. }
  destruct (Z.eqb_spec prefix 0) as [->|_].
  { apply obind_ok in Hrun as (shared & [-> Hlen]%slice_range_ok & Hrun). case_bool_decide as Hc; [|done].
    apply obind_ok in Hrun as (child & Hch & Hrun). apply obind_ok in Hrun as (r' & Hr' & Hrun).
    destruct (IH r' key (ki + length key_end)%nat) as (path & Hp & Hs); [intros _; by eapply to_h256_length|done|].
    exists (key_end ++ path). split; [eapply holds_extension; eauto|].
    rewrite <- (take_drop (length key_end) (drop ki key)), drop_drop.
    apply spells_app; [|done]. rewrite Hc in Hsp. by replace (ki + length key_end - ki)%nat with (length key_end) in Hsp by lia. }
  destruct (Z.eqb_spec prefix 1) as [->|_]; [|done].
  apply obind_ok in Hrun as (k & Hk%at_index_ok & Hrun). destruct (Z.eqb_spec nib k) as [->|]; [|done].
  apply obind_ok in Hrun as (shared & [-> Hlen]%slice_range_ok & Hrun). case_bool_decide as Hc; [|done].
  apply obind_ok in Hrun as (child & Hch & Hrun). apply obind_ok in Hrun as (r' & Hr' & Hrun).
  destruct (IH r' key (ki + S (length key_end))%nat) as (path & Hp & Hs); [intros _; by eapply to_h256_length|done|].
  exists ((k :: key_end) ++ path). split; [eapply holds_extension; eauto|].
  rewrite (drop_at _ _ _ Hk). simpl. constructor.
  rewrite <- (take_drop (length key_end) (drop (S ki) key)), drop_drop.
  apply spells_app.
  - rewrite Hc, Nat.add_1_r in Hsp. by replace (ki + (1 + length key_end) - S ki)%nat with (length key_end) in Hsp by lia.
  - by replace (S ki + length key_end)%nat with (ki + S (length key_end))%nat by lia.
Qed.

Lemma verify_sound v proof : v <> [] -> rest_sound v proof.
Proof.
  intros Hv. induction proof as [|node proof IH]; intros root key ki Hroot Hrun; [done|].
  pose proof Hrun as Hrun'. cbn [_verify_trie_proof] in Hrun'.
  apply obind_ok in Hrun' as (u & Hck & Hrun'). apply check_node_ok in Hck; [|done]. cbn zeta in Hrun'.
  destruct (Nat.eqb_spec (rlp_count node) 17) as [H17|_]; [by eapply branch_sound|].
  destruct (Nat.eqb_spec (rlp_count node) 2) as [H2|]; [by eapply pair_sound|done].
Qed.

(** ** Honest proofs *)

(** The nodes of a proof, from the root down: branches, extensions by one nibble
    and a leaf, none of them embedded in its parent. *)
Inductive honest_path (v : list byte) : list byte -> list Z -> list (list byte) -> Prop :=
| honest_leaf_even node hp path :
    (32 <= length node)%nat -> rlp_count node = 2%nat -> rlp_vec_at node 0 = Ok hp ->
    extract_nibbles hp = 2 :: 0 :: path -> rlp_vec_at node 1 = Ok v ->
    honest_path v (near_keccak256 node) path [node]
| honest_leaf_odd node hp path :
    (32 <= length node)%nat -> rlp_count node = 2%nat -> rlp_vec_at node 0 = Ok hp ->
    extract_nibbles hp = 3 :: path -> rlp_vec_at node 1 = Ok v ->
    honest_path v (near_keccak256 node) path [node]
| honest_branch node n child path proof :
    (32 <= length node)%nat -> rlp_count node = 17%nat -> rlp_vec_at node (Z.to_nat n) = Ok child ->
    length child = 32%nat -> honest_path v child path proof ->
    honest_path v (near_keccak256 node) (n :: path) (node :: proof)
| honest_extension node hp n child path proof :
    (32 <= length node)%nat -> rlp_count node = 2%nat -> rlp_vec_at node 0 = Ok hp ->
    extract_nibbles hp = [1; n] -> rlp_vec_at node 1 = Ok child ->
    length child = 32%nat -> honest_path v child path proof ->
    honest_path v (near_keccak256 node) (n :: path) (node :: proof).

Lemma check_node_run node ki : (32 <= length node)%nat -> check_node (near_keccak256 node) node ki = Ok tt.
Proof.
  intros Hlen. unfold check_node. rewrite (proj2 (Nat.ltb_ge _ _) Hlen), bool_decide_true by done.
  by destruct (ki =? 0)%nat.
Qed.
Lemma to_h256_run item : length item = 32%nat -> to_h256 item = Ok item.
Proof. intros E. unfold to_h256. by rewrite E. Qed.

Lemma verify_branch node n child proof key ki v :
  (32 <= length node)%nat -> rlp_count node = 17%nat -> rlp_vec_at node (Z.to_nat n) = Ok child ->
  length child = 32%nat -> key !! ki = Some n ->
  _verify_trie_proof (near_keccak256 node) key (node :: proof) ki v =
  _verify_trie_proof child key proof (ki + 1) v.
Proof.
  intros Hn Hc Hv Hl Hk. cbn [_verify_trie_proof]. rewrite check_node_run by done. cbn [mbind outcome_bind].
  rewrite Hc. cbn [Nat.eqb]. pose proof (lookup_lt_Some _ _ _ Hk).
  rewrite (proj2 (Nat.eqb_neq ki (length key))), (proj2 (Nat.ltb_lt ki (length key))) by lia.
  unfold at_index. rewrite Hk. cbn [unwrap mbind outcome_bind]. rewrite Hv. cbn [mbind outcome_bind].
  rewrite Hl. cbn [Nat.eqb negb]. by rewrite to_h256_run.
Qed.

Lemma verify_extension node hp n child proof key ki v :
  (32 <= length node)%nat -> rlp_count node = 2%nat -> rlp_vec_at node 0 = Ok hp ->
  extract_nibbles hp = [1; n] -> rlp_vec_at node 1 = Ok child ->
  length child = 32%nat -> key !! ki = Some n ->
  _verify_trie_proof (near_keccak256 node) key (node :: proof) ki v =
  _verify_trie_proof child key proof (ki + 1) v.
Proof.
  intros Hn Hc Hh He Hv Hl Hk. cbn [_verify_trie_proof]. rewrite check_node_run by done. cbn [mbind outcome_bind].
  rewrite Hc. cbn [Nat.eqb]. rewrite Hh. cbn [mbind outcome_bind]. rewrite He. cbn.
  unfold at_index. rewrite Hk. cbn [unwrap mbind outcome_bind]. rewrite Z.eqb_refl.
  unfold slice_range. pose proof (lookup_lt_Some _ _ _ Hk).
  rewrite (proj2 (Nat.leb_le (ki + 1) (length key))), Nat.sub_diag by lia. cbn [take mbind outcome_bind].
  rewrite bool_decide_true, Hv by done. cbn [mbind outcome_bind]. by rewrite to_h256_run.
Qed.

Lemma verify_leaf_even node hp path key ki v :
  (32 <= length node)%nat -> rlp_count node = 2%nat -> rlp_vec_at node 0 = Ok hp ->
  extract_nibbles hp = 2 :: 0 :: path -> rlp_vec_at node 1 = Ok v -> (ki <= length key)%nat ->
  concat_nibbles path = drop ki key -> _verify_trie_proof (near_keccak256 node) key [node] ki v = Ok true.
Proof.
  intros Hn Hc Hh He Hv Hk Hp. cbn [_verify_trie_proof]. rewrite check_node_run by done. cbn [mbind outcome_bind].
  rewrite Hc. cbn [Nat.eqb]. rewrite Hh. cbn [mbind outcome_bind]. rewrite He. cbn [at_index lookup list_lookup unwrap drop mbind outcome_bind Z.eqb Pos.eqb].
  unfold slice_from. rewrite (proj2 (Nat.leb_le _ _) Hk). cbn [mbind outcome_bind].
  rewrite bool_decide_true, Hv by done. cbn [mbind outcome_bind]. by rewrite bool_decide_true.
Qed.

Lemma verify_leaf_odd node hp n key ki v :
  (32 <= length node)%nat -> rlp_count node = 2%nat -> rlp_vec_at node 0 = Ok hp ->
  extract_nibbles hp = [3; n] -> rlp_vec_at node 1 = Ok v -> key !! ki = Some n -> length key = S ki ->
  _verify_trie_proof (near_keccak256 node) key [node] ki v = Ok true.
Proof.
  intros Hn Hc Hh He Hv Hk Hl. cbn [_verify_trie_proof]. rewrite check_node_run by done. cbn [mbind outcome_bind].
  rewrite Hc. cbn [Nat.eqb]. rewrite Hh. cbn [mbind outcome_bind]. rewrite He. cbn.
  unfold at_index. rewrite Hk. cbn [unwrap mbind outcome_bind]. rewrite Z.eqb_refl.
  unfold slice_from. rewrite (proj2 (Nat.leb_le (ki + 1) (length key))) by lia. cbn [mbind outcome_bind].
  rewrite bool_decide_true by (rewrite drop_ge; [done|lia]). rewrite Hv. cbn [mbind outcome_bind]. by rewrite bool_decide_true.
Qed.

(** The last nibble of a key, or its end. *)
Lemma verify_end v root path proof : honest_path v root path proof -> forall key ki,
  (length path <= 1)%nat -> drop ki key = path -> (ki <= length key)%nat ->
  _verify_trie_proof root key proof ki v = Ok true.
Proof.
  induction 1 as [node hp path Hn Hc Hh He Hv|node hp path Hn Hc Hh He Hv|node n child path proof Hn Hc Hv Hl _ IH
    |node hp n child path proof Hn Hc Hh He Hv Hl _ IH]; intros key ki Hlen Hd Hki;
    pose proof (f_equal length Hd) as Hdl; rewrite length_drop in Hdl.
  - pose proof (extract_nibbles_even hp) as Hev. rewrite He in Hev. cbn in Hev.
    assert (path = []) as Hp. { destruct path as [|x [|]]; [done|done|simpl in Hlen; lia]. }
    rewrite Hp in *. by eapply verify_leaf_even.
  - pose proof (extract_nibbles_even hp) as Hev. rewrite He in Hev.
    destruct path as [|n [|]]; [done| |simpl in Hlen; lia]. simpl in Hdl.
    eapply verify_leaf_odd; eauto; [|lia].
    rewrite <- (Nat.add_0_r ki), <- lookup_drop, Hd. done.
  - assert (key !! ki = Some n) as Hk by (rewrite <- (Nat.add_0_r ki), <- lookup_drop, Hd; done).
    rewrite (verify_branch _ n child) by done. simpl in *. apply IH; [lia| |lia].
    by rewrite (drop_at _ _ _ Hk), <- Nat.add_1_r in Hd; injection Hd.
  - assert (key !! ki = Some n) as Hk by (rewrite <- (Nat.add_0_r ki), <- lookup_drop, Hd; done).
    rewrite (verify_extension _ hp n child) by done. simpl in *. apply IH; [lia| |lia].
    by rewrite (drop_at _ _ _ Hk), <- Nat.add_1_r in Hd; injection Hd.
Qed.

Lemma verify_honest v root (b : byte) proof :
  honest_path v root [Z_of_byte b / 16; Z_of_byte b mod 16] proof ->
  verify_trie_proof root [b] proof v = Ok true.
Proof.
  intros Hp. unfold verify_trie_proof. cbn [actual_key length].
  inversion Hp as [node hp path Hn Hc Hh He Hv|node hp path Hn Hc Hh He Hv|node n child path pf Hn Hc Hv Hl Hrest
    |node hp n child path pf Hn Hc Hh He Hv Hl Hrest]; subst.
  - eapply verify_leaf_even; eauto; [cbn; lia|]. cbn. f_equal. destruct b; reflexivity.
  - pose proof (extract_nibbles_even hp) as Hev. by rewrite He in Hev.
  - assert (length pf <> 0%nat) as Hpf by (inversion Hrest; done).
    rewrite (proj2 (Nat.eqb_neq _ _)) by (simpl; lia). simpl app. cbn [actual_key].
    rewrite (verify_branch _ (Z_of_byte b / 16) child) by done. eapply verify_end; eauto; simpl; lia.
  - assert (length pf <> 0%nat) as Hpf by (inversion Hrest; done).
    rewrite (proj2 (Nat.eqb_neq _ _)) by (simpl; lia). simpl app. cbn [actual_key].
    rewrite (verify_extension _ hp (Z_of_byte b / 16) child) by done. eapply verify_end; eauto; simpl; lia.
Qed.
End trie.

(** ** Theorems *)

(** A log entry that is proved to belong to a header: it is in a receipt, and the
    receipts trie of the header holds the receipt. *)
Definition in_header `{EthLibs} `{RlpLists} (header : BlockHeader) (log_index : Z) (log_entry_data : list byte)
    (receipt_index : Z) (receipt_data header_data : list byte) (proof : list (list byte)) : Prop :=
  exists log receipt path,
    decode_log log_entry_data = Ok log /\ decode_receipt receipt_data = Ok receipt /\
    decode_header header_data = Ok header /\
    rc_logs receipt !! Z.to_nat (as_usize log_index) = Some log /\
    trie_holds receipt_data (bh_receipts_root header) path /\
    spells path (actual_key (rlp_encode_u64 receipt_index) (length proof) []).
(** A log entry of a header whose hash the client gives as safe. *)
Definition verified_log `{EthLibs} `{RlpLists} (client : EthClient) (log_index : Z) (log_entry_data : list byte)
    (receipt_index : Z) (receipt_data header_data : list byte) (proof : list (list byte)) : Prop :=
  exists header hash,
    in_header header log_index log_entry_data receipt_index receipt_data header_data proof /\
    bh_hash header = Some hash /\ block_hash_safe client (bh_number header) = Ok (Some hash).

Lemma verify_log_entry_sound `{EthLibs} `{RlpLists} self client log_index log_entry_data receipt_index
    receipt_data header_data proof skip p :
  receipt_data <> [] ->
  verify_log_entry log_index log_entry_data receipt_index receipt_data header_data proof skip = Ok p ->
  resolve self client p = Ok true ->
  exists header, in_header header log_index log_entry_data receipt_index receipt_data header_data proof /\
    (skip = false -> exists hash,
       bh_hash header = Some hash /\ block_hash_safe client (bh_number header) = Ok (Some hash)).
Proof.
  intros Hne Hrun Hres. unfold verify_log_entry in Hrun.
  apply obind_ok in Hrun as (log & Hlog & Hrun). apply obind_ok in Hrun as (receipt & Hrec & Hrun).
  apply obind_ok in Hrun as (header & Hhd & Hrun). apply obind_ok in Hrun as (log' & Hat%at_index_ok & Hrun).
  apply obind_ok in Hrun as (u & ->%assert_ok%bool_decide_eq_true & Hrun).
  apply obind_ok in Hrun as (vr & Hvr & Hrun). destruct vr; simpl in Hrun; [|injection Hrun as <-; done].
  exists header. split.
  { destruct (verify_sound _ _ Hne _ _ 0%nat ltac:(done) Hvr) as (path & Hp & Hs). by exists log, receipt, path. }
  intros ->. destruct (bh_hash header) as [hash|] eqn:Eh; [|done]. simpl in Hrun. injection Hrun as <-. simpl in Hres.
  apply obind_ok in Hres as (answer & Hans & Hres). unfold on_block_hash in Hres.
  apply obind_ok in Hres as (u' & _ & Hres). injection Hres as ->%bool_decide_eq_true. by exists hash.
Qed.

Lemma block_hash_safe_ok client n h : block_hash_safe client n = Ok (Some h) ->
  block_hash client n = Some h /\ n + num_confirmations client <= last_block_number client.
Proof.
  unfold block_hash_safe. destruct (block_hash client n); [|done]. intros Hs. rust_step Hs.
  destruct (Z.ltb_spec (last_block_number client) (n + num_confirmations client)); [done|].
  by injection Hs as ->.
Qed.

(** C6: when the prover answers that a log entry is proved, the entry is in the
    receipt at its index and the receipts trie of the header holds the receipt at
    the path that the receipt's index spells.  Unless the caller skipped the call
    of the client, the header's hash is also the one that the client has for its
    number, which is at least [num_confirmations] below the last block number;
    and when the client, without a trusted signer, still keeps the header, it is
    an ancestor of the heaviest one, at least that many blocks below it. *)
Theorem verified_log_confirmed `{EthLibs} `{RlpLists} (eth : BlockHeader -> Prop) (self : string)
    (client : EthClient) (log_index : Z) (log_entry_data : list byte) (receipt_index : Z)
    (receipt_data header_data : list byte) (proof : list (list byte)) (skip_bridge_call : bool) (p : promise_or_value) :
  collision_free eth -> client_reach eth client -> 0 <= num_confirmations client -> receipt_data <> [] ->
  verify_log_entry log_index log_entry_data receipt_index receipt_data header_data proof skip_bridge_call = Ok p ->
  resolve self client p = Ok true ->
  exists header, in_header header log_index log_entry_data receipt_index receipt_data header_data proof /\
    (skip_bridge_call = false -> exists hash, bh_hash header = Some hash /\
       block_hash client (bh_number header) = Some hash /\
       bh_number header + num_confirmations client <= last_block_number client /\
       (is_Some (infos client !! hash) -> exists k, num_confirmations client <= Z.of_nat k /\
          ancestor k (infos client) (best_header_hash client) = Some hash)).
Proof.
  intros Hfree Hr Hconf Hne Hrun Hres.
  destruct (verify_log_entry_sound _ _ _ _ _ _ _ _ _ _ Hne Hrun Hres) as (header & Hin & Hclient).
  exists header. split; [done|]. intros Hskip. destruct (Hclient Hskip) as (hash & Hhash & Hsafe).
  destruct (block_hash_safe_ok _ _ _ Hsafe) as [Hh Hle]. exists hash. split_and!; try done.
  intros Hi. by apply (safe_hash_ancestor eth client (bh_number header)).
Qed.

(** An honest proof for a receipt index of one byte is accepted: the nodes
    from the receipts root down to the leaf, through branches and extensions by
    one nibble, whose path is the two nibbles of the key. *)
Theorem honest_receipt_accepted `{EthLibs} `{RlpLists} (root : list byte) (receipt_index : Z) (b : byte)
    (receipt_data : list byte) (proof : list (list byte)) :
  rlp_encode_u64 receipt_index = [b] ->
  honest_path receipt_data root [Z_of_byte b / 16; Z_of_byte b mod 16] proof ->
  verify_trie_proof root (rlp_encode_u64 receipt_index) proof receipt_data = Ok true.
Proof. intros ->. apply verify_honest. Qed.

(** C36: a proof with an extension node that shares more nibbles than the one in
    its first byte is never accepted: the nibbles are packed two to a byte and
    compared with as many elements of the key as there are nibbles. *)
Theorem long_extension_rejected `{EthLibs} `{RlpLists} (root : list byte) (key : list Z) (node hp : list byte)
    (proof : list (list byte)) (key_index : nat) (expected_value : list byte) :
  rlp_count node = 2%nat -> rlp_vec_at node 0 = Ok hp ->
  extract_nibbles hp !! 0%nat = Some 0 \/ extract_nibbles hp !! 0%nat = Some 1 ->
  drop 2 (extract_nibbles hp) <> [] -> expected_value <> [] ->
  _verify_trie_proof root key (node :: proof) key_index expected_value <> Ok true.
Proof.
  intros H2 Hhp Hpre Hend Hv Hrun. cbn [_verify_trie_proof] in Hrun.
  pose proof (value_not_empty _ Hv) as Hno.
  apply obind_ok in Hrun as (u & _ & Hrun). rewrite H2 in Hrun. cbn [Nat.eqb] in Hrun. rewrite Hhp in Hrun.
  cbn [mbind outcome_bind] in Hrun. apply obind_ok in Hrun as (prefix & Hp%at_index_ok & Hrun).
  apply obind_ok in Hrun as (nib & Hnib & Hrun). cbn zeta in Hrun.
  pose proof (length_concat_nibbles _ (key_end_even hp)) as Hlen.
  set (key_end := drop 2 (extract_nibbles hp)) in *.
  assert (forall i j, (i + length key_end = j)%nat -> (j <= length key)%nat ->
    concat_nibbles key_end <> take (j - i) (drop i key)) as Hne.
  { intros i j Hij Hj Hc%(f_equal length). rewrite length_take, length_drop in Hc.
    apply Hend, length_zero_iff_nil. lia. }
  destruct Hpre as [Hpre|Hpre]; rewrite Hpre in Hp; injection Hp as <-; cbn in Hrun.
  - apply obind_ok in Hrun as (shared & [-> Hl]%slice_range_ok & Hrun).
    rewrite bool_decide_false in Hrun by (by apply Hne). done.
  - apply obind_ok in Hrun as (k & _ & Hrun). destruct (nib =? k); [|done].
    apply obind_ok in Hrun as (shared & [-> Hl]%slice_range_ok & Hrun).
    rewrite bool_decide_false in Hrun by (apply Hne; [lia|done]). done.
Qed.

(** ** Witnesses *)

(** Nodes of two items; receipts with one log and receipt 0 with the key [x80]. *)
#[local] Instance toy_rlp_lists : RlpLists := {|
  rlp_count d := 2%nat;
  rlp_bool_at d i := if decide (d = []) then panic "RlpIsTooShort" else Ok true;
  rlp_hashes_at d i := Ok [];
  rlp_items_at d i := Ok [[x01; x02]];
  rlp_encode_u64 z := [x80]
|}.
#[local] Existing Instance toy_eth_libs.
Definition toy_receipt : list byte := replicate 40 x07.
Definition toy_leaf : list byte := [xff; x00] ++ toy_receipt.

Lemma honest_receipt_accepted_witness :
  verify_trie_proof (toy_header_hash xff x00) (rlp_encode_u64 0) [toy_leaf] toy_receipt = Ok true.
Proof.
  apply (honest_receipt_accepted (toy_header_hash xff x00) 0 x80 toy_receipt [toy_leaf]); [reflexivity|].
  change (toy_header_hash xff x00) with (near_keccak256 toy_leaf).
  apply (honest_leaf_even toy_receipt toy_leaf [x20; x80]); try (vm_compute; reflexivity).
  vm_compute. lia.
Defined.

Lemma long_extension_rejected_witness :
  _verify_trie_proof (H := {| near_sha256 := near_sha256; near_keccak256 := near_keccak256;
      rlp_hash_at := rlp_hash_at; rlp_vec_at d i := Ok [x00; x12]; rlp_uint_at := rlp_uint_at;
      rlp_stream := rlp_stream; cross_boundary := cross_boundary; get_full_size := get_full_size;
      hashimoto_with_hasher S := hashimoto_with_hasher |}) (toy_header_hash xff x00) [1; 2; 3; 4] [toy_leaf] 0 [x01]
  <> Ok true.
Proof. eapply long_extension_rejected; try (vm_compute; reflexivity); [left; reflexivity|done|done]. Defined.

Lemma verified_log_confirmed_witness :
  exists header, in_header header 0 [x01; x02] 0 toy_receipt [x05; x00; x09; x04; x00] [toy_leaf] /\
    (false = false -> exists hash, bh_hash header = Some hash /\
       block_hash toy_client_3 (bh_number header) = Some hash /\
       bh_number header + num_confirmations toy_client_3 <= last_block_number toy_client_3 /\
       (is_Some (infos toy_client_3 !! hash) -> exists k, num_confirmations toy_client_3 <= Z.of_nat k /\
          ancestor k (infos toy_client_3) (best_header_hash toy_client_3) = Some hash)).
Proof.
  apply (verified_log_confirmed toy_eth_headers "prover.near" toy_client_3 0 [x01; x02] 0 toy_receipt
    [x05; x00; x09; x04; x00] [toy_leaf] false (PBlockHash 5 (toy_header_hash x05 x00))).
  - apply toy_collision_free.
  - apply toy_reach_3.
  - vm_compute. congruence.
  - done.
  - vm_compute. reflexivity.
  - vm_compute. reflexivity.
Defined.
