(* ===== verification/Accounts.v ===== *)
(** * NEAR accounts: [utils/helpers.js]

    Creation of an account with its contract, and the checks of an account.
    The key store of a connection is the map from accounts to secret keys. *)

From Stdlib Require Import Ascii Strings.Byte.
From stdpp Require Import base list strings gmap.
From Stdlib Require Import ZArith Lia.
From S2P Require Import Prelude Js Borshify Effects Robust RobustSpec Traces.
Local Open Scope Z_scope.

Definition RETRY_NONCE : nat := 10.

(** [nearAPI.KeyPair.fromString(sk).getPublicKey().toString()] *)
Class KeyPairs := publicKeyOf : string -> exn + string.

Section accounts.
Context {St N : Type} `{NearAccounts N} `{Files N} `{KeyPairs}.
Abbreviation M := (M St N event).

Definition accountExists (accountId : string) : M bool :=
  catch (rpc (near_fetchState accountId) (EvFetchState accountId);; mret true) (fun _ => mret false).

(** The first loop: the value of [accountCreated]. *)
Fixpoint create_loop (n : nat) (master accountId accountPK : string) (balance : Z) : M bool :=
  match n with
  | O => mret false
  | S n =>
      r ← attempt (rpc (near_createAccount master accountId accountPK balance)
        (EvCreateAccount master accountId accountPK balance));
      match r with
      | inr _ => mret true
      | inl e =>
          if String.eqb (e_type e) "AccountAlreadyExists" then mret true
          else create_loop n master accountId accountPK balance
      end
  end.

(** The second loop: an error that is not a nonce error ends the process. *)
Fixpoint deploy_loop (n : nat) (accountId contractPath : string) : M bool :=
  match n with
  | O => mret false
  | S n =>
      r ← attempt (data ← rpc (readFileSync contractPath) (EvReadFile contractPath);
                   rpc (near_deployContract accountId data) (EvDeployNear accountId data));
      match r with
      | inr _ => mret true
      | inl e =>
          if includes "Transaction nonce" (e_message e) then deploy_loop n accountId contractPath
          else exit 1
      end
  end.

Definition maybeCreateAccount (masterAccountId accountId accountPK : string) (initBalance : Z)
    (contractPath : string) : M unit :=
  found ← accountExists accountId;
  if (found : bool) then mret tt
  else
    accountCreated ← create_loop RETRY_NONCE masterAccountId accountId accountPK initBalance;
    if negb accountCreated then exit 1
    else
      contractDeployed ← deploy_loop RETRY_NONCE accountId contractPath;
      if negb contractDeployed then exit 1 else mret tt.

(** [keys.find((key) => key.public_key === keyStoreKey.getPublicKey().toString())]:
    the key of the store is only looked at when the account has keys. *)
Definition accountHasTheKey (keyStore : gmap string string) (accountId : string) : M bool :=
  keys ← rpc (near_getAccessKeys accountId) (EvAccessKeys accountId);
  match keys with
  | [] => mret false
  | _ =>
      match keyStore !! accountId with
      | None => throw (TypeError "Cannot read property 'getPublicKey' of null")
      | Some sk => pk ← lift (of_sum (publicKeyOf sk)); mret (existsb (String.eqb pk) keys)
      end
  end.

Definition verifyAccount (keyStore : gmap string string) (accountId : string) : M bool :=
  found ← accountExists accountId;
  if negb found then exit 1
  else
    has ← accountHasTheKey keyStore accountId;
    if negb has then exit 1 else mret true.

Definition verifyAccountGently (keyStore : gmap string string) (accountId : string) : M bool :=
  found ← accountExists accountId;
  if negb found then mret false
  else
    has ← accountHasTheKey keyStore accountId;
    if negb has then mret false else mret true.

(** ** Lemmas *)

Definition is_create (ev : event) : bool :=
  match ev with EvCreateAccount _ _ _ _ _ => true | _ => false end.
Definition is_deploy (ev : event) : bool :=
  match ev with EvDeployNear _ _ _ => true | _ => false end.

(** The account is there: a creation succeeded, or was told so. *)
Definition created (master id pk : string) (balance : Z) (tr : list event) : Prop :=
  exists tr' r, tr = tr' ++ [EvCreateAccount master id pk balance r] /\
    match r with inr _ => True | inl e => e_type e = "AccountAlreadyExists" end.

Lemma create_loop_spec n master id pk balance : forall (w : world St N event),
  exists tr w' b, create_loop n master id pk balance w = (w', Ok b) /\ trace w' = trace w ++ tr /\
    (count is_create tr <= n)%nat /\ count is_deploy tr = 0%nat /\
    (b = true -> created master id pk balance tr) /\ (b = false -> count is_create tr = n).
Proof.
  induction n as [|n IH]; intros w; [exists [], w, false; rewrite app_nil_r; by split_and!|]. simpl.
  destruct (near_createAccount master id pk balance (net w)) as [n' r] eqn:E.
  set (w1 := mkWorld (store w) n' (trace w ++ [EvCreateAccount master id pk balance r])).
  erewrite (bind_run _ _ w w1 r) by (apply attempt_sum; unfold rpc; by rewrite E).
  assert (Hdone : match r with inr _ => True | inl e => e_type e = "AccountAlreadyExists" end ->
    exists tr w' b, (w1, Ok true) = (w', Ok b) /\ trace w' = trace w ++ tr /\
      (count is_create tr <= S n)%nat /\ count is_deploy tr = 0%nat /\
      (b = true -> created master id pk balance tr) /\ (b = false -> count is_create tr = S n)).
  { intros Hr. exists [EvCreateAccount master id pk balance r], w1, true.
    split_and!; try done; [unfold count; simpl; lia|]. intros _. by exists [], r. }
  destruct r as [e|u]; [|by apply Hdone]. cbn beta iota.
  destruct (String.eqb_spec (e_type e) "AccountAlreadyExists") as [He|]; [by apply Hdone|].
  destruct (IH w1) as (tr & w' & b & -> & Ht & Hc & Hd & Hb & Hf).
  exists (EvCreateAccount master id pk balance (inl e) :: tr), w', b.
  rewrite !count_cons. simpl. split_and!; try done; [by rewrite Ht; simpl; rewrite <- app_assoc|lia| |].
  - intros Hbt. destruct (Hb Hbt) as (tr' & r & -> & Hr). by exists (EvCreateAccount master id pk balance (inl e) :: tr'), r.
  - intros Hbf. by rewrite (Hf Hbf).
Qed.

Lemma deploy_loop_spec n id path : forall (w : world St N event),
  exists tr w' o, deploy_loop n id path w = (w', o) /\ trace w' = trace w ++ tr /\
    (count is_deploy tr <= n)%nat /\ count is_create tr = 0%nat /\
    (o = Exit 1 \/ o = Ok false \/
     (o = Ok true /\ exists tr' code, tr = tr' ++ [EvReadFile path (inr code); EvDeployNear id code (inr tt)])).
Proof.
  induction n as [|n IH]; intros w; [exists [], w, (Ok false); rewrite app_nil_r; split_and!; auto|]. simpl.
  destruct (readFileSync path (net w)) as [n1 r1] eqn:E1.
  (* the events of this round, whether it read the file and deployed *)
  assert (exists w1 tr1 r, attempt (data ← rpc (readFileSync path) (EvReadFile path);
      rpc (near_deployContract id data) (EvDeployNear id data)) w = (w1, Ok r) /\
    trace w1 = trace w ++ tr1 /\ (count is_deploy tr1 <= 1)%nat /\ count is_create tr1 = 0%nat /\
    match r with inr _ => exists code, tr1 = [EvReadFile path (inr code); EvDeployNear id code (inr tt)]
      | inl _ => True end) as (w1 & tr1 & r & E & Ht1 & Hd1 & Hc1 & Hr).
  { destruct r1 as [e|code].
    { eexists _, [EvReadFile path (inl e)], (inl e). split_and!; try done.
      - eapply attempt_throw, bind_throw. by apply rpc_throw.
      - done.
      - unfold count; simpl; lia. }
    destruct (near_deployContract id code n1) as [n2 r2] eqn:E2.
    eexists _, [EvReadFile path (inr code); EvDeployNear id code r2], r2. split_and!; try done.
    - eapply attempt_sum. erewrite bind_run by (by apply rpc_run). unfold rpc; simpl. by rewrite E2.
    - simpl. by rewrite <- app_assoc.
    - destruct r2 as [|[]]; [done|]. by exists code. }
  rewrite (bind_run _ _ _ _ _ E). destruct r as [e|u].
  - destruct (includes "Transaction nonce" (e_message e)).
    + destruct (IH w1) as (tr & w' & o & -> & Ht & Hd & Hc & Ho).
      exists (tr1 ++ tr), w', o. rewrite !count_app. split_and!; try lia; try done.
      * by rewrite Ht, Ht1, app_assoc.
      * destruct Ho as [|[|(Ho & tr' & code & ->)]]; auto. right. right. split; [done|].
        exists (tr1 ++ tr'), code. by rewrite app_assoc.
    + exists tr1, w1, (Exit 1). split_and!; try done; [lia|by left].
  - destruct Hr as [code ->]. eexists _, w1, (Ok true). split; [done|]. split_and!; try done; [lia|].
    right. right. split; [done|]. by exists [], code.
Qed.
End accounts.
