(* ===== verification/InitContracts.v ===== *)
(** * The commands that deploy the contracts: [cli/init], and the deployment of a
    bridged token, [testing/transfer-eth-erc20/deploy-token.js]

    The options of a command are an object: a property that is not there is
    [undefined]. *)

From Stdlib Require Import Ascii Strings.Byte.
From stdpp Require Import base list strings gmap.
From Stdlib Require Import ZArith Lia.
From S2P Require Import Prelude Js Borsh Borshify Effects Schemas Robust NearTx Eth2NearRelay Near2EthRelay Accounts.
Local Open Scope Z_scope.

(** [web3.eth.accounts.privateKeyToAccount(sk).address], and [JSON.parse] of an
    interface file. *)
Class EthKeys := {
  privateKeyToAddress : string -> exn + string;
  parse_abi : list byte -> exn + unit
}.

(** [remove0x] of [utils/utils.js] *)
Definition remove0x (value : string) : string :=
  if String.eqb (substr_to 2 value) "0x" then substr_from 2 value else value.

(** [normalizeHex] of [utils/utils.js] *)
Definition normalizeHex (value : string) : string :=
  let value := toLowerCase value in
  if startsWith "0x" value then value else "0x" +:+ value.

Section eth.
Context {St N : Type} `{EthNode N} `{EthDeploy N} `{Files N} `{EthKeys} `{EncLib}.
Abbreviation M := (M St N event).

(** The connection that the deployments of one command share. *)
Record eth_opts := mkEthOpts {
  ethMasterSk : string;
  ethGasMultiplier : Z
}.

(** [EthContractInitializer.execute]; [None] is [null]. *)
Definition deploy_eth_contract (o : eth_opts) (args : list jsval) (gas : Z) (abiPath binPath : string)
    : M (option string) :=
  if negb (truthy abiPath) || negb (truthy binPath) then mret None
  else
    catch
      (ethMasterAccount ← lift (of_sum (privateKeyToAddress (normalizeEthKey (ethMasterSk o))));
       abi ← rpc (readFileSync abiPath) (EvReadFile abiPath);
       lift (of_sum (parse_abi abi));;
       bin ← rpc (readFileSync binPath) (EvReadFile binPath);
       gasPrice ← gas_price (ethGasMultiplier o);
       address ← rpc (eth_deploy abi ethMasterAccount (utf8 "0x" ++ bin) args gas gasPrice)
         (EvDeployEth ethMasterAccount (utf8 "0x" ++ bin) args gas gasPrice);
       destroy;;
       mret (Some (normalizeEthKey address)))
      (fun _ => mret None).

(** The [execute] of the five commands: exit when the deployment failed. *)
Definition deploy_or_exit (o : eth_opts) (args : list jsval) (gas : Z) (abiPath binPath : string)
    : M string :=
  success ← deploy_eth_contract o args gas abiPath binPath;
  match success with Some address => mret address | None => exit 1 end.

(** What [destroy] does to the connection: only a WebSocket is closed. *)
Definition closing : list event :=
  match eth_close (N := N) with Some _ => [EvCloseConnection] | None => [] end.
Lemma destroy_trace (w w' : world St N event) u :
  destroy w = (w', Ok u) -> trace w' = trace w ++ closing.
Proof.
  unfold destroy, closing. destruct eth_close; intros [= <-]; simpl; by rewrite ?app_nil_r.
Qed.

(** The calls of a deployment that succeeds. *)
Definition deployment (o : eth_opts) (sender : string) (args : list jsval) (gas : Z)
    (abiPath binPath : string) (abi bin : list byte) (g : Z) (raw : string) : list event :=
  [EvReadFile abiPath (inr abi); EvReadFile binPath (inr bin); EvGasPrice (inr g);
   EvDeployEth sender (utf8 "0x" ++ bin) args gas (g * ethGasMultiplier o) (inr raw)] ++ closing.

(** A deployment that returns an address was made with the given arguments. *)
Lemma deploy_or_exit_ok o args gas abiPath binPath (w w' : world St N event) address :
  deploy_or_exit o args gas abiPath binPath w = (w', Ok address) ->
  exists sender abi bin g raw, address = normalizeEthKey raw /\
    privateKeyToAddress (normalizeEthKey (ethMasterSk o)) = inr sender /\
    trace w' = trace w ++ deployment o sender args gas abiPath binPath abi bin g raw.
Proof.
  unfold deploy_or_exit, deploy_eth_contract. intros Hrun.
  apply bind_ok in Hrun as ([a|] & w1 & Hd & Hrun); [|done]. injection Hrun as -> ->.
  destruct (negb (truthy abiPath) || negb (truthy binPath)); [done|].
  apply catch_ok in Hd as [Hd|(e & w2 & _ & Hd)]; [|done].
  apply bind_ok in Hd as (sender & w1 & Hs & Hd). injection Hs as <- Hs.
  apply bind_ok in Hd as (abi & w2 & [n2 ->]%rpc_ok & Hd).
  apply bind_ok in Hd as (u & w3 & Hp & Hd). injection Hp as <- Hp.
  apply bind_ok in Hd as (bin & w4 & [n4 ->]%rpc_ok & Hd).
  apply bind_ok in Hd as (gp & w5 & Hg & Hd).
  apply bind_ok in Hg as (g & w6 & [n6 ->]%rpc_ok & Hg). injection Hg as <- <-.
  apply bind_ok in Hd as (raw & w7 & [n7 ->]%rpc_ok & Hd).
  apply bind_ok in Hd as ([] & w8 & Hclose%destroy_trace & Hd). injection Hd as <- <-.
  exists sender, abi, bin, g, raw. split; [done|]. split.
  - destruct (privateKeyToAddress _); simplify_eq/=; done.
  - rewrite Hclose. unfold deployment. simpl. by rewrite <- !app_assoc.
Qed.

Definition InitEthEd25519 (o : eth_opts) (abiPath binPath : string) : M string :=
  deploy_or_exit o [] 5000000 abiPath binPath.

Definition InitEthErc20 (o : eth_opts) (abiPath binPath : string) : M string :=
  deploy_or_exit o [] 3000000 abiPath binPath.

Definition InitEthLocker (o : eth_opts) (nearTokenFactoryAccount ethProverAddress : string)
    (abiPath binPath : string) : M string :=
  deploy_or_exit o [VBytes (utf8 nearTokenFactoryAccount); VStr ethProverAddress] 5000000 abiPath binPath.

(** The replace duration is given in seconds and the contract wants nanoseconds. *)
Definition InitEthClient (o : eth_opts) (lockEthAmount lockDuration replaceDuration : jsnum)
    (ethEd25519Address abiPath binPath : string) : M string :=
  lockEthAmount ← lift (toBN lockEthAmount);
  lockDuration ← lift (toBN lockDuration);
  replaceDuration ← lift (toBN replaceDuration);
  destroy;;
  deploy_or_exit o [VStr ethEd25519Address; VBN lockEthAmount; VBN lockDuration;
    VBN (replaceDuration * 1000000000)] 5000000 abiPath binPath.

Definition InitEthProver (o : eth_opts) (ethClientAddress abiPath binPath : string) : M string :=
  deploy_or_exit o [VStr ethClientAddress] 3000000 abiPath binPath.
End eth.

Section near.
Context {St N actions : Type} `{Clock N} `{EthNode N} `{NearNode N actions} `{Shell N} `{KeySlot St}.
Context `{NearAccounts N} `{Files N} `{KeyPairs}.
Context {W : Type} `{BinaryWriter W} `{BNLib} `{HexUtils} `{RelayLib}.
Variables (base64 : string -> list byte) (dag_merkle_roots : list jsval).
Abbreviation M := (M St N event).

(** A property of the options that is used as a string. *)
Definition opt (k : string) (opts : list (string * jsval)) : string :=
  match get_prop k opts with VStr s => s | _ => "" end.
(** [new BN(s)] for a string of digits *)
Definition opt_bn (k : string) (opts : list (string * jsval)) : Z :=
  default 0 (decimal (opt k opts)).

(** [if (!sk) sk = masterSk] *)
Definition key_or_master (sk master : string) : string := if truthy sk then sk else master.

(** [InitNearContracts.execute] *)
Definition InitNearContracts (opts : list (string * jsval)) : M (string * string) :=
  let masterAccount := opt "nearMasterAccount" opts in
  let masterSk := opt "nearMasterSk" opts in
  let clientAccount := opt "nearClientAccount" opts in
  let proverAccount := opt "nearProverAccount" opts in
  let clientSk := key_or_master (opt "nearClientSk" opts) masterSk in
  let proverSk := key_or_master (opt "nearProverSk" opts) masterSk in
  clientPk ← lift (of_sum (publicKeyOf clientSk));
  proverPk ← lift (of_sum (publicKeyOf proverSk));
  lift (of_sum (publicKeyOf masterSk));;
  let keyStore : gmap string string :=
    <[proverAccount := proverSk]> (<[clientAccount := clientSk]> {[masterAccount := masterSk]}) in
  verifyAccount keyStore masterAccount;;
  maybeCreateAccount masterAccount clientAccount clientPk
    (opt_bn "nearClientInitBalance" opts) (opt "nearClientContractPath" opts);;
  verifyAccount keyStore clientAccount;;
  maybeCreateAccount masterAccount proverAccount proverPk
    (opt_bn "nearProverInitBalance" opts) (opt "nearProverContractPath" opts);;
  verifyAccount keyStore proverAccount;;
  client_maybeInitialize (W := W) (opt "ethNodeUrl" opts) (mkAccount clientAccount) clientAccount base64
    dag_merkle_roots
    (match get_prop "nearClientValidateEthhash" opts with VStr s => String.eqb s "true" | _ => false end)
    (if js_truthy (get_prop "nearClientTrustedSigner" opts)
     then get_prop "nearClientTrustedSigner" opts else VNull);;
  prover_maybeInitialize (W := W) (mkAccount proverAccount) proverAccount base64 clientAccount;;
  destroy;;
  mret (clientSk, proverSk).

(** [DeployToken.execute]: the secret key of the factory, the account of the
    token and the address it bridges. *)
Definition DeployToken (ethTokenAddress masterAccount masterSk factoryAccount factorySk : string)
    : M (string * string * string) :=
  let factorySk := key_or_master factorySk masterSk in
  lift (of_sum (publicKeyOf masterSk));;
  lift (of_sum (publicKeyOf factorySk));;
  let keyStore : gmap string string := <[factoryAccount := factorySk]> {[masterAccount := masterSk]} in
  verifyAccount keyStore masterAccount;;
  verifyAccount keyStore factoryAccount;;
  let args := VObj [("address", VStr (remove0x ethTokenAddress))] in
  catch
    (rpc (near_change factoryAccount "deploy_bridge_token" args 300000000000000 (Some 150000000000000000000000000))
      (EvNearChange factoryAccount "deploy_bridge_token" args 300000000000000 (Some 150000000000000000000000000)))
    (fun _ => exit 1);;
  mret (factorySk, remove0x ethTokenAddress +:+ "." +:+ factoryAccount, ethTokenAddress).

(** [InitNearTokenFactory.execute]: the properties it returns. *)
Definition InitNearTokenFactory (opts : list (string * jsval)) : M (list (string * jsval)) :=
  let masterAccount := opt "nearMasterAccount" opts in
  let masterSk := opt "nearMasterSk" opts in
  let factoryAccount := opt "nearTokenFactoryAccount" opts in
  let factorySk := key_or_master (opt "nearTokenFactorySk" opts) masterSk in
  factoryPk ← lift (of_sum (publicKeyOf factorySk));
  lift (of_sum (publicKeyOf masterSk));;
  let keyStore : gmap string string := <[factoryAccount := factorySk]> {[masterAccount := masterSk]} in
  verifyAccount keyStore masterAccount;;
  maybeCreateAccount masterAccount factoryAccount factoryPk
    (opt_bn "nearTokenFactoryInitBalance" opts) (opt "nearTokenFactoryContractPath" opts);;
  let locker := opt "ethLockerAddress" opts in
  let args := VObj [("prover_account", get_prop "nearProverAccount" opts);
    ("locker_address", VStr (if startsWith "0x" locker then substr_from 2 locker else locker))] in
  catch
    (rpc (near_change factoryAccount "new" args 300000000000000 None)
      (EvNearChange factoryAccount "new" args 300000000000000 None))
    (fun _ => exit 1);;
  '(sk, tokenAccount, tokenAddress) ←
    DeployToken (opt "ethErc20Address" opts) masterAccount masterSk factoryAccount factorySk;
  mret [("nearErc20Account", VStr tokenAccount); ("ethErc20Address", VStr tokenAddress);
        ("nearTokenFactorySk", VStr sk)].
End near.
