(* ===== verification/InitTheorems.v ===== *)
(** * Theorems about accounts and the initialization commands *)

From Stdlib Require Import Ascii Strings.Byte.
From stdpp Require Import base list strings gmap.
From Stdlib Require Import ZArith Lia.
From S2P Require Import Prelude Js Borsh Borshify Effects Schemas Instances Robust RobustSpec NearTx.
From S2P Require Import Eth2NearRelay Near2EthRelay Accounts InitContracts.
Local Open Scope Z_scope.


(** The option [near-client-validate-ethash] has no effect on the command
    that initializes the NEAR contracts, whatever its value and whatever the
    nodes answer: the command reads a property with another spelling. *)
Theorem validate_ethash_option_ignored {St N actions W} `{Clock N} `{EthNode N} `{NearNode N actions}
    `{KeySlot St} `{NearAccounts N} `{Files N} `{KeyPairs} `{BinaryWriter W} `{BNLib} `{HexUtils} `{RelayLib}
    (base64 : string -> list byte) (roots : list jsval) (opts : list (string * jsval)) (v : jsval)
    (w : world St N event) :
  InitNearContracts (W := W) base64 roots (set_prop "nearClientValidateEthash" v opts) w =
  InitNearContracts (W := W) base64 roots opts w.
Proof.
  assert (Hget : forall k, String.eqb k "nearClientValidateEthash" = false ->
    get_prop k (set_prop "nearClientValidateEthash" v opts) = get_prop k opts).
  { intros k Hk. unfold get_prop. by rewrite assoc_set_prop, Hk. }
  unfold InitNearContracts, opt_bn, opt. by rewrite !Hget by reflexivity.
Qed.

(** When the command that deploys the Ethereum client returns an address, it
    made exactly one deployment, from the account of the given key: the data is
    the content of the code file after [0x], the arguments are the given
    parameters with the replace duration converted from seconds to nanoseconds,
    and the gas price is the node's price times the multiplier.  The address is
    that of the contract in normal form. *)
Theorem InitEthClient_deploys {St N} `{EthNode N} `{EthDeploy N} `{Files N} `{EthKeys} `{EncLib}
    (o : eth_opts) (lock duration replace : jsnum) (ed abiPath binPath : string)
    (w w' : world St N event) (address : string) :
  InitEthClient o lock duration replace ed abiPath binPath w = (w', Ok address) ->
  exists l d r sender abi bin g raw, toBN lock = Ok l /\ toBN duration = Ok d /\ toBN replace = Ok r /\
    privateKeyToAddress (normalizeEthKey (ethMasterSk o)) = inr sender /\
    address = normalizeEthKey raw /\
    trace w' = trace w ++ closing (N := N) ++
      deployment o sender [VStr ed; VBN l; VBN d; VBN (r * 1000000000)] 5000000 abiPath binPath abi bin g raw.
Proof.
  unfold InitEthClient. intros Hrun.
  apply bind_ok in Hrun as (l & w1 & Hl & Hrun). apply bind_ok in Hrun as (d & w2 & Hd & Hrun).
  apply bind_ok in Hrun as (r & w3 & Hr & Hrun). apply bind_ok in Hrun as ([] & w4 & Hc%destroy_trace & Hrun).
  injection Hl as <- Hl. injection Hd as <- Hd. injection Hr as <- Hr.
  apply deploy_or_exit_ok in Hrun as (sender & abi & bin & g & raw & -> & Hs & Ht).
  exists l, d, r, sender, abi, bin, g, raw. split_and!; try done. by rewrite Ht, Hc, <- app_assoc.
Qed.

(** A node over HTTP with a gas price of three, and the files of a client. *)
#[local] Instance toy_eth : EthNode unit := {|
  eth_setProvider _ n := n;
  eth_close := None;
  eth_getBlockNumber n := (n, inr 7);
  eth_getBlock _ n := (n, inr VNull);
  eth_getTransactionReceipt _ n := (n, inr VNull);
  eth_getGasPrice n := (n, inr 3);
  eth_getTransactionCount _ n := (n, inr 5);
  eth_call _ n := (n, inr tt);
  eth_sendTransaction _ n := (n, None)
|}.
#[local] Instance toy_deploy : EthDeploy unit := fun _ _ _ _ _ _ n => (n, inr "AB12").
#[local] Instance toy_files : Files unit := fun path n => (n, inr (utf8 path)).
#[local] Instance toy_keys : EthKeys := {|
  privateKeyToAddress sk := inr (sk +:+ "!");
  parse_abi _ := inr tt
|}.

Lemma InitEthClient_deploys_witness :
  let r := InitEthClient (mkEthOpts "5e" 2) (JStr "1000") (JNum 60) (JStr "30") "0xed" "c.abi" "c.bin"
    (mkWorld tt tt []) in
  r.2 = Ok "0xab12" /\
  exists l d r' sender abi bin g raw, toBN (JStr "1000") = Ok l /\ toBN (JNum 60) = Ok d /\
    toBN (JStr "30") = Ok r' /\ privateKeyToAddress (normalizeEthKey "5e") = inr sender /\
    "0xab12" = normalizeEthKey raw /\
    trace r.1 = [] ++ closing (N := unit) ++
      deployment (mkEthOpts "5e" 2) sender [VStr "0xed"; VBN l; VBN d; VBN (r' * 1000000000)] 5000000
        "c.abi" "c.bin" abi bin g raw.
Proof.
  split; [vm_compute; reflexivity|].
  apply (InitEthClient_deploys (mkEthOpts "5e" 2) (JStr "1000") (JNum 60) (JStr "30") "0xed" "c.abi" "c.bin"
    (mkWorld tt tt [])). vm_compute. reflexivity.
Defined.
