(* ===== verification/Cli.v ===== *)
(** * The command line: [cli/index.js]

    The options that are declared, the commands with the options that each
    registers and the parameters of its handler, and the actions that are written
    in the file itself. *)

From Stdlib Require Import Ascii Strings.Byte.
From stdpp Require Import base list strings gmap.
From Stdlib Require Import ZArith Lia.
From S2P Require Import Prelude Js Effects Robust NearTx Accounts InitContracts Config.
Local Open Scope Z_scope.

(** ** Paths: [path.join] of Node *)

(** [p.split('/')] *)
Fixpoint split_slash (s : string) : list string :=
  match s with
  | EmptyString => [""]
  | String c s =>
      if Ascii.eqb c "/" then "" :: split_slash s
      else match split_slash s with w :: ws => String c w :: ws | [] => [String c ""] end
  end.

(** The segments without [.] and with [..] resolved; a relative path keeps the
    ones that leave it. *)
Fixpoint resolve_dots (absolute : bool) (kept segments : list string) : list string :=
  match segments with
  | [] => rev kept
  | s :: segments =>
      if String.eqb s "" || String.eqb s "." then resolve_dots absolute kept segments
      else if String.eqb s ".." then
        match kept with
        | k :: kept' =>
            if String.eqb k ".." then resolve_dots absolute (s :: kept) segments
            else resolve_dots absolute kept' segments
        | [] => resolve_dots absolute (if absolute then [] else [s]) segments
        end
      else resolve_dots absolute (s :: kept) segments
  end.

Definition ends_with_slash (s : string) : bool :=
  match last (split_slash s) with Some "" => true | _ => false end.

Definition path_normalize (p : string) : string :=
  if String.eqb p "" then "."
  else
    let absolute := startsWith "/" p in
    let body := join "/" (resolve_dots absolute [] (split_slash p)) in
    let body := if String.eqb body "" && negb absolute then "." else body in
    let body := if negb (String.eqb body "") && ends_with_slash p then body +:+ "/" else body in
    if absolute then "/" +:+ body else body.

Definition path_join (segments : list string) : string :=
  path_normalize (join "/" (filter (fun s => s <> "") segments)).

(** ** The declared options

    [dir] is [__dirname], where the command line is installed. *)

Definition LIBS_SOL_SRC_DIR (dir : string) : string := path_join [dir; "../node_modules/rainbow-bridge-sol"].
Definition LIBS_RS_SRC_DIR (dir : string) : string := path_join [dir; "../node_modules/rainbow-bridge-rs"].
Definition LIBS_TC_SRC_DIR (dir : string) : string := path_join [dir; "../node_modules/rainbow-token-connector"].

(** The arguments of one [declareOption]; a default that is not given is
    [undefined]. *)
Record option_declaration := mkOption {
  od_name : string;
  od_description : string;
  od_default : jsval;
  od_noConfig : bool
}.

(** The options of the operators, [index.js] lines 65 to 147. *)
Definition general_options (dir : string) : list option_declaration := [
  mkOption "near-network-id"
    "The identifier of the NEAR network that the given NEAR node is expected to represent."
    VUndef false;
  mkOption "near-node-url"
    "The URL of the NEAR node."
    VUndef false;
  mkOption "eth-node-url"
    "The URL of the Ethereum node."
    VUndef false;
  mkOption "near-master-account"
    "The account of the master account on NEAR blockchain that can be used to deploy and initialize the test contracts. This account will also own the initial supply of the fungible tokens."
    VUndef false;
  mkOption "near-master-sk"
    "The secret key of the master account on NEAR blockchain."
    VUndef false;
  mkOption "eth-master-sk"
    "The secret key of the master account on Ethereum blockchain."
    VUndef false;
  mkOption "near-client-account"
    "The account of the Near Client contract that can be used to accept ETH headers."
    (VStr "rainbow_bridge_eth_on_near_client") false;
  mkOption "near-client-sk"
    "The secret key of the Near Client account. If not specified will use master SK."
    VUndef false;
  mkOption "near-client-contract-path"
    "The path to the Wasm file containing the Near Client contract."
    (VStr (path_join [LIBS_RS_SRC_DIR dir; "res/eth_client.wasm"])) false;
  mkOption "near-client-init-balance"
    "The initial balance of Near Client contract in femtoNEAR."
    (VStr "100000000000000000000000000") false;
  mkOption "near-client-validate-ethash"
    "Whether validate ethash of submitted eth block, should set to true on mainnet and false on PoA testnets"
    (VStr "true") false;
  mkOption "near-client-trusted-signer"
    "When non empty, deploy as trusted-signer mode where only tursted signer can submit blocks to client"
    (VStr "") false;
  mkOption "near-prover-account"
    "The account of the Near Prover contract that can be used to accept ETH headers."
    (VStr "rainbow_bridge_eth_on_near_prover") false;
  mkOption "near-prover-sk"
    "The secret key of the Near Prover account. If not specified will use master SK."
    VUndef false;
  mkOption "near-prover-contract-path"
    "The path to the Wasm file containing the Near Prover contract."
    (VStr (path_join [LIBS_RS_SRC_DIR dir; "res/eth_prover.wasm"])) false;
  mkOption "near-prover-init-balance"
    "The initial balance of Near Prover contract in femtoNEAR."
    (VStr "100000000000000000000000000") false;
  mkOption "daemon"
    "Whether the process should be launched as a daemon."
    (VStr "true") true;
  mkOption "core-src"
    "Path to the nearcore source. It will be downloaded if not provided."
    (VStr "") false;
  mkOption "eth-gas-multiplier"
    "How many times more in Ethereum gas are we willing to overpay."
    (VStr "1") false
].

(** The options of the users, up to the locker and the ERC20 contract. *)
Definition user_options (dir : string) : list option_declaration := [
  mkOption "near-token-factory-account"
    "The account of the token factory contract that will be used to mint tokens locked on Ethereum."
    (VStr "neartokenfactory") false;
  mkOption "near-token-factory-sk"
    "The secret key of the token factory account. If not specified will use master SK."
    VUndef false;
  mkOption "near-token-factory-contract-path"
    "The path to the Wasm file containing the token factory contract."
    (VStr (path_join [LIBS_TC_SRC_DIR dir; "res/bridge_token_factory.wasm"])) false;
  mkOption "near-token-factory-init-balance"
    "The initial balance of token factory contract in yoctoNEAR."
    (VStr "1000000000000000000000000000") false;
  mkOption "eth-locker-address"
    "ETH address of the locker contract."
    VUndef false;
  mkOption "eth-locker-abi-path"
    "Path to the .abi file defining Ethereum locker contract. This contract works in pair with mintable fungible token on NEAR blockchain."
    (VStr (path_join [LIBS_TC_SRC_DIR dir; "res/BridgeTokenFactory.full.abi"])) false;
  mkOption "eth-locker-bin-path"
    "Path to the .bin file defining Ethereum locker contract. This contract works in pair with mintable fungible token on NEAR blockchain."
    (VStr (path_join [LIBS_TC_SRC_DIR dir; "res/BridgeTokenFactory.full.bin"])) false;
  mkOption "eth-erc20-address"
    "ETH address of the ERC20 contract."
    VUndef false;
  mkOption "eth-erc20-abi-path"
    "Path to the .abi file defining Ethereum ERC20 contract."
    (VStr (path_join [LIBS_TC_SRC_DIR dir; "res/TToken.full.abi"])) false;
  mkOption "eth-erc20-bin-path"
    "Path to the .bin file defining Ethereum ERC20 contract."
    (VStr (path_join [LIBS_TC_SRC_DIR dir; "res/TToken.full.bin"])) false
].

(** The options of the Ethereum contracts, the relay and the watchdog. *)
Definition contract_options (dir : string) : list option_declaration := [
  mkOption "eth-ed25519-address"
    "ETH address of the ED25519 contract."
    VUndef false;
  mkOption "eth-ed25519-abi-path"
    "Path to the .abi file defining Ethereum ED25519 contract."
    (VStr (path_join [LIBS_SOL_SRC_DIR dir; "nearbridge/dist/Ed25519.full.abi"])) false;
  mkOption "eth-ed25519-bin-path"
    "Path to the .bin file defining Ethereum ED25519 contract."
    (VStr (path_join [LIBS_SOL_SRC_DIR dir; "nearbridge/dist/Ed25519.full.bin"])) false;
  mkOption "eth-client-lock-eth-amount"
    "Amount of Ether that should be temporarily locked when submitting a new header to EthClient, in wei."
    (VStr "100000000000000000000") false;
  mkOption "eth-client-lock-duration"
    "The challenge window during which anyone can challenge an incorrect ED25519 signature of the Near block, in EthClient, in seconds."
    (VNum 14400) false;
  mkOption "eth-client-replace-duration"
    "Minimum time difference required to replace a block during challenge period, in EthClient, in seconds."
    (VNum 18000) false;
  mkOption "eth-client-address"
    "ETH address of the EthClient contract."
    VUndef false;
  mkOption "eth-client-abi-path"
    "Path to the .abi file defining Ethereum Client contract."
    (VStr (path_join [LIBS_SOL_SRC_DIR dir; "nearbridge/dist/NearBridge.full.abi"])) false;
  mkOption "eth-client-bin-path"
    "Path to the .bin file defining Ethereum Client contract."
    (VStr (path_join [LIBS_SOL_SRC_DIR dir; "nearbridge/dist/NearBridge.full.bin"])) false;
  mkOption "eth-prover-address"
    "ETH address of the EthProver contract."
    VUndef false;
  mkOption "eth-prover-abi-path"
    "Path to the .abi file defining Ethereum Prover contract."
    (VStr (path_join [LIBS_SOL_SRC_DIR dir; "nearprover/dist/NearProver.full.abi"])) false;
  mkOption "eth-prover-bin-path"
    "Path to the .bin file defining Ethereum Prover contract."
    (VStr (path_join [LIBS_SOL_SRC_DIR dir; "nearprover/dist/NearProver.full.bin"])) false;
  mkOption "near2eth-relay-min-delay"
    "Minimum number of seconds to wait if the relay can't submit a block right away."
    (VStr "1") false;
  mkOption "near2eth-relay-max-delay"
    "Maximum number of seconds to wait if the relay can't submit a block right away."
    (VStr "600") false;
  mkOption "near2eth-relay-error-delay"
    "Number of seconds to wait before retrying if there is an error."
    (VStr "1") false;
  mkOption "watchdog-delay"
    "Number of seconds to wait after validating all signatures."
    (VStr "300") false;
  mkOption "watchdog-error-delay"
    "Number of seconds to wait before retrying if there is an error."
    (VStr "1") false;
  mkOption "near-erc20-account"
    "Must be declared before set"
    VUndef false
].

Definition declared_options (dir : string) : list option_declaration :=
  general_options dir ++ user_options dir ++ contract_options dir.

Definition declare_all (dir : string) (c : config) : config :=
  fold_left (fun c o => declareOption (od_name o) (od_description o) (od_default o) (od_noConfig o) c)
    (declared_options dir) c.

(** ** The parameters of the handlers

    The properties that each handler takes from its argument. *)

Definition PrepareCommand_params : list string := [
    "coreSrc"; "nearupSrc"].
Definition StatusCommand_params : list string := [
    "nearNetworkId"; "nearNodeUrl"; "nearMasterAccount"; "nearMasterSk"; "nearClientAccount"; "nearClientSk";
    "nearProverAccount"; "nearProverSk"; "ethNodeUrl"; "ethMasterSk"].
Definition StartEth2NearRelayCommand_params : list string := [
    "daemon"; "nearNetworkId"; "nearNodeUrl"; "nearMasterAccount"; "nearMasterSk"; "nearClientAccount";
    "ethNodeUrl"].
Definition StartNear2EthRelayCommand_params : list string := [
    "daemon"; "nearNodeUrl"; "nearNetworkId"; "ethNodeUrl"; "ethMasterSk"; "ethClientAbiPath";
    "ethClientAddress"; "ethGasMultiplier"; "near2ethRelayMinDelay"; "near2ethRelayMaxDelay";
    "near2ethRelayErrorDelay"].
Definition StartWatchdogCommand_params : list string := [
    "daemon"; "ethNodeUrl"; "ethMasterSk"; "ethClientAbiPath"; "ethClientAddress"; "watchdogDelay";
    "watchdogErrorDelay"].
Definition InitNearContracts_params : list string := [
    "nearMasterAccount"; "nearMasterSk"; "nearClientAccount"; "nearClientSk"; "nearClientContractPath";
    "nearClientInitBalance"; "nearProverAccount"; "nearProverSk"; "nearProverContractPath";
    "nearProverInitBalance"; "nearNodeUrl"; "nearNetworkId"; "nearClientValidateEthhash";
    "nearClientTrustedSigner"; "ethNodeUrl"].
Definition InitEthEd25519_params : list string := [
    "ethNodeUrl"; "ethMasterSk"; "ethEd25519AbiPath"; "ethEd25519BinPath"; "ethGasMultiplier"].
Definition InitEthClient_params : list string := [
    "ethNodeUrl"; "ethMasterSk"; "ethClientLockEthAmount"; "ethClientLockDuration"; "ethClientReplaceDuration";
    "ethEd25519Address"; "ethClientAbiPath"; "ethClientBinPath"; "ethGasMultiplier"].
Definition InitEthProver_params : list string := [
    "ethNodeUrl"; "ethMasterSk"; "ethClientAddress"; "ethProverAbiPath"; "ethProverBinPath"; "ethGasMultiplier"].
Definition InitNearTokenFactory_params : list string := [
    "nearMasterAccount"; "nearMasterSk"; "nearTokenFactoryAccount"; "nearTokenFactorySk";
    "nearTokenFactoryContractPath"; "nearTokenFactoryInitBalance"; "nearProverAccount"; "nearNodeUrl";
    "nearNetworkId"; "ethLockerAddress"; "ethErc20Address"].
Definition DeployToken_params : list string := [
    "tokenName"; "ethTokenAddress"; "nearNodeUrl"; "nearNetworkId"; "nearMasterAccount"; "nearMasterSk";
    "nearTokenFactoryAccount"; "nearTokenFactorySk"].
Definition InitEthLocker_params : list string := [
    "ethNodeUrl"; "ethMasterSk"; "nearTokenFactoryAccount"; "ethProverAddress"; "ethLockerAbiPath";
    "ethLockerBinPath"; "ethGasMultiplier"].
Definition InitEthErc20_params : list string := [
    "ethNodeUrl"; "ethMasterSk"; "ethErc20AbiPath"; "ethErc20BinPath"; "ethGasMultiplier"].
Definition ethToNearFindProof_params : list string := [
    "lockedEventRaw"; "ethNodeUrl"].
Definition TransferETHERC20ToNear_params : list string := [
    "parent"; "amount"; "ethSenderSk"; "nearReceiverAccount"; "nearMasterAccount"; "nearNetworkId";
    "nearNodeUrl"; "nearMasterSk"; "nearTokenFactoryAccount"; "nearClientAccount"; "nearErc20Account";
    "ethNodeUrl"; "ethErc20AbiPath"; "ethErc20Address"; "ethLockerAbiPath"; "ethLockerAddress"].
Definition TransferEthERC20FromNear_params : list string := [
    "parent"; "amount"; "nearSenderAccount"; "ethReceiverAddress"; "nearNetworkId"; "nearNodeUrl";
    "nearSenderSk"; "nearErc20Account"; "ethNodeUrl"; "ethMasterSk"; "ethClientAbiPath"; "ethClientAddress";
    "ethProverAbiPath"; "ethProverAddress"; "ethLockerAbiPath"; "ethLockerAddress"; "ethErc20AbiPath";
    "ethErc20Address"; "ethGasMultiplier"].
Definition mintErc20_params : list string := [
    "ethAccountAddress"; "amount"; "ethNodeUrl"; "ethErc20Address"; "ethErc20AbiPath"].
Definition getAddressBySecretKey_params : list string := [
    "ethSecretKey"; "ethNodeUrl"].
Definition getErc20Balance_params : list string := [
    "ethAccountAddress"; "ethNodeUrl"; "ethErc20Address"; "ethErc20AbiPath"].
Definition getClientBlockHeightHash_params : list string := [
    "ethNodeUrl"; "ethClientAddress"; "ethClientAbiPath"; "ethMasterAccount"].
Definition ethToNearApprove_params : list string := [
    "ethAccountAddress"; "amount"; "ethNodeUrl"; "ethErc20Address"; "ethErc20AbiPath"; "ethLockerAddress"].
Definition ethToNearLock_params : list string := [
    "ethAccountAddress"; "amount"; "nearAccountName"; "ethNodeUrl"; "ethErc20Address"; "ethLockerAbiPath";
    "ethLockerAddress"].
Definition nearToEthUnlock_params : list string := [
    "blockHeight"; "proof"; "ethNodeUrl"; "ethMasterSk"; "ethLockerAddress"; "ethLockerAbiPath";
    "ethGasMultiplier"].
Definition DangerSubmitInvalidNearBlock_params : list string := [
    "nearNodeUrl"; "nearNetworkId"; "ethNodeUrl"; "ethMasterSk"; "ethClientAbiPath"; "ethClientAddress";
    "ethGasMultiplier"; "near2ethRelayMinDelay"; "near2ethRelayMaxDelay"; "near2ethRelayErrorDelay"].
Definition DangerDeployMyERC20_params : list string := [
    "ethNodeUrl"; "ethMasterSk"; "ethErc20AbiPath"; "ethGasMultiplier"].
Definition ETHDump_params : list string := [
    "path"; "startBlock"; "endBlock"; "ethNodeUrl"].
Definition NearDump_params : list string := [
    "path"; "numBlocks"; "nearNodeUrl"].
(** [command._name] *)
Definition StopManagedProcessCommand_params : list string := ["_name"].

(** ** The commands

    Their path, their positional arguments, their own options, the properties
    that their action adds from the positional arguments, the parameters of the
    handler, and the declared options that [addOptions] registers. *)

Record command := mkCommand {
  cm_path : list string;
  cm_arguments : list string;
  cm_flags : list string;
  cm_given : list string;
  cm_reads : list string;
  cm_options : list string
}.

(** The general-purpose commands; [clean] registers no options. *)
Definition general_commands : list command := [
  mkCommand ["clean"] [] [] [] [] [];
  mkCommand ["prepare"] []
    [] [] PrepareCommand_params [
      "core-src"];
  mkCommand ["status"] []
    [] [] StatusCommand_params [
      "near-network-id"; "near-node-url"; "near-master-account"; "near-master-sk"; "near-client-account";
      "near-client-sk"; "near-prover-account"; "near-prover-sk"; "eth-node-url"; "eth-master-sk"]
].

(** [start] *)
Definition start_commands : list command := [
  mkCommand ["start"; "near-node"] [] [] [] [] [];
  mkCommand ["start"; "ganache"] [] [] [] [] [];
  mkCommand ["start"; "eth2near-relay"] []
    [] [] StartEth2NearRelayCommand_params [
      "near-master-account"; "near-master-sk"; "near-client-account"; "near-network-id"; "near-node-url";
      "eth-node-url"; "daemon"];
  mkCommand ["start"; "near2eth-relay"] []
    [] [] StartNear2EthRelayCommand_params [
      "eth-node-url"; "eth-master-sk"; "near-node-url"; "near-network-id"; "eth-client-abi-path";
      "eth-client-address"; "near2eth-relay-min-delay"; "near2eth-relay-max-delay";
      "near2eth-relay-error-delay"; "eth-gas-multiplier"; "daemon"];
  mkCommand ["start"; "bridge-watchdog"] []
    [] [] StartWatchdogCommand_params [
      "eth-node-url"; "eth-master-sk"; "eth-client-abi-path"; "eth-client-address"; "watchdog-delay";
      "watchdog-error-delay"; "daemon"]
].

(** [stop] *)
Definition stop_commands : list command := [
  mkCommand ["stop"; "all"] [] [] [] StopManagedProcessCommand_params [];
  mkCommand ["stop"; "near-node"] [] [] [] StopManagedProcessCommand_params [];
  mkCommand ["stop"; "ganache"] [] [] [] StopManagedProcessCommand_params [];
  mkCommand ["stop"; "eth2near-relay"] [] [] [] StopManagedProcessCommand_params [];
  mkCommand ["stop"; "near2eth-relay"] [] [] [] StopManagedProcessCommand_params [];
  mkCommand ["stop"; "bridge-watchdog"] [] [] [] StopManagedProcessCommand_params []
].

(** The contracts of the bridge. *)
Definition init_commands : list command := [
  mkCommand ["init-near-contracts"] []
    [] [] InitNearContracts_params [
      "near-network-id"; "near-node-url"; "eth-node-url"; "near-master-account"; "near-master-sk";
      "near-client-account"; "near-client-sk"; "near-client-contract-path"; "near-client-init-balance";
      "near-client-validate-ethash"; "near-client-trusted-signer"; "near-prover-account"; "near-prover-sk";
      "near-prover-contract-path"; "near-prover-init-balance"];
  mkCommand ["init-eth-ed25519"] []
    [] [] InitEthEd25519_params [
      "eth-node-url"; "eth-master-sk"; "eth-ed25519-abi-path"; "eth-ed25519-bin-path"; "eth-gas-multiplier"];
  mkCommand ["init-eth-client"] []
    [] [] InitEthClient_params [
      "eth-node-url"; "eth-master-sk"; "eth-client-abi-path"; "eth-client-bin-path"; "eth-ed25519-address";
      "eth-client-lock-eth-amount"; "eth-client-lock-duration"; "eth-client-replace-duration";
      "eth-gas-multiplier"];
  mkCommand ["init-eth-prover"] []
    [] [] InitEthProver_params [
      "eth-node-url"; "eth-master-sk"; "eth-prover-abi-path"; "eth-prover-bin-path"; "eth-client-address";
      "eth-gas-multiplier"]
].

(** The token contracts and the proof of a lock. *)
Definition user_commands : list command := [
  mkCommand ["init-near-token-factory"] []
    [] [] InitNearTokenFactory_params [
      "near-node-url"; "near-network-id"; "near-master-account"; "near-master-sk"; "near-prover-account";
      "near-token-factory-account"; "near-token-factory-sk"; "near-token-factory-contract-path";
      "near-token-factory-init-balance"; "eth-locker-address"; "eth-erc20-address"];
  mkCommand ["deploy-token"] ["<token_name>"; "<eth_token_address>"]
    [] ["tokenName"; "ethTokenAddress"] DeployToken_params [
      "near-node-url"; "near-network-id"; "near-master-account"; "near-master-sk";
      "near-token-factory-account"; "near-token-factory-sk"];
  mkCommand ["init-eth-locker"] []
    [] [] InitEthLocker_params [
      "near-token-factory-account"; "eth-node-url"; "eth-master-sk"; "eth-locker-abi-path";
      "eth-locker-bin-path"; "eth-prover-address"; "eth-gas-multiplier"];
  mkCommand ["init-eth-erc20"] []
    [] [] InitEthErc20_params [
      "eth-node-url"; "eth-master-sk"; "eth-erc20-abi-path"; "eth-erc20-bin-path"; "eth-gas-multiplier"];
  mkCommand ["eth-to-near-find-proof"] ["<locked_event>"]
    [] ["lockedEventRaw"] ethToNearFindProof_params [
      "eth-node-url"]
].

(** [TESTING]: the transfers. *)
Definition transfer_commands : list command := [
  mkCommand ["TESTING"; "transfer-eth-erc20-to-near"] []
    ["amount"; "eth-sender-sk"; "near-receiver-account"; "token-name"] [] TransferETHERC20ToNear_params [
      "eth-erc20-address"; "near-erc20-account"; "eth-node-url"; "eth-erc20-abi-path"; "eth-locker-address";
      "eth-locker-abi-path"; "near-node-url"; "near-network-id"; "near-token-factory-account";
      "near-client-account"; "near-master-account"; "near-master-sk"];
  mkCommand ["TESTING"; "transfer-eth-erc20-from-near"] []
    ["amount"; "near-sender-account"; "near-sender-sk"; "eth-receiver-address"; "token-name"] [] TransferEthERC20FromNear_params [
      "eth-erc20-address"; "near-erc20-account"; "near-node-url"; "near-network-id";
      "near-token-factory-account"; "eth-node-url"; "eth-master-sk"; "eth-erc20-abi-path";
      "eth-locker-address"; "eth-locker-abi-path"; "eth-client-abi-path"; "eth-client-address";
      "eth-prover-abi-path"; "eth-prover-address"; "eth-gas-multiplier"]
].

(** [TESTING]: the adapter. *)
Definition adapter_commands : list command := [
  mkCommand ["TESTING"; "mint-erc20-tokens"] ["<eth_account_address>"; "<amount>"; "<token_name>"]
    [] ["ethAccountAddress"; "amount"] mintErc20_params [
      "eth-node-url"; "eth-erc20-address"; "eth-erc20-abi-path"];
  mkCommand ["TESTING"; "get-account-address"] ["<eth_secret_key>"]
    [] ["ethSecretKey"] getAddressBySecretKey_params [
      "eth-node-url"];
  mkCommand ["TESTING"; "get-erc20-balance"] ["<eth_account_address>"; "<token_name>"]
    [] ["ethAccountAddress"] getErc20Balance_params [
      "eth-node-url"; "eth-erc20-address"; "eth-erc20-abi-path"];
  mkCommand ["TESTING"; "get-client-block-height-hash"] []
    [] [] getClientBlockHeightHash_params [
      "eth-node-url"; "eth-master-sk"; "eth-client-abi-path"; "eth-client-address"];
  mkCommand ["TESTING"; "eth-to-near-approve"] ["<eth_account_address>"; "<amount>"; "<token_name>"]
    [] ["ethAccountAddress"; "amount"] ethToNearApprove_params [
      "eth-node-url"; "eth-erc20-address"; "eth-erc20-abi-path"; "eth-locker-address"];
  mkCommand ["TESTING"; "eth-to-near-lock"] ["<eth_account_address>"; "<near_account_name>"; "<amount>"; "<token_name>"]
    [] ["ethAccountAddress"; "nearAccountName"; "amount"] ethToNearLock_params [
      "eth-node-url"; "eth-erc20-address"; "eth-locker-abi-path"; "eth-locker-address"];
  mkCommand ["TESTING"; "near-to-eth-unlock"] ["<block_height>"; "<proof>"]
    [] ["blockHeight"; "proof"] nearToEthUnlock_params [
      "eth-node-url"; "eth-master-sk"; "eth-locker-abi-path"; "eth-locker-address"; "eth-gas-multiplier"]
].

(** [DANGER] *)
Definition danger_commands : list command := [
  mkCommand ["DANGER"; "submit_invalid_near_block"] []
    [] [] DangerSubmitInvalidNearBlock_params [
      "eth-node-url"; "eth-master-sk"; "near-node-url"; "near-network-id"; "eth-client-abi-path";
      "eth-client-address"; "near2eth-relay-min-delay"; "near2eth-relay-max-delay";
      "near2eth-relay-error-delay"; "eth-gas-multiplier"];
  mkCommand ["DANGER"; "deploy_test_erc20"] []
    [] [] DangerDeployMyERC20_params [
      "eth-node-url"; "eth-master-sk"; "eth-erc20-abi-path"; "eth-gas-multiplier"]
].

(** The dumps. *)
Definition dump_commands : list command := [
  mkCommand ["eth-dump"] ["<kind_of_data>"]
    ["path"; "start-block"; "end-block"] [] ETHDump_params [
      "eth-node-url"];
  mkCommand ["near-dump"] ["<kind_of_data>"]
    ["path"; "num-blocks"] [] NearDump_params [
      "near-node-url"]
].

Definition commands : list command :=
  general_commands ++ start_commands ++ stop_commands ++ init_commands ++ user_commands ++
  transfer_commands ++ adapter_commands ++ danger_commands ++ dump_commands.

(** The name of the property under which the package [commander] hands over the
    value of an option. *)
Class Commander := attributeName : string -> string.

(** An option of several words becomes one name in camel case. *)
Definition upper_ascii (c : ascii) : ascii :=
  let n := nat_of_ascii c in
  if ((97 <=? n) && (n <=? 122))%nat then ascii_of_nat (n - 32) else c.
Fixpoint camel_from (up : bool) (s : string) : string :=
  match s with
  | EmptyString => EmptyString
  | String c s =>
      if Ascii.eqb c "-" then camel_from true s
      else String (if up then upper_ascii c else c) (camel_from false s)
  end.
Definition camel (s : string) : string := camel_from false s.
(** The documented rule, for the options that do not negate another one. *)
Class CommanderLaws `{Commander} : Prop :=
  attributeName_camel name : startsWith "no-" name = false -> attributeName name = camel name.

Section cli.
Context `{Commander}.

(** The argument of a handler is the command itself, with the values of the
    options as properties, and what the action adds. *)
Definition provided (cmd : command) : list string :=
  ["parent"; "_name"] ++ cm_given cmd ++ map attributeName (cm_flags cmd ++ cm_options cmd).

(** The parameters of the handler that are [undefined] whatever is given on the
    command line. *)
Definition missing (cmd : command) : list string :=
  filter (fun f => f ∉ provided cmd) (cm_reads cmd).
End cli.

(** ** The actions of the file *)

Section actions.
Context `{ChangeCase}.

(** [if (tokenName) {...}] of the two transfers *)
Definition token_args (tokenName : string) (args : list (string * jsval)) (c : config)
    : outcome (list (string * jsval)) :=
  if truthy tokenName then
    address ← getParam ("eth-" +:+ tokenName +:+ "-address") c;
    account ← getParam ("near-" +:+ tokenName +:+ "-account") c;
    Ok (set_prop "nearErc20Account" account (set_prop "ethErc20Address" address args))
  else Ok args.

(** [if (tokenName) {...}] of the commands of the adapter *)
Definition token_address_args (tokenName : string) (args : list (string * jsval)) (c : config)
    : outcome (list (string * jsval)) :=
  if truthy tokenName then
    address ← getParam ("eth-" +:+ tokenName +:+ "-address") c;
    Ok (set_prop "ethErc20Address" address args)
  else Ok args.
End actions.

(** [changeCase.capitalCase] *)
Class CapitalCase := capitalCase : string -> string.

Section deploy.
Context {St N : Type} `{NearAccounts N} `{Files N} `{KeyPairs} `{CapitalCase}.
Abbreviation M := (M St N event).

(** The properties under which the account and the address of a token are
    returned. *)
Definition token_account_key (tokenName : string) : string := "near" +:+ capitalCase tokenName +:+ "Account".
Definition token_address_key (tokenName : string) : string := "eth" +:+ capitalCase tokenName +:+ "Address".

(** The action of [deploy-token]: [DeployToken.execute] never returns nothing. *)
Definition deploy_token (tokenName ethTokenAddress : string) (args : list (string * jsval))
    : M (list (string * jsval)) :=
  '(nearTokenFactorySk, nearTokenAccount, _) ←
    DeployToken ethTokenAddress (opt "nearMasterAccount" args) (opt "nearMasterSk" args)
      (opt "nearTokenFactoryAccount" args) (opt "nearTokenFactorySk" args);
  mret [(token_account_key tokenName, VStr nearTokenAccount);
        (token_address_key tokenName, VStr ethTokenAddress);
        ("nearTokenFactorySk", VStr nearTokenFactorySk)].
End deploy.
