(* ===== verification/CliTheorems.v ===== *)
(** * Theorems about the command line *)

From Stdlib Require Import Ascii Strings.Byte.
From stdpp Require Import base list strings gmap.
From Stdlib Require Import ZArith Lia.
From S2P Require Import Prelude Js Effects Robust NearTx Accounts InitContracts Config ConfigTheorems Cli.
Local Open Scope Z_scope.

(** ** The declared options *)

Definition option_names : list string := Eval vm_compute in map od_name (declared_options "/").

Lemma declared_names dir : map od_name (declared_options dir) = option_names.
Proof. reflexivity. Qed.

Section declared.
Context `{ChangeCase}.

(** Declarations add up: a declared name stays declared. *)
Lemma declare_list_lookup ds : forall c name,
  name ∈ map od_name ds \/ is_Some (assoc name (paramDeclarations c)) ->
  is_Some (assoc name (paramDeclarations
    (fold_left (fun c o => declareOption (od_name o) (od_description o) (od_default o) (od_noConfig o) c) ds c))).
Proof.
  induction ds as [|d ds IH]; intros c name; simpl; [by intros [?%elem_of_nil|]|].
  intros Hn. apply IH. unfold declareOption. cbn [paramDeclarations]. rewrite assoc_set_prop.
  destruct (String.eqb_spec name (od_name d)) as [->|Hne]; [right; by eexists|].
  destruct Hn as [[?|?]%elem_of_cons|?]; [done|by left|by right].
Qed.

Lemma add_option_ok c o : is_Some (assoc o (paramDeclarations c)) ->
  exists x, add_option c o = Ok x /\ co_name x = o.
Proof. intros [d Hd]. unfold add_option. rewrite Hd. by eexists. Qed.

Lemma add_options_ok c options : Forall (fun o => is_Some (assoc o (paramDeclarations c))) options ->
  exists opts, addOptions options c = Ok opts /\ map co_name opts = options.
Proof.
  unfold addOptions. induction 1 as [|o options (x & Hx & Hxn)%add_option_ok _ (opts & IH & Hn)]; [by exists []|].
  exists (x :: opts). simpl. rewrite Hx. simpl. rewrite IH. split; [done|]. by rewrite Hxn, Hn.
Qed.
End declared.

Lemma commands_declared :
  Forall (fun cmd => Forall (fun o => o ∈ option_names) (cm_options cmd)) commands.
Proof. compute_done. Qed.

(** The declarations of the file and its commands fit together: whatever the
    configuration file holds, registering the options of a command succeeds,
    with one option for each name, no name is registered twice by a command,
    and no two commands have the same path. *)
Theorem commands_register `{ChangeCase} (dir : string) (c : config) :
  NoDup (map cm_path commands) /\
  Forall (fun cmd => NoDup (cm_flags cmd ++ cm_options cmd) /\
    exists opts, addOptions (cm_options cmd) (declare_all dir c) = Ok opts /\ map co_name opts = cm_options cmd)
    commands.
Proof.
  split; [compute_done|]. apply Forall_and. split; [compute_done|].
  eapply Forall_impl; [apply commands_declared|]. intros cmd Hd. apply add_options_ok.
  eapply Forall_impl; [exact Hd|]. intros o Ho. apply declare_list_lookup. left. by rewrite declared_names.
Qed.

(** ** The parameters of the handlers *)

(** What a handler gets, with the documented names of the properties. *)
Definition provided_camel (cmd : command) : list string :=
  ["parent"; "_name"] ++ cm_given cmd ++ map camel (cm_flags cmd ++ cm_options cmd).

Lemma no_negated_options :
  Forall (fun cmd => Forall (fun o => startsWith "no-" o = false) (cm_flags cmd ++ cm_options cmd)) commands.
Proof. compute_done. Qed.

Lemma missing_camel `{Commander} `{!CommanderLaws} cmd : cmd ∈ commands ->
  missing cmd = filter (fun f => f ∉ provided_camel cmd) (cm_reads cmd).
Proof.
  intros Hin. unfold missing. enough (Hp : provided cmd = provided_camel cmd) by by rewrite Hp.
  unfold provided, provided_camel. do 2 f_equal.
  pose proof (proj1 (Forall_forall _ _) no_negated_options cmd Hin) as Hn.
  apply map_ext_in. intros o Ho%list_elem_of_In. apply attributeName_camel.
  by apply (proj1 (Forall_forall _ _) Hn).
Qed.

(** Every parameter of every handler is a value of the command line but three:
    [prepare] does not register [nearup-src], [init-near-contracts] registers
    [near-client-validate-ethash] while its handler reads another spelling, and
    [get-client-block-height-hash] reads an account that no option gives. *)
Lemma handlers_missing_parameters `{Commander} `{!CommanderLaws} :
  filter (fun p => p.2 <> []) (map (fun cmd => (cm_path cmd, missing cmd)) commands) =
    [(["prepare"], ["nearupSrc"]); (["init-near-contracts"], ["nearClientValidateEthhash"]);
     (["TESTING"; "get-client-block-height-hash"], ["ethMasterAccount"])].
Proof.
  replace (map (fun cmd => (cm_path cmd, missing cmd)) commands) with
    (map (fun cmd => (cm_path cmd, filter (fun f => f ∉ provided_camel cmd) (cm_reads cmd))) commands).
  - vm_compute. reflexivity.
  - apply map_ext_in. intros cmd Hin%list_elem_of_In. by rewrite (missing_camel cmd Hin).
Qed.

(** ** Deployed tokens *)

(** What [deploy_token] returns. *)
Definition token_values `{CapitalCase} (tokenName ethTokenAddress factoryAccount sk : string) : list (string * jsval) :=
  [(token_account_key tokenName, VStr (remove0x ethTokenAddress +:+ "." +:+ factoryAccount));
   (token_address_key tokenName, VStr ethTokenAddress); ("nearTokenFactorySk", VStr sk)].

Lemma deploy_token_ok {St N} `{NearAccounts N} `{Files N} `{KeyPairs} `{CapitalCase}
    (tokenName ethTokenAddress : string) (args kvs : list (string * jsval)) (w w' : world St N event) :
  deploy_token tokenName ethTokenAddress args w = (w', Ok kvs) ->
  kvs = token_values tokenName ethTokenAddress (opt "nearTokenFactoryAccount" args)
    (key_or_master (opt "nearTokenFactorySk" args) (opt "nearMasterSk" args)).
Proof.
  unfold deploy_token. intros ([[sk acct] addr] & w1 & Hd & Hret)%bind_ok. injection Hret as _ <-.
  unfold DeployToken in Hd. do 5 (apply bind_ok in Hd as (? & ? & _ & Hd)). by injection Hd as _ <- <- _.
Qed.

(** C40: a token that [deploy-token] has deployed is the one that the transfers and
    the other commands use under the same name: in every later process the
    address and the account that its handler gets are those of the deployment.
    The hypotheses on [change-case] say that the returned names, in parameter
    case, are the names that the transfers look up. *)
Theorem deployed_token_found {St N} `{NearAccounts N} `{Files N} `{KeyPairs} `{ChangeCase} `{CapitalCase}
    (tokenName ethTokenAddress : string) (args args' kvs : list (string * jsval)) (w w' : world St N event)
    (c : config) :
  truthy tokenName = true ->
  paramCase (token_account_key tokenName) = "near-" +:+ tokenName +:+ "-account" ->
  paramCase (token_address_key tokenName) = "eth-" +:+ tokenName +:+ "-address" ->
  NoDup (map fst (paramValues c)) -> NoDup (map (paramCase ∘ fst) kvs) ->
  distinct_keys (map fst (paramValues c) ++ map (paramCase ∘ fst) kvs) ->
  deploy_token tokenName ethTokenAddress args w = (w', Ok kvs) ->
  let later := restart (runAction (Some kvs) c) in
  exists account,
    account = remove0x ethTokenAddress +:+ "." +:+ opt "nearTokenFactoryAccount" args /\
    token_args tokenName args' later =
      Ok (set_prop "nearErc20Account" (VStr account) (set_prop "ethErc20Address" (VStr ethTokenAddress) args')) /\
    token_address_args tokenName args' later = Ok (set_prop "ethErc20Address" (VStr ethTokenAddress) args').
Proof.
  intros Ht Hacc Hadd Hnd Hkvs Hdist ->%deploy_token_ok later. eexists. split; [reflexivity|].
  assert (Hget : forall k s, (k, VStr s) ∈ token_values tokenName ethTokenAddress (opt "nearTokenFactoryAccount" args)
      (key_or_master (opt "nearTokenFactorySk" args) (opt "nearMasterSk" args)) ->
    getParam (paramCase k) later = Ok (VStr s)).
  { intros k s Hin. unfold getParam, later. by rewrite (action_saved c _ k (VStr s) Hnd Hkvs Hdist Hin). }
  assert (H1' := Hget (token_account_key tokenName) _ ltac:(by left)).
  assert (H2' := Hget (token_address_key tokenName) _ ltac:(by right; left)).
  rewrite Hacc in H1'. rewrite Hadd in H2'.
  unfold token_args, token_address_args. rewrite Ht, H2'. simpl. by rewrite H1'.
Qed.

(** ** Witnesses *)

#[local] Instance cli_accounts : NearAccounts unit := {|
  near_fetchState _ n := (n, inr tt);
  near_createAccount _ _ _ _ n := (n, inr tt);
  near_deployContract _ _ n := (n, inr tt);
  near_getAccessKeys _ n := (n, inr ["key"]);
  near_change _ _ _ _ _ n := (n, inr tt)
|}.
#[local] Instance cli_files : Files unit := fun _ n => (n, inr []).
#[local] Instance cli_pairs : KeyPairs := fun _ => inr "key".
Definition cli_kebabs := ["near-dai-account"; "eth-dai-address"; "near-token-factory-sk"].
Definition cli_camels := ["nearDaiAccount"; "ethDaiAddress"; "nearTokenFactorySk"].
#[local] Instance cli_cases : ChangeCase := {|
  paramCase := toy_case cli_camels cli_kebabs;
  snakeCase := id;
  camelCase := toy_case cli_kebabs cli_camels;
  constantCase := id
|}.
#[local] Instance cli_capital : CapitalCase := toy_case ["dai"] ["Dai"].
Definition dai_args : list (string * jsval) :=
  [("nearMasterAccount", VStr "node0"); ("nearMasterSk", VStr "sk"); ("nearTokenFactoryAccount", VStr "factory")].
Definition dai_values : list (string * jsval) :=
  [("nearDaiAccount", VStr "6b17.factory"); ("ethDaiAddress", VStr "0x6b17"); ("nearTokenFactorySk", VStr "sk")].
Definition dai_world : world unit unit event := mkWorld tt tt [].

Lemma deployed_token_found_witness :
  let later := restart (runAction (Some dai_values) empty_config) in
  (deploy_token "dai" "0x6b17" dai_args dai_world).2 = Ok dai_values /\
  exists account, account = remove0x "0x6b17" +:+ "." +:+ opt "nearTokenFactoryAccount" dai_args /\
    token_args "dai" [] later =
      Ok (set_prop "nearErc20Account" (VStr account) (set_prop "ethErc20Address" (VStr "0x6b17") [])) /\
    token_address_args "dai" [] later = Ok (set_prop "ethErc20Address" (VStr "0x6b17") []).
Proof.
  intros later. split; [vm_compute; reflexivity|].
  apply (deployed_token_found "dai" "0x6b17" dai_args [] dai_values dai_world
    (deploy_token "dai" "0x6b17" dai_args dai_world).1 empty_config).
  - reflexivity.
  - reflexivity.
  - reflexivity.
  - apply NoDup_nil_2.
  - apply (bool_decide_unpack _). vm_compute. exact I.
  - intros n n' Hn Hn'. vm_compute in Hn, Hn'.
    repeat (apply elem_of_cons in Hn as [->|Hn]; [|try by apply elem_of_nil in Hn]);
    repeat (apply elem_of_cons in Hn' as [->|Hn']; [|try by apply elem_of_nil in Hn']); vm_compute; congruence.
  - vm_compute. reflexivity.
Defined.

(** The default paths, for a command line that is installed under [/app]. *)
Example default_contract_path :
  path_join [LIBS_SOL_SRC_DIR "/app/cli"; "nearbridge/dist/NearBridge.full.abi"]
  = "/app/node_modules/rainbow-bridge-sol/nearbridge/dist/NearBridge.full.abi".
Proof. vm_compute. reflexivity. Qed.
