(* ===== verification/TransferLog.v ===== *)
(** * The log of a token transfer

    [recordTransferLog], [loadTransferLog] and [parseBuffer], which the two
    transfer programs share: the file from which an interrupted transfer is
    meant to be resumed.  The text of the file is represented by the value that
    [JSON.parse] gives for it. *)

From Stdlib Require Import Ascii Strings.Byte.
From stdpp Require Import base list strings gmap.
From Stdlib Require Import ZArith Lia.
From S2P Require Import Prelude Js Borshify Effects Robust NearTx.
Local Open Scope Z_scope.

(** [BN.prototype.toJSON] *)
Class BNJson := bn_toJSON : Z -> string.

(** [JSON.parse(JSON.stringify(v))]: a [Buffer] becomes an object, a big number
    a string; [undefined] is dropped from objects and is [null] in arrays. *)
Fixpoint json_image `{BNJson} (v : jsval) : jsval :=
  match v with
  | VUndef => VNull
  | VBN z => VStr (bn_toJSON z)
  | VBytes bs =>
      VObj [("type", VStr "Buffer"); ("data", VArr (map (fun b => VNum (Z_of_byte b)) bs))]
  | VArr l => VArr (map json_image l)
  | VObj props =>
      VObj ((fix go (props : list (string * jsval)) :=
        match props with
        | [] => []
        | (k, VUndef) :: props => go props
        | (k, x) :: props => (k, json_image x) :: go props
        end) props)
  | VNull | VNum _ | VBool _ | VStr _ => v
  end.

(** The byte that a number of an array given to [Buffer.from] becomes. *)
Definition to_uint8 (v : jsval) : byte :=
  match v with
  | VNum z => byte_of_Z (z mod 256)
  | VBool true => x01
  | VStr s => byte_of_Z (default 0 (decimal s) mod 256)
  | _ => x00
  end.

(** [Buffer.from(data)] on a value read from JSON *)
Definition Buffer_from (data : jsval) : outcome jsval :=
  match data with
  | VArr l => Ok (VBytes (map to_uint8 l))
  | VStr s => Ok (VBytes (utf8 s))
  | VBytes bs => Ok (VBytes bs)
  | _ => Throw (TypeError "The first argument must be of type string or an instance of Buffer")
  end.

(** [obj[i].type === 'Buffer'] *)
Definition is_Buffer (props : list (string * jsval)) : bool :=
  match assoc "type" props with Some (VStr s) => String.eqb s "Buffer" | _ => false end.

(** [parseBuffer(obj)]; [parse_item] is the body of its loop on the value of
    one property. *)
Fixpoint parseBuffer (obj : jsval) : outcome jsval :=
  let parse_item x :=
    match x with
    | VObj props =>
        if is_Buffer props then Buffer_from (default VUndef (assoc "data" props)) else parseBuffer x
    | VArr _ => parseBuffer x
    | _ => Ok x
    end in
  match obj with
  | VArr l => l' ← mapM_out parse_item l; Ok (VArr l')
  | VObj props =>
      props' ← mapM_out (fun p => match p with (k, x) => y ← parse_item x; Ok (k, y) end) props;
      Ok (VObj props')
  | _ => Ok obj
  end.

(** The content of the file, when there is one. *)
Class LogSlot (St : Type) := {
  log_get : St -> option jsval;
  log_set : jsval -> St -> St
}.
(** It is a file of its own: only [recordTransferLog] changes it. *)
Class LogLaws (St : Type) `{LogSlot St} `{KeySlot St} := {
  log_get_set j s : log_get (log_set j s) = Some j;
  log_get_key k s : log_get (k_set k s) = log_get s
}.

(** [a === b]: objects are equal only to themselves, and the two sides are never
    the same object here. *)
Definition strict_eq (a b : jsval) : bool :=
  match a, b with
  | VUndef, VUndef | VNull, VNull => true
  | VNum x, VNum y => x =? y
  | VBool x, VBool y => eqb x y
  | VStr x, VStr y => String.eqb x y
  | _, _ => false
  end.

(** [for (const x of v)] *)
Definition iterate (v : jsval) : outcome (list jsval) :=
  match js_elems v with
  | Some l => Ok l
  | None => Throw (TypeError "object is not iterable")
  end.

(** [v.a.b] *)
Definition js_path (v : jsval) (path : list string) : outcome jsval :=
  fold_left (fun o k => x ← o; js_get x k) path (Ok v).

(** A stage sees the fields of the log as its arguments: [{...transferLog}]. *)
Definition field (k : string) (log : jsval) : jsval :=
  match log with VObj props => get_prop k props | _ => VUndef end.

(** [transferLog.finished === stage] *)
Definition finished (stage : jsval) (transferLog : jsval) : bool :=
  strict_eq (field "finished" transferLog) stage.

Section log.
Context {St N : Type} `{LogSlot St} `{Disk N} `{BNJson}.
Abbreviation M := (M St N event).

Definition recordTransferLog (obj : jsval) : M unit :=
  rpc (disk_write obj) (EvWriteLog obj);;
  s ← get_store;
  put_store (log_set (json_image obj) s).

(** What [loadTransferLog] makes of the content of the file: a file that is not
    there or is not readable gives the empty object. *)
Definition read_log (content : option jsval) : jsval :=
  match content with
  | None => VObj []
  | Some j =>
      match parseBuffer (if js_truthy j then j else VObj []) with
      | Ok log => log
      | _ => VObj []
      end
  end.
Definition loadTransferLog : M jsval := s ← get_store; mret (read_log (log_get s)).

Definition showRetryAndExit {A} : M A := exit 1.

(** One [if] of [execute] in a transfer: run the stage and reload the log. *)
Definition stage (name transferLog : jsval) (body : jsval -> M unit) : M jsval :=
  if finished name transferLog then body transferLog;; loadTransferLog else mret transferLog.
End log.

(** ** What survives a round through the file *)

(** Plain data: no [undefined], no big numbers, and no object that looks like a
    printed [Buffer]. *)
Fixpoint plain (v : jsval) : bool :=
  match v with
  | VUndef | VBN _ => false
  | VNull | VNum _ | VBool _ | VStr _ | VBytes _ => true
  | VArr l => forallb plain l
  | VObj props =>
      negb (is_Buffer props) &&
      forallb (fun p => match p with (_, x) => plain x end) props
  end.

(** Induction on a value and the values inside it. *)
Lemma jsval_nested_ind (P : jsval -> Prop) :
  P VUndef -> P VNull -> (forall z, P (VNum z)) -> (forall z, P (VBN z)) -> (forall b, P (VBool b)) ->
  (forall s, P (VStr s)) -> (forall bs, P (VBytes bs)) ->
  (forall l, Forall P l -> P (VArr l)) -> (forall props, Forall (fun p => P p.2) props -> P (VObj props)) ->
  forall v, P v.
Proof.
  intros H1 H2 H3 H4 H5 H6 H7 HA HO.
  fix go 1. intros [| |z|z|b|str|bs|l|props];
    [exact H1|exact H2|apply H3|apply H4|apply H5|apply H6|apply H7| |].
  - apply HA. induction l as [|x l IH]; constructor; [apply go|exact IH].
  - apply HO. induction props as [|[k x] props IH]; constructor; [apply go|exact IH].
Qed.

(** One property of a plain object, printed and parsed. *)
Definition parse_item (x : jsval) : outcome jsval :=
  match x with
  | VObj props =>
      if is_Buffer props then Buffer_from (default VUndef (assoc "data" props)) else parseBuffer x
  | VArr _ => parseBuffer x
  | _ => Ok x
  end.

Section roundtrip.
Context `{BNJson}.

Lemma map_to_uint8 bs : map to_uint8 (map (fun b => VNum (Z_of_byte b)) bs) = bs.
Proof.
  induction bs as [|b bs IH]; [done|]. simpl. rewrite IH. f_equal.
  pose proof (Z_of_byte_range b). rewrite Z.mod_small by lia. apply byte_of_Z_of_byte.
Qed.

(** The properties of the printed object. *)
Definition json_props (props : list (string * jsval)) : list (string * jsval) :=
  match json_image (VObj props) with VObj ps => ps | _ => [] end.
Lemma json_props_cons k x props :
  plain x = true -> json_props ((k, x) :: props) = (k, json_image x) :: json_props props.
Proof. by destruct x. Qed.

Lemma assoc_json k props : forallb (fun p => match p with (_, x) => plain x end) props = true ->
  assoc k (json_props props) = json_image <$> assoc k props.
Proof.
  induction props as [|[k' x] props IH]; [done|]. intros [Hx Hp]%andb_true_iff.
  rewrite (json_props_cons k' x props Hx). simpl. destruct (String.eqb k k'); auto.
Qed.

(** A printed object looks like a [Buffer] only when it did before. *)
Lemma is_Buffer_json props : forallb (fun p => match p with (_, x) => plain x end) props = true ->
  is_Buffer (json_props props) = is_Buffer props.
Proof.
  intros Hp. unfold is_Buffer. rewrite (assoc_json "type" props Hp).
  destruct (assoc "type" props) as [t|] eqn:Et; [|done].
  apply assoc_elem, list_elem_of_In in Et. rewrite forallb_forall in Hp. specialize (Hp _ Et).
  by destruct t.
Qed.

Lemma parse_json_item v : plain v = true ->
  parse_item (json_image v) = Ok v /\
  (match v with VArr _ | VObj _ => parseBuffer (json_image v) = Ok v | _ => True end).
Proof.
  induction v as [| | | | | |bs|l IH|props IH] using jsval_nested_ind; intros Hp; try done.
  - split; [|done]. simpl. by rewrite map_to_uint8.
  - assert (Hl : mapM_out parse_item (map json_image l) = Ok l).
    { simpl in Hp. induction IH as [|x l Hx _ IHl]; [done|].
      simpl in Hp. apply andb_true_iff in Hp as [Hpx Hpl]. simpl. by rewrite (proj1 (Hx Hpx)), (IHl Hpl). }
    assert (parseBuffer (json_image (VArr l)) = Ok (VArr l)) as Hb.
    { change (parseBuffer (json_image (VArr l))) with (l' ← mapM_out parse_item (map json_image l); Ok (VArr l')).
      by rewrite Hl. }
    by split.
  - simpl in Hp. apply andb_true_iff in Hp as [Hty Hp].
    assert (Hl : mapM_out (fun p => match p with (k, x) => y ← parse_item x; Ok (k, y) end) (json_props props) = Ok props).
    { clear Hty. induction IH as [|[k x] ps Hx _ IHl]; [done|].
      simpl in Hp. apply andb_true_iff in Hp as [Hpx Hpl].
      rewrite (json_props_cons k x ps Hpx). simpl in *. by rewrite (proj1 (Hx Hpx)), (IHl Hpl). }
    assert (parseBuffer (json_image (VObj props)) = Ok (VObj props)) as Hb.
    { change (parseBuffer (json_image (VObj props))) with
        (props' ← mapM_out (fun p => match p with (k, x) => y ← parse_item x; Ok (k, y) end) (json_props props); Ok (VObj props')).
      by rewrite Hl. }
    split; [|done].
    change (json_image (VObj props)) with (VObj (json_props props)) in *. unfold parse_item.
    rewrite (is_Buffer_json props Hp). by destruct (is_Buffer props).
Qed.

(** A plain object is read back as it was recorded. *)
Lemma read_log_plain props :
  plain (VObj props) = true -> read_log (Some (json_image (VObj props))) = VObj props.
Proof.
  intros Hp. unfold read_log. change (js_truthy (json_image (VObj props))) with true. cbn iota.
  by rewrite (proj2 (parse_json_item _ Hp)).
Qed.
End roundtrip.
