(* ===== verification/ToNear.v ===== *)
(** * The transfer of tokens from Ethereum to NEAR

    [testing/transfer-eth-erc20/to-near.js], with the [EthProofExtractor] of
    [eth2near-block-relay/eth-proof-extractor.js].  The five stages record their
    results in the log of {!TransferLog} and take their input from it.  The
    Ethereum objects and the Merkle trie are third-party code. *)

From Stdlib Require Import Ascii Strings.Byte.
From stdpp Require Import base list strings gmap.
From Stdlib Require Import ZArith Lia.
From S2P Require Import Prelude Js Borsh Borshify Effects Schemas Robust NearTx.
From S2P Require Import Eth2NearRelay Accounts InitContracts TransferLog.
Local Open Scope Z_scope.

(** [Receipt.fromWeb3(r).serialize()], [Log.fromWeb3(l).serialize()],
    [Header.fromWeb3(b).serialize()], [encode(index)], [findPath] for a key in
    the tree made of the given keys and values, [Proof.fromStack(stack)] and
    [rlp.encode] *)
Class EthObjects := {
  receipt_serialize : jsval -> exn + list byte;
  log_serialize : jsval -> exn + list byte;
  header_serialize : jsval -> exn + list byte;
  encode_index : jsval -> exn + list byte;
  trie_findPath : list (list byte * list byte) -> list byte -> exn + jsval;
  Proof_fromStack : jsval -> exn + jsval;
  rlp_encode : jsval -> exn + list byte
}.

(** [new web3.eth.Contract(JSON.parse(abi), address)] and [new BN(amount)] *)
Class ContractLib := {
  web3_contract : list byte -> string -> exn + contract;
  BN_of : string -> exn + Z
}.

Section transfer.
Context {St N actions : Type} `{Clock N} `{EthNode N} `{EthContracts N} `{NearNode N actions} `{KeySlot St}.
Context `{NearAccounts N} `{NearQueries N} `{Files N} `{Disk N} `{LogSlot St} `{BNJson}.
Context `{Web3Utils} `{KeyPairs} `{EthKeys} `{EthObjects} `{ContractLib}.
Context {W : Type} `{BinaryWriter W} `{BNLib} `{HexUtils}.
Abbreviation M := (M St N event).

(** *** [EthProofExtractor] *)

Variable ethNodeUrl : string.

Definition extractReceipt (txHash : jsval) : M jsval := getTransactionReceipt ethNodeUrl txHash.
Definition extractBlock (blockNumber : jsval) : M jsval := getBlock ethNodeUrl blockNumber.

(** The keys and values that are put in the tree. *)
Definition buildTrie (block : jsval) : M (list (list byte * list byte)) :=
  transactions ← lift (t ← js_get block "transactions"; iterate t);
  blockReceipts ← mapM_M (getTransactionReceipt ethNodeUrl) transactions;
  lift (mapM_out (fun receipt =>
    index ← js_get receipt "transactionIndex";
    path ← of_sum (encode_index index);
    serializedReceipt ← of_sum (receipt_serialize receipt);
    Ok (path, serializedReceipt)) blockReceipts).

Definition extractProof (block : jsval) (tree : list (list byte * list byte)) (transactionIndex : jsval)
    : M jsval :=
  key ← lift (of_sum (encode_index transactionIndex));
  stack ← lift (of_sum (trie_findPath tree key));
  number ← lift (js_get block "number");
  blockData ← rpc (eth_getBlock number) (EvGetBlock number);
  header_rlp ← lift (of_sum (header_serialize blockData));
  receiptProof ← lift (of_sum (Proof_fromStack stack));
  mret (VObj [("header_rlp", VBytes header_rlp); ("receiptProof", receiptProof);
              ("txIndex", transactionIndex)]).

(** *** The stages *)

Definition transfer_opts (sender : string) : options := mkOptions sender false 5000000 "".

Definition approve (fuel : nat) (ethERC20Contract : contract) (amount ethSenderAccount ethLockerAddress : string)
    : M unit :=
  catch
    (bn ← lift (of_sum (BN_of amount));
     callContract ethNodeUrl fuel ethERC20Contract "approve" [VStr ethLockerAddress; VBN bn]
       (transfer_opts ethSenderAccount);;
     recordTransferLog (VObj [("finished", VStr "approve")]))
    (fun _ => showRetryAndExit).

Definition lock (fuel : nat) (ethTokenLockerContract : contract)
    (amount ethErc20Address ethSenderAccount nearReceiverAccount : string) : M unit :=
  catch
    (bn ← lift (of_sum (BN_of amount));
     transaction ← callContract ethNodeUrl fuel ethTokenLockerContract "lockToken"
       [VStr ethErc20Address; VBN bn; VStr nearReceiverAccount] (transfer_opts ethSenderAccount);
     lockedEvent ← lift (js_path transaction ["events"; "Locked"]);
     recordTransferLog (VObj [("finished", VStr "lock"); ("lockedEvent", lockedEvent)]))
    (fun _ => showRetryAndExit).

(** The loop over [receipt.logs]: the position of the log and the log. *)
Fixpoint find_log (txLogIndex : Z) (logIndex : outcome jsval) (logs : list jsval)
    : outcome (option (Z * jsval)) :=
  match logs with
  | [] => Ok None
  | receiptLog :: logs =>
      blockLogIndex ← js_get receiptLog "logIndex";
      wanted ← logIndex;
      if strict_eq blockLogIndex wanted then Ok (Some (txLogIndex, receiptLog))
      else find_log (txLogIndex + 1) logIndex logs
  end.

Definition findProof (lockedEvent : jsval) : M unit :=
  txHash ← lift (js_get lockedEvent "transactionHash");
  receipt ← extractReceipt txHash;
  blockNumber ← lift (js_get receipt "blockNumber");
  block ← extractBlock blockNumber;
  tree ← buildTrie block;
  transactionIndex ← lift (js_get receipt "transactionIndex");
  proof ← extractProof block tree transactionIndex;
  found ← lift (logs ← js_get receipt "logs"; l ← iterate logs;
                find_log 0 (js_get lockedEvent "logIndex") l);
  match found with
  | Some (txLogIndex, log) =>
      recordTransferLog (VObj [("finished", VStr "find-proof"); ("proof", proof); ("log", log);
        ("txLogIndex", VNum txLogIndex); ("receipt", receipt); ("lockedEvent", lockedEvent);
        ("block", block)])
  | None => showRetryAndExit
  end.

(** The argument of [deposit]. *)
Definition proof_locker (log proof receipt txLogIndex : jsval) : outcome jsval :=
  logEntryData ← of_sum (log_serialize log);
  receiptIndex ← js_get proof "txIndex";
  receiptData ← of_sum (receipt_serialize receipt);
  headerData ← js_get proof "header_rlp";
  nodes ← (p ← js_get proof "receiptProof"; iterate p);
  encoded ← mapM_out (fun node => of_sum (rlp_encode node)) nodes;
  Ok (VObj [("log_index", txLogIndex); ("log_entry_data", VBytes logEntryData);
    ("receipt_index", receiptIndex); ("receipt_data", VBytes receiptData);
    ("header_data", headerData); ("proof", VArr (map VBytes encoded))]).

Definition block_hash_safe (nearClientAccount : string) (n : jsval) : M jsval :=
  view_method (W := W) client_schema nearClientAccount
    (mkMethod "block_hash_safe" (Some (FName "u64")) (Some (FName "?H256"))) n.

(** [while (true)] until the client contract calls the block safe. *)
Fixpoint wait_safe (fuel : nat) (nearClientAccount : string) (blockNumber : jsval) : M unit :=
  match fuel with
  | O => out_of_fuel
  | S fuel =>
      last ← last_block_number (W := W) nearClientAccount;
      lift (toNumber last);;
      isSafe ← block_hash_safe nearClientAccount blockNumber;
      if js_truthy isSafe then mret tt
      else sleep (f_of_Z 10000);; wait_safe fuel nearClientAccount blockNumber
  end.

Definition waitBlockSafe (fuel : nat) (nearClientAccount : string) (transferLog : jsval) : M unit :=
  proofLocker ← lift (proof_locker (field "log" transferLog) (field "proof" transferLog)
    (field "receipt" transferLog) (field "txLogIndex" transferLog));
  let lockedEvent := field "lockedEvent" transferLog in
  newOwnerId ← lift (js_path lockedEvent ["returnValues"; "accountId"]);
  lift (js_path lockedEvent ["returnValues"; "amount"]);;
  blockNumber ← lift (js_get (field "block" transferLog) "number");
  wait_safe fuel nearClientAccount blockNumber;;
  recordTransferLog (VObj [("finished", VStr "block-safe"); ("proofLocker", proofLocker);
    ("newOwnerId", newOwnerId)]).

Definition get_balance (nearErc20Account : string) (owner : jsval) : M jsval :=
  let args := VObj [("owner_id", owner)] in
  rpc (near_view nearErc20Account "get_balance" args) (EvNearView nearErc20Account "get_balance" args).

Variable base64 : string -> list byte.

Definition deposit_amount : Z := 100000000000000000000 * 600.

Definition deposit (acct : account) (nearTokenFactoryAccount nearErc20Account : string) (transferLog : jsval)
    : M unit :=
  let newOwnerId := field "newOwnerId" transferLog in
  get_balance nearErc20Account newOwnerId;;
  catch
    (change_method (W := W) base64 token_schema acct nearTokenFactoryAccount
       (mkMethod "deposit" (Some (FName "Proof")) None) (field "proofLocker" transferLog)
       (Some 300000000000000) (Some deposit_amount);;
     mret tt)
    (fun _ => showRetryAndExit);;
  get_balance nearErc20Account newOwnerId;;
  mret tt.

(** *** [execute] *)

Record to_near_opts := mkToNearOpts {
  amount : string;
  ethSenderSk : string;
  nearReceiverAccount : string;
  nearMasterAccount : string;
  nearMasterSk : string;
  nearTokenFactoryAccount : string;
  nearClientAccount : string;
  nearErc20Account : string;
  ethErc20AbiPath : string;
  ethErc20Address : string;
  ethLockerAbiPath : string;
  ethLockerAddress : string
}.

(** The five stages of [execute], with the contracts it has set up. *)
Definition transfer_stages (fuel : nat) (o : to_near_opts) (ethSenderAccount : string)
    (ethERC20Contract ethTokenLockerContract : contract) (transferLog : jsval) : M unit :=
  transferLog ← stage VUndef transferLog (fun _ =>
    rpc (eth_view (ethErc20Address o) "balanceOf" [VStr ethSenderAccount])
      (EvView (ethErc20Address o) "balanceOf" [VStr ethSenderAccount]);;
    approve fuel ethERC20Contract (amount o) ethSenderAccount (ethLockerAddress o));
  transferLog ← stage (VStr "approve") transferLog (fun _ =>
    lock fuel ethTokenLockerContract (amount o) (ethErc20Address o) ethSenderAccount (nearReceiverAccount o));
  transferLog ← stage (VStr "lock") transferLog (fun log => findProof (field "lockedEvent" log));
  transferLog ← stage (VStr "find-proof") transferLog (waitBlockSafe fuel (nearClientAccount o));
  if finished (VStr "block-safe") transferLog then
    deposit (mkAccount (nearMasterAccount o)) (nearTokenFactoryAccount o) (nearErc20Account o) transferLog
  else mret tt.

Definition execute (fuel : nat) (o : to_near_opts) : M unit :=
  transferLog ← loadTransferLog;
  ethSenderAccount ← lift (of_sum (privateKeyToAddress (normalizeEthKey (ethSenderSk o))));
  erc20Abi ← rpc (readFileSync (ethErc20AbiPath o)) (EvReadFile (ethErc20AbiPath o));
  ethERC20Contract ← lift (of_sum (web3_contract erc20Abi (ethErc20Address o)));
  lift (of_sum (publicKeyOf (nearMasterSk o)));;
  verifyAccount {[nearMasterAccount o := nearMasterSk o]} (nearMasterAccount o);;
  accessKeyInit (mkAccount (nearMasterAccount o));;
  lockerAbi ← rpc (readFileSync (ethLockerAbiPath o)) (EvReadFile (ethLockerAbiPath o));
  ethTokenLockerContract ← lift (of_sum (web3_contract lockerAbi (ethLockerAddress o)));
  transfer_stages fuel o ethSenderAccount ethERC20Contract ethTokenLockerContract transferLog;;
  destroy;;
  exit 0.
End transfer.
