(* ===== verification/TransferSpec.v ===== *)
(** * Triples for programs with a log file

    The automaton of {!Traces} with one more component: its state knows the
    content of the log file, and stays in step with the file. *)

From Stdlib Require Import Ascii Strings.Byte.
From stdpp Require Import base list strings gmap.
From Stdlib Require Import ZArith Lia.
From S2P Require Import Prelude Js Borsh Borshify Effects Schemas Robust NearTx NearTxSpec Traces.
From S2P Require Import Eth2NearRelay Accounts InitContracts TransferLog.
Local Open Scope Z_scope.

Create HintDb calm.

Lemma of_sum_ok {A} (r : exn + A) a : of_sum r = Ok a -> r = inr a.
Proof. destruct r; simpl; congruence. Qed.

Section calm.
Context {St N : Type} `{LogSlot St}.
Abbreviation M := (M St N event).

(** A computation that does not touch the log and emits only events of [p]. *)
Definition calm (p : event -> Prop) {A} (m : M A) : Prop :=
  forall w, (exists tr, trace (m w).1 = trace w ++ tr /\ Forall p tr) /\
    log_get (store (m w).1) = log_get (store w).

Lemma calm_weaken (p q : event -> Prop) {A} (m : M A) : (forall ev, p ev -> q ev) -> calm p m -> calm q m.
Proof.
  intros Hpq Hm w. destruct (Hm w) as ((tr & Ht & Hf) & ?). split; [|done].
  exists tr. split; [done|]. by eapply Forall_impl.
Qed.

Lemma calm_lift p {A} (o : outcome A) : calm p (lift o).
Proof. intros w. split; [|done]. exists []. rewrite app_nil_r. by split. Qed.
Lemma calm_ret p {A} (a : A) : calm p (mret a).
Proof. apply (calm_lift p (Ok a)). Qed.
Lemma calm_throw p {A} e : calm p (throw (A := A) e).
Proof. apply (calm_lift p (Throw e)). Qed.
Lemma calm_exit p {A} c : calm p (exit (A := A) c).
Proof. apply (calm_lift p (Exit c)). Qed.
Lemma calm_out_of_fuel p {A} : calm p (out_of_fuel (A := A)).
Proof. apply (calm_lift p OutOfFuel). Qed.
Lemma calm_get p : calm p get_store.
Proof. intros w. split; [|done]. exists []. rewrite app_nil_r. by split. Qed.
Lemma calm_emit (p : event -> Prop) ev : p ev -> calm p (emit ev).
Proof. intros Hp w. split; [|done]. exists [ev]. split; [done|by constructor]. Qed.
Lemma calm_sleep `{Clock N} (p : event -> Prop) d : p (EvSleep d) -> calm p (sleep d).
Proof. intros Hp w. split; [|done]. exists [EvSleep d]. split; [done|by constructor]. Qed.
Lemma calm_rpc (p : event -> Prop) {A} (f : N -> N * (exn + A)) ev :
  (forall r, p (ev r)) -> calm p (rpc f ev).
Proof.
  intros Hp w. unfold rpc. destruct (f (net w)) as [n' r]. split; [|done].
  exists [ev r]. split; [done|by constructor].
Qed.

Lemma calm_bind p {A B} (m : M A) (f : A -> M B) :
  calm p m -> (forall a, calm p (f a)) -> calm p (m ≫= f).
Proof.
  intros Hm Hf w. specialize (Hm w) as (Htr & Hl). unfold mbind, M_bind.
  destruct (m w) as [w1 [a|e|c|]]; simpl in *; [|done..].
  destruct (Hf a w1) as (Htr' & Hl'). split; [by eapply emits_seq|congruence].
Qed.
Lemma calm_catch p {A} (m : M A) h :
  calm p m -> (forall e, calm p (h e)) -> calm p (catch m h).
Proof.
  intros Hm Hh w. specialize (Hm w) as (Htr & Hl). unfold catch.
  destruct (m w) as [w1 [a|e|c|]]; simpl in *; try done.
  destruct (Hh e w1) as (Htr' & Hl'). split; [by eapply emits_seq|congruence].
Qed.
Lemma calm_attempt p {A} (m : M A) : calm p m -> calm p (attempt m).
Proof. intros Hm w. specialize (Hm w). unfold attempt. by destruct (m w) as [w1 [a|e|c|]]. Qed.
Lemma calm_mapM_M p {A B} (f : A -> M B) l : (forall x, calm p (f x)) -> calm p (mapM_M f l).
Proof.
  intros Hf. induction l as [|x l IH]; simpl; [apply calm_ret|].
  apply calm_bind; [apply Hf|intros y]. apply calm_bind; [apply IH|intros; apply calm_ret].
Qed.
Lemma calm_backoff `{Clock N} (p : event -> Prop) {A} n (fn : M A) : (forall d, p (EvSleep d)) ->
  calm p fn -> forall d wt, calm p (backoff n fn d wt).
Proof.
  intros Hs Hfn. induction n as [|[|n] IH]; intros d wt; simpl; apply calm_catch; try done;
    intros e; try apply calm_throw.
  apply calm_bind; [by apply calm_sleep|]. intros _. apply IH.
Qed.
End calm.

#[export] Hint Resolve calm_lift calm_ret calm_throw calm_exit calm_out_of_fuel calm_get : calm.

(** Follows the structure of a program; the side conditions on events are
    closed by computation. *)
Ltac calm_step :=
  first
    [ solve [auto with calm nocore]
    | apply calm_backoff; [done|]
    | apply calm_bind; [|intros ?]
    | apply calm_catch; [|intros ?]
    | apply calm_attempt
    | apply calm_mapM_M; intros ?
    | apply calm_emit; done
    | apply calm_sleep; done
    | apply calm_rpc; done
    | case_match
    | progress cbn beta iota zeta ].
Ltac calm_auto := repeat calm_step.

(** ** The shared components are calm *)

(** The calls of a transaction to [rcv], and those of one view method. *)
Definition near_call_to (rcv : string) (ev : event) : Prop :=
  match ev with
  | EvSign r _ _ => r = rcv
  | EvSleep _ | EvNearStatus _ | EvBroadcast _ _ | EvTxStatus _ _ | EvPrintLogs _ => True
  | _ => False
  end.
Definition view_path (contractId method : string) : string :=
  "call/" +:+ contractId +:+ "/" +:+ method.
Definition view_call (path : string) (ev : event) : Prop :=
  match ev with EvQuery p _ _ => p = path | EvSleep _ | EvPrintLogs _ => True | _ => False end.

Section shared.
Context {St N actions : Type} `{Clock N} `{EthNode N} `{NearNode N actions} `{KeySlot St} `{LogSlot St}.
Context `{!LogLaws St} `{NearAccounts N} `{KeyPairs}.
Context {W : Type} `{BinaryWriter W} `{BNLib}.
Abbreviation M := (M St N event).

Lemma calm_setProvider url : calm (St := St) eth_query (setProvider url).
Proof. intros w. split; [|done]. exists [EvSetProvider url]. split; [done|by constructor]. Qed.
#[local] Hint Resolve calm_setProvider : calm.
Lemma calm_reconnect url {A} e : calm (St := St) eth_query (reconnect_and_throw (A := A) url e).
Proof. unfold reconnect_and_throw. calm_auto. Qed.
#[local] Hint Resolve calm_reconnect : calm.
Lemma calm_getBlock url b : calm (St := St) eth_query (getBlock url b).
Proof. apply calm_backoff; [done|]. calm_auto. Qed.
#[local] Hint Resolve calm_getBlock : calm.
Lemma calm_getTransactionReceipt url t : calm (St := St) eth_query (getTransactionReceipt url t).
Proof. apply calm_backoff; [done|]. calm_auto. Qed.
#[local] Hint Resolve calm_getTransactionReceipt : calm.

Lemma calm_set_key p (k : option Z) : calm (St := St) (N := N) p (s ← get_store; put_store (k_set k s)).
Proof. intros w. split; [exists []; rewrite app_nil_r; by split|]. simpl. apply log_get_key. Qed.
#[local] Hint Resolve calm_set_key : calm.
Lemma calm_incr_nonce p : calm (St := St) (N := N) p incr_nonce.
Proof.
  intros w. split; [exists []; rewrite app_nil_r|]; unfold incr_nonce; destruct (k_get (store w)); try by split.
  simpl. apply log_get_key.
Qed.
#[local] Hint Resolve calm_incr_nonce : calm.
Lemma calm_sign_next acct rcv (acts : actions) : calm (St := St) (near_call_to rcv) (sign_next acct rcv acts).
Proof. unfold sign_next. calm_auto. Qed.
#[local] Hint Resolve calm_sign_next : calm.
Lemma calm_poll acct h n : forall rcv j res em, calm (St := St) (near_call_to rcv) (poll acct h n j res em).
Proof.
  induction n as [|n IH]; intros rcv j res em; simpl; [apply calm_ret|].
  apply calm_bind; [apply calm_attempt; by apply calm_rpc|intros [e|x]].
  - apply calm_bind; [by apply calm_sleep|auto].
  - destruct (final_status x); [apply calm_ret|auto].
Qed.
#[local] Hint Resolve calm_poll : calm.
Lemma calm_send_block acct rcv (acts : actions) l : calm (St := St) (near_call_to rcv) (send_block acct rcv acts l).
Proof. unfold send_block, broadcast. calm_auto. Qed.
#[local] Hint Resolve calm_send_block : calm.
Lemma calm_send_loop acct rcv (acts : actions) n : forall l, calm (St := St) (near_call_to rcv) (send_loop acct rcv acts n l).
Proof.
  induction n as [|n IH]; intros l; cbn [send_loop]; [apply calm_throw|].
  apply calm_bind; [apply calm_send_block|intros [l1 r]].
  destruct r; [apply calm_bind; [by apply calm_sleep|auto]|].
  apply calm_bind; [apply calm_poll|intros [res em]].
  destruct res as [res|]; [|auto]. apply calm_bind; [by apply calm_emit|intros _].
  calm_auto. all: apply IH.
Qed.
#[local] Hint Resolve calm_send_loop : calm.
Lemma calm_signAndSend acct rcv (acts : actions) :
  calm (St := St) (near_call_to rcv) (signAndSendTransaction acct rcv acts).
Proof. apply calm_send_loop. Qed.
#[local] Hint Resolve calm_signAndSend : calm.
Lemma calm_view_method schema c d args :
  calm (St := St) (view_call (view_path c (methodName d))) (view_method (W := W) schema c d args).
Proof. unfold view_method. calm_auto. Qed.
#[local] Hint Resolve calm_view_method : calm.
Lemma calm_change_method base64 schema acct c d args gas amount :
  calm (St := St) (near_call_to c) (change_method (W := W) base64 schema acct c d args gas amount).
Proof. unfold change_method. calm_auto. Qed.
#[local] Hint Resolve calm_change_method : calm.

(** The checks of an account at the start of a program. *)
Definition account_check (ev : event) : Prop :=
  match ev with EvFetchState _ _ | EvAccessKeys _ _ | EvFindAccessKey _ _ => True | _ => False end.
Lemma calm_verifyAccount ks id : calm (St := St) (N := N) account_check (verifyAccount ks id).
Proof. unfold verifyAccount, accountExists, accountHasTheKey. calm_auto. Qed.
Lemma calm_accessKeyInit acct : calm (St := St) (N := N) account_check (accessKeyInit acct).
Proof.
  unfold accessKeyInit. apply calm_bind; [by apply calm_rpc|intros key].
  intros w. split; [exists []; rewrite app_nil_r; by destruct key|].
  destruct key; simpl; apply log_get_key.
Qed.
End shared.

#[export] Hint Resolve calm_setProvider calm_reconnect calm_getBlock calm_getTransactionReceipt calm_set_key calm_incr_nonce calm_sign_next calm_poll calm_send_block calm_send_loop calm_signAndSend calm_view_method calm_change_method : calm.

Section emits.
Context {St N : Type} `{LogSlot St}.
Abbreviation M := (M St N event).
Lemma emits_calm (p q : event -> Prop) {A} (m : M A) :
  (forall ev, p ev -> q ev) -> calm p m -> emits q m.
Proof. intros Hpq Hm. apply (emits_weaken p q); [done|]. intros w. apply Hm. Qed.
Lemma stage_skip name log (body : jsval -> M unit) : finished name log = false -> stage name log body = mret log.
Proof. intros Hf. unfold stage. by rewrite Hf. Qed.
Lemma emits_ret_bind p {A B} (a : A) (f : A -> M B) : emits p (f a) -> emits p (mret a ≫= f).
Proof. intros Hf w. apply (Hf w). Qed.

(** The events of a run from a given content of the log. *)
Definition emits_from (l : option jsval) (p : event -> Prop) {A} (m : M A) : Prop :=
  forall w, log_get (store w) = l -> exists tr, trace (m w).1 = trace w ++ tr /\ Forall p tr.
Lemma emits_from_calm l p {A B} (m : M A) (f : A -> M B) :
  calm p m -> (forall a, emits_from l p (f a)) -> emits_from l p (m ≫= f).
Proof.
  intros Hm Hf w Hl. destruct (Hm w) as [He Hl']. unfold mbind, M_bind.
  destruct (m w) as [w1 [a|e|c|]]; simpl in *; try done.
  eapply emits_seq; [exact He|]. apply Hf. congruence.
Qed.
Lemma emits_from_load l p {B} (f : jsval -> M B) :
  emits p (f (read_log l)) -> emits_from l p (loadTransferLog ≫= f).
Proof. intros Hf w <-. apply (Hf w). Qed.
End emits.

(** ** Triples in step with the log

    [striple P m Q E]: from a state of [P] the run emits allowed events only,
    the automaton stays in step with the log, and ends in [Q a] when the run
    returns [a] and in [E] when it throws. *)

Section striples.
Context {St N G : Type} `{LogSlot St}.
Variables (update : G -> event -> G) (ok : G -> event -> Prop) (g_log : G -> option jsval).
Abbreviation M := (M St N event).

Definition striple (P : G -> Prop) {A} (m : M A) (Q : A -> G -> Prop) (E : G -> Prop) : Prop :=
  forall w g, g_log g = log_get (store w) -> P g ->
    exists tr, trace (m w).1 = trace w ++ tr /\ accepts update ok g tr /\
      g_log (fold_left update tr g) = log_get (store (m w).1) /\
      match (m w).2 with
      | Ok a => Q a (fold_left update tr g)
      | Throw _ => E (fold_left update tr g)
      | _ => True
      end.

Lemma striple_conseq (P P' : G -> Prop) {A} (m : M A) (Q Q' : A -> G -> Prop) (E E' : G -> Prop) :
  (forall g, P g -> P' g) -> (forall a g, Q' a g -> Q a g) -> (forall g, E' g -> E g) ->
  striple P' m Q' E' -> striple P m Q E.
Proof.
  intros HP HQ HE Hm w g Hl Hg. destruct (Hm w g Hl (HP g Hg)) as (tr & Ht & Hs & Hl' & Ha).
  exists tr. split_and!; auto. destruct (m w).2; auto.
Qed.

(** A fact that does not depend on the automaton. *)
Lemma striple_pure (F : Prop) (P : G -> Prop) {A} (m : M A) (Q : A -> G -> Prop) E :
  (F -> striple P m Q E) -> striple (fun g => F /\ P g) m Q E.
Proof. intros Hm w g Hl [HF Hg]. by apply Hm. Qed.

Lemma striple_lift (P : G -> Prop) {A} (o : outcome A) (Q : A -> G -> Prop) (E : G -> Prop) :
  (forall g a, P g -> o = Ok a -> Q a g) -> (forall g, P g -> E g) -> striple P (lift o) Q E.
Proof.
  intros HQ HE w g Hl Hg. exists []. rewrite app_nil_r. split_and!; [done..|]. destruct o; simpl; eauto.
Qed.
Lemma striple_lift_ok (P E : G -> Prop) {A} (r : outcome A) :
  (forall g, P g -> E g) -> striple P (lift r) (fun a g => r = Ok a /\ P g) E.
Proof. intros HE. by apply striple_lift. Qed.
Lemma striple_ret (P : G -> Prop) {A} (a : A) (Q : A -> G -> Prop) (E : G -> Prop) :
  (forall g, P g -> Q a g) -> striple P (mret a) Q E.
Proof. intros HQ w g Hl Hg. exists []. rewrite app_nil_r. split_and!; [done..|]. simpl. auto. Qed.
Lemma striple_throw (P : G -> Prop) {A} e (Q : A -> G -> Prop) (E : G -> Prop) :
  (forall g, P g -> E g) -> striple P (throw e) Q E.
Proof. intros HE. by apply (striple_lift P (Throw e)). Qed.
Lemma striple_exit (P : G -> Prop) {A} c (Q : A -> G -> Prop) (E : G -> Prop) : striple P (exit c) Q E.
Proof. intros w g Hl Hg. exists []. rewrite app_nil_r. by split_and!. Qed.
Lemma striple_out_of_fuel (P : G -> Prop) {A} (Q : A -> G -> Prop) (E : G -> Prop) :
  striple P out_of_fuel Q E.
Proof. intros w g Hl Hg. exists []. rewrite app_nil_r. by split_and!. Qed.

(** A computation whose events are allowed and change nothing. *)
Lemma striple_calm (p : event -> Prop) (P : G -> Prop) {A} (m : M A) (E : G -> Prop) :
  (forall g ev, P g -> p ev -> ok g ev /\ update g ev = g) -> calm p m -> (forall g, P g -> E g) ->
  striple P m (fun _ => P) E.
Proof.
  intros Hp Hm HE w g Hl Hg. destruct (Hm w) as [(tr & Ht & Hf) Hl']. exists tr. split; [done|]. clear Ht.
  enough (accepts update ok g tr /\ fold_left update tr g = g) as [? ->].
  { split_and!; [done|congruence|]. destruct (m w).2; auto. }
  induction Hf as [|ev tr Hev _ IH]; simpl; [done|]. destruct (Hp g ev Hg Hev) as [? ->]. tauto.
Qed.

Lemma striple_rpc (P : G -> Prop) {A} (f : N -> N * (exn + A)) ev (Q : A -> G -> Prop) (E : G -> Prop) :
  (forall g r, P g -> ok g (ev r) /\ g_log (update g (ev r)) = g_log g) ->
  (forall g a, P g -> Q a (update g (ev (inr a)))) ->
  (forall g e, P g -> E (update g (ev (inl e)))) -> striple P (rpc f ev) Q E.
Proof.
  intros Hok HQ HE w g Hl Hg. unfold rpc. destruct (f (net w)) as [n' r]. destruct (Hok g r Hg) as [Ho Hu].
  exists [ev r]. split_and!; [done|done|simpl; congruence|]. destruct r; simpl; auto.
Qed.

Lemma striple_bind (P : G -> Prop) {A B} (m : M A) (f : A -> M B) (Q : A -> G -> Prop)
    (R : B -> G -> Prop) (E : G -> Prop) :
  striple P m Q E -> (forall a, striple (Q a) (f a) R E) -> striple P (m ≫= f) R E.
Proof.
  intros Hm Hf w g Hl Hg. destruct (Hm w g Hl Hg) as (tr & Ht & Hs & Hl' & Ha). unfold mbind, M_bind.
  destruct (m w) as [w1 [a|e|c|]]; simpl in *; try (exists tr; by split_and!).
  destruct (Hf a w1 _ Hl' Ha) as (tr' & Ht' & Hs' & Hl'' & Ha').
  exists (tr ++ tr'). rewrite accepts_app, fold_left_app, Ht', Ht, app_assoc. by split_and!.
Qed.

Lemma striple_catch (P : G -> Prop) {A} (m : M A) h (Q : A -> G -> Prop) (E E' : G -> Prop) :
  striple P m Q E -> (forall e, striple E (h e) Q E') -> striple P (catch m h) Q E'.
Proof.
  intros Hm Hh w g Hl Hg. destruct (Hm w g Hl Hg) as (tr & Ht & Hs & Hl' & Ha). unfold catch.
  destruct (m w) as [w1 [a|e|c|]]; simpl in *; try (exists tr; by split_and!).
  destruct (Hh e w1 _ Hl' Ha) as (tr' & Ht' & Hs' & Hl'' & Ha').
  exists (tr ++ tr'). rewrite accepts_app, fold_left_app, Ht', Ht, app_assoc. by split_and!.
Qed.

Lemma striple_attempt (P : G -> Prop) {A} (m : M A) (Q : A -> G -> Prop) (E E' : G -> Prop) :
  striple P m Q E -> striple P (attempt m) (fun r g => match r with inr a => Q a g | inl _ => E g end) E'.
Proof.
  intros Hm w g Hl Hg. destruct (Hm w g Hl Hg) as (tr & Ht & Hs & Hl' & Ha). exists tr. unfold attempt.
  destruct (m w) as [w1 [a|e|c|]]; simpl in *; by split_and!.
Qed.

(** A computation whose events are allowed and keep the state in [P]. *)
Lemma striple_calm_inv (p : event -> Prop) (P : G -> Prop) {A} (m : M A) :
  (forall g ev, P g -> p ev -> ok g ev /\ P (update g ev) /\ g_log (update g ev) = g_log g) ->
  calm p m -> striple P m (fun _ => P) P.
Proof.
  intros Hp Hm w g Hl Hg. destruct (Hm w) as [(tr & Ht & Hf) Hl']. exists tr. split; [done|]. clear Ht.
  enough (accepts update ok g tr /\ P (fold_left update tr g) /\ g_log (fold_left update tr g) = g_log g)
    as (? & ? & ?) by (split_and!; [done|congruence|destruct (m w).2; done]).
  clear Hl Hl'. revert g Hg. induction Hf as [|ev tr Hev _ IH]; intros g Hg; simpl; [done|].
  destruct (Hp g ev Hg Hev) as (? & Hg' & Hl'). destruct (IH _ Hg') as (? & ? & ->). done.
Qed.

Lemma striple_backoff `{Clock N} (P : G -> Prop) {A} n (fn : M A) (Q : A -> G -> Prop) :
  (forall g d, P g -> ok g (EvSleep d) /\ update g (EvSleep d) = g) ->
  striple P fn Q P -> forall d wt, striple P (backoff n fn d wt) Q P.
Proof.
  intros Hs Hfn. induction n as [|[|n] IH]; intros d wt; simpl; (eapply striple_catch; [exact Hfn|]);
    intros e; try by apply striple_throw.
  apply (striple_bind _ _ _ (fun _ => P)); [|intros ?; apply IH].
  apply (striple_calm (fun ev => ev = EvSleep d)); [by intros g ev Hg ->; apply Hs|by apply calm_sleep|done].
Qed.

(** The state at the start of a computation, by name. *)
Lemma striple_at (P : G -> Prop) {A} (m : M A) Q E :
  (forall g0, P g0 -> striple (fun g => g = g0) m Q E) -> striple P m Q E.
Proof. intros Hm w g Hl Hg. by apply (Hm g Hg). Qed.

(** The log: what is loaded is what the automaton knows. *)
Lemma striple_load (P : G -> Prop) (Q : jsval -> G -> Prop) (E : G -> Prop) :
  (forall g, P g -> Q (read_log (g_log g)) g) -> striple P loadTransferLog Q E.
Proof.
  intros HQ w g Hl Hg. exists []. rewrite app_nil_r. split_and!; [done..|].
  simpl. rewrite <- Hl. by apply HQ.
Qed.

Lemma striple_record `{KeySlot St} `{!LogLaws St} `{Disk N} `{BNJson} (P : G -> Prop) obj
    (Q : unit -> G -> Prop) (E : G -> Prop) :
  (forall g e, g_log (update g (EvWriteLog obj (inl e))) = g_log g) ->
  (forall g u, g_log (update g (EvWriteLog obj (inr u))) = Some (json_image obj)) ->
  (forall g r, P g -> ok g (EvWriteLog obj r)) ->
  (forall g u, P g -> Q tt (update g (EvWriteLog obj (inr u)))) ->
  (forall g e, P g -> E (update g (EvWriteLog obj (inl e)))) -> striple P (recordTransferLog obj) Q E.
Proof.
  intros Hl1 Hl2 Hok HQ HE w g Hl Hg. unfold recordTransferLog, rpc, mbind, M_bind.
  destruct (disk_write obj (net w)) as [n' [e|u]]; simpl.
  - exists [EvWriteLog obj (inl e)]. split_and!; [done|split; [by apply Hok|done]|simpl; by rewrite Hl1|].
    simpl. by apply HE.
  - exists [EvWriteLog obj (inr u)]. split_and!; [done|split; [by apply Hok|done]| |].
    + simpl. by rewrite Hl2, log_get_set.
    + by apply HQ.
Qed.
End striples.

(** ** Triples of the shared components *)

Section shared_triples.
Context {St N G actions : Type} `{Clock N} `{EthNode N} `{NearNode N actions} `{KeySlot St} `{LogSlot St}.
Context `{!LogLaws St} `{Web3Utils}.
Variables (update : G -> event -> G) (ok : G -> event -> Prop) (g_log : G -> option jsval).
Abbreviation T := (striple (St := St) (N := N) update ok g_log).

(** The requests of [callContract] other than the transaction itself. *)
Definition call_query (ev : event) : Prop :=
  match ev with
  | EvSetProvider _ | EvGasPrice _ | EvTransactionCount _ _ | EvEthCall _ => True
  | _ => False
  end.

(** A contract call sends the transaction of the call only ([F]), and when it
    returns that transaction was mined ([Q]). *)
Lemma striple_callContract (F : ethtx -> Prop) (P Q : G -> Prop) url fuel c method args opts :
  (forall g ev, P g -> call_query ev -> ok g ev /\ update g ev = g) ->
  (forall g tx r, P g -> F tx -> ok g (EvSend tx r) /\ g_log (update g (EvSend tx r)) = g_log g) ->
  (forall g tx u, P g -> F tx -> Q (update g (EvSend tx (inr u)))) ->
  (forall g tx e, P g -> F tx -> P (update g (EvSend tx (inl e)))) ->
  (forall g, Q g -> P g) ->
  (forall gasPrice nonce data, c_encodeABI c method args = inr data ->
     F (contract_tx c opts gasPrice nonce data)) ->
  T P (callContract url fuel c method args opts) (fun _ => Q) P.
Proof.
  intros Hq Hok Hm Hf HQ HF.
  assert (Hquiet : forall A (m : M St N event A), calm call_query m -> T P m (fun _ => P) P)
    by (intros A m Hc; by apply (striple_calm _ _ _ call_query)).
  unfold callContract.
  eapply striple_bind; [apply Hquiet; by apply calm_rpc|intros gasPrice].
  eapply striple_bind; [apply Hquiet; by apply calm_rpc|intros nonce].
  revert gasPrice nonce. induction fuel as [|fuel IH]; intros gasPrice nonce; cbn [call_loop];
    [apply striple_out_of_fuel|].
  destruct (gasPrice <? gas_limit); [|by apply striple_throw].
  eapply striple_bind; [apply (striple_attempt _ _ _ _ _ (fun _ => Q) P)|].
  - unfold send_once. eapply striple_bind.
    { apply (striple_lift _ _ _ _ _ (fun data g => c_encodeABI c method args = inr data /\ P g));
        [|done]. intros g data Hg He. split; [|done]. destruct (c_encodeABI c method args); by simplify_eq/=. }
    intros data. apply striple_pure. intros Hd. cbn zeta. eapply striple_bind.
    { apply Hquiet. apply calm_catch; [by apply calm_rpc|intros; apply calm_ret]. }
    intros ?. apply (striple_bind _ _ _ _ _ _ (fun _ => Q)).
    { unfold send_with_timeout. apply striple_rpc.
      - intros g r Hg. by apply Hok, HF.
      - intros g x Hg. by apply Hm, HF.
      - intros g e Hg. by apply Hf, HF. }
    intros receipt. by apply striple_lift.
  - intros [e|receipt]; [|by apply striple_ret].
    destruct (String.eqb (e_message e) SLOW_TX_ERROR_MSG); [apply IH|].
    destruct (includes WRONG_NONCE (e_message e)); [apply IH|].
    destruct (String.eqb (exn_toString e) NOT_OPEN); [|by apply striple_throw].
    eapply striple_bind; [apply Hquiet|intros ?; apply IH].
    intros w. split; [|done]. exists [EvSetProvider url]. split; [done|by constructor].
Qed.

(** Setting the access key does not touch the log. *)
Lemma striple_set_key (k : option Z) (P : G -> Prop) {A} (m : M St N event A) (Q : A -> G -> Prop) E :
  T P m Q E -> T P (s ← get_store; put_store (k_set k s);; m) Q E.
Proof.
  intros Hm w g Hl Hg. apply (Hm (mkWorld (k_set k (store w)) (net w) (trace w))); [|done].
  simpl. by rewrite log_get_key.
Qed.

(** When a NEAR transaction returns, the node has just answered with its
    result, and the result is a success. *)
Lemma striple_signAndSend (P : G -> Prop) (Q : txresult -> G -> Prop) acct rcv (acts : actions) :
  (forall g ev, P g -> near_call_to rcv ev -> ok g ev /\ P (update g ev) /\ g_log (update g ev) = g_log g) ->
  (forall g h res, P g -> SuccessValue res <> None ->
     Q res (update (update g (EvTxStatus h (inr res))) (EvPrintLogs (flatLogs res)))) ->
  T P (signAndSendTransaction acct rcv acts) Q (fun _ => True).
Proof.
  intros HP HQ w g Hl Hg.
  destruct (striple_calm_inv update ok g_log (near_call_to rcv) P (signAndSendTransaction acct rcv acts))
    with (w := w) (g := g) as (tr & Ht & Hacc & Hlog & _); [done|apply calm_signAndSend|done|done|].
  exists tr. split_and!; try done.
  destruct (send_loop_spec acct rcv acts RETRY_SEND_TX _ _ w (start_ready w))
    as (tr' & st' & [Htr' _] & _ & _ & _ & Hok).
  fold (signAndSendTransaction (St := St) (N := N) acct rcv acts) in *.
  assert (tr' = tr) as -> by (apply (app_inv_head (trace w)); by rewrite <- Ht, <- Htr').
  destruct Hok as [(res & h & bts & tr1 & -> & Hs & _ & _ & ->)|[e ->]]; [|done].
  rewrite fold_left_app. simpl. apply HQ; [|done].
  destruct (calm_signAndSend (St := St) (N := N) acct rcv acts w) as [(tr2 & Ht2 & Hev) _].
  rewrite Ht2 in Ht. apply app_inv_head in Ht as ->. apply Forall_app in Hev as [Hev _].
  clear -HP Hg Hev. revert g Hg. induction Hev as [|ev tr1 Hev _ IH]; intros g Hg; simpl; [done|].
  apply IH. by apply (HP g ev Hg Hev).
Qed.
End shared_triples.

(** What a run records is plain data. *)
Definition plain_write (ev : event) : Prop :=
  match ev with EvWriteLog obj _ => plain obj = true | _ => True end.

(** ** Sequences of stages

    An automaton with the log, a flag that says whether everything recorded so
    far was plain data, and a property [fresh] that holds until the last stage
    of the transfer. *)

Section staged.
Context {St N G : Type} `{LogSlot St} `{KeySlot St} `{!LogLaws St} `{Disk N} `{BNJson}.
Variables (update : G -> event -> G) (ok : G -> event -> Prop) (g_log : G -> option jsval).
Variables (g_plain : G -> bool) (fresh : G -> Prop) (stages : list jsval).
Hypothesis stages_eq : Forall (fun s => strict_eq s s = true) stages.
Hypothesis write_log : forall g obj u,
  g_log (update g (EvWriteLog obj (inr u))) = Some (json_image obj) /\
  g_plain (update g (EvWriteLog obj (inr u))) = (g_plain g && plain obj) /\
  (fresh g -> fresh (update g (EvWriteLog obj (inr u)))).
Hypothesis write_fails : forall g obj e, update g (EvWriteLog obj (inl e)) = g.
Abbreviation M := (M St N event).
Abbreviation T := (striple (St := St) (N := N) update ok g_log).

(** The content of the log and the flag, before the last stage. *)
Definition at_log (l : option jsval) (b : bool) (g : G) : Prop :=
  g_log g = l /\ g_plain g = b /\ fresh g.

(** The log was just recorded, with the given value of [finished]. *)
Definition recorded (next : jsval) (b : bool) (g : G) : Prop :=
  exists props, g_log g = Some (json_image (VObj props)) /\ g_plain g = (b && plain (VObj props)) /\
    fresh g /\ field "finished" (VObj props) = next.

Lemma striple_recorded l b (P E : G -> Prop) props :
  (forall g r, P g -> at_log l b g /\ ok g (EvWriteLog (VObj props) r)) -> (forall g, P g -> E g) ->
  T P (recordTransferLog (VObj props)) (fun _ => recorded (field "finished" (VObj props)) b) E.
Proof.
  intros HP HE. eapply striple_record; [done|..].
  - intros g e. by rewrite write_fails.
  - intros g u. apply write_log.
  - intros g r Hg. by apply HP.
  - intros g u Hg. destruct (HP g (inr u) Hg) as [(Hl & Hb & Hd) _].
    destruct (write_log g (VObj props) u) as (? & Hp & Hf). exists props. rewrite Hp, Hb. split_and!; auto.
  - intros g e Hg. rewrite write_fails. auto.
Qed.

(** The value of [transferLog]: it is what the file holds, and, as long as
    what was recorded is plain data, the transfer is at stage [k] or later;
    [R] says whether the log at the start is taken to be at one of the stages. *)
Definition known (R : Prop) (k : nat) (log : jsval) (g : G) : Prop :=
  log = read_log (g_log g) /\ fresh g /\
  (R -> g_plain g = true -> field "finished" log ∈ drop k stages).

Lemma stage_other k name log : stages !! k = Some name -> finished name log = false ->
  field "finished" log ∈ drop k stages -> field "finished" log ∈ drop (S k) stages.
Proof.
  intros Hk Hf. rewrite (drop_S stages name k Hk). intros [Heq|]%elem_of_cons; [|done].
  unfold finished in Hf. rewrite Heq in Hf.
  rewrite (proj1 (Forall_lookup _ _) stages_eq _ _ Hk) in Hf. done.
Qed.

Lemma striple_stage R k name next log (body : jsval -> M unit) :
  stages !! k = Some name -> stages !! S k = Some next ->
  (forall l b, log = read_log l -> finished name log = true ->
     T (at_log l b) (body log) (fun _ => recorded next b) (fun _ => True)) ->
  T (known R k log) (stage name log body) (fun log' => known R (S k) log') (fun _ => True).
Proof.
  intros Hk Hn Hbody. unfold stage. destruct (finished name log) eqn:Ef.
  - apply striple_at. intros g0 (Hlog & Hd & Hp).
    eapply striple_bind.
    { eapply striple_conseq; [| | |apply (Hbody (g_log g0) (g_plain g0) Hlog eq_refl)];
        [by intros g ->|intros a g Hg; exact Hg|done]. }
    intros ?. apply striple_load. intros g (props & Hl & Hb & Hdn & Hfin).
    split_and!; [done|done|]. intros _ Hpl. rewrite Hb in Hpl. apply andb_true_iff in Hpl as [_ Hpl].
    rewrite Hl, (read_log_plain _ Hpl), Hfin.
    apply (list_elem_of_lookup_2 _ 0). by rewrite lookup_drop, Nat.add_0_r.
  - apply striple_ret. intros g (Hlog & Hd & Hp). split_and!; [done|done|].
    intros HR Hpl. eapply stage_other; eauto.
Qed.

(** After the last stage but one, the name of the last stage is recorded. *)
Lemma known_last R k name log g : S k = length stages -> stages !! k = Some name ->
  known R k log g -> R -> g_plain g = true -> finished name log = true.
Proof.
  intros Hlen Hk (_ & _ & Hp) HR Hpl. destruct (finished name log) eqn:Ef; [done|].
  pose proof (stage_other k name log Hk Ef (Hp HR Hpl)) as Hno.
  rewrite Hlen, drop_all in Hno. by apply elem_of_nil in Hno.
Qed.
End staged.
