(* ===== verification/ToNearSpec.v ===== *)
(** * What a transfer to NEAR may do, and that it does only that

    An automaton over the events of a transfer.  It remembers the content of
    the log, the last Ethereum transaction that was mined and the block number
    that the client contract called safe; it says which transaction may be sent
    and which result may be recorded at which stage. *)

From Stdlib Require Import Ascii Strings.Byte.
From stdpp Require Import base list strings gmap.
From Stdlib Require Import ZArith Lia.
From S2P Require Import Prelude Js Borsh Borshify Effects Schemas Robust NearTx NearTxSpec Traces.
From S2P Require Import Eth2NearRelay Accounts InitContracts TransferLog ToNear TransferSpec.
Local Open Scope Z_scope.

Record tn := mkTn {
  tn_log : option jsval;
  tn_sent : option ethtx;
  tn_safe : option (list byte);
  tn_plain : bool;
  tn_done : bool
}.

Section spec.
Context {St N actions : Type} `{Clock N} `{EthNode N} `{EthContracts N} `{NearNode N actions} `{KeySlot St}.
Context `{NearAccounts N} `{NearQueries N} `{Files N} `{Disk N} `{LogSlot St} `{!LogLaws St} `{BNJson}.
Context `{Web3Utils} `{KeyPairs} `{EthKeys} `{EthObjects} `{ContractLib}.
Context {W : Type} `{BinaryWriter W} `{BNLib} `{HexUtils}.
Variable o : to_near_opts.
Abbreviation M := (M St N event).

(** A call of a contract's method from the sender's account. *)
Definition is_call (tx : ethtx) (address method : string) (args : list jsval) : Prop :=
  privateKeyToAddress (normalizeEthKey (ethSenderSk o)) = inr (tx_from tx) /\
  exists abi c, web3_contract abi address = inr c /\ tx_to tx = c_address c /\
    c_encodeABI c method args = inr (tx_data tx).

(** The two transactions of a transfer: the approval of the amount for the
    locker, and the lock of the amount for the receiver. *)
Definition is_approve (tx : ethtx) : Prop :=
  exists bn, BN_of (amount o) = inr bn /\
    is_call tx (ethErc20Address o) "approve" [VStr (ethLockerAddress o); VBN bn].
Definition is_lock (tx : ethtx) : Prop :=
  exists bn, BN_of (amount o) = inr bn /\
    is_call tx (ethLockerAddress o) "lockToken"
      [VStr (ethErc20Address o); VBN bn; VStr (nearReceiverAccount o)].

(** The answer to [block_hash_safe] holds a hash. *)
Definition safe_answer (r : exn + queryresult) : bool :=
  match r with
  | inr q =>
      match q_result q with
      | Some (b :: bs) =>
          match deserialize client_schema schema_fuel (Some (FName "?H256")) (b :: bs) with
          | Ok v => js_truthy v
          | _ => false
          end
      | _ => false
      end
  | inl _ => false
  end.

Definition safe_path : string := view_path (nearClientAccount o) "block_hash_safe".

Definition tn_update (g : tn) (ev : event) : tn :=
  match ev with
  | EvWriteLog obj (inr _) =>
      mkTn (Some (json_image obj)) None None (tn_plain g && plain obj) (tn_done g)
  | EvSend tx r =>
      mkTn (tn_log g) (match r with inr _ => Some tx | inl _ => None end) (tn_safe g) (tn_plain g) (tn_done g)
  | EvQuery path data r =>
      if String.eqb path safe_path then
        mkTn (tn_log g) (tn_sent g) (if safe_answer r then Some data else None) (tn_plain g) (tn_done g)
      else g
  | EvTxStatus _ (inr res) =>
      mkTn (tn_log g) (tn_sent g) (tn_safe g) (tn_plain g)
        (tn_done g || bool_decide (SuccessValue res <> None))
  | _ => g
  end.

(** The log that is recorded with the result of the search for the event. *)
Definition log_found (obj : jsval) : Prop :=
  exists ls l i x y, js_get (field "receipt" obj) "logs" = Ok ls /\ iterate ls = Ok l /\
    0 <= i /\ field "txLogIndex" obj = VNum i /\ l !! Z.to_nat i = Some (field "log" obj) /\
    js_get (field "log" obj) "logIndex" = Ok x /\
    js_get (field "lockedEvent" obj) "logIndex" = Ok y /\ strict_eq x y = true.

(** The client contract called the number of the recorded block safe. *)
Definition block_safe (g : tn) (log : jsval) : Prop :=
  exists n data, js_get (field "block" log) "number" = Ok n /\
    serialize (W := W) client_schema schema_fuel (Some (FName "u64")) n = Ok data /\ tn_safe g = Some data.

Definition may_record (g : tn) (obj : jsval) : Prop :=
  let log := read_log (tn_log g) in
  (field "finished" obj = VStr "approve" /\ finished VUndef log = true /\
     exists tx, tn_sent g = Some tx /\ is_approve tx) \/
  (field "finished" obj = VStr "lock" /\ finished (VStr "approve") log = true /\
     exists tx, tn_sent g = Some tx /\ is_lock tx) \/
  (field "finished" obj = VStr "find-proof" /\ finished (VStr "lock") log = true /\
     field "lockedEvent" obj = field "lockedEvent" log /\ log_found obj) \/
  (field "finished" obj = VStr "block-safe" /\ finished (VStr "find-proof") log = true /\
     block_safe g log /\
     proof_locker (field "log" log) (field "proof" log) (field "receipt" log) (field "txLogIndex" log)
       = Ok (field "proofLocker" obj)).

Definition tn_ok (g : tn) (ev : event) : Prop :=
  let log := read_log (tn_log g) in
  match ev with
  | EvSend tx _ =>
      (finished VUndef log = true /\ is_approve tx) \/ (finished (VStr "approve") log = true /\ is_lock tx)
  | EvWriteLog obj _ => may_record g obj
  | EvSign rcv _ _ => finished (VStr "block-safe") log = true /\ rcv = nearTokenFactoryAccount o
  | _ => True
  end.

Abbreviation T := (striple (St := St) (N := N) tn_update tn_ok tn_log).

(** Events that are always allowed and change nothing. *)
Definition silent (ev : event) : Prop :=
  match ev with
  | EvSend _ _ | EvWriteLog _ _ | EvSign _ _ _ | EvTxStatus _ _ => False
  | EvQuery path _ _ => path <> safe_path
  | _ => True
  end.
Lemma silent_step g ev : silent ev -> tn_ok g ev /\ tn_update g ev = g.
Proof.
  destruct ev; simpl; try done. intros Hp. by rewrite (proj2 (String.eqb_neq _ _) Hp).
Qed.

Lemma T_silent (P E : tn -> Prop) {A} (m : M A) :
  calm silent m -> (forall g, P g -> E g) -> T P m (fun _ => P) E.
Proof.
  intros Hm HE. apply (striple_calm _ _ _ silent); [|done|done]. intros g ev _. apply silent_step.
Qed.
Lemma silent_eth_query ev : eth_query ev -> silent ev.
Proof. by destruct ev. Qed.

Lemma safe_query_step g data r : tn_update g (EvQuery safe_path data r) =
  mkTn (tn_log g) (tn_sent g) (if safe_answer r then Some data else None) (tn_plain g) (tn_done g).
Proof. unfold tn_update. by rewrite String.eqb_refl. Qed.

Definition tn_fresh (g : tn) : Prop := tn_done g = false.
Abbreviation at_log := (at_log tn_log tn_plain tn_fresh).
Abbreviation recorded := (recorded tn_log tn_plain tn_fresh).

(** A contract call sends the transaction of the call only, and when it
    returns that transaction was mined. *)
Lemma T_callContract url fuel c method args opts (F : ethtx -> Prop) l b :
  (forall tx r, F tx -> forall g, at_log l b g -> tn_ok g (EvSend tx r)) ->
  (forall gasPrice nonce data, c_encodeABI c method args = inr data ->
     F (contract_tx c opts gasPrice nonce data)) ->
  T (at_log l b) (callContract url fuel c method args opts)
    (fun _ g => at_log l b g /\ exists tx, tn_sent g = Some tx /\ F tx) (at_log l b).
Proof.
  intros Hok HF. apply (striple_callContract _ _ _ F (at_log l b)
    (fun g => at_log l b g /\ exists tx, tn_sent g = Some tx /\ F tx)); [..|done].
  - intros g ev _ Hev. by destruct ev.
  - intros g tx r Hg Htx. split; [by apply Hok|done].
  - intros g tx u (? & ? & ?) Htx. split; [by split_and!|]. by exists tx.
  - intros g tx e (? & ? & ?) Htx. done.
  - by intros g [? _].
Qed.

Lemma tn_write g obj u :
  tn_log (tn_update g (EvWriteLog obj (inr u))) = Some (json_image obj) /\
  tn_plain (tn_update g (EvWriteLog obj (inr u))) = (tn_plain g && plain obj) /\
  (tn_fresh g -> tn_fresh (tn_update g (EvWriteLog obj (inr u)))).
Proof. done. Qed.

Lemma T_record l b (P E : tn -> Prop) props :
  (forall g, P g -> at_log l b g /\ may_record g (VObj props)) -> (forall g, P g -> E g) ->
  T P (recordTransferLog (VObj props)) (fun _ => recorded (field "finished" (VObj props)) b) E.
Proof. intros HP HE. apply (striple_recorded _ _ _ _ _ tn_write (fun _ _ _ => eq_refl) l); auto. Qed.

Section stages.
Variables (sender : string) (url : string) (fuel : nat) (l : option jsval) (b : bool).
Hypothesis Hsender : privateKeyToAddress (normalizeEthKey (ethSenderSk o)) = inr sender.
Let log := read_log l.

Lemma is_call_tx c abi address method args gasPrice nonce data :
  web3_contract abi address = inr c -> c_encodeABI c method args = inr data ->
  is_call (contract_tx c (transfer_opts sender) gasPrice nonce data) address method args.
Proof. intros Hc Hd. split; [done|]. by exists abi, c. Qed.

Lemma T_approve c abi : web3_contract abi (ethErc20Address o) = inr c -> finished VUndef log = true ->
  T (at_log l b) (approve url fuel c (amount o) sender (ethLockerAddress o))
    (fun _ => recorded (VStr "approve") b) (fun _ => True).
Proof.
  intros Hc Hst. unfold approve. eapply striple_catch; [|intros; apply striple_exit].
  eapply striple_bind; [by apply (striple_lift_ok _ _ _ _ (fun _ => True))|intros bn].
  apply striple_pure. intros Hbn%of_sum_ok.
  eapply striple_bind.
  { eapply striple_conseq; [..|apply (T_callContract _ _ _ _ _ _ is_approve l b)];
      [done|intros a g Hg; exact Hg|done| |].
    - intros tx r Htx g (Hl & _). left. by rewrite Hl.
    - intros gp n data Hd. exists bn. split; [done|]. by eapply is_call_tx. }
  intros ?. apply (T_record l b); [|done]. intros g [Hg Htx]. split; [done|].
  left. split; [done|]. destruct Hg as (-> & _). by split.
Qed.

Lemma T_lock c abi : web3_contract abi (ethLockerAddress o) = inr c -> finished (VStr "approve") log = true ->
  T (at_log l b) (lock url fuel c (amount o) (ethErc20Address o) sender (nearReceiverAccount o))
    (fun _ => recorded (VStr "lock") b) (fun _ => True).
Proof.
  intros Hc Hst. unfold lock. eapply striple_catch; [|intros; apply striple_exit].
  eapply striple_bind; [by apply (striple_lift_ok _ _ _ _ (fun _ => True))|intros bn].
  apply striple_pure. intros Hbn%of_sum_ok.
  eapply striple_bind.
  { eapply striple_conseq; [..|apply (T_callContract _ _ _ _ _ _ is_lock l b)];
      [done|intros a g Hg; exact Hg|done| |].
    - intros tx r Htx g (Hl & _). right. by rewrite Hl.
    - intros gp n data Hd. exists bn. split; [done|]. by eapply is_call_tx. }
  intros ?. eapply striple_bind; [by apply (striple_lift_ok _ _ _ _ (fun _ => True))|intros lockedEvent].
  apply striple_pure. intros _.
  apply (T_record l b); [|done]. intros g [Hg Htx]. split; [done|].
  right. left. split; [done|]. destruct Hg as (-> & _). by split.
Qed.

Lemma find_log_found li logs i0 i x : find_log i0 li logs = Ok (Some (i, x)) ->
  i0 <= i /\ logs !! Z.to_nat (i - i0) = Some x /\
  exists v y, js_get x "logIndex" = Ok v /\ li = Ok y /\ strict_eq v y = true.
Proof.
  revert i0. induction logs as [|r logs IH]; intros i0; simpl; [done|]. unfold mbind, outcome_bind.
  destruct (js_get r "logIndex") as [v| | |] eqn:Ev; try done. destruct li as [y| | |]; try done.
  destruct (strict_eq v y) eqn:Es.
  - intros [= <- <-]. rewrite Z.sub_diag. split_and!; [lia|done|by exists v, y].
  - intros Hf. destruct (IH _ Hf) as (Hle & Hl & Hv). split_and!; [lia| |done].
    replace (Z.to_nat (i - i0)) with (S (Z.to_nat (i - (i0 + 1)))) by lia. done.
Qed.

Ltac silently := eapply striple_bind; [apply T_silent; [|done]|intros ?].

Lemma calm_buildTrie block : calm silent (buildTrie (St := St) url block).
Proof.
  unfold buildTrie. apply calm_bind; [apply calm_lift|intros ts].
  apply calm_bind; [|intros; apply calm_lift]. apply calm_mapM_M. intros t.
  eapply calm_weaken; [apply silent_eth_query|apply calm_getTransactionReceipt].
Qed.
Lemma calm_extractProof block tree index : calm silent (extractProof (St := St) block tree index).
Proof. unfold extractProof. calm_auto. Qed.

Lemma T_findProof : finished (VStr "lock") log = true ->
  T (at_log l b) (findProof url (field "lockedEvent" log)) (fun _ => recorded (VStr "find-proof") b) (fun _ => True).
Proof.
  intros Hst. unfold findProof. silently; [apply calm_lift|].
  silently; [eapply calm_weaken; [apply silent_eth_query|apply calm_getTransactionReceipt]|]. rename a0 into receipt.
  silently; [apply calm_lift|].
  silently; [eapply calm_weaken; [apply silent_eth_query|apply calm_getBlock]|].
  silently; [apply calm_buildTrie|]. silently; [apply calm_lift|].
  silently; [apply calm_extractProof|].
  eapply striple_bind; [by apply (striple_lift_ok _ _ _ _ (fun _ => True))|intros found].
  apply striple_pure. intros (ls & Hls & (lst & Hlst & Hf)%obind_ok)%obind_ok.
  destruct found as [[i x]|]; [|apply striple_exit].
  destruct (find_log_found _ _ _ _ _ Hf) as (Hi & Hx & v & y & Hv & Hy & Heq).
  rewrite Z.sub_0_r in Hx.
  apply (T_record l b); [|done]. intros g Hg. split; [done|]. right. right. left.
  destruct Hg as (-> & _). split_and!; try done. by exists ls, lst, i, v, y.
Qed.

(** [block_hash_safe] answers with a hash only when the node's last answer for
    this number does. *)
Lemma T_block_hash_safe n :
  T (at_log l b) (block_hash_safe (W := W) (nearClientAccount o) n)
    (fun v g => at_log l b g /\ (js_truthy v = true -> exists data,
       serialize (W := W) client_schema schema_fuel (Some (FName "u64")) n = Ok data /\ tn_safe g = Some data))
    (fun _ => True).
Proof.
  unfold block_hash_safe, view_method. cbn [inputFieldType outputFieldType methodName].
  eapply striple_bind; [by apply (striple_lift_ok _ _ _ _ (fun _ => True))|intros data].
  apply striple_pure. intros Hdata.
  fold (view_path (nearClientAccount o) "block_hash_safe"). fold safe_path. cbn zeta.
  set (Q := fun q g => at_log l b g /\ tn_safe g = if safe_answer (inr q) then Some data else None).
  apply (striple_bind _ _ _ _ _ _ Q).
  { eapply striple_conseq; [..|apply (striple_backoff _ _ _ _ _ _ Q)]; [done|done|done|done|].
    apply (striple_bind _ _ _ _ _ _ Q); [|intros q; by apply striple_ret].
    apply striple_rpc; [intros g r Hg; split; [done|]|intros g q Hg|intros g e Hg]; rewrite safe_query_step;
      [done| |done]. by split. }
  intros q. eapply striple_bind.
  { apply T_silent; [|done]. destruct (q_logs q); [by apply calm_emit|apply calm_ret]. }
  intros ?. unfold Q, safe_answer. destruct (q_result q) as [[|x bs]|]; [by apply striple_ret; intros g [? _]| |by apply striple_ret; intros g [? _]].
  apply striple_lift; [|done]. intros g v [Hg Hsafe] Hv. split; [done|]. intros Htrue.
  rewrite Hv, Htrue in Hsafe. by exists data.
Qed.

Lemma last_path_other : view_path (nearClientAccount o) "last_block_number" <> safe_path.
Proof.
  unfold safe_path, view_path. intros Heq%(f_equal String.length).
  rewrite !string_length_app in Heq. simpl in Heq. lia.
Qed.
Lemma T_wait_safe n fuel' :
  T (at_log l b) (wait_safe (W := W) fuel' (nearClientAccount o) n)
    (fun _ g => at_log l b g /\ exists data,
       serialize (W := W) client_schema schema_fuel (Some (FName "u64")) n = Ok data /\ tn_safe g = Some data)
    (fun _ => True).
Proof.
  induction fuel' as [|fuel' IH]; cbn [wait_safe]; [apply striple_out_of_fuel|].
  silently. { eapply calm_weaken; [|apply calm_view_method]. intros ev Hev.
    destruct ev; try done. simpl in *. subst. apply last_path_other. }
  silently; [apply calm_lift|]. eapply striple_bind; [apply T_block_hash_safe|]. intros v.
  destruct (js_truthy v) eqn:Ev; [apply striple_ret; intros g [? Hd]; split; [done|by apply Hd]|].
  eapply striple_bind; [|intros ?; apply IH].
  eapply striple_conseq; [| | |apply (T_silent (at_log l b) (fun _ => True)); [by apply calm_sleep|done]];
    [by intros g [? _]|done|done].
Qed.

Lemma T_waitBlockSafe : finished (VStr "find-proof") log = true ->
  T (at_log l b) (waitBlockSafe (W := W) fuel (nearClientAccount o) log)
    (fun _ => recorded (VStr "block-safe") b) (fun _ => True).
Proof.
  intros Hst. unfold waitBlockSafe.
  eapply striple_bind; [by apply (striple_lift_ok _ _ _ _ (fun _ => True))|intros pl].
  apply striple_pure. intros Hpl. cbn zeta. silently; [apply calm_lift|]. silently; [apply calm_lift|].
  eapply striple_bind; [by apply (striple_lift_ok _ _ _ _ (fun _ => True))|intros n].
  apply striple_pure. intros Hn. eapply striple_bind; [apply T_wait_safe|intros ?].
  apply (T_record l b); [|done]. intros g [Hg (data & Hd & Hs)]. split; [done|]. right. right. right.
  pose proof Hg as (-> & _). split_and!; try done. by exists n, data.
Qed.

(** The deposit: it is signed for the factory only, and when the call returns
    the node has answered that a transaction succeeded. *)
Lemma T_signAndSend (acct : account) (acts : actions) : finished (VStr "block-safe") log = true ->
  T (at_log l b) (signAndSendTransaction acct (nearTokenFactoryAccount o) acts)
    (fun _ g => tn_done g = true) (fun _ => True).
Proof.
  intros Hst. eapply striple_conseq; [..|apply (striple_signAndSend _ _ _ (fun g => tn_log g = l /\ tn_plain g = b)
    (fun _ g => tn_done g = true))]; [by intros g (? & ? & _)|done|done| |].
  - intros g ev [Hl Hb] Hev. destruct ev; try done; simpl in *; [rewrite Hl; by split_and!|by destruct r].
  - intros g h res _ Hs. simpl. by rewrite bool_decide_eq_true_2, orb_true_r.
Qed.

Lemma T_deposit base64 acct : finished (VStr "block-safe") log = true ->
  T (at_log l b) (deposit (W := W) base64 acct (nearTokenFactoryAccount o) (nearErc20Account o) log)
    (fun _ g => tn_done g = true) (fun _ => True).
Proof.
  intros Hst. unfold deposit, get_balance. cbn zeta. silently; [by apply calm_rpc|].
  apply (striple_bind _ _ _ _ _ _ (fun _ g => tn_done g = true)).
  - eapply striple_catch; [|intros; apply striple_exit]. unfold change_method.
    apply (striple_bind _ _ _ _ _ _ (fun _ g => tn_done g = true)); [|intros ?; by apply striple_ret].
    eapply striple_bind; [apply (T_silent _ (fun _ => True)); [apply calm_lift|done]|intros bytes].
    eapply striple_bind; [by apply T_signAndSend|intros raw]. cbn zeta. by apply striple_lift.
  - intros ?. silently; [by apply calm_rpc|]. by apply striple_ret.
Qed.
End stages.

(** ** The sequence of stages *)

Definition stages : list jsval :=
  [VUndef; VStr "approve"; VStr "lock"; VStr "find-proof"; VStr "block-safe"].

Section sequence.
(** [R]: whether the log at the start is taken to be at one of the stages. *)
Variable R : Prop.

Abbreviation known := (known tn_log tn_plain tn_fresh stages R).

Lemma stages_eq : Forall (fun s => strict_eq s s = true) stages.
Proof. by repeat constructor. Qed.

Lemma T_stage k name next log (body : jsval -> M unit) :
  stages !! k = Some name -> stages !! S k = Some next ->
  (forall l b, log = read_log l -> finished name log = true ->
     T (at_log l b) (body log) (fun _ => recorded next b) (fun _ => True)) ->
  T (known k log) (stage name log body) (fun log' => known (S k) log') (fun _ => True).
Proof. apply striple_stage; apply stages_eq. Qed.

Lemma T_stages base64 url fuel sender c1 abi1 c2 abi2 log :
  privateKeyToAddress (normalizeEthKey (ethSenderSk o)) = inr sender ->
  web3_contract abi1 (ethErc20Address o) = inr c1 -> web3_contract abi2 (ethLockerAddress o) = inr c2 ->
  T (known 0 log) (transfer_stages (W := W) url base64 fuel o sender c1 c2 log)
    (fun _ g => R -> tn_plain g = true -> tn_done g = true) (fun _ => True).
Proof.
  intros Hs H1' H2'. unfold transfer_stages.
  eapply striple_bind.
  { apply (T_stage 0 VUndef (VStr "approve")); [done|done|]. intros l b -> Hf.
    eapply striple_bind; [apply T_silent; [by apply calm_rpc|done]|]. intros ?. by eapply T_approve. }
  intros log1. eapply striple_bind.
  { apply (T_stage 1 _ (VStr "lock")); [done|done|]. intros l b -> Hf. by eapply T_lock. }
  intros log2. eapply striple_bind.
  { apply (T_stage 2 _ (VStr "find-proof")); [done|done|]. intros l b -> Hf. by apply T_findProof. }
  intros log3. eapply striple_bind.
  { apply (T_stage 3 _ (VStr "block-safe")); [done|done|]. intros l b -> Hf. by apply T_waitBlockSafe. }
  intros log4. destruct (finished (VStr "block-safe") log4) eqn:Ef.
  - apply striple_at. intros g0 (Hlog & Hd & _). subst log4.
    eapply striple_conseq; [| | |apply (T_deposit (tn_log g0) (tn_plain g0)); done];
      [by intros g ->|done|done].
  - apply striple_ret. intros g Hk HR Hpl.
    pose proof (known_last _ _ _ _ stages_eq R 4 _ log4 g eq_refl eq_refl Hk HR Hpl). congruence.
Qed.

(** The set-up before the stages is silent. *)

Lemma calm_destroy : calm silent (destroy (St := St) (N := N)).
Proof.
  intros w. unfold destroy. destruct eth_close; (split; [|done]);
    [by exists [EvCloseConnection]; split; [|constructor]|exists []; rewrite app_nil_r; by split].
Qed.

Definition tn_start (w : world St N event) : tn := mkTn (log_get (store w)) None None true false.

Lemma T_execute base64 url fuel l0 : R = (field "finished" (read_log l0) ∈ stages) ->
  T (fun g => g = mkTn l0 None None true false) (execute (W := W) url base64 fuel o) (fun _ _ => True) (fun _ => True).
Proof.
  intros HR. unfold execute. apply (striple_bind _ _ _ _ _ _ (fun log => known 0 log)).
  { apply striple_load. intros g ->. split_and!; [done|done|]. by rewrite HR. }
  intros log.
  eapply striple_bind; [by apply (striple_lift_ok _ _ _ _ (fun _ => True))|intros sender]. apply striple_pure. intros Hs%of_sum_ok.
  eapply striple_bind; [apply T_silent; [by apply calm_rpc|done]|intros abi1].
  eapply striple_bind; [by apply (striple_lift_ok _ _ _ _ (fun _ => True))|intros c1]. apply striple_pure. intros H1'%of_sum_ok.
  eapply striple_bind; [apply T_silent; [apply calm_lift|done]|intros ?].
  eapply striple_bind; [apply T_silent; [eapply calm_weaken; [|apply calm_verifyAccount]; by intros []|done]|intros ?].
  eapply striple_bind; [apply T_silent; [eapply calm_weaken; [|apply calm_accessKeyInit]; by intros []|done]|intros ?].
  eapply striple_bind; [apply T_silent; [by apply calm_rpc|done]|intros abi2].
  eapply striple_bind; [by apply (striple_lift_ok _ _ _ _ (fun _ => True))|intros c2]. apply striple_pure. intros H2'%of_sum_ok.
  eapply striple_bind; [by eapply T_stages|intros ?].
  eapply striple_bind; [apply T_silent; [apply calm_destroy|done]|intros ?; apply striple_exit].
Qed.
End sequence.

(** ** A resumed transfer *)

Definition no_send (ev : event) : Prop := match ev with EvSend _ _ => False | _ => True end.

Lemma emits_record obj : emits (St := St) (N := N) no_send (recordTransferLog obj).
Proof.
  unfold recordTransferLog. apply emits_bind; [by apply emits_rpc|intros _].
  apply emits_bind; [apply emits_get|intros s; apply emits_put].
Qed.

Lemma no_send_silent {A} (m : M A) : calm silent m -> emits no_send m.
Proof. apply emits_calm. by intros []. Qed.
Lemma no_send_eth {A} (m : M A) : calm eth_query m -> emits no_send m.
Proof. apply emits_calm. by intros []. Qed.
Lemma no_send_view path {A} (m : M A) : calm (view_call path) m -> emits no_send m.
Proof. apply emits_calm. by intros []. Qed.

Lemma no_send_findProof url ev : emits (St := St) no_send (findProof url ev).
Proof.
  unfold findProof. apply emits_bind; [apply emits_lift|intros].
  apply emits_bind; [apply no_send_eth, calm_getTransactionReceipt|intros].
  apply emits_bind; [apply emits_lift|intros].
  apply emits_bind; [apply no_send_eth, calm_getBlock|intros].
  apply emits_bind; [apply no_send_silent, calm_buildTrie|intros].
  apply emits_bind; [apply emits_lift|intros].
  apply emits_bind; [apply no_send_silent, calm_extractProof|intros].
  apply emits_bind; [apply emits_lift|intros [[i x]|]; [apply emits_record|apply emits_exit]].
Qed.

Lemma no_send_wait fuel c n : emits (St := St) no_send (wait_safe (W := W) fuel c n).
Proof.
  induction fuel as [|fuel IH]; cbn [wait_safe]; [apply emits_out_of_fuel|].
  apply emits_bind; [eapply no_send_view, calm_view_method|intros].
  apply emits_bind; [apply emits_lift|intros].
  apply emits_bind; [eapply no_send_view, calm_view_method|intros v].
  destruct (js_truthy v); [apply emits_ret|]. apply emits_bind; [by apply emits_sleep|auto].
Qed.
Lemma no_send_waitBlockSafe fuel c log : emits (St := St) no_send (waitBlockSafe (W := W) fuel c log).
Proof.
  unfold waitBlockSafe. do 4 (cbn zeta; apply emits_bind; [apply emits_lift|intros ?]).
  apply emits_bind; [apply no_send_wait|intros; apply emits_record].
Qed.
Lemma no_send_deposit base64 acct f e log : emits (St := St) no_send (deposit (W := W) base64 acct f e log).
Proof.
  unfold deposit, get_balance. cbn zeta. apply emits_bind; [by apply emits_rpc|intros].
  apply emits_bind; [|intros; apply emits_bind; [by apply emits_rpc|intros; apply emits_ret]].
  apply emits_catch; [|intros; apply emits_exit]. apply emits_bind; [|intros; apply emits_ret].
  eapply emits_calm; [|apply calm_change_method]. by intros [].
Qed.
Lemma no_send_load : emits (St := St) (N := N) no_send loadTransferLog.
Proof. unfold loadTransferLog. apply emits_bind; [apply emits_get|intros; apply emits_ret]. Qed.
Lemma no_send_stage name log body : (forall x, emits no_send (body x)) ->
  emits (St := St) (N := N) no_send (stage name log body).
Proof.
  intros Hb. unfold stage. destruct (finished name log); [|apply emits_ret].
  apply emits_bind; [apply Hb|intros; apply no_send_load].
Qed.

Lemma no_send_later_stages base64 url fuel sender c1 c2 log :
  finished VUndef log = false -> finished (VStr "approve") log = false ->
  emits no_send (transfer_stages (W := W) (St := St) url base64 fuel o sender c1 c2 log).
Proof.
  intros Hu Ha. unfold transfer_stages.
  rewrite (stage_skip VUndef log _ Hu). apply emits_ret_bind.
  rewrite (stage_skip (VStr "approve") log _ Ha). apply emits_ret_bind.
  apply emits_bind; [apply no_send_stage; intros; apply no_send_findProof|intros].
  apply emits_bind; [apply no_send_stage; intros; apply no_send_waitBlockSafe|intros].
  destruct (finished (VStr "block-safe") a0); [apply no_send_deposit|apply emits_ret].
Qed.

Lemma emits_after_lock url base64 fuel l0 :
  finished VUndef (read_log l0) = false -> finished (VStr "approve") (read_log l0) = false ->
  forall w, log_get (store w) = l0 ->
  exists tr, trace (execute (W := W) url base64 fuel o w).1 = trace w ++ tr /\ Forall no_send tr.
Proof.
  intros Hu Ha w <-. unfold execute. rewrite (bind_run _ _ w w _ eq_refl). cbn beta.
  match goal with |- exists tr, trace (?m w).1 = _ /\ _ => enough (emits no_send m) as He by apply He end.
  apply emits_bind; [apply emits_lift|intros sender]. apply emits_bind; [by apply emits_rpc|intros abi1].
  do 2 (apply emits_bind; [apply emits_lift|intros ?]).
  apply emits_bind; [eapply emits_calm; [|apply calm_verifyAccount]; by intros []|intros].
  apply emits_bind; [eapply emits_calm; [|apply calm_accessKeyInit]; by intros []|intros].
  apply emits_bind; [by apply emits_rpc|intros abi2]. apply emits_bind; [apply emits_lift|intros c2].
  apply emits_bind; [by apply no_send_later_stages|intros].
  apply emits_bind; [|intros; apply emits_exit]. apply no_send_silent, calm_destroy.
Qed.

(** ** What the states of the automaton say about the events *)


Lemma tn_plain_fold tr g : Forall plain_write tr -> tn_plain (fold_left tn_update tr g) = tn_plain g.
Proof.
  intros Htr. revert g. induction Htr as [|ev tr Hev _ IH]; intros g; simpl; [done|]. rewrite IH.
  destruct ev; simpl; repeat case_match; try done. simpl in *. by rewrite Hev, andb_true_r.
Qed.

Lemma tn_done_fold tr g : tn_done g = false -> tn_done (fold_left tn_update tr g) = true ->
  exists h res, EvTxStatus h (inr res) ∈ tr /\ SuccessValue res <> None.
Proof.
  revert g. induction tr as [|ev tr IH]; intros g Hg; simpl; [congruence|].
  destruct (tn_done (tn_update g ev)) eqn:Ed.
  - intros _. destruct ev; simpl in Ed; try congruence; repeat case_match; simpl in Ed; try congruence.
    rewrite Hg in Ed. simpl in Ed. apply bool_decide_eq_true_1 in Ed. eexists _, _. split; [by left|done].
  - intros Hd. destruct (IH _ Ed Hd) as (h & res & Hin & Hs). exists h, res. split; [by right|done].
Qed.
End spec.
