(* ===== verification/TransferTheorems.v ===== *)
(** * Theorems about the transfer of tokens to NEAR *)

From Stdlib Require Import Ascii Strings.Byte.
From stdpp Require Import base list strings gmap pretty.
From Stdlib Require Import ZArith Lia.
From S2P Require Import Prelude Js Borsh Borshify Effects Schemas Instances Robust NearTx NearTxSpec Traces.
From S2P Require Import Eth2NearRelay Accounts InitContracts TransferLog ToNear TransferSpec ToNearSpec.
Local Open Scope Z_scope.

(** C24: whatever the nodes answer, a run of the transfer keeps to the order of
    its stages.  It sends the approval of the amount only while the log records
    no stage, and the lock of the same amount for the receiver only when the log
    records the approval; a stage is recorded only when its transaction was
    mined, when the log entry of the lock event was found in the receipt, or
    when the client contract called the number of the recorded block safe; and
    the deposit is signed, for the token factory only, when the log records that
    the block is safe, with the proof made from the recorded data. *)
Theorem to_near_order {St N actions} `{Clock N} `{EthNode N} `{EthContracts N} `{NearNode N actions} `{KeySlot St}
    `{NearAccounts N} `{NearQueries N} `{Files N} `{Disk N} `{LogSlot St} `{!LogLaws St} `{BNJson}
    `{Web3Utils} `{KeyPairs} `{EthKeys} `{EthObjects} `{ContractLib} {W} `{BinaryWriter W} `{BNLib} `{HexUtils}
    (ethNodeUrl : string) (base64 : string -> list byte) (fuel : nat) (o : to_near_opts)
    (w : world St N event) :
  exists tr, trace (execute (W := W) ethNodeUrl base64 fuel o w).1 = trace w ++ tr /\
    accepts (tn_update o) (tn_ok (W := W) o) (tn_start w) tr.
Proof.
  destruct (T_execute (W := W) o _ base64 ethNodeUrl fuel (log_get (store w)) eq_refl w (tn_start w))
    as (tr & Ht & Hacc & _); [done..|]. by exists tr.
Qed.

(** When the stages of a transfer return, from a log at any stage, and what
    they recorded was plain data, then the deposit was made: the node answered
    that a transaction succeeded. *)
Theorem to_near_completes {St N actions} `{Clock N} `{EthNode N} `{EthContracts N} `{NearNode N actions} `{KeySlot St}
    `{NearAccounts N} `{NearQueries N} `{Files N} `{Disk N} `{LogSlot St} `{!LogLaws St} `{BNJson}
    `{Web3Utils} `{KeyPairs} `{EthKeys} `{EthObjects} `{ContractLib} {W} `{BinaryWriter W} `{BNLib} `{HexUtils}
    (ethNodeUrl : string) (base64 : string -> list byte) (fuel : nat) (o : to_near_opts)
    (sender : string) (abi1 abi2 : list byte) (erc20 locker : contract) (w w' : world St N event) :
  privateKeyToAddress (normalizeEthKey (ethSenderSk o)) = inr sender ->
  web3_contract abi1 (ethErc20Address o) = inr erc20 ->
  web3_contract abi2 (ethLockerAddress o) = inr locker ->
  field "finished" (read_log (log_get (store w))) ∈ stages ->
  transfer_stages (W := W) ethNodeUrl base64 fuel o sender erc20 locker (read_log (log_get (store w))) w
    = (w', Ok tt) ->
  exists tr, trace w' = trace w ++ tr /\ (Forall plain_write tr ->
    exists h res, EvTxStatus h (inr res) ∈ tr /\ SuccessValue res <> None).
Proof.
  intros Hs H1' H2' Hst Hrun.
  destruct (T_stages (W := W) o True base64 ethNodeUrl fuel sender erc20 abi1 locker abi2
    (read_log (log_get (store w))) Hs H1' H2' w (tn_start w)) as (tr & Ht & _ & _ & Ho); [done|done|].
  rewrite Hrun in Ht, Ho. exists tr. split; [done|]. intros Hpl.
  eapply tn_done_fold, Ho; [done|done|]. by rewrite tn_plain_fold.
Qed.

(** A transfer that is resumed from a log that records the lock, or a later
    stage, sends no Ethereum transaction: the tokens are not locked again. *)
Theorem resumed_transfer_sends_nothing {St N actions} `{Clock N} `{EthNode N} `{EthContracts N} `{NearNode N actions}
    `{KeySlot St} `{NearAccounts N} `{NearQueries N} `{Files N} `{Disk N} `{LogSlot St} `{!LogLaws St} `{BNJson}
    `{Web3Utils} `{KeyPairs} `{EthKeys} `{EthObjects} `{ContractLib} {W} `{BinaryWriter W} `{BNLib} `{HexUtils}
    (ethNodeUrl : string) (base64 : string -> list byte) (fuel : nat) (o : to_near_opts)
    (w : world St N event) :
  finished VUndef (read_log (log_get (store w))) = false ->
  finished (VStr "approve") (read_log (log_get (store w))) = false ->
  exists tr, trace (execute (W := W) ethNodeUrl base64 fuel o w).1 = trace w ++ tr /\
    Forall (fun ev => match ev with EvSend _ _ => False | _ => True end) tr.
Proof.
  intros Hu Ha. apply (emits_after_lock (W := W) o ethNodeUrl base64 fuel _ Hu Ha w eq_refl).
Qed.

(** Plain data survives the round through the log file: when
    [recordTransferLog] returns, [loadTransferLog] gives the object that was
    recorded, with its buffers. *)
Theorem transfer_log_roundtrip {St N} `{LogSlot St} `{KeySlot St} `{!LogLaws St} `{Disk N} `{BNJson}
    (props : list (string * jsval)) (w w' : world St N event) :
  plain (VObj props) = true ->
  recordTransferLog (VObj props) w = (w', Ok tt) -> loadTransferLog w' = (w', Ok (VObj props)).
Proof.
  intros Hp. unfold recordTransferLog, rpc, mbind, M_bind.
  destruct (disk_write (VObj props) (net w)) as [n' [e|u]]; [done|].
  intros Heq%(f_equal fst). cbn [fst] in Heq. subst w'.
  unfold loadTransferLog, get_store, put_store, mbind, M_bind, mret, M_ret. cbn [store fst snd].
  cbn [fst of_sum store]. by rewrite log_get_set, (read_log_plain props Hp).
Qed.

(** ** Witnesses: a transfer between two small chains *)

#[local] Instance toy_clock : Clock unit := fun _ n => n.
#[local] Instance toy_key : KeySlot (option Z * option jsval) :=
  {| k_get s := s.1; k_set k s := (k, s.2); k_get_set k s := eq_refl |}.
#[local] Instance toy_slot : LogSlot (option Z * option jsval) :=
  {| log_get s := s.2; log_set j s := (s.1, Some j) |}.
#[local] Instance toy_slot_laws : LogLaws (option Z * option jsval).
Proof. by split. Qed.
#[local] Instance toy_json : BNJson := fun z => pretty z.
#[local] Instance toy_web3 : Web3Utils := {| toHex z := pretty z; toHex_inj := _ |}.
#[local] Instance toy_eth : EthNode unit := {|
  eth_setProvider _ n := n;
  eth_close := None;
  eth_getBlockNumber n := (n, inr 7);
  eth_getBlock _ n := (n, inr (VObj [("number", VNum 5); ("transactions", VArr [VStr "0x77"])]));
  eth_getTransactionReceipt _ n := (n, inr (VObj [("blockNumber", VNum 5); ("transactionIndex", VNum 0);
    ("logs", VArr [VObj [("logIndex", VNum 2)]; VObj [("logIndex", VNum 3)]])]));
  eth_getGasPrice n := (n, inr 20000000000);
  eth_getTransactionCount _ n := (n, inr 5);
  eth_call _ n := (n, inr tt);
  eth_sendTransaction _ n := (n, Some (1000, inr (VObj [("logs", VArr [VStr "raw"])])))
|}.
#[local] Instance toy_contracts : EthContracts unit := {|
  eth_view _ _ _ n := (n, inr (VNum 100));
  eth_contract_send _ _ _ _ n := (n, inr tt)
|}.
#[local] Instance toy_near : NearNode unit (list byte) := {|
  near_status n := (n, inr "block");
  near_signTransaction _ _ _ _ _ n := (n, inr ("hash", [x01]));
  near_broadcast_tx_async _ n := (n, inr tt);
  near_txStatus _ _ n := (n, inr (mkTxResult (Some "") None [] [] VNull));
  near_query path _ n := (n, inr (mkQueryResult None (Some
    (if includes "safe" path then x01 :: replicate 32 x07 else le_bytes 8 6))));
  near_findAccessKey _ n := (n, inr (Some 4));
  near_base_decode _ := inr [];
  near_functionCall _ bytes _ _ := bytes
|}.
#[local] Instance toy_accounts : NearAccounts unit := {|
  near_fetchState _ n := (n, inr tt);
  near_createAccount _ _ _ _ n := (n, inr tt);
  near_deployContract _ _ n := (n, inr tt);
  near_getAccessKeys _ n := (n, inr ["key"]);
  near_change _ _ _ _ _ n := (n, inr tt)
|}.
#[local] Instance toy_queries : NearQueries unit := {|
  near_view _ _ _ n := (n, inr (VStr "0"));
  near_block _ n := (n, inr VNull);
  near_light_client_proof _ n := (n, inr VNull)
|}.
#[local] Instance toy_files : Files unit := fun path n => (n, inr (utf8 path)).
#[local] Instance toy_disk : Disk unit := fun _ n => (n, inr tt).
#[local] Instance toy_pairs : KeyPairs := fun _ => inr "key".
#[local] Instance toy_keys : EthKeys := {| privateKeyToAddress sk := inr sk; parse_abi _ := inr tt |}.
#[local] Instance toy_objects : EthObjects := {|
  receipt_serialize _ := inr [x0a];
  log_serialize _ := inr [x0b];
  header_serialize _ := inr [x0c];
  encode_index _ := inr [x00];
  trie_findPath _ _ := inr (VArr []);
  Proof_fromStack _ := inr (VArr [VBytes [x0d]]);
  rlp_encode v := match v with VBytes bs => inr bs | _ => inl (TypeError "rlp") end
|}.
Definition toy_event : jsval := VObj [("transactionHash", VStr "0x77"); ("logIndex", VNum 3);
  ("returnValues", VObj [("accountId", VStr "bob"); ("amount", VStr "10")])].
#[local] Instance toy_lib : ContractLib := {|
  web3_contract _ address := inr (mkContract address (fun m _ => inr m) (fun _ => inr ("Locked", toy_event)));
  BN_of s := match decimal s with Some z => inr z | None => inl (Error "Assertion failed") end
|}.
Definition toy_opts : to_near_opts := mkToNearOpts "10" "5e" "bob" "master" "sk" "factory" "client" "token"
  "erc20.abi" "0xe2" "locker.abi" "0x1c".
Definition toy_world (log : option jsval) : world (option Z * option jsval) unit event :=
  mkWorld (Some 4, log) tt [].

Lemma to_near_order_witness :
  (execute (W := list byte) "http://node" base64_decode 3 toy_opts (toy_world None)).2 = Exit 0 /\
  exists tr, trace (execute (W := list byte) "http://node" base64_decode 3 toy_opts (toy_world None)).1 = [] ++ tr /\
    accepts (tn_update toy_opts) (tn_ok (W := list byte) toy_opts) (tn_start (toy_world None)) tr.
Proof.
  split; [vm_compute; reflexivity|].
  apply (to_near_order (W := list byte) "http://node" base64_decode 3 toy_opts (toy_world None)).
Defined.

Definition toy_contract (address : string) : contract :=
  mkContract address (fun m _ => inr m) (fun _ => inr ("Locked", toy_event)).
Definition toy_run : world (option Z * option jsval) unit event * outcome unit :=
  transfer_stages (W := list byte) "http://node" base64_decode 3 toy_opts "0x5e"
    (toy_contract "0xe2") (toy_contract "0x1c") (read_log (log_get (store (toy_world None)))) (toy_world None).

Lemma to_near_completes_witness :
  toy_run.2 = Ok tt /\
  exists tr, trace toy_run.1 = [] ++ tr /\ (Forall plain_write tr ->
    exists h res, EvTxStatus h (inr res) ∈ tr /\ SuccessValue res <> None).
Proof.
  split; [vm_compute; reflexivity|].
  apply (to_near_completes (W := list byte) "http://node" base64_decode 3 toy_opts "0x5e" [] []
    (toy_contract "0xe2") (toy_contract "0x1c") (toy_world None) toy_run.1).
  - reflexivity.
  - reflexivity.
  - reflexivity.
  - left.
  - vm_compute. reflexivity.
Defined.

(** The objects that this run records are plain. *)
Lemma toy_run_plain : Forall plain_write (trace toy_run.1).
Proof. vm_compute. repeat constructor. Qed.

Definition locked_log : jsval := VObj [("finished", VStr "lock"); ("lockedEvent", toy_event)].
Lemma resumed_transfer_sends_nothing_witness :
  finished VUndef (read_log (Some locked_log)) = false /\
  exists tr, trace (execute (W := list byte) "http://node" base64_decode 3 toy_opts (toy_world (Some locked_log))).1
      = [] ++ tr /\ Forall (fun ev => match ev with EvSend _ _ => False | _ => True end) tr.
Proof.
  split; [reflexivity|].
  apply (resumed_transfer_sends_nothing (W := list byte) "http://node" base64_decode 3 toy_opts
    (toy_world (Some locked_log))); reflexivity.
Defined.

Definition toy_record : list (string * jsval) :=
  [("finished", VStr "block-safe"); ("proofLocker", VObj [("header_data", VBytes [x01; xff])])].
Lemma transfer_log_roundtrip_witness :
  let w' := (recordTransferLog (VObj toy_record) (toy_world None)).1 in
  plain (VObj toy_record) = true /\ loadTransferLog w' = (w', Ok (VObj toy_record)).
Proof.
  split; [reflexivity|].
  apply (transfer_log_roundtrip toy_record (toy_world None)); reflexivity.
Defined.
