(* ===== verification/Utils.v ===== *)
(** * Shared helpers: [utils/utils.js] and [utils/get-config.js]

    Set-up of the connections from a configuration object.  The object is shared
    with the caller and changed in place: it is the store of the model.  A key
    store is what [near-api-js] is told to look keys up in; the connection to
    Ethereum is its address with the accounts of its wallet.  What the functions
    print is left out. *)

From Stdlib Require Import Ascii Strings.Byte.
From stdpp Require Import base list strings gmap.
From Stdlib Require Import ZArith Lia.
From S2P Require Import Prelude Js Borsh Borshify Effects Schemas Robust NearTx Accounts InitContracts Cli ToNear.
Local Open Scope Z_scope.

Definition CREDENTIALS_DIR : string := ".near-credentials".
Definition PROJECT_KEY_DIR : string := "./neardev".
Definition DEFAULT_GAS : Z := 1000000.

(** [getConfig(env)]; [HOME] is [process.env.HOME], printed as [undefined] when
    it is not set. *)
Definition getConfig (HOME : option string) (env : string) : outcome (list (string * jsval)) :=
  if String.eqb env "mainnet" then
    Ok [("networkId", VStr "mainnet"); ("nearNodeUrl", VStr "https://rpc.mainnet.near.org"); ("ethNodeUrl", VStr "")]
  else if String.eqb env "testnet" then
    Ok [("networkId", VStr "default"); ("nearNodeUrl", VStr "https://rpc.testnet.near.org"); ("ethNodeUrl", VStr "")]
  else if String.eqb env "local" || String.eqb env "test" then
    Ok [("networkId", VStr "local");
        ("nearNodeUrl", VStr "http://localhost:3030");
        ("keyPath", VStr (default "undefined" HOME +:+ "/.near/local/validator_key.json"));
        ("masterAccount", VStr "test.near");
        ("nearEthClientId", VStr "client.test.near");
        ("nearEthProverId", VStr "prover.test.near");
        ("ethNodeUrl", VStr "http://localhost:9545");
        ("ethFromSecretKey", VStr "0x2bdd21761a483f71054e14f5b827213567971c676928d9a1808cbfa4b7501200");
        ("ethProverAddress", VStr "")]
  else Throw (Error ("Unconfigured environment '" +:+ env +:+ "'. Can be configured in src/config.js.")).

(** The stores that a [MergeKeyStore] looks into, in order. *)
Inductive key_store :=
| FileStore (dir : string)
| MemoryStore (networkId accountId : jsval) (secretKey : string).

Record near_connection := mkNear {
  nc_networkId : jsval;
  nc_nodeUrl : jsval;
  nc_keyStores : list key_store
}.

Record web3_connection := mkWeb3 {
  w3_url : jsval;
  w3_wallet : list string;
  w3_defaultAccount : option string
}.

(** [JSON.parse] of the content of a file *)
Class JsonFile := JSON_parse : list byte -> exn + jsval.

Section setup.
Context {N : Type} `{Files N} `{JsonFile} `{KeyPairs} `{EthKeys} `{ContractLib}.
Variable homedir : string.
Abbreviation M := (M (list (string * jsval)) N event).

(** [createLocalKeyStore(networkId, keyPath)] *)
Definition createLocalKeyStore (networkId keyPath : jsval) : M (list key_store) :=
  let keyStores := [FileStore (path_join [homedir; CREDENTIALS_DIR]); FileStore PROJECT_KEY_DIR] in
  if js_truthy keyPath then
    match keyPath with
    | VStr path =>
        data ← rpc (readFileSync path) (EvReadFile path);
        account ← lift (of_sum (JSON_parse data));
        secret_key ← lift (js_get account "secret_key");
        match secret_key with
        | VStr sk =>
            lift (of_sum (publicKeyOf sk));;
            account_id ← lift (js_get account "account_id");
            mret (keyStores ++ [MemoryStore networkId account_id sk])
        | _ => throw (TypeError "curveAndKey.split is not a function")
        end
    | _ => throw (TypeError "The path argument must be of type string")
    end
  else mret keyStores.

(** [setupNear(config)]: the path of the key file is deleted from the object. *)
Definition setupNear : M near_connection :=
  config ← get_store;
  deps ← createLocalKeyStore (get_prop "networkId" config) (get_prop "keyPath" config);
  put_store (if js_truthy (get_prop "keyPath" config) then delete_prop "keyPath" config else config);;
  mret (mkNear (get_prop "networkId" config) (get_prop "nearNodeUrl" config) deps).

Definition getWeb3 (config : list (string * jsval)) : web3_connection :=
  mkWeb3 (get_prop "ethNodeUrl" config) [] None.

(** [addSecretKey(web3, secretKey)]: the connection with the account in its
    wallet, and the account's address. *)
Definition addSecretKey (web3 : web3_connection) (secretKey : jsval) : outcome (web3_connection * string) :=
  match secretKey with
  | VStr sk =>
      address ← of_sum (privateKeyToAddress (normalizeHex sk));
      Ok (mkWeb3 (w3_url web3) (w3_wallet web3 ++ [address]) (w3_defaultAccount web3), address)
  | _ => Throw (TypeError "value.toLowerCase is not a function")
  end.

Definition setupEth : M web3_connection :=
  config ← get_store;
  '(web3, address) ← lift (addSecretKey (getWeb3 config) (get_prop "ethFromSecretKey" config));
  put_store (set_prop "ethFrom" (VStr address) config);;
  mret (mkWeb3 (w3_url web3) (w3_wallet web3) (Some address)).

Definition setupEthNear : M (near_connection * web3_connection) :=
  near ← setupNear;
  web3 ← setupEth;
  mret (near, web3).

(** [getEthContract(web3, path, address)]: the contract with its field [bin], and
    the account it sends from. *)
Definition getEthContract (web3 : web3_connection) (path address : string)
    : M (contract * list byte * option string) :=
  bin ← rpc (readFileSync (path +:+ ".full.bin")) (EvReadFile (path +:+ ".full.bin"));
  abi ← rpc (readFileSync (path +:+ ".full.abi")) (EvReadFile (path +:+ ".full.abi"));
  contract ← lift (of_sum (web3_contract abi address));
  mret (contract, bin, w3_defaultAccount web3).
End setup.

Section calls.
Context {St N : Type} `{NearAccounts N} `{EthContracts N}.
Abbreviation M := (M St N event).

(** [accountExists(connection, accountId)] *)
Definition accountExists (accountId : string) : M bool :=
  catch (rpc (near_fetchState accountId) (EvFetchState accountId);; mret true)
    (fun error => if includes "does not exist while viewing" (e_message error) then mret false else throw error).

(** [ethCallContract(contract, methodName, args)]: the promise of [send] is
    returned without being awaited, so its failure is not caught. *)
Definition ethCallContract (address methodName : string) (args : list jsval) : M unit :=
  catch (rpc (eth_view address methodName args) (EvView address methodName args);; mret tt) throw;;
  let opts := [("gas", VNum DEFAULT_GAS)] in
  rpc (eth_contract_send address methodName args opts) (EvContractSend address methodName args opts).
End calls.
