(* ===== verification/UtilsTheorems.v ===== *)
(** * Theorems about the shared helpers *)

From Stdlib Require Import Ascii Strings.Byte.
From stdpp Require Import base list strings gmap.
From Stdlib Require Import ZArith Lia.
From S2P Require Import Prelude Js Effects Robust Accounts InitContracts Cli ToNear Utils.
Local Open Scope Z_scope.

(** The two functions that test for an account agree, except when the query
    fails for another reason than that the account does not exist: the one of
    [utils/helpers.js] then calls the account missing, the one of
    [utils/utils.js] throws. *)
Theorem accountExists_agree {St N} `{NearAccounts N} (accountId : string) (w : world St N event) :
  let r := Utils.accountExists accountId w in
  let r' := Accounts.accountExists accountId w in
  r.1 = r'.1 /\
  match r.2 with
  | Ok found => r'.2 = Ok found
  | Throw error => r'.2 = Ok false /\ includes "does not exist while viewing" (e_message error) = false
  | _ => False
  end.
Proof.
  unfold Utils.accountExists, Accounts.accountExists, catch, mbind, M_bind, rpc.
  destruct (near_fetchState accountId (net w)) as [n' [error|[]]]; simpl; [|done].
  destruct (includes _ _) eqn:E; by split_and!.
Qed.

Section setup.
Context {N : Type} `{Files N} `{JsonFile} `{KeyPairs} `{EthKeys} `{ContractLib}.
Abbreviation config := (list (string * jsval)).

Lemma setupEth_no_key (w : world config N event) :
  get_prop "ethFromSecretKey" (store w) = VUndef -> exists e, (setupEth w).2 = Throw e.
Proof. intros Hk. unfold setupEth, mbind, M_bind, get_store, lift. rewrite Hk. simpl. by eexists. Qed.

Lemma createLocalKeyStore_file homedir networkId path (w : world config N event) n' data props sk pk id :
  truthy path = true -> readFileSync path (net w) = (n', inr data) -> JSON_parse data = inr (VObj props) ->
  assoc "secret_key" props = Some (VStr sk) -> publicKeyOf sk = inr pk -> assoc "account_id" props = Some id ->
  createLocalKeyStore homedir networkId (VStr path) w =
    (mkWorld (store w) n' (trace w ++ [EvReadFile path (inr data)]),
     Ok [FileStore (path_join [homedir; CREDENTIALS_DIR]); FileStore PROJECT_KEY_DIR; MemoryStore networkId id sk]).
Proof.
  intros Ht Hr Hp Hsk Hpk Hid. unfold createLocalKeyStore. change (js_truthy (VStr path)) with (truthy path). rewrite Ht.
  erewrite bind_run by (by apply rpc_run). unfold mbind, M_bind, lift. rewrite Hp. simpl. rewrite Hsk. simpl.
  rewrite Hpk. simpl. by rewrite Hid.
Qed.
(** The stores that every connection has. *)
Definition file_stores (homedir : string) : list key_store :=
  [FileStore (path_join [homedir; CREDENTIALS_DIR]); FileStore PROJECT_KEY_DIR].

Lemma setupNear_file homedir path (w : world config N event) n' data props sk pk id :
  get_prop "keyPath" (store w) = VStr path -> truthy path = true ->
  readFileSync path (net w) = (n', inr data) -> JSON_parse data = inr (VObj props) ->
  assoc "secret_key" props = Some (VStr sk) -> publicKeyOf sk = inr pk -> assoc "account_id" props = Some id ->
  setupNear homedir w =
    (mkWorld (delete_prop "keyPath" (store w)) n' (trace w ++ [EvReadFile path (inr data)]),
     Ok (mkNear (get_prop "networkId" (store w)) (get_prop "nearNodeUrl" (store w))
           (file_stores homedir ++ [MemoryStore (get_prop "networkId" (store w)) id sk]))).
Proof.
  intros Hk Ht Hr Hp Hsk Hpk Hid. unfold setupNear. erewrite bind_run by reflexivity. rewrite Hk.
  erewrite bind_run by (by eapply createLocalKeyStore_file).
  change (js_truthy (VStr path)) with (truthy path). by rewrite Ht.
Qed.

Lemma addSecretKey_ok web3 sk address : privateKeyToAddress (normalizeHex sk) = inr address ->
  addSecretKey web3 (VStr sk) = Ok (mkWeb3 (w3_url web3) (w3_wallet web3 ++ [address]) (w3_defaultAccount web3), address).
Proof. intros Ha. unfold addSecretKey. by rewrite Ha. Qed.

Lemma setupEth_store (w w' : world config N event) web3 :
  setupEth w = (w', Ok web3) ->
  exists address, store w' = set_prop "ethFrom" (VStr address) (store w) /\ w3_defaultAccount web3 = Some address /\
    address ∈ w3_wallet web3.
Proof.
  unfold setupEth, get_store, put_store, lift, mbind, M_bind. unfold addSecretKey.
  destruct (get_prop _ _); simpl; try done. destruct (privateKeyToAddress _) as [e|address]; simpl; [done|].
  intros [= <- <-]. exists address. split_and!; [done|done|by left].
Qed.

Lemma setupNear_store homedir (w w' : world config N event) near :
  setupNear homedir w = (w', Ok near) ->
  get_prop "keyPath" (store w') = (if js_truthy (get_prop "keyPath" (store w)) then VUndef else get_prop "keyPath" (store w)) /\
  (js_truthy (get_prop "keyPath" (store w)) = false -> nc_keyStores near = file_stores homedir).
Proof.
  unfold setupNear. intros (c & w1 & [= <- <-] & Hrun)%bind_ok.
  apply bind_ok in Hrun as (deps & w2 & E & Hrun). unfold put_store, mbind, M_bind in Hrun. simpl in Hrun.
  injection Hrun as <- <-. simpl. split.
  - destruct (js_truthy _); [|done]. unfold get_prop. by rewrite assoc_delete_eq.
  - intros Hk. unfold createLocalKeyStore in E. rewrite Hk in E. by injection E as _ <-.
Qed.
End setup.

(** Setting up uses the key file once.  After a set-up returned, the object
    has no path of a key file, and its field [ethFrom] is the default account of
    the connection, which is in the wallet; a second set-up with the same object
    gives a connection without the key of the file. *)
Theorem setup_consumes_keyPath {N} `{Files N} `{JsonFile} `{KeyPairs} `{EthKeys} (homedir : string)
    (w w' w1 w2 : world (list (string * jsval)) N event) near near1 web3 web31 :
  setupEthNear homedir w = (w', Ok (near, web3)) ->
  store w1 = store w' -> setupEthNear homedir w1 = (w2, Ok (near1, web31)) ->
  js_truthy (get_prop "keyPath" (store w')) = false /\
  (exists address, get_prop "ethFrom" (store w') = VStr address /\ w3_defaultAccount web3 = Some address /\
     address ∈ w3_wallet web3) /\
  nc_keyStores near1 = file_stores homedir.
Proof.
  intros (n & wa & En & (e & wb & Ee & [= <- <- <-])%bind_ok)%bind_ok Hs
    (n1 & wc & En1 & (e1 & wd & Ee1 & [= <- <- <-])%bind_ok)%bind_ok.
  destruct (setupNear_store _ _ _ _ En) as [Hk _]. destruct (setupNear_store _ _ _ _ En1) as [_ Hk1].
  destruct (setupEth_store _ _ _ Ee) as (address & Hb & Hd & Hw).
  assert (Hf : js_truthy (get_prop "keyPath" (store wb)) = false).
  { rewrite Hb. unfold get_prop. rewrite assoc_set_prop. simpl. fold (get_prop "keyPath" (store wa)).
    rewrite Hk. by destruct (js_truthy (get_prop "keyPath" (store w))) eqn:E. }
  split_and!; [done| |apply Hk1; by rewrite Hs].
  exists address. split_and!; [|done|done]. rewrite Hb. unfold get_prop. by rewrite assoc_set_prop.
Qed.

(** Of the configurations that [getConfig] knows, only the local one can be
    set up.  Those of the two public networks hold no Ethereum key, so the set-up
    throws whatever the files are; the local one is set up when the key file of
    the local node is there and the keys are valid, with the key of the file
    under its account. *)
Theorem getConfig_setup {N} `{Files N} `{JsonFile} `{KeyPairs} `{EthKeys} (HOME : option string)
    (env homedir : string) (w : world (list (string * jsval)) N event) :
  getConfig HOME env = Ok (store w) ->
  (env ∈ ["mainnet"; "testnet"] -> exists e, (setupEthNear homedir w).2 = Throw e) /\
  (env ∈ ["local"; "test"] -> forall n' data props sk pk id address,
     readFileSync (default "undefined" HOME +:+ "/.near/local/validator_key.json") (net w) = (n', inr data) ->
     JSON_parse data = inr (VObj props) -> assoc "secret_key" props = Some (VStr sk) ->
     assoc "account_id" props = Some id -> publicKeyOf sk = inr pk ->
     privateKeyToAddress "0x2bdd21761a483f71054e14f5b827213567971c676928d9a1808cbfa4b7501200" = inr address ->
     exists w', setupEthNear homedir w = (w', Ok
       (mkNear (VStr "local") (VStr "http://localhost:3030") (file_stores homedir ++ [MemoryStore (VStr "local") id sk]),
        mkWeb3 (VStr "http://localhost:9545") [address] (Some address)))).
Proof.
  intros Hc. split.
  - intros Henv. assert (Hcfg : get_prop "keyPath" (store w) = VUndef /\ get_prop "ethFromSecretKey" (store w) = VUndef).
    { apply elem_of_cons in Henv as [->|[->|[]%elem_of_nil]%elem_of_cons]; by injection Hc as <-. }
    destruct Hcfg as [Hk He]. unfold setupEthNear, setupNear, createLocalKeyStore.
    unfold mbind at 1 2 3 4, M_bind, get_store, put_store. rewrite Hk. simpl.
    destruct (setupEth_no_key (mkWorld (store w) (net w) (trace w)) He) as [e Hth].
    exists e. destruct (setupEth _) as [w1 o]; simpl in Hth. by rewrite Hth.
  - intros Henv n' data props sk pk id address Hr Hp Hsk Hid Hpk Ha.
    assert (Hs : Ok (store w) = getConfig HOME "local").
    { apply elem_of_cons in Henv as [->|[->|[]%elem_of_nil]%elem_of_cons]; by rewrite <- Hc. }
    injection Hs as Hs. destruct w as [c n tr]. simpl in *. subst c. unfold setupEthNear.
    erewrite bind_run by (eapply (setupNear_file homedir _ (mkWorld _ n tr)); [reflexivity| |exact Hr|done..];
      by destruct HOME as [[]|]).
    match goal with |- context [(_ ≫= _) ?w = _] => eassert (setupEth w = (_, Ok _)) as E2 end.
    { unfold setupEth. erewrite bind_run by reflexivity.
      erewrite bind_run by (unfold lift; f_equal; by apply addSecretKey_ok). reflexivity. }
    erewrite bind_run by exact E2. eexists. reflexivity.
Qed.

(** ** Witnesses *)

#[local] Instance desk_files : Files unit := fun path n => (n, inr (utf8 path)).
Definition desk_account : list (string * jsval) :=
  [("account_id", VStr "test.near"); ("secret_key", VStr "ed25519:sk")].
#[local] Instance desk_json : JsonFile := fun _ => inr (VObj desk_account).
#[local] Instance desk_pairs : KeyPairs := fun _ => inr "ed25519:pk".
#[local] Instance desk_keys : EthKeys := {| privateKeyToAddress _ := inr "0x5e"; parse_abi _ := inr tt |}.
Definition desk_config : list (string * jsval) := Eval vm_compute in
  match getConfig (Some "/home/alice") "local" with Ok c => c | _ => [] end.
Definition desk_world (c : list (string * jsval)) : world (list (string * jsval)) unit event := mkWorld c tt [].

Lemma getConfig_setup_witness :
  exists w', setupEthNear "/home/alice" (desk_world desk_config) = (w', Ok
    (mkNear (VStr "local") (VStr "http://localhost:3030")
       (file_stores "/home/alice" ++ [MemoryStore (VStr "local") (VStr "test.near") "ed25519:sk"]),
     mkWeb3 (VStr "http://localhost:9545") ["0x5e"] (Some "0x5e"))).
Proof.
  refine (proj2 (getConfig_setup (Some "/home/alice") "local" "/home/alice" (desk_world desk_config) _) _
    tt (utf8 "/home/alice/.near/local/validator_key.json") desk_account "ed25519:sk" "ed25519:pk" (VStr "test.near") "0x5e"
    _ _ _ _ _ _); try reflexivity. left.
Defined.

Definition desk_first := setupEthNear "/home/alice" (desk_world desk_config).
Definition desk_second := setupEthNear "/home/alice" desk_first.1.
Lemma setup_consumes_keyPath_witness :
  js_truthy (get_prop "keyPath" (store desk_first.1)) = false /\
  (exists address, get_prop "ethFrom" (store desk_first.1) = VStr address /\ Some "0x5e" = Some address /\
     address ∈ ["0x5e"]) /\
  file_stores "/home/alice" = file_stores "/home/alice".
Proof.
  apply (setup_consumes_keyPath "/home/alice" (desk_world desk_config) desk_first.1 desk_first.1 desk_second.1
    (mkNear (VStr "local") (VStr "http://localhost:3030")
       (file_stores "/home/alice" ++ [MemoryStore (VStr "local") (VStr "test.near") "ed25519:sk"]))
    (mkNear (VStr "local") (VStr "http://localhost:3030") (file_stores "/home/alice"))
    (mkWeb3 (VStr "http://localhost:9545") ["0x5e"] (Some "0x5e"))
    (mkWeb3 (VStr "http://localhost:9545") ["0x5e"] (Some "0x5e"))); vm_compute; reflexivity.
Defined.
