(* ===== verification/FromNear.v ===== *)
(** * The transfer of tokens from NEAR to Ethereum

    [testing/transfer-eth-erc20/from-near.js]: withdraw on NEAR, find the block
    that holds the outcome, wait until the light client on Ethereum has passed
    it, ask a NEAR node for the proof, check it with the prover contract and
    unlock the tokens.  Each stage records its result in the log of
    {!TransferLog}. *)

From Stdlib Require Import Ascii Strings.Byte.
From stdpp Require Import base list strings gmap.
From Stdlib Require Import ZArith Lia SpecFloat.
From S2P Require Import Prelude Js Borsh Borshify Effects Schemas Robust NearTx.
From S2P Require Import Near2EthRelay Accounts InitContracts TransferLog ToNear.
Local Open Scope Z_scope.

(** ** Numbers and JSON objects *)

(** [Number(v)]: [None] is [NaN]. *)
Definition js_Number (v : jsval) : option Z :=
  match v with
  | VNum z => Some z
  | VStr s => decimal s
  | VNull => Some 0
  | VBool b => Some (if b then 1 else 0)
  | _ => None
  end.

(** The number as a value; [NaN] is not a number that a contract or a file
    takes, it stands as [undefined]. *)
Definition number_value (n : option Z) : jsval := match n with Some z => VNum z | None => VUndef end.

(** Comparisons are false when one side is [NaN]. *)
Definition num_gt (a b : option Z) : bool :=
  match a, b with Some x, Some y => y <? x | _, _ => false end.
Definition num_le (a b : option Z) : bool :=
  match a, b with Some x, Some y => x <=? y | _, _ => false end.

(** [sleep(delay * 1000)] for [delay = Math.max(d, 1)] *)
Definition delay_ms (d : option Z) : float :=
  match d with Some z => f_of_Z (Z.max z 1 * 1000) | None => S754_nan end.

(** The fields of a JSON object as the encoder of outcome proofs uses them; an
    object of another shape makes it throw. *)
Definition get_string (v : jsval) (k : string) : outcome string :=
  x ← js_get v k;
  match x with VStr s => Ok s | _ => Throw (TypeError "Expected String") end.
Definition get_number (v : jsval) (k : string) : outcome jsnum :=
  x ← js_get v k;
  match x with
  | VStr s => Ok (JStr s) | VNum z => Ok (JNum z)
  | _ => Throw (Error "Given input is not a valid number")
  end.
Definition get_list (v : jsval) (k : string) : outcome (list jsval) :=
  x ← js_get v k;
  match x with VArr l => Ok l | _ => Throw (TypeError "Cannot read property 'length' of undefined") end.
Definition as_string (v : jsval) : outcome string :=
  match v with VStr s => Ok s | _ => Throw (TypeError "Expected String") end.

Definition view_path_item (v : jsval) : outcome MerklePathItem :=
  h ← get_string v "hash"; d ← get_string v "direction"; Ok (mkMerklePathItem h d).

Definition view_inner_lite (v : jsval) : outcome InnerLite :=
  h ← get_number v "height"; e ← get_string v "epoch_id"; ne ← get_string v "next_epoch_id";
  ps ← get_string v "prev_state_root"; r ← get_string v "outcome_root";
  tn ← js_get v "timestamp_nanosec"; t ← get_number v "timestamp";
  nb ← get_string v "next_bp_hash"; bm ← get_string v "block_merkle_root";
  Ok (mkInnerLite h e ne ps r
    match tn with VStr s => Some (JStr s) | VNum z => Some (JNum z) | _ => None end t nb bm).

Definition view_status (v : jsval) : outcome ExecutionStatus :=
  s ← js_get v "SuccessValue"; r ← js_get v "SuccessReceiptId";
  let opt x := match x with VStr s => Some s | _ => None end in
  Ok (mkExecutionStatus (opt s) (opt r)).

Definition view_outcome (v : jsval) : outcome Outcome :=
  ls ← get_list v "logs"; ls ← mapM_out as_string ls;
  rs ← get_list v "receipt_ids"; rs ← mapM_out as_string rs;
  g ← get_number v "gas_burnt"; t ← get_number v "tokens_burnt"; e ← get_string v "executor_id";
  st ← js_get v "status"; st ← view_status st;
  Ok (mkOutcome ls rs g t e st).

Definition view_proof (v : jsval) : outcome FinalProof :=
  op ← js_get v "outcome_proof";
  ps ← get_list op "proof"; ps ← mapM_out view_path_item ps;
  bh ← get_string op "block_hash"; id ← get_string op "id";
  oc ← js_get op "outcome"; oc ← view_outcome oc;
  hl ← js_get v "block_header_lite";
  pb ← get_string hl "prev_block_hash"; ir ← get_string hl "inner_rest_hash";
  il ← js_get hl "inner_lite"; il ← view_inner_lite il;
  bp ← get_list v "block_proof"; bp ← mapM_out view_path_item bp;
  Ok (mkFinalProof (mkOutcomeProof ps bh id oc) (mkBlockHeaderLite pb ir il) bp).

(** [l.find((el) => el.id === id)]: [undefined] when there is none. *)
Fixpoint find_id (id : jsval) (l : list jsval) : outcome jsval :=
  match l with
  | [] => Ok VUndef
  | el :: l => x ← js_get el "id"; if strict_eq x id then Ok el else find_id id l
  end.

(** The receipt that the withdrawal produced last, and the block it was
    processed in: [findWithdrawInBlock] up to its first request. *)
Definition withdraw_receipt (txWithdraw : jsval) : outcome (jsval * jsval) :=
  receipts ← (r ← js_path txWithdraw ["transaction_outcome"; "outcome"; "receipt_ids"]; Ok r);
  match receipts with
  | VArr [txReceiptId] =>
      match
        (outcomes ← get_list txWithdraw "receipts_outcome";
         first ← find_id txReceiptId outcomes;
         txReceiptId ← js_path first ["outcome"; "status"; "SuccessReceiptId"];
         second ← find_id txReceiptId outcomes;
         txReceiptBlockHash ← js_get second "block_hash";
         Ok (txReceiptId, txReceiptBlockHash))
      with
      | Throw _ => Throw (Error "Invalid tx withdraw")
      | r => r
      end
  | VUndef | VNull => Throw (TypeError "Cannot read property 'length' of undefined")
  | _ => Throw (Error "Fungible token transaction call is expected to produce only one receipt")
  end.

(** [JSON.stringify(args)] as a string *)
Class JsonText := JSON_stringify : jsval -> string.

Section transfer.
Context {St N actions : Type} `{Clock N} `{EthNode N} `{EthContracts N} `{NearNode N actions} `{KeySlot St}.
Context `{NearAccounts N} `{NearQueries N} `{Files N} `{Disk N} `{LogSlot St} `{BNJson} `{JsonText}.
Context `{Web3Utils} `{KeyPairs} `{EthKeys} `{ContractLib} `{BNLib} `{EncLib} `{HashLib}.
Variable ethNodeUrl : string.
Abbreviation M := (M St N event).

(** ** The stages *)

Definition withdraw (nearErc20Account nearSenderAccountId amount ethReceiverAddress : string) : M unit :=
  catch
    (backoff 10 (get_balance nearErc20Account (VStr nearSenderAccountId)) DELAY BACKOFF;;
     txWithdraw ← nearJsonContractFunctionCall nearErc20Account (mkAccount nearSenderAccountId) "withdraw"
       (JSON_stringify (VObj [("amount", VStr amount); ("recipient", VStr ethReceiverAddress)]))
       300000000000000 (Some 0);
     recordTransferLog (VObj [("finished", VStr "withdraw"); ("txWithdraw", tx_json txWithdraw)]))
    (fun _ => showRetryAndExit).

(** [Number(block.header.height)] *)
Definition header_height (block : jsval) : outcome (option Z) :=
  h ← js_path block ["header"; "height"]; Ok (js_Number h).

(** The loop inside the second [backoff]: until the last final block is above
    the block of the receipt. *)
Fixpoint wait_final (fuel : nat) (receiptBlock : jsval) : M jsval :=
  match fuel with
  | O => out_of_fuel
  | S fuel =>
      block ← rpc (near_block None) (EvNearHeader None);
      h ← lift (header_height block);
      h' ← lift (header_height receiptBlock);
      if num_le h h' then sleep (f_of_Z 1000);; wait_final fuel receiptBlock
      else mret block
  end.

Definition findWithdrawInBlock (fuel : nat) (txWithdraw : jsval) : M unit :=
  catch
    ('(txReceiptId, txReceiptBlockHash) ← lift (withdraw_receipt txWithdraw);
     receiptBlock ← backoff 10 (rpc (near_block (Some txReceiptBlockHash)) (EvNearHeader (Some txReceiptBlockHash)))
       DELAY BACKOFF;
     outcomeBlock ← backoff 10 (wait_final fuel receiptBlock) DELAY BACKOFF;
     recordTransferLog (VObj [("finished", VStr "find-withdraw"); ("txReceiptBlockHash", txReceiptBlockHash);
       ("txReceiptId", txReceiptId); ("outcomeBlock", outcomeBlock); ("idType", VStr "receipt")]))
    (fun _ => showRetryAndExit).

(** The [while (true)] of [waitBlock]: the height and the hash of the head of the
    light client once it is above the outcome's block. *)
Fixpoint wait_client (fuel : nat) (clientAddress : string) (outcomeBlockHeight : option Z)
    : M (option Z * string) :=
  match fuel with
  | O => out_of_fuel
  | S fuel =>
      clientState ← client_call clientAddress "bridgeState" [];
      clientBlockHeight ← lift (v ← js_get clientState "currentHeight"; Ok (js_Number v));
      clientBlockValidAfter ← lift (v ← js_get clientState "nextValidAt"; Ok (js_Number v));
      h ← client_call clientAddress "blockHashes" [number_value clientBlockHeight];
      b ← lift (toBuffer h);
      if num_gt clientBlockHeight outcomeBlockHeight then mret (clientBlockHeight, bs58_encode b)
      else
        delay ←
          (if bool_decide (clientBlockValidAfter = Some 0)
           then d ← client_call clientAddress "lockDuration" []; mret (js_Number d)
           else
             latest ← getBlock ethNodeUrl (VStr "latest");
             ts ← lift (js_get latest "timestamp");
             mret (a ← clientBlockValidAfter; b ← js_Number ts; Some (a - b)));
        sleep (delay_ms delay);;
        wait_client fuel clientAddress outcomeBlockHeight
  end.

Definition waitBlock (fuel : nat) (clientAddress nearErc20Account nearSenderAccountId : string)
    (transferLog : jsval) : M unit :=
  catch
    (outcomeBlockHeight ← lift (header_height (field "outcomeBlock" transferLog));
     '(clientBlockHeight, clientBlockHash) ← wait_client fuel clientAddress outcomeBlockHeight;
     backoff 10 (get_balance nearErc20Account (VStr nearSenderAccountId)) DELAY BACKOFF;;
     recordTransferLog (VObj [("finished", VStr "wait-block"); ("clientBlockHashB58", VStr clientBlockHash);
       ("idType", field "idType" transferLog); ("txReceiptId", field "txReceiptId" transferLog);
       ("clientBlockHeight", number_value clientBlockHeight)]))
    (fun _ => showRetryAndExit).

(** The parameters of [light_client_proof]. *)
Definition proof_params (idType txReceiptId clientBlockHashB58 : jsval) (nearSenderAccountId : string)
    : outcome jsval :=
  if strict_eq idType (VStr "transaction") then
    Ok (VObj [("type", VStr "transaction"); ("transaction_hash", txReceiptId);
      ("receiver_id", VStr nearSenderAccountId); ("light_client_head", clientBlockHashB58)])
  else if strict_eq idType (VStr "receipt") then
    Ok (VObj [("type", VStr "receipt"); ("receipt_id", txReceiptId);
      ("receiver_id", VStr nearSenderAccountId); ("light_client_head", clientBlockHashB58)])
  else Throw (Error "Unreachable").

Definition getProof (nearSenderAccountId : string) (transferLog : jsval) : M unit :=
  catch
    (params ← lift (proof_params (field "idType" transferLog) (field "txReceiptId" transferLog)
       (field "clientBlockHashB58" transferLog) nearSenderAccountId);
     proofRes ← rpc (near_light_client_proof params) (EvLightClientProof params);
     recordTransferLog (VObj [("finished", VStr "get-proof"); ("proofRes", proofRes);
       ("clientBlockHeight", field "clientBlockHeight" transferLog)]))
    (fun _ => showRetryAndExit).

(** [new BN(clientBlockHeight)] *)
Definition new_BN (v : jsval) : outcome Z :=
  match v with
  | VNum z => if Z.abs z <? 2 ^ 53 then Ok z else Throw (Error "Assertion failed")
  | VStr s => of_sum (BN_of s)
  | VBN z => Ok z
  | _ => Ok 0
  end.

(** The bytes of the proof and the height, which the prover checks and the
    locker takes. *)
Definition unlock_args (transferLog : jsval) : outcome (list jsval) :=
  proof ← view_proof (field "proofRes" transferLog);
  borshProofRes ← borshifyOutcomeProof proof;
  clientBlockHeight ← new_BN (field "clientBlockHeight" transferLog);
  Ok [VBytes borshProofRes; VBN clientBlockHeight].

Definition erc20_balance (ethErc20Address ethReceiverAddress : string) : M jsval :=
  rpc (eth_view ethErc20Address "balanceOf" [VStr ethReceiverAddress])
    (EvView ethErc20Address "balanceOf" [VStr ethReceiverAddress]).

(** A big number as a gas price goes out in hexadecimal. *)
Definition unlock_opts (ethMasterAccount : string) (gasPrice : Z) : options :=
  mkOptions ethMasterAccount true 5000000 (toHex gasPrice).

Definition unlock (fuel : nat) (ethProverAddress ethErc20Address ethReceiverAddress : string)
    (ethTokenLockerContract : contract) (ethMasterAccount : string) (ethGasMultiplier : Z) (transferLog : jsval)
    : M unit :=
  catch
    (args ← lift (unlock_args transferLog);
     rpc (eth_view ethProverAddress "proveOutcome" args) (EvView ethProverAddress "proveOutcome" args);;
     erc20_balance ethErc20Address ethReceiverAddress;;
     gasPrice ← gas_price ethGasMultiplier;
     callContract ethNodeUrl fuel ethTokenLockerContract "unlockToken" args (unlock_opts ethMasterAccount gasPrice);;
     erc20_balance ethErc20Address ethReceiverAddress;;
     mret tt)
    (fun _ => showRetryAndExit).

(** ** [execute] *)

Record from_near_opts := mkFromNearOpts {
  fn_amount : string;
  fn_sender : string;
  fn_receiver : string;
  fn_senderSk : string;
  fn_nearErc20Account : string;
  fn_ethMasterSk : string;
  fn_clientAbiPath : string;
  fn_clientAddress : string;
  fn_proverAbiPath : string;
  fn_proverAddress : string;
  fn_lockerAbiPath : string;
  fn_lockerAddress : string;
  fn_erc20AbiPath : string;
  fn_erc20Address : string;
  fn_gasMultiplier : Z
}.

(** [new web3.eth.Contract(JSON.parse(fs.readFileSync(path)), address, ...)] *)
Definition open_contract (path address : string) : M contract :=
  abi ← rpc (readFileSync path) (EvReadFile path);
  lift (of_sum (web3_contract abi address)).

(** The five stages of [execute]. *)
Definition withdraw_stages (fuel : nat) (o : from_near_opts) (ethMasterAccount : string)
    (ethTokenLockerContract : contract) (transferLog : jsval) : M unit :=
  transferLog ← stage VUndef transferLog (fun _ =>
    withdraw (fn_nearErc20Account o) (fn_sender o) (fn_amount o) (remove0x (fn_receiver o)));
  transferLog ← stage (VStr "withdraw") transferLog (fun log =>
    findWithdrawInBlock fuel (field "txWithdraw" log));
  transferLog ← stage (VStr "find-withdraw") transferLog
    (waitBlock fuel (fn_clientAddress o) (fn_nearErc20Account o) (fn_sender o));
  transferLog ← stage (VStr "wait-block") transferLog (getProof (fn_sender o));
  if finished (VStr "get-proof") transferLog then
    unlock fuel (fn_proverAddress o) (fn_erc20Address o) (remove0x (fn_receiver o)) ethTokenLockerContract
      ethMasterAccount (fn_gasMultiplier o) transferLog
  else mret tt.

Definition execute (fuel : nat) (o : from_near_opts) : M unit :=
  lift (of_sum (publicKeyOf (fn_senderSk o)));;
  verifyAccount {[fn_sender o := fn_senderSk o]} (fn_sender o);;
  accessKeyInit (mkAccount (fn_sender o));;
  ethMasterAccount ← lift (of_sum (privateKeyToAddress (normalizeEthKey (fn_ethMasterSk o))));
  open_contract (fn_clientAbiPath o) (fn_clientAddress o);;
  open_contract (fn_proverAbiPath o) (fn_proverAddress o);;
  ethTokenLockerContract ← open_contract (fn_lockerAbiPath o) (fn_lockerAddress o);
  open_contract (fn_erc20AbiPath o) (fn_erc20Address o);;
  transferLog ← loadTransferLog;
  withdraw_stages fuel o ethMasterAccount ethTokenLockerContract transferLog;;
  exit 0.
End transfer.
