(* ===== verification/Adapter.v ===== *)
(** * The commands for other programs

    [testing/adapter/index.js], whose functions are called from tests in another
    language that read the printed lines; [ethToNearFindProof] of
    [eth-proof-extractor.js], which prints the proof of a lock; [JSONreplacer]
    of [utils/index.js]; and [danger-deploy-myerc20.js]. *)

From Stdlib Require Import Ascii Strings.Byte.
From stdpp Require Import base list strings gmap.
From Stdlib Require Import ZArith Lia SpecFloat.
From S2P Require Import Prelude Js Borsh Borshify Effects Robust NearTx Eth2NearRelay Near2EthRelay Accounts InitContracts.
From S2P Require Import TransferLog ToNear FromNear.
Local Open Scope Z_scope.

(** ** Numbers and output *)

(** The integer that a double holds, for integers. *)
Definition to_double (z : Z) : Z :=
  match f_of_Z z with
  | S754_finite s m e => (if s then -1 else 1) * (if 0 <=? e then Zpos m * 2 ^ e else Zpos m / 2 ^ (- e))
  | _ => 0
  end.
(** [Number(amount)] for a string of digits *)
Definition Number_arg (s : string) : jsval := number_value (to_double <$> decimal s).

(** [JSONreplacer(key, value)] *)
Definition JSONreplacer (value : jsval) : jsval :=
  match value with
  | VObj props => if is_Buffer props then get_prop "data" props else value
  | _ => value
  end.

(** What [JSON.stringify(v, JSONreplacer)] prints: a [Buffer] is first made an
    object by its [toJSON], and that object is replaced by its data. *)
Fixpoint replace_buffers (v : jsval) : jsval :=
  match v with
  | VBytes bs => VArr (map (fun b => VNum (Z_of_byte b)) bs)
  | VArr l => VArr (map replace_buffers l)
  | VObj props =>
      let props' := map (fun p => match p with (k, x) => (k, replace_buffers x) end) props in
      if is_Buffer props then get_prop "data" props' else VObj props'
  | _ => v
  end.

Section adapter.
Context {St N : Type} `{Clock N} `{EthNode N} `{EthContracts N} `{Files N} `{EthDeploy N}.
Context `{Web3Utils} `{KeyPairs} `{EthKeys} `{EthObjects} `{ContractLib} `{BNLib} `{EncLib} `{HashLib} `{RelayLib} `{JsonText}.
Variable ethNodeUrl : string.
Abbreviation M := (M St N event).

Definition print (line : list jsval) : M unit := emit (EvPrint line).
Fixpoint print_all (lines : list (list jsval)) : M unit :=
  match lines with [] => mret tt | l :: lines => print l;; print_all lines end.

(** [web3.currentProvider.connection.close()]: only a WebSocket has it. *)
Definition close : M unit := fun w =>
  match eth_close with
  | Some c => (mkWorld (store w) (c (net w)) (trace w ++ [EvCloseConnection]), Ok tt)
  | None => (w, Throw (TypeError "web3.currentProvider.connection.close is not a function"))
  end.

(** The shape of every function: the lines it computes, or the error, are
    printed; then the connection is closed. *)
Definition report (body : M (list (list jsval))) : M unit :=
  catch (lines ← body; print_all lines) (fun e => print [VStr "Failed"; VStr (exn_toString e)]);;
  close.
Definition adapter (body : M (list (list jsval))) : M unit := report body;; exit 0.

(** [new web3.eth.Contract(JSON.parse(fs.readFileSync(abiPath)), address)] *)
Definition adapter_contract (abiPath address : string) : M contract := open_contract abiPath address.
Definition adapter_opts (from : string) : options := mkOptions from false 5000000 "".

Definition mint_body (ethAccountAddress amount ethErc20Address ethErc20AbiPath : string) : M (list (list jsval)) :=
  ethContract ← adapter_contract ethErc20AbiPath (remove0x ethErc20Address);
  let args := [VStr ethAccountAddress; Number_arg amount] in
  let opts := [("from", VStr ethAccountAddress); ("gas", VNum 5000000)] in
  rpc (eth_contract_send (c_address ethContract) "mint" args opts)
    (EvContractSend (c_address ethContract) "mint" args opts);;
  mret [[VStr "OK"]].
Definition mintErc20 (ethAccountAddress amount ethErc20Address ethErc20AbiPath : string) : M unit :=
  adapter (mint_body ethAccountAddress amount ethErc20Address ethErc20AbiPath).

Definition address_body (ethSecretKey : string) : M (list (list jsval)) :=
  address ← lift (of_sum (privateKeyToAddress (normalizeEthKey ethSecretKey))); mret [[VStr address]].
Definition getAddressBySecretKey (ethSecretKey : string) : M unit :=
  adapter (address_body ethSecretKey).

Definition balance_body (ethAccountAddress ethErc20Address ethErc20AbiPath : string) : M (list (list jsval)) :=
  ethContract ← adapter_contract ethErc20AbiPath (remove0x ethErc20Address);
  let args := [VStr (remove0x ethAccountAddress)] in
  result ← rpc (eth_view (c_address ethContract) "balanceOf" args) (EvView (c_address ethContract) "balanceOf" args);
  mret [[result]].
Definition getErc20Balance (ethAccountAddress ethErc20Address ethErc20AbiPath : string) : M unit :=
  adapter (balance_body ethAccountAddress ethErc20Address ethErc20AbiPath).

Definition approve_body (fuel : nat) (ethAccountAddress amount ethErc20Address ethErc20AbiPath ethLockerAddress : string) : M (list (list jsval)) :=
  ethContract ← adapter_contract ethErc20AbiPath (remove0x ethErc20Address);
  callContract ethNodeUrl fuel ethContract "approve" [VStr ethLockerAddress; Number_arg amount]
    (adapter_opts ethAccountAddress);;
  mret [[VStr "OK"]].
Definition ethToNearApprove (fuel : nat) (ethAccountAddress amount ethErc20Address ethErc20AbiPath ethLockerAddress : string) : M unit :=
  adapter (approve_body fuel ethAccountAddress amount ethErc20Address ethErc20AbiPath ethLockerAddress).

Definition lock_body (fuel : nat)
    (ethAccountAddress amount nearAccountName ethErc20Address ethLockerAbiPath ethLockerAddress : string) : M (list (list jsval)) :=
  ethTokenLockerContract ← adapter_contract ethLockerAbiPath ethLockerAddress;
  transaction ← callContract ethNodeUrl fuel ethTokenLockerContract "lockToken"
    [VStr ethErc20Address; Number_arg amount; VStr nearAccountName] (adapter_opts ethAccountAddress);
  lockedEvent ← lift (js_path transaction ["events"; "Locked"]);
  mret [[VStr "OK"]; [VStr (JSON_stringify (replace_buffers lockedEvent))]].
Definition ethToNearLock (fuel : nat)
    (ethAccountAddress amount nearAccountName ethErc20Address ethLockerAbiPath ethLockerAddress : string) : M unit :=
  adapter (lock_body fuel ethAccountAddress amount nearAccountName ethErc20Address ethLockerAbiPath ethLockerAddress).

Definition head_body (ethClientAddress ethClientAbiPath : string) : M (list (list jsval)) :=
  clientContract ← adapter_contract ethClientAbiPath ethClientAddress;
  clientState ← client_call (c_address clientContract) "bridgeState" [];
  height ← lift (js_get clientState "currentHeight");
  hash ← client_call (c_address clientContract) "blockHashes" [height];
  b ← lift (toBuffer hash);
  mret [[height; VStr (bs58_encode b)]].
Definition getClientBlockHeightHash (ethClientAddress ethClientAbiPath : string) : M unit :=
  adapter (head_body ethClientAddress ethClientAbiPath).

(** The gas price is multiplied as a double. *)
Definition unlock_body (fuel : nat) (blockHeight proof ethMasterSk ethLockerAddress ethLockerAbiPath : string)
    (ethGasMultiplier : Z) : M (list (list jsval)) :=
  ethMasterAccount ← lift (of_sum (privateKeyToAddress (normalizeEthKey ethMasterSk)));
  ethTokenLockerContract ← adapter_contract ethLockerAbiPath ethLockerAddress;
  borshProof ← lift (json ← JSON_parse proof; p ← view_proof json; borshifyOutcomeProof p);
  gasPrice ← rpc eth_getGasPrice EvGasPrice;
  callContract ethNodeUrl fuel ethTokenLockerContract "unlockToken" [VBytes borshProof; Number_arg blockHeight]
    (mkOptions ethMasterAccount true 5000000 (toHex (to_double (gasPrice * ethGasMultiplier))));;
  mret [[VStr "OK"]].
Definition nearToEthUnlock (fuel : nat) (blockHeight proof ethMasterSk ethLockerAddress ethLockerAbiPath : string)
    (ethGasMultiplier : Z) : M unit :=
  adapter (unlock_body fuel blockHeight proof ethMasterSk ethLockerAddress ethLockerAbiPath ethGasMultiplier).

(** ** [ethToNearFindProof] *)

(** The search of the log in the receipt, with the variables of the loop: the
    index, whether the log was found, and the log. *)
Record log_search := mkSearch {
  se_txLogIndex : Z;
  se_logFound : bool;
  se_log : jsval
}.
Fixpoint search_log (lockedEvent : jsval) (logs : list jsval) (s : log_search) : outcome log_search :=
  match logs with
  | [] => Ok s
  | receiptLog :: logs =>
      let txLogIndex := se_txLogIndex s + 1 in
      blockLogIndex ← js_get receiptLog "logIndex";
      logIndex ← js_get lockedEvent "logIndex";
      if strict_eq blockLogIndex logIndex then Ok (mkSearch txLogIndex true receiptLog)
      else search_log lockedEvent logs (mkSearch txLogIndex (se_logFound s) (se_log s))
  end.

(** [for (const node of nodes) proof.push(utils.rlp.encode(node))] *)
Fixpoint push_nodes (nodes : list jsval) (proof : list jsval) : outcome (list jsval) :=
  match nodes with
  | [] => Ok proof
  | node :: nodes => e ← of_sum (rlp_encode node); push_nodes nodes (proof ++ [VBytes e])
  end.

(** The object that is printed for a lock, or the note that its log is not in
    the receipt. *)
Definition find_proof_lines (lockedEventRaw : string) (lockedEvent receipt block extractedProof : jsval)
    : outcome (list (list jsval)) :=
  logs ← (l ← js_get receipt "logs"; iterate l);
  s ← search_log lockedEvent logs (mkSearch (-1) false VUndef);
  if se_logFound s then
    logEntryData ← of_sum (log_serialize (se_log s));
    receiptIndex ← js_get extractedProof "txIndex";
    receiptData ← of_sum (receipt_serialize receipt);
    headerData ← js_get extractedProof "header_rlp";
    nodes ← (p ← js_get extractedProof "receiptProof"; iterate p);
    proof ← push_nodes nodes [];
    let proofLocker :=
      VObj [("log_index", VNum (se_txLogIndex s)); ("log_entry_data", VBytes logEntryData);
        ("receipt_index", receiptIndex); ("receipt_data", VBytes receiptData);
        ("header_data", headerData); ("proof", VArr proof)] in
    number ← js_get block "number";
    Ok [[VStr (JSON_stringify (replace_buffers (VObj [("block_number", number); ("proof_locker", proofLocker)])))]]
  else Ok [[VStr ("Failed to find log for event " +:+ lockedEventRaw)]].

Definition ethToNearFindProof (lockedEventRaw : string) : M unit :=
  report
    (parsed ← lift (JSON_parse lockedEventRaw);
     let lockedEvent := if js_truthy parsed then parsed else VObj [] in
     txHash ← lift (js_get lockedEvent "transactionHash");
     receipt ← extractReceipt ethNodeUrl txHash;
     blockNumber ← lift (js_get receipt "blockNumber");
     block ← extractBlock ethNodeUrl blockNumber;
     tree ← buildTrie ethNodeUrl block;
     transactionIndex ← lift (js_get receipt "transactionIndex");
     extractedProof ← extractProof block tree transactionIndex;
     destroy;;
     lift (find_proof_lines lockedEventRaw lockedEvent receipt block extractedProof)).

(** ** [DangerDeployMyERC20.execute] *)

Definition DangerDeployMyERC20 (ethMasterSk ethErc20AbiPath : string) (ethGasMultiplier : Z) : M unit :=
  let binPath := "../testing/ci/MyERC20.full.bin" in
  ethMasterAccount ← lift (of_sum (privateKeyToAddress (normalizeEthKey ethMasterSk)));
  abi ← rpc (readFileSync ethErc20AbiPath) (EvReadFile ethErc20AbiPath);
  lift (of_sum (parse_abi abi));;
  bin ← rpc (readFileSync binPath) (EvReadFile binPath);
  gasPrice ← gas_price ethGasMultiplier;
  address ← rpc (eth_deploy abi ethMasterAccount (utf8 "0x" ++ bin) [] 3000000 gasPrice)
    (EvDeployEth ethMasterAccount (utf8 "0x" ++ bin) [] 3000000 gasPrice);
  print [VStr (normalizeEthKey address)];;
  close.
End adapter.
