(* ===== verification/AdapterTheorems.v ===== *)
(** * Theorems about the commands for other programs *)

From Stdlib Require Import Ascii Strings.Byte.
From stdpp Require Import base list strings gmap pretty.
From Stdlib Require Import ZArith Lia.
From S2P Require Import Prelude Js Borsh Borshify Effects Instances Robust NearTx Traces Eth2NearRelay Near2EthRelay Accounts.
From S2P Require Import InitContracts TransferLog ToNear TransferTheorems FromNear Adapter.
Local Open Scope Z_scope.

(** The lines that were printed. *)
Definition printed (tr : list event) : list (list jsval) :=
  omap (fun ev => match ev with EvPrint l => Some l | _ => None end) tr.
Definition no_print (ev : event) : Prop := match ev with EvPrint _ => False | _ => True end.

Lemma printed_app tr tr' : printed (tr ++ tr') = printed tr ++ printed tr'.
Proof. apply omap_app. Qed.
Lemma printed_none tr : Forall no_print tr -> printed tr = [].
Proof. induction 1 as [|ev tr Hev _ IH]; [done|]. by destruct ev. Qed.

Section report.
Context {St N : Type} `{EthNode N}.
Abbreviation M := (M St N event).

Lemma print_all_run lines : forall (w : world St N event), exists w',
  print_all lines w = (w', Ok tt) /\ trace w' = trace w ++ map EvPrint lines.
Proof.
  induction lines as [|l lines IH]; intros w; simpl; [exists w; by rewrite app_nil_r|].
  destruct (IH (print l w).1) as (w' & Hr & Ht). exists w'. split; [exact Hr|].
  rewrite Ht. simpl. by rewrite <- app_assoc.
Qed.
Lemma printed_lines lines : printed (map EvPrint lines) = lines.
Proof. induction lines as [|l lines IH]; [done|]. simpl. by f_equal. Qed.

(** How a function of the adapter ends. *)
Definition closed (o : outcome unit) (last : outcome unit) : Prop :=
  match eth_close (N := N) with Some _ => o = last | None => exists e, o = Throw e end.

Lemma close_run (w : world St N event) : exists tr, trace (close w).1 = trace w ++ tr /\ printed tr = [] /\
  closed (close w).2 (Ok tt).
Proof.
  unfold close, closed. destruct eth_close; simpl.
  - by exists [EvCloseConnection].
  - exists []. rewrite app_nil_r. split_and!; [done|done|by eexists].
Qed.

(** What is printed is what the body computed, or its error. *)
Lemma report_run (body : M (list (list jsval))) w : emits no_print body ->
  exists tr, trace (report body w).1 = trace w ++ tr /\
    match (body w).2 with
    | Ok lines => printed tr = lines /\ closed (report body w).2 (Ok tt)
    | Throw e => printed tr = [[VStr "Failed"; VStr (exn_toString e)]] /\ closed (report body w).2 (Ok tt)
    | Exit c => (report body w).2 = Exit c
    | OutOfFuel => (report body w).2 = OutOfFuel
    end.
Proof.
  intros Hb. destruct (Hb w) as (tr & Ht & Hp%printed_none). unfold report.
  set (m := catch _ _). assert (Hm : m w = match body w with
    | (w1, Ok lines) => print_all lines w1
    | (w1, Throw e) => print [VStr "Failed"; VStr (exn_toString e)] w1
    | (w1, Exit c) => (w1, Exit c) | (w1, OutOfFuel) => (w1, OutOfFuel) end).
  { unfold m, catch, mbind, M_bind. destruct (body w) as [w1 [lines|e|c|]]; try done.
    destruct (print_all_run lines w1) as (w2 & -> & _). done. }
  unfold mbind, M_bind. rewrite Hm. destruct (body w) as [w1 [lines|e|c|]]; simpl in *; [| |exists tr; by split..].
  - destruct (print_all_run lines w1) as (w2 & -> & Ht2). simpl.
    destruct (close_run w2) as (tr3 & Ht3 & Hp3 & Hc). exists (tr ++ map EvPrint lines ++ tr3).
    rewrite Ht3, Ht2, Ht, !printed_app, Hp, Hp3, printed_lines, app_nil_r, <- !app_assoc. by split.
  - match goal with |- context [close ?w2] => destruct (close_run w2) as (tr3 & Ht3 & Hp3 & Hc) end.
    exists (tr ++ map EvPrint [[VStr "Failed"; VStr (exn_toString e)]] ++ tr3).
    rewrite !printed_app, Hp, Hp3, printed_lines, app_nil_r. split; [|by split].
    rewrite Ht3. simpl. by rewrite Ht, <- !app_assoc.
Qed.

Lemma adapter_run (body : M (list (list jsval))) w : emits no_print body ->
  exists tr, trace (adapter body w).1 = trace w ++ tr /\
    match (body w).2 with
    | Ok lines => printed tr = lines /\ closed (adapter body w).2 (Exit 0)
    | Throw e => printed tr = [[VStr "Failed"; VStr (exn_toString e)]] /\ closed (adapter body w).2 (Exit 0)
    | Exit c => (adapter body w).2 = Exit c
    | OutOfFuel => (adapter body w).2 = OutOfFuel
    end.
Proof.
  intros Hb. destruct (report_run body w Hb) as (tr & Ht & Hr).
  assert (He : (adapter body w).1 = (report body w).1 /\
    (adapter body w).2 = match (report body w).2 with Ok _ => Exit 0 | o => o end).
  { unfold adapter, mbind, M_bind. by destruct (report body w) as [w1 [[]|e|c|]]. }
  destruct He as [-> ->]. exists tr. split; [done|]. unfold closed in *.
  destruct (body w).2; [| |by rewrite Hr..]; destruct Hr as [Hp Hc]; (split; [done|]);
    destruct eth_close; [by rewrite Hc| |by rewrite Hc|]; destruct Hc as [e' ->]; by eexists.
Qed.
End report.

(** ** The agreement *)

(** The functions of the adapter with their arguments. *)
Inductive adapter_call :=
| CMint (account amount erc20 abiPath : string)
| CAddress (sk : string)
| CBalance (account erc20 abiPath : string)
| CApprove (account amount erc20 abiPath locker : string)
| CLock (account amount nearAccount erc20 abiPath locker : string)
| CHead (client abiPath : string)
| CUnlock (blockHeight proof sk locker abiPath : string) (multiplier : Z).

(** The functions marked [// Change] in the file. *)
Definition changes (c : adapter_call) : bool :=
  match c with CMint _ _ _ _ | CApprove _ _ _ _ _ | CLock _ _ _ _ _ _ | CUnlock _ _ _ _ _ _ => true | _ => false end.

Section agreement.
Context {St N : Type} `{Clock N} `{EthNode N} `{EthContracts N} `{Files N}.
Context `{Web3Utils} `{EthKeys} `{ContractLib} `{BNLib} `{EncLib} `{HashLib} `{RelayLib} `{JsonText}.
Variables (ethNodeUrl : string) (fuel : nat).
Abbreviation M := (M St N event).

Definition call_body (c : adapter_call) : M (list (list jsval)) :=
  match c with
  | CMint account amount erc20 abiPath => mint_body account amount erc20 abiPath
  | CAddress sk => address_body sk
  | CBalance account erc20 abiPath => balance_body account erc20 abiPath
  | CApprove account amount erc20 abiPath locker => approve_body ethNodeUrl fuel account amount erc20 abiPath locker
  | CLock account amount near erc20 abiPath locker => lock_body ethNodeUrl fuel account amount near erc20 abiPath locker
  | CHead client abiPath => head_body client abiPath
  | CUnlock h proof sk locker abiPath m => unlock_body ethNodeUrl fuel h proof sk locker abiPath m
  end.
Definition call_function (c : adapter_call) : M unit :=
  match c with
  | CMint account amount erc20 abiPath => mintErc20 account amount erc20 abiPath
  | CAddress sk => getAddressBySecretKey sk
  | CBalance account erc20 abiPath => getErc20Balance account erc20 abiPath
  | CApprove account amount erc20 abiPath locker => ethToNearApprove ethNodeUrl fuel account amount erc20 abiPath locker
  | CLock account amount near erc20 abiPath locker => ethToNearLock ethNodeUrl fuel account amount near erc20 abiPath locker
  | CHead client abiPath => getClientBlockHeightHash client abiPath
  | CUnlock h proof sk locker abiPath m => nearToEthUnlock ethNodeUrl fuel h proof sk locker abiPath m
  end.

Lemma no_print_call c method args opts : emits (St := St) (N := N) no_print (callContract ethNodeUrl fuel c method args opts).
Proof. eapply emits_weaken; [|apply emits_callContract]. by intros []. Qed.
Lemma no_print_open path address : emits (St := St) (N := N) no_print (adapter_contract path address).
Proof. unfold adapter_contract, open_contract. apply emits_bind; [by apply emits_rpc|intros; apply emits_lift]. Qed.
#[local] Hint Resolve no_print_call no_print_open : emits.

Lemma body_no_print c : emits no_print (call_body c).
Proof.
  destruct c; simpl; unfold mint_body, address_body, balance_body, approve_body, lock_body, head_body, unlock_body, client_call;
    repeat first [apply emits_rpc; done | emits_step].
Qed.

(** The lines of a function that changes something start with [OK]. *)
Lemma body_ok_first c w w' lines : changes c = true -> call_body c w = (w', Ok lines) ->
  exists rest, lines = [VStr "OK"] :: rest.
Proof.
  destruct c; simpl; try done; intros _;
    unfold mint_body, approve_body, lock_body, unlock_body; cbn zeta; intros Hr;
    repeat (apply bind_ok in Hr as (? & ? & _ & Hr)); injection Hr as _ <-; by eexists.
Qed.
End agreement.

(** The agreement of the adapter.  Every function prints its result, a
    function that changes something prints [OK] in the first line, and an error
    is printed as one line [Failed]; after that the process ends with code 0,
    when the connection is a WebSocket.  With a connection that cannot be closed
    the function throws instead, whatever was done. *)
Theorem adapter_agreement {St N} `{Clock N} `{EthNode N} `{EthContracts N} `{Files N}
    `{Web3Utils} `{EthKeys} `{ContractLib} `{BNLib} `{EncLib} `{HashLib} `{RelayLib} `{JsonText}
    (ethNodeUrl : string) (fuel : nat) (c : adapter_call) (w : world St N event) :
  exists tr, trace (call_function ethNodeUrl fuel c w).1 = trace w ++ tr /\
    match (call_body ethNodeUrl fuel c w).2 with
    | Ok lines => printed tr = lines /\ (changes c = true -> exists rest, lines = [VStr "OK"] :: rest) /\
        closed (N := N) (call_function ethNodeUrl fuel c w).2 (Exit 0)
    | Throw e => printed tr = [[VStr "Failed"; VStr (exn_toString e)]] /\
        closed (N := N) (call_function ethNodeUrl fuel c w).2 (Exit 0)
    | Exit code => (call_function ethNodeUrl fuel c w).2 = Exit code
    | OutOfFuel => (call_function ethNodeUrl fuel c w).2 = OutOfFuel
    end.
Proof.
  destruct (adapter_run (call_body ethNodeUrl fuel c) w (body_no_print ethNodeUrl fuel c)) as (tr & Ht & Hr).
  replace (call_function ethNodeUrl fuel c) with (adapter (call_body (St := St) (N := N) ethNodeUrl fuel c))
    by (by destruct c).
  exists tr. split; [done|].
  pose proof (body_ok_first (St := St) (N := N) ethNodeUrl fuel c w (call_body ethNodeUrl fuel c w).1) as Hfirst.
  destruct (call_body ethNodeUrl fuel c w) as [w1 [lines|e|code|]]; simpl in *; try done.
  destruct Hr as [Hp Hc]. split_and!; [done|by intros Hch; apply (Hfirst lines)|done].
Qed.

(** ** The printed proof *)

Section find_proof.
Context {St N : Type} `{Clock N} `{EthNode N} `{Disk N} `{LogSlot St} `{BNJson}.
Context `{EthObjects} `{RelayLib} `{JsonText}.
Abbreviation M := (M St N event).

(** A run only adds events. *)
Definition grows {A} (m : M A) : Prop := emits (fun _ => True) m.
Lemma grows_run {A} (m : M A) w w' o tr : grows m -> m w = (w', o) ->
  forall w0 : world St N event, trace w = trace w0 ++ tr -> exists tr', trace w' = trace w0 ++ tr'.
Proof.
  intros Hm Hr w0 Ht. destruct (Hm w) as (tr' & Ht' & _). rewrite Hr in Ht'. simpl in Ht'.
  exists (tr ++ tr'). by rewrite Ht', Ht, app_assoc.
Qed.
Ltac grows_auto := repeat first [apply emits_backoff; [done|] | apply emits_rpc; done | apply emits_sleep; done | emits_step].
Lemma grows_setProvider url : emits (fun _ => True) (setProvider (St := St) (N := N) url).
Proof. eapply emits_weaken; [|apply emits_setProvider]. done. Qed.
#[local] Hint Resolve grows_setProvider : emits.
Lemma grows_receipt url t : grows (getTransactionReceipt url t).
Proof. unfold grows, getTransactionReceipt, reconnect_and_throw. grows_auto. Qed.
Lemma grows_block url b : grows (getBlock url b).
Proof. unfold grows, getBlock, reconnect_and_throw. grows_auto. Qed.
Lemma grows_trie url block : grows (buildTrie url block).
Proof.
  unfold grows, buildTrie. apply emits_bind; [apply emits_lift|intros ts].
  apply emits_bind; [|intros; apply emits_lift].
  induction ts as [|t ts IH]; simpl; [apply emits_ret|].
  apply emits_bind; [apply grows_receipt|intros]. apply emits_bind; [apply IH|intros; apply emits_ret].
Qed.
Lemma grows_extract block tree i : grows (extractProof block tree i).
Proof. unfold grows, extractProof. grows_auto. Qed.

Lemma record_ok obj (w w' : world St N event) : recordTransferLog obj w = (w', Ok tt) ->
  trace w' = trace w ++ [EvWriteLog obj (inr tt)].
Proof.
  unfold recordTransferLog. intros ([] & w1 & [n1 ->]%rpc_ok & Hr)%bind_ok. by injection Hr as <-.
Qed.

Lemma destroy_run (w : world St N event) : exists w', destroy w = (w', Ok tt) /\ trace w' = trace w ++ closing (N := N).
Proof. unfold destroy, closing. destruct eth_close; eexists; (split; [done|]); simpl; by rewrite ?app_nil_r. Qed.
Lemma close_trace (w : world St N event) : trace (close w).1 = trace w ++ closing (N := N).
Proof. unfold close, closing. destruct eth_close; simpl; by rewrite ?app_nil_r. Qed.

(** A report whose body returned. *)
Lemma report_trace (body : M (list (list jsval))) w w1 lines : body w = (w1, Ok lines) ->
  trace (report body w).1 = trace w1 ++ map EvPrint lines ++ closing (N := N).
Proof.
  intros Hb. destruct (print_all_run lines w1) as (w2 & Hp & Ht). unfold report.
  rewrite (bind_run _ _ w w2 tt).
  - rewrite close_trace, Ht. by rewrite <- app_assoc.
  - unfold catch. by rewrite (bind_run _ _ w w1 lines Hb), Hp.
Qed.
End find_proof.

(** The search of the command is the one of the transfer. *)
Lemma search_log_find ev logs : forall s, se_logFound s = false ->
  match find_log (se_txLogIndex s + 1) (js_get ev "logIndex") logs with
  | Ok (Some (i, log)) => search_log ev logs s = Ok (mkSearch i true log)
  | Ok None => exists s', search_log ev logs s = Ok s' /\ se_logFound s' = false
  | Throw e => search_log ev logs s = Throw e
  | Exit z => search_log ev logs s = Exit z
  | OutOfFuel => search_log ev logs s = OutOfFuel
  end.
Proof.
  induction logs as [|x logs IH]; intros s Hs; cbn [find_log search_log]; [by exists s|].
  destruct (js_get x "logIndex"); cbn [mbind outcome_bind]; try done.
  destruct (js_get ev "logIndex") as [v| | |] eqn:Ev; cbn [mbind outcome_bind]; try done.
  destruct (strict_eq _ _); [done|]. exact (IH (mkSearch (se_txLogIndex s + 1) (se_logFound s) (se_log s)) Hs).
Qed.

(** The pushes of the command are the transfer's encodings. *)
Lemma push_nodes_map `{EthObjects} nodes : forall acc encoded,
  mapM_out (fun node => of_sum (rlp_encode node)) nodes = Ok encoded ->
  push_nodes nodes acc = Ok (acc ++ map VBytes encoded).
Proof.
  induction nodes as [|n nodes IH]; intros acc encoded; cbn [mapM_out push_nodes].
  - intros [= <-]. by rewrite app_nil_r.
  - intros (e & -> & (es & Hes & [= <-])%obind_ok)%obind_ok. cbn [mbind outcome_bind].
    rewrite (IH _ _ Hes), <- app_assoc. done.
Qed.

(** The command prints what the transfer makes of the same data. *)
Lemma find_proof_lines_locker `{EthObjects} `{RelayLib} `{JsonText} `{BNJson} raw ev receipt block proof i log pl number :
  (logs ← js_get receipt "logs"; l ← iterate logs; find_log 0 (js_get ev "logIndex") l) = Ok (Some (i, log)) ->
  proof_locker log proof receipt (VNum i) = Ok pl -> js_get block "number" = Ok number ->
  find_proof_lines raw ev receipt block proof =
  Ok [[VStr (JSON_stringify (replace_buffers (VObj [("block_number", number); ("proof_locker", pl)])))]].
Proof.
  intros (logs & Hlogs & (l & Hl & Hfind)%obind_ok)%obind_ok Hpl Hn. unfold find_proof_lines. rewrite Hlogs.
  cbn [mbind outcome_bind]. rewrite Hl. cbn [mbind outcome_bind].
  pose proof (search_log_find ev l (mkSearch (-1) false VUndef) eq_refl) as Hs.
  change (se_txLogIndex (mkSearch (-1) false VUndef) + 1) with 0 in Hs. rewrite Hfind in Hs.
  rewrite Hs. cbn [mbind outcome_bind se_logFound se_log se_txLogIndex]. unfold proof_locker in Hpl.
  apply obind_ok in Hpl as (led & -> & Hpl). cbn [mbind outcome_bind]. apply obind_ok in Hpl as (ri & -> & Hpl).
  cbn [mbind outcome_bind]. apply obind_ok in Hpl as (rd & -> & Hpl). cbn [mbind outcome_bind].
  apply obind_ok in Hpl as (hd & -> & Hpl). cbn [mbind outcome_bind]. apply obind_ok in Hpl as (nodes & -> & Hpl).
  cbn [mbind outcome_bind]. apply obind_ok in Hpl as (enc & Henc & Hpl). injection Hpl as <-.
  rewrite (push_nodes_map _ [] _ Henc). cbn [mbind outcome_bind app]. by rewrite Hn.
Qed.

(** C33: [eth-to-near-find-proof] and the transfer find the same proof, each with
    its own search of the log and its own code for the proof: from the same
    state, when the transfer's stage [findProof] records its result, the command
    makes the same requests and prints the number of the recorded block with the
    object that the next stage of the transfer makes of the recorded data. *)
Theorem find_proof_agrees {St N} `{Clock N} `{EthNode N} `{Disk N} `{LogSlot St} `{BNJson} `{EthObjects}
    `{RelayLib} `{JsonText} (ethNodeUrl raw : string) (ev number pl : jsval) (w w1 : world St N event) :
  JSON_parse raw = Ok ev -> js_truthy ev = true -> findProof ethNodeUrl ev w = (w1, Ok tt) ->
  exists tr obj, trace w1 = trace w ++ tr ++ [EvWriteLog obj (inr tt)] /\
    (proof_locker (field "log" obj) (field "proof" obj) (field "receipt" obj) (field "txLogIndex" obj) = Ok pl ->
     js_get (field "block" obj) "number" = Ok number ->
     trace (ethToNearFindProof ethNodeUrl raw w).1 = trace w ++ tr ++ closing (N := N) ++
       [EvPrint [VStr (JSON_stringify (replace_buffers (VObj [("block_number", number); ("proof_locker", pl)])))]]
       ++ closing (N := N)).
Proof.
  intros Hparse Htrue Hrun. unfold findProof in Hrun.
  apply bind_ok in Hrun as (txHash & wa & Ha & Hrun). apply bind_ok in Hrun as (receipt & wb & Hb & Hrun).
  apply bind_ok in Hrun as (bn & wc & Hc & Hrun). apply bind_ok in Hrun as (block & wd & Hd & Hrun).
  apply bind_ok in Hrun as (tree & we & He & Hrun). apply bind_ok in Hrun as (ti & wf & Hf & Hrun).
  apply bind_ok in Hrun as (proof & wg & Hg & Hrun). apply bind_ok in Hrun as (found & wh & Hh & Hrun).
  injection Hh as <- Hfound. destruct found as [[i log]|]; [|done].
  apply record_ok in Hrun. set (obj := VObj _) in Hrun.
  assert (exists tr, trace wg = trace w ++ tr) as [tr Htr].
  { injection Ha as <- _. injection Hc as <- _. injection Hf as <- _.
    destruct (grows_run _ _ _ _ [] (grows_receipt _ _) Hb w ltac:(by rewrite app_nil_r)) as [tr1 H1'].
    destruct (grows_run _ _ _ _ _ (grows_block _ _) Hd w H1') as [tr2 H2'].
    destruct (grows_run _ _ _ _ _ (grows_trie _ _) He w H2') as [tr3 H3'].
    exact (grows_run _ _ _ _ _ (grows_extract _ _ _) Hg w H3'). }
  exists tr, obj. split; [by rewrite Hrun, Htr, <- app_assoc|]. intros Hpl Hn.
  destruct (destroy_run wg) as (wi & Hi & Hti).
  unfold ethToNearFindProof. rewrite (report_trace _ w wi
    [[VStr (JSON_stringify (replace_buffers (VObj [("block_number", number); ("proof_locker", pl)])))]]).
  - by rewrite Hti, Htr, <- !app_assoc.
  - rewrite (bind_run _ _ w w ev) by (unfold lift; by rewrite Hparse). cbn zeta. rewrite Htrue.
    rewrite (bind_run _ _ _ _ _ Ha), (bind_run _ _ _ _ _ Hb), (bind_run _ _ _ _ _ Hc), (bind_run _ _ _ _ _ Hd),
      (bind_run _ _ _ _ _ He), (bind_run _ _ _ _ _ Hf), (bind_run _ _ _ _ _ Hg), (bind_run _ _ _ _ _ Hi).
    unfold obj in Hpl, Hn. cbn in Hpl, Hn. unfold lift.
    by rewrite (find_proof_lines_locker raw ev receipt block proof i log pl number Hfound Hpl Hn).
Qed.

(** ** Witnesses: the chains of the transfer's example *)

#[local] Existing Instances toy_clock toy_eth toy_disk toy_slot toy_json toy_objects toy_contracts toy_files toy_web3 toy_keys toy_lib.
#[local] Instance toy_relay : RelayLib := {|
  JSON_parse _ := Ok toy_event;
  parseInt10 v := v;
  header_rlp_of _ := Ok [];
  padLeft _ _ := Ok ""
|}.
#[local] Instance toy_text : JsonText := fun _ => "{}".
#[local] Instance toy_hash : HashLib := {| toBuffer _ := Ok [x01]; bs58_encode _ := "hash" |}.
Definition toy_number : jsval := VNum 5.
Definition toy_obj : jsval := match log_get (store (findProof "http://node" toy_event (toy_world None)).1) with Some j => read_log (Some j) | None => VNull end.
Definition toy_pl : jsval :=
  match proof_locker (field "log" toy_obj) (field "proof" toy_obj) (field "receipt" toy_obj) (field "txLogIndex" toy_obj) with
  | Ok v => v | _ => VNull end.

Lemma find_proof_agrees_witness :
  let w1 := (findProof "http://node" toy_event (toy_world None)).1 in
  exists tr obj, trace w1 = [] ++ tr ++ [EvWriteLog obj (inr tt)] /\
    (proof_locker (field "log" obj) (field "proof" obj) (field "receipt" obj) (field "txLogIndex" obj) = Ok toy_pl ->
     js_get (field "block" obj) "number" = Ok toy_number ->
     trace (ethToNearFindProof "http://node" "event" (toy_world None)).1 = [] ++ tr ++ closing (N := unit) ++
       [EvPrint [VStr (JSON_stringify (replace_buffers (VObj [("block_number", toy_number); ("proof_locker", toy_pl)])))]]
       ++ closing (N := unit)).
Proof.
  intros w1. apply (find_proof_agrees "http://node" "event" toy_event toy_number toy_pl (toy_world None) w1).
  - reflexivity.
  - reflexivity.
  - vm_compute. reflexivity.
Defined.

(** The recorded data does give an argument, and an approval prints [OK]. *)
Example toy_pl_found : toy_pl <> VNull.
Proof. vm_compute. discriminate. Qed.
Example approval_prints_ok :
  printed (trace (ethToNearApprove "http://node" 3 "0xab" "10" "0xe2" "erc20.abi" "0x1c" (toy_world None)).1) = [[VStr "OK"]].
Proof. vm_compute. reflexivity. Qed.
