(* ===== verification/Processes.v ===== *)
(** * Starting and stopping the services

    [cli/commands/start], [cli/commands/stop/process.js], [clean.js],
    [prepare.js] and the set-up of the relay and the watchdog.  The services run
    as daemons of the process manager [pm2]; a daemon is the same command line
    with the option [daemon] off.  The callbacks of [pm2] are run when it has
    answered, after the handler has returned; nothing the handler does later
    depends on them, so they are put in sequence. *)

From Stdlib Require Import Ascii Strings.Byte.
From stdpp Require Import base list strings gmap pretty.
From Stdlib Require Import ZArith Lia.
From S2P Require Import Watchdog Eth2NearRelay Near2EthRelay.
From S2P Require Import Prelude Js Borsh Borshify Effects Schemas Robust NearTx Accounts Config InitContracts Cli.
From S2P Require Import TransferLog ToNear FromNear.
Local Open Scope Z_scope.

(** [getScript(name)] of [utils/index.js]; [dir] is its absolute directory. *)
Definition getScript (dir name : string) : string := path_join [dir; "scripts/" +:+ name +:+ ".sh"].

(** [util.format('http://localhost:%d', port)] *)
Definition NEAR_PORT : Z := 3030.
Definition GANACHE_PORT : Z := 9545.
Definition getLocalNearNodeURL (port : Z) : string := "http://localhost:" +:+ pretty port.
Definition getLocalGanacheNodeURL (port : Z) : string := "ws://localhost:" +:+ pretty port.

(** [request(url, { json: true }, callback)]: whether there was an error. *)
Class Http (N : Type) := http_get : string -> N -> N * option exn.

(** ** The arguments of the daemons *)

Definition eth2near_args (o : list (string * jsval)) : list jsval :=
  [VStr "start"; VStr "eth2near-relay";
   VStr "--near-network-id"; get_prop "nearNetworkId" o;
   VStr "--near-node-url"; get_prop "nearNodeUrl" o;
   VStr "--near-master-account"; get_prop "nearMasterAccount" o;
   VStr "--near-master-sk"; get_prop "nearMasterSk" o;
   VStr "--near-client-account"; get_prop "nearClientAccount" o;
   VStr "--eth-node-url"; get_prop "ethNodeUrl" o;
   VStr "--daemon"; VStr "false"].

Definition near2eth_args (o : list (string * jsval)) : list jsval :=
  [VStr "start"; VStr "near2eth-relay";
   VStr "--near-node-url"; get_prop "nearNodeUrl" o;
   VStr "--near-network-id"; get_prop "nearNetworkId" o;
   VStr "--eth-node-url"; get_prop "ethNodeUrl" o;
   VStr "--eth-master-sk"; get_prop "ethMasterSk" o;
   VStr "--eth-client-abi-path"; get_prop "ethClientAbiPath" o;
   VStr "--eth-client-address"; get_prop "ethClientAddress" o;
   VStr "--eth-gas-multiplier"; get_prop "ethGasMultiplier" o;
   VStr "--near2eth-relay-min-delay"; get_prop "near2ethRelayMinDelay" o;
   VStr "--near2eth-relay-max-delay"; get_prop "near2ethRelayMaxDelay" o;
   VStr "--near2eth-relay-error-delay"; get_prop "near2ethRelayErrorDelay" o;
   VStr "--daemon"; VStr "false"].

Definition watchdog_args (o : list (string * jsval)) : list jsval :=
  [VStr "start"; VStr "bridge-watchdog";
   VStr "--eth-node-url"; get_prop "ethNodeUrl" o;
   VStr "--eth-master-sk"; get_prop "ethMasterSk" o;
   VStr "--eth-client-abi-path"; get_prop "ethClientAbiPath" o;
   VStr "--eth-client-address"; get_prop "ethClientAddress" o;
   VStr "--watchdog-delay"; get_prop "watchdogDelay" o;
   VStr "--watchdog-error-delay"; get_prop "watchdogErrorDelay" o;
   VStr "--daemon"; VStr "false"].

Section processes.
Context {St N : Type} `{ProcessManager N}.
Abbreviation M := (M St N event).

(** A call with a callback that gets an error. *)
Definition pm_call (f : N -> N * option exn) (ev : bool -> event) : M (option exn) := fun w =>
  let '(n', err) := f (net w) in
  (mkWorld (store w) n' (trace w ++ [ev (match err with None => true | Some _ => false end)]), Ok err).

Definition result_ok {A} (r : exn + A) : bool := match r with inr _ => true | inl _ => false end.

Definition describe (name : string) : M (option exn * option (list managed)) := fun w =>
  let '(n', r) := pm_describe name (net w) in
  (mkWorld (store w) n'
     (trace w ++ [EvProcess "describe" name (match r.1 with None => true | Some _ => false end)]), Ok r).
Definition disconnect : M unit := rpc pm_disconnect (fun r => EvProcess "disconnect" "" (result_ok r)).
Definition shell (command : string) : M string := rpc (execSync command) (fun r => EvShell command (result_ok r)).

(** [spawnProcess(name, config)]: an error of [describe] is only logged. *)
Definition spawnProcess (name script : string) (args : list jsval) : M unit :=
  '(_, process) ← describe name;
  match process with
  | None => throw (TypeError "Cannot read property 'length' of undefined")
  | Some (_ :: _) => disconnect
  | Some [] => pm_call (pm_start name script args) (EvSpawn name script args);; disconnect
  end.

(** [ProcessManager.connect((err) => {...})] of the start commands *)
Definition connect_and_spawn (name script : string) (args : list jsval) : M unit :=
  err ← pm_call pm_connect (EvProcess "connect" "");
  match err with Some _ => mret tt | None => spawnProcess name script args end.

(** [daemon === 'true'] *)
Definition daemon_on (o : list (string * jsval)) : bool := strict_eq (get_prop "daemon" o) (VStr "true").

(** *** [ganache.js] and [near.js]: the values they return are saved *)

Definition ganache_values : list (string * jsval) :=
  [("ethNodeUrl", VStr "ws://localhost:9545");
   ("ethMasterSk", VStr "0x2bdd21761a483f71054e14f5b827213567971c676928d9a1808cbfa4b7501200");
   ("nearClientValidateEthash", VStr "false")].
Definition StartGanacheNode (scripts : string) : M (list (string * jsval)) :=
  connect_and_spawn "ganache" (getScript scripts "start_ganache") [];;
  mret ganache_values.

Definition NEARUP_RUN : string :=
  "$HOME/.local/bin/nearup run localnet --num-nodes 1 --binary-path ~/.rainbow/core/target/debug".
Definition near_node_values : list (string * jsval) :=
  [("nearNodeUrl", VStr "http://localhost:3030");
   ("nearNetworkId", VStr "local");
   ("nearMasterAccount", VStr "node0");
   ("nearMasterSk", VStr "ed25519:3D4YudUQRE39Lc4JHghuB5WM8kbgDDa34mnrEP5DdTApVH81af7e2dWgNPEaiQfdJnZq1CNPp5im4Rg5b733oiMP")].
Definition StartLocalNearNode `{Http N} : M (list (string * jsval)) :=
  err ← pm_call (http_get (getLocalNearNodeURL NEAR_PORT)) (EvProcess "request" (getLocalNearNodeURL NEAR_PORT));
  match err with Some _ => shell NEARUP_RUN;; mret tt | None => mret tt end;;
  mret near_node_values.

(** *** [stop/process.js] *)

Definition NEARUP_STOP : string := "$HOME/.local/bin/nearup stop".
Definition stopLocalNearNode : M unit := catch (shell NEARUP_STOP;; mret tt) (fun _ => mret tt).

(** Both kinds of error are logged. *)
Definition stop (serviceName : string) : M unit :=
  catch (rpc (pm_delete serviceName) (fun r => EvProcess "delete" serviceName (result_ok r)))
    (fun _ => mret tt).

Definition services : list string := ["ganache"; "eth2near-relay"; "near2eth-relay"; "bridge-watchdog"].

Fixpoint stop_services (names : list string) : M unit :=
  match names with
  | [] => mret tt
  | name :: names => stop name;; disconnect;; stop_services names
  end.

Definition StopManagedProcess (serviceName : string) : M unit :=
  if String.eqb serviceName "near-node" then stopLocalNearNode
  else if String.eqb serviceName "all" then stopLocalNearNode;; stop_services services
  else stop serviceName;; disconnect.

(** *** [clean.js] *)

Definition CleanCommand : M unit :=
  pm_call pm_connect (EvProcess "connect" "");;
  err ← pm_call pm_killDaemon (EvProcess "kill" "");
  match err with
  | Some _ => exit 1
  | None =>
      disconnect;;
      catch (shell NEARUP_STOP;; mret tt) (fun _ => mret tt);;
      shell "rm -rf ~/.rainbow ~/.near/localnet";;
      shell "rm -f /tmp/near2ethtransfer.out /tmp/eth2neartransfer.out";;
      exit 0
  end.
End processes.

(** *** [prepare.js]: the shell command and its environment *)

(** [path.resolve(p)] in the directory [cwd] *)
Definition path_resolve (cwd p : string) : string :=
  let full := if startsWith "/" p then p else cwd +:+ "/" +:+ p in
  "/" +:+ join "/" (resolve_dots true [] (split_slash full)).

Definition prepare_shell (scripts : string) : string := join " " ["bash"; getScript scripts "prepare"].
(** [coreSrc && path.resolve(coreSrc)] *)
Definition prepare_env (cwd coreSrc : string) (env : list (string * string)) : list (string * string) :=
  set_prop "LOCAL_CORE_SRC" (if truthy coreSrc then path_resolve cwd coreSrc else coreSrc) env.

(** [exec(shell, { env })] starts a child process; its output is passed on. *)
Class ChildProcess (N : Type) := child_exec : string -> list (string * string) -> N -> N.

Definition PrepareCommand {St N} `{ChildProcess N} (scripts cwd coreSrc : string) (env : list (string * string))
    : M St N event unit := fun w =>
  let command := prepare_shell scripts in
  (mkWorld (store w) (child_exec command (prepare_env cwd coreSrc env) (net w)) (trace w ++ [EvExec command]), Ok tt).

(** ** The services themselves *)

Section services.
Context {St N actions : Type} `{ProcessManager N} `{Clock N} `{EthNode N} `{EthContracts N} `{NearNode N actions}.
Context `{Shell N} `{NearLightClient N} `{Random N} `{Files N} `{KeySlot St} `{Watchdog.RawSend N}.
Context {W : Type} `{BinaryWriter W} `{BNLib} `{HexUtils} `{Eth2NearRelay.RelayLib} `{EncLib} `{Near2EthRelay.HashLib}.
Context `{KeyPairs} `{EthKeys} `{ContractLib}.
Abbreviation M := (M St N event).

(** [script: path.join(__dirname, '../../index.js')] *)
Definition index_script (dir : string) : string := path_join [dir; "../../index.js"].

Definition StartEth2NearRelay (dir BRIDGE_SRC_DIR : string) (fuel : nat) (o : list (string * jsval)) : M unit :=
  if daemon_on o then connect_and_spawn "eth2near-relay" (index_script dir) (eth2near_args o)
  else
    let acct := mkAccount (opt "nearMasterAccount" o) in
    lift (of_sum (publicKeyOf (opt "nearMasterSk" o)));;
    accessKeyInit acct;;
    Eth2NearRelay.run (W := W) (opt "ethNodeUrl" o) acct (opt "nearClientAccount" o) BRIDGE_SRC_DIR fuel.

(** The set-up that the relay and the watchdog share: the master account and the
    client contract. *)
Definition client_setup (o : list (string * jsval)) : M (string * contract) :=
  ethMasterAccount ← lift (of_sum (privateKeyToAddress (normalizeEthKey (opt "ethMasterSk" o))));
  clientContract ← open_contract (opt "ethClientAbiPath" o) (opt "ethClientAddress" o);
  mret (ethMasterAccount, clientContract).

(** [Near2EthRelay.initialize] *)
Definition relay_initialize (fuel : nat) (o : list (string * jsval)) (ethGasMultiplier : Z) : M (string * contract) :=
  '(ethMasterAccount, clientContract) ← client_setup o;
  Near2EthRelay.initialize (c_address clientContract) ethMasterAccount fuel ethGasMultiplier;;
  mret (ethMasterAccount, clientContract).

(** [{ ...options, submitInvalidBlock }] of [Near2EthRelay.run] and
    [Near2EthRelay.DANGERsubmitInvalidNearBlock] *)
Definition with_invalid_block (submitInvalidBlock : bool) (ro : Near2EthRelay.relay_opts) : Near2EthRelay.relay_opts :=
  Near2EthRelay.mkRelayOpts submitInvalidBlock (Near2EthRelay.minDelay ro) (Near2EthRelay.maxDelay ro)
    (Near2EthRelay.errorDelay ro) (Near2EthRelay.gasMultiplier ro).

(** [ro] holds the numbers of the options: the delays and the multiplier. *)
Definition run_near2eth (fuel : nat) (o : list (string * jsval)) (ro : Near2EthRelay.relay_opts) : M unit :=
  '(ethMasterAccount, clientContract) ← relay_initialize fuel o (Near2EthRelay.gasMultiplier ro);
  Near2EthRelay.runInternal (opt "ethNodeUrl" o) (c_address clientContract) ethMasterAccount fuel ro.

Definition StartNear2EthRelay (dir : string) (fuel : nat) (o : list (string * jsval))
    (ro : Near2EthRelay.relay_opts) : M unit :=
  if daemon_on o then connect_and_spawn "near2eth-relay" (index_script dir) (near2eth_args o)
  else run_near2eth fuel o (with_invalid_block false ro).

(** [DangerSubmitInvalidNearBlock.execute] *)
Definition DangerSubmitInvalidNearBlock (fuel : nat) (o : list (string * jsval))
    (ro : Near2EthRelay.relay_opts) : M unit :=
  run_near2eth fuel o (with_invalid_block true ro).

(** [delay] and [errorDelay] are the numbers of the options. *)
Definition StartWatchdog (dir : string) (fuel : nat) (o : list (string * jsval)) (delay errorDelay : Z) : M unit :=
  if daemon_on o then connect_and_spawn "bridge-watchdog" (index_script dir) (watchdog_args o)
  else
    '(ethMasterAccount, clientContract) ← client_setup o;
    Watchdog.run (c_address clientContract) ethMasterAccount delay errorDelay fuel.
End services.
