(* ===== verification/ProcessesTheorems.v ===== *)
(** * Theorems about the services *)

From Stdlib Require Import Ascii Strings.Byte.
From stdpp Require Import base list strings gmap.
From Stdlib Require Import ZArith Lia.
From S2P Require Import Prelude Js Effects Robust NearTx Config Cli TransferLog Processes.
Local Open Scope Z_scope.

(** ** The daemons *)

(** [--name value] for each pair *)
Definition named_args (pairs : list (string * jsval)) : list jsval :=
  flat_map (fun p => [VStr ("--" +:+ p.1); p.2]) pairs.

(** The pairs of a daemon: every option of the command with the value the
    command has for it, and [daemon] off. *)
Definition daemon_pairs (names : list string) (o : list (string * jsval)) : list (string * jsval) :=
  map (fun n => (n, get_prop (camel n) o)) names ++ [("daemon", VStr "false")].

Definition daemons : list (string * (list (string * jsval) -> list jsval)) :=
  [("eth2near-relay", eth2near_args); ("near2eth-relay", near2eth_args); ("bridge-watchdog", watchdog_args)].

(** C39: a daemon is the same command: its arguments name the command, give every
    option that the command registers exactly once, with the value that the
    command itself was given, and turn the option [daemon] off, so that the new
    process runs the service instead of starting another daemon. *)
Theorem daemon_same_command (service : string) (args : list (string * jsval) -> list jsval) :
  (service, args) ∈ daemons ->
  exists cmd names, cmd ∈ commands /\ cm_path cmd = ["start"; service] /\
    ((names ++ ["daemon"]) ≡ₚ cm_options cmd) /\ ("daemon" ∉ names) /\
    forall o, args o = VStr "start" :: VStr service :: named_args (daemon_pairs names o) /\
      daemon_on (daemon_pairs names o) = false.
Proof.
  assert (Hnd : forall names o, "daemon" ∉ names -> daemon_on (daemon_pairs names o) = false).
  { intros names o Hn. unfold daemon_on, get_prop.
    enough (Ha : assoc "daemon" (daemon_pairs names o) = Some (VStr "false")) by by rewrite Ha.
    unfold daemon_pairs. induction names as [|n names IH]; [done|].
    apply not_elem_of_cons in Hn as [Hne Hn]. cbn [map app assoc].
    rewrite (proj2 (String.eqb_neq _ _) Hne). by apply IH. }
  intros [[= -> ->]|[[= -> ->]|[[= -> ->]|Hin%elem_of_nil]%elem_of_cons]%elem_of_cons]%elem_of_cons; [..|done].
  - exists (mkCommand ["start"; "eth2near-relay"] [] [] [] StartEth2NearRelayCommand_params
      ["near-master-account"; "near-master-sk"; "near-client-account"; "near-network-id"; "near-node-url";
       "eth-node-url"; "daemon"]),
      ["near-network-id"; "near-node-url"; "near-master-account"; "near-master-sk"; "near-client-account"; "eth-node-url"].
    split_and!; [apply (list_elem_of_lookup_2 _ 5); reflexivity|done|compute_done|compute_done|].
    intros o. split; [reflexivity|apply Hnd; compute_done].
  - exists (mkCommand ["start"; "near2eth-relay"] [] [] [] StartNear2EthRelayCommand_params
      ["eth-node-url"; "eth-master-sk"; "near-node-url"; "near-network-id"; "eth-client-abi-path";
       "eth-client-address"; "near2eth-relay-min-delay"; "near2eth-relay-max-delay";
       "near2eth-relay-error-delay"; "eth-gas-multiplier"; "daemon"]),
      ["near-node-url"; "near-network-id"; "eth-node-url"; "eth-master-sk"; "eth-client-abi-path";
       "eth-client-address"; "eth-gas-multiplier"; "near2eth-relay-min-delay"; "near2eth-relay-max-delay";
       "near2eth-relay-error-delay"].
    split_and!; [apply (list_elem_of_lookup_2 _ 6); reflexivity|done|compute_done|compute_done|].
    intros o. split; [reflexivity|apply Hnd; compute_done].
  - exists (mkCommand ["start"; "bridge-watchdog"] [] [] [] StartWatchdogCommand_params
      ["eth-node-url"; "eth-master-sk"; "eth-client-abi-path"; "eth-client-address"; "watchdog-delay";
       "watchdog-error-delay"; "daemon"]),
      ["eth-node-url"; "eth-master-sk"; "eth-client-abi-path"; "eth-client-address"; "watchdog-delay";
       "watchdog-error-delay"].
    split_and!; [apply (list_elem_of_lookup_2 _ 7); reflexivity|done|compute_done|compute_done|].
    intros o. split; [reflexivity|apply Hnd; compute_done].
Qed.

Lemma daemon_same_command_witness :
  exists cmd names, cmd ∈ commands /\ cm_path cmd = ["start"; "bridge-watchdog"] /\
    ((names ++ ["daemon"]) ≡ₚ cm_options cmd) /\ ("daemon" ∉ names) /\
    forall o, watchdog_args o = VStr "start" :: VStr "bridge-watchdog" :: named_args (daemon_pairs names o) /\
      daemon_on (daemon_pairs names o) = false.
Proof. apply (daemon_same_command "bridge-watchdog" watchdog_args). right. right. left. Defined.

(** ** Starting and stopping *)

Section processes.
Context {St N : Type} `{ProcessManager N}.
Abbreviation W := (world St N event).

(** A call of the process manager leaves its event, whatever it answers. *)
Lemma pm_call_run (f : N -> N * option exn) ev (w : W) :
  exists n' err, pm_call f ev w = (mkWorld (store w) n' (trace w ++ [ev (match err with None => true | Some _ => false end)]), Ok err).
Proof. unfold pm_call. destruct (f (net w)) as [n' err]. by exists n', err. Qed.

Lemma describe_run name (w : W) :
  exists n' r, describe name w =
    (mkWorld (store w) n' (trace w ++ [EvProcess "describe" name (match r.1 with None => true | Some _ => false end)]), Ok r).
Proof. unfold describe. destruct (pm_describe name (net w)) as [n' r]. by exists n', r. Qed.

Lemma disconnect_run (w : W) : exists n' o b, disconnect w = (mkWorld (store w) n' (trace w ++ [EvProcess "disconnect" "" b]), o) /\
  (o = Ok tt /\ b = true \/ (exists e, o = Throw e) /\ b = false).
Proof.
  unfold disconnect, rpc. destruct (pm_disconnect (net w)) as [n' [e|[]]]; simpl; eexists n', _, _; (split; [done|]).
  - right. split; [by exists e|done].
  - by left.
Qed.
End processes.

(** Starting a service never makes a second one: the process manager is asked
    to start it at most once, with the given arguments, and only after it said
    that no process of that name runs; when [spawnProcess] returns, the
    connection to the manager is closed. *)
Theorem spawn_at_most_once {St N} `{ProcessManager N} (name script : string) (args : list jsval)
    (w w' : world St N event) (o : outcome unit) :
  spawnProcess name script args w = (w', o) ->
  exists n1 r tr, pm_describe name (net w) = (n1, r) /\
    trace w' = trace w ++ EvProcess "describe" name (match r.1 with None => true | Some _ => false end) :: tr /\
    match r.2 with
    | None => tr = [] /\ exists e, o = Throw e
    | Some running =>
        (exists closed, tr = (match running with [] => [EvSpawn name script args (match (pm_start name script args n1).2 with None => true | _ => false end)] | _ => [] end)
           ++ [EvProcess "disconnect" "" closed] /\ (o = Ok tt -> closed = true))
    end.
Proof.
  unfold spawnProcess, describe, mbind, M_bind. destruct (pm_describe name (net w)) as [n1 [err [[|p l]|]]]; simpl.
  - unfold pm_call at 1. simpl. destruct (pm_start name script args n1) as [n2 e2] eqn:Es. simpl.
    match goal with |- disconnect ?w1 = _ -> _ => destruct (disconnect_run w1) as (n3 & o' & b & Hd & Ho) end.
    rewrite Hd. intros [= <- <-]. eexists n1, _, _. split; [done|]. simpl. rewrite <- !app_assoc. split; [done|].
    exists b. split; [by rewrite Es|]. destruct Ho as [[-> ->]|[[e ->] _]]; done.
  - match goal with |- disconnect ?w1 = _ -> _ => destruct (disconnect_run w1) as (n3 & o' & b & Hd & Ho) end.
    rewrite Hd. intros [= <- <-]. eexists n1, _, _. split; [done|]. simpl. rewrite <- !app_assoc. split; [done|].
    exists b. split; [done|]. destruct Ho as [[-> ->]|[[e ->] _]]; done.
  - intros [= <- <-]. eexists n1, _, []. simpl. split; [done|]. split; [done|]. split; [done|by eexists].
Qed.

(** The events of stopping one service. *)
Definition stop_events (name : string) (ok : bool) : list event :=
  [EvProcess "delete" name ok; EvProcess "disconnect" "" true].

(** Stopping a service never fails; leaving the manager is taken to succeed. *)
Lemma stop_services_run {St N} `{ProcessManager N} names :
  (forall n, exists n', pm_disconnect n = (n', inr tt)) -> forall w : world St N event,
  exists w' oks, stop_services names w = (w', Ok tt) /\ length oks = length names /\
    trace w' = trace w ++ concat (zip_with stop_events names oks).
Proof.
  intros Hd. induction names as [|name names IH]; intros w; simpl.
  { exists w, []. split_and!; [done|done|]. by rewrite app_nil_r. }
  unfold stop, rpc at 1, catch. destruct (pm_delete name (net w)) as [n1 r] eqn:Ep.
  set (w1 := mkWorld (store w) n1 (trace w ++ [EvProcess "delete" name (result_ok r)])).
  destruct (Hd n1) as [n2 Hn2]. unfold disconnect.
  destruct (IH (mkWorld (store w) n2 (trace w1 ++ [EvProcess "disconnect" "" true]))) as (w' & oks & Hr & Hl & Ht).
  exists w', (result_ok r :: oks). split; [|split; [simpl; lia|by rewrite Ht; simpl; rewrite <- !app_assoc]].
  rewrite (bind_run _ _ w w1 tt) by (unfold rpc; rewrite Ep; by destruct r as [|[]]).
  erewrite bind_run by (apply rpc_run; exact Hn2). exact Hr.
Qed.

(** [stop all] asks for every service to be stopped, in the order of the list
    and after the local NEAR node, whether or not the others were running or
    could be stopped, and it always returns when the connection to the manager
    can be left. *)
Theorem stop_all_complete {St N} `{ProcessManager N} (w : world St N event) :
  (forall n, exists n', pm_disconnect n = (n', inr tt)) ->
  exists w' nearup oks, StopManagedProcess "all" w = (w', Ok tt) /\ length oks = length services /\
    trace w' = trace w ++ EvShell NEARUP_STOP nearup :: concat (zip_with stop_events services oks).
Proof.
  intros Hd. unfold StopManagedProcess. cbn [String.eqb Ascii.eqb eqb].
  destruct (execSync NEARUP_STOP (net w)) as [n1 r] eqn:Ex.
  set (w1 := mkWorld (store w) n1 (trace w ++ [EvShell NEARUP_STOP (result_ok r)])).
  destruct (stop_services_run services Hd w1) as (w' & oks & Hr & Hl & Ht).
  exists w', (result_ok r), oks. split; [|split; [done|by rewrite Ht; simpl; rewrite <- app_assoc]].
  rewrite (bind_run _ _ w w1 tt); [exact Hr|].
  unfold stopLocalNearNode, shell, catch, rpc, mbind, M_bind. rewrite Ex. by destruct r.
Qed.

(** ** Witnesses: a manager that knows the names of the running processes *)

#[local] Instance toy_manager : ProcessManager (list string) := {|
  pm_connect n := (n, None);
  pm_describe name n := (n, (None, Some (if bool_decide (name ∈ n) then [mkManaged []] else [])));
  pm_start name _ _ n := (name :: n, None);
  pm_delete name n := (filter (fun x => x <> name) n,
    if bool_decide (name ∈ n) then inr tt else inl (Error "process or namespace not found"));
  pm_killDaemon n := ([], None);
  pm_disconnect n := (n, inr tt);
  execSync _ n := (n, inr "")
|}.
Definition idle_world (running : list string) : world unit (list string) event := mkWorld tt running [].

Lemma spawn_at_most_once_witness :
  let r := spawnProcess "ganache" "g.sh" [] (idle_world []) in
  r.2 = Ok tt /\ net r.1 = ["ganache"] /\
  exists n1 d tr, pm_describe "ganache" (net (idle_world [])) = (n1, d) /\
    trace r.1 = [] ++ EvProcess "describe" "ganache" (match d.1 with None => true | Some _ => false end) :: tr /\
    match d.2 with
    | None => tr = [] /\ exists e, r.2 = Throw e
    | Some running =>
        (exists closed, tr = (match running with [] => [EvSpawn "ganache" "g.sh" [] (match (pm_start "ganache" "g.sh" [] n1).2 with None => true | _ => false end)] | _ => [] end)
           ++ [EvProcess "disconnect" "" closed] /\ (r.2 = Ok tt -> closed = true))
    end.
Proof.
  intros r. split; [reflexivity|]. split; [reflexivity|].
  apply (spawn_at_most_once "ganache" "g.sh" [] (idle_world []) r.1 r.2). reflexivity.
Defined.

Lemma stop_all_complete_witness :
  exists w' nearup oks, StopManagedProcess "all" (idle_world ["near2eth-relay"]) = (w', Ok tt) /\
    length oks = length services /\
    trace w' = [] ++ EvShell NEARUP_STOP nearup :: concat (zip_with stop_events services oks).
Proof. apply (stop_all_complete (idle_world ["near2eth-relay"])). intros n. by exists n. Defined.
