(* ===== verification/Status.v ===== *)
(** * The status command: [cli/commands/status.js]

    The checks of the two nodes, of the accounts, of the contracts and of the
    services, and the lines that are printed.  The file takes
    [verifyAccountGently] from the package [rainbow-bridge-utils]; what the
    import gives is an argument of the model. *)

From Stdlib Require Import Ascii Strings.Byte.
From stdpp Require Import base list strings gmap pretty.
From Stdlib Require Import ZArith Lia.
From S2P Require Import Prelude Js Borsh Borshify Effects Robust NearTx Accounts InitContracts.
From S2P Require Import TransferLog ToNear FromNear Adapter Processes.
Local Open Scope Z_scope.

(** ** Verdicts *)

Inductive verdict := VOk | VInfo | VWarn | VError.
#[export] Instance verdict_eq_dec : EqDecision verdict.
Proof. solve_decision. Defined.

Definition Running : jsval := VStr "running".
Definition Valid : jsval := VStr "valid".
Definition Deployed : jsval := VStr "deployed".
Definition Unknown : jsval := VStr "unknown".
Definition Unreachable : jsval := VStr "unreachable".
Definition Invalid : jsval := VStr "invalid".
Definition NotVerified : jsval := VStr "not verified".
Definition UsingMaster : jsval := VStr "using data from master account".
Definition RecordNotFound : jsval := VStr "record not found".
Definition ABINotFound : jsval := VStr "abi not found".
Definition ContractNotFound : jsval := VStr "contract not found".
Definition InternalError : jsval := VStr "internal error".

(** [class Status]; the explanation is [null] when it is not given. *)
Record status := mkStatus {
  st_value : jsval;
  st_verdict : verdict;
  st_explanation : jsval
}.
(** [new Status(value)] *)
Definition bad (value : jsval) : status := mkStatus value VError VNull.
(** [s.verdict = v] *)
Definition set_verdict (v : verdict) (s : status) : status := mkStatus (st_value s) v (st_explanation s).

(** What the node of [web3] tells besides: the default chain (empty when there
    is none), the protocol version and the accounts. *)
Class EthInfo (N : Type) := {
  eth_defaultChain : string;
  eth_getProtocolVersion : N -> N * (exn + string);
  eth_getAccounts : N -> N * (exn + list string)
}.

(** The contracts of NEAR: [boo] is a method that no contract has. *)
Class BooCall (N : Type) := near_boo : string -> string -> N -> N * (exn + unit).

Record near_contracts := mkNearContracts {
  nc_client : option status;
  nc_prover : option status;
  nc_funToken : option status
}.

(** A field that is not set is [None]. *)
Record near_status := mkNearStatus {
  ns_networkLocation : option status;
  ns_masterAccount : option status;
  ns_masterKey : option status;
  ns_clientAccount : option status;
  ns_clientKey : option status;
  ns_proverAccount : option status;
  ns_proverKey : option status;
  ns_networkConnection : option status;
  ns_networkLastBlock : option status;
  ns_contracts : option near_contracts
}.

Record eth_contracts := mkEthContracts {
  ec_ed25519 : status;
  ec_erc20 : status;
  ec_locker : status;
  ec_client : status;
  ec_prover : status
}.

Record eth_status := mkEthStatus {
  es_masterAccount : status;
  es_masterKey : status;
  es_networkLocation : option status;
  es_networkConnection : option status;
  es_networkLastBlock : option status;
  es_contracts : option eth_contracts
}.

Record services_status := mkServicesStatus {
  ss_eth2nearRelay : status;
  ss_near2ethRelay : status;
  ss_watchdog : status
}.

(** [f(x)] where [f] is not exported by the package it is imported from *)
Definition undefined_function {St N A} (name : string) : M St N event A :=
  throw (TypeError (name +:+ " is not a function")).
(** [const {...} = undefined] *)
Definition DESTRUCTURE : exn := TypeError "Cannot destructure property of 'undefined'".

Section status.
Context {St N : Type} `{EthNode N} `{EthInfo N} `{Files N} `{Fetch N} `{ProcessManager N} `{BooCall N}.
Context `{KeyPairs} `{EthKeys} `{ContractLib} `{JsonText}.
Abbreviation M := (M St N event).
(** The imported [verifyAccountGently], on the key store and the account. *)
Variable imported_verifyAccountGently : gmap string string -> string -> M bool.

(** [request(url)] *)
Definition request (url : string) : M (verdict * jsval * jsval) :=
  catch
    (json ← rpc (fetch_json url VNull) (EvFetch url VNull);
     version ← lift (js_get json "version");
     height ← lift (js_path json ["sync_info"; "latest_block_height"]);
     mret (VOk, VStr (JSON_stringify version), VStr (JSON_stringify height)))
    (fun _ => mret (VError, Unreachable, Unknown)).

(** ** NEAR *)

(** [NearContracts.checkContract]; when [boo] returns, nothing is returned. *)
Definition near_checkContract (masterAccount contractAccount : string) : M (option status) :=
  if negb (truthy contractAccount) then mret (Some (mkStatus Unknown VError ContractNotFound))
  else
    r ← attempt (rpc (near_boo masterAccount contractAccount) (fun r => EvNearChange contractAccount "boo" VNull 0 None r));
    match r with
    | inr _ => mret None
    | inl e =>
        if truthy (e_message e) && includes "Contract method is not found" (e_message e)
        then mret (Some (mkStatus (VStr contractAccount) VOk Deployed))
        else mret (Some (mkStatus Unknown VInfo NotVerified))
    end.

(** [NearContracts.init(near, accounts)]; [accounts] is [None] when the second
    argument is not given. *)
Definition near_contracts_init (accounts : option (string * string * string * string)) : M near_contracts :=
  match accounts with
  | None => throw DESTRUCTURE
  | Some (master, client, prover, factory) =>
      if negb (truthy master) then mret (mkNearContracts None None None)
      else
        client ← near_checkContract master client;
        prover ← near_checkContract master prover;
        funToken ← near_checkContract master factory;
        mret (mkNearContracts client prover funToken)
  end.

Record near_args := mkNearArgs {
  na_networkId : string;
  na_nodeUrl : string;
  na_masterAccount : string;
  na_masterSk : string;
  na_clientAccount : string;
  na_clientSk : string;
  na_proverAccount : string;
  na_proverSk : string
}.

(** The basic data, before the node is asked. *)
Definition near_basic (a : near_args) : near_status :=
  let given (s : string) (good bad : status) := Some (if truthy s then good else bad) in
  let master_of (s : string) (e : jsval) := given s (mkStatus (VStr s) VInfo e) (mkStatus Unknown VInfo UsingMaster) in
  mkNearStatus
    (given (na_networkId a) (mkStatus (VStr (na_networkId a)) VInfo VNull) (bad Unknown))
    (given (na_masterAccount a) (mkStatus (VStr (na_masterAccount a)) VInfo NotVerified) (bad Unknown))
    (given (na_masterSk a) (mkStatus (VStr (na_masterSk a)) VInfo VNull) (bad Unknown))
    (master_of (na_clientAccount a) NotVerified)
    (master_of (na_clientSk a) VNull)
    (master_of (na_proverAccount a) NotVerified)
    (master_of (na_proverSk a) VNull)
    None None None.

(** [(await verifyAccountGently(near, account)) ? ... : ...] *)
Definition verified (keyStore : gmap string string) (account : string) : M status :=
  valid ← imported_verifyAccountGently keyStore account;
  mret (if valid : bool then mkStatus (VStr account) VOk Valid else mkStatus (VStr account) VError Invalid).

(** A second account with its key: [this.nearClientAccount] is set, which nothing
    prints; the key takes the verdict of the field that was set before. *)
Definition verify_second (keyStore : gmap string string) (account sk : string) (shown key : option status)
    : M (option status) :=
  if truthy account && truthy sk then
    verified keyStore account;;
    mret (match shown with Some s => set_verdict (st_verdict s) <$> key | None => key end)
  else mret key.

(** The checks of a node that answered, with the master account and its key. *)
Definition near_verify (a : near_args) (s : near_status) : M near_status :=
  lift (of_sum (publicKeyOf (na_masterSk a)));;
  let second (account sk : string) := truthy account && truthy sk in
  (if second (na_clientAccount a) (na_clientSk a) then lift (of_sum (publicKeyOf (na_clientSk a)));; mret tt else mret tt);;
  (if second (na_proverAccount a) (na_proverSk a) then lift (of_sum (publicKeyOf (na_proverSk a)));; mret tt else mret tt);;
  let add (account sk : string) (m : gmap string string) := if second account sk then <[account := sk]> m else m in
  let keyStore := add (na_proverAccount a) (na_proverSk a)
    (add (na_clientAccount a) (na_clientSk a) {[na_masterAccount a := na_masterSk a]}) in
  masterAccount ← verified keyStore (na_masterAccount a);
  let masterKey := set_verdict (st_verdict masterAccount) <$> ns_masterKey s in
  clientKey ← verify_second keyStore (na_clientAccount a) (na_clientSk a) (ns_clientAccount s) (ns_clientKey s);
  proverKey ← verify_second keyStore (na_proverAccount a) (na_proverSk a) (ns_proverAccount s) (ns_proverKey s);
  contracts ← near_contracts_init None;
  mret (mkNearStatus (ns_networkLocation s) (Some masterAccount) masterKey (ns_clientAccount s) clientKey
    (ns_proverAccount s) proverKey (ns_networkConnection s) (ns_networkLastBlock s) (Some contracts)).

Definition with_connection (s : near_status) (connection lastBlock : status) : near_status :=
  mkNearStatus (ns_networkLocation s) (ns_masterAccount s) (ns_masterKey s) (ns_clientAccount s) (ns_clientKey s)
    (ns_proverAccount s) (ns_proverKey s) (Some connection) (Some lastBlock) (ns_contracts s).

(** [NearStatus.init] *)
Definition near_init (a : near_args) : M near_status :=
  let s := near_basic a in
  if truthy (na_nodeUrl a) then
    '(v, explanation, lastBlock) ← request (na_nodeUrl a +:+ "/status");
    let s := with_connection s (mkStatus (VStr (na_nodeUrl a)) v explanation) (mkStatus lastBlock v VNull) in
    if bool_decide (v = VOk) && truthy (na_masterAccount a) && truthy (na_masterSk a)
    then near_verify a s
    else mret s
  else mret (with_connection s (bad Unknown) (bad Unknown)).

(** ** Ethereum *)

(** [EthContracts.checkContract] *)
Definition eth_checkContract (abiPath address : string) : M status :=
  if negb (truthy abiPath) then mret (mkStatus Unknown VError ABINotFound)
  else if negb (truthy address) then mret (mkStatus Unknown VError ContractNotFound)
  else
    catch
      (contract ← open_contract abiPath address;
       mret (if String.eqb (c_address contract) address then mkStatus (VStr (c_address contract)) VOk Deployed
             else mkStatus (VStr address) VError Invalid))
      (fun _ => mret (mkStatus Unknown VError InternalError)).

(** [EthContracts.init(web3, paths)]; [paths] is [None] when the second argument
    is not given. *)
Definition eth_contracts_init (paths : option (list (string * string))) : M eth_contracts :=
  match paths with
  | Some [ed25519; erc20; locker; client; prover] =>
      ed25519 ← eth_checkContract ed25519.1 ed25519.2;
      erc20 ← eth_checkContract erc20.1 erc20.2;
      locker ← eth_checkContract locker.1 locker.2;
      client ← eth_checkContract client.1 client.2;
      prover ← eth_checkContract prover.1 prover.2;
      mret (mkEthContracts ed25519 erc20 locker client prover)
  | _ => throw DESTRUCTURE
  end.

(** The first inner [try]: connection and last block. *)
Definition eth_connection (ethNodeUrl : string) : M (status * status) :=
  catch
    (version ← rpc eth_getProtocolVersion (fun r => EvFetch ethNodeUrl (VStr "protocolVersion") (match r with inr v => inr (VStr v) | inl e => inl e end));
     lastBlock ← rpc eth_getBlockNumber EvGetBlockNumber;
     mret (mkStatus (VStr ethNodeUrl) VOk (VStr ("version " +:+ version)), mkStatus (VNum lastBlock) VOk VNull))
    (fun _ => mret (mkStatus (VStr ethNodeUrl) VError Unreachable, bad Unknown)).

(** The second inner [try]: the master account, when it can be checked. *)
Definition eth_master (ethMasterSk : string) (account key : status) : M (status * status) :=
  catch
    (address ← lift (of_sum (privateKeyToAddress (normalizeEthKey ethMasterSk)));
     accounts ← rpc eth_getAccounts (fun r => EvFetch "" (VStr "accounts") (match r with inr l => inr (VArr (map VStr l)) | inl e => inl e end));
     mret (if existsb (String.eqb address) accounts
           then (mkStatus (VStr address) VOk Valid, set_verdict VOk key)
           else (mkStatus (VStr address) VError Invalid, set_verdict VError key)))
    (fun _ => mret (account, key)).

(** [EthStatus.init].  The fields that the outer [try] sets before it fails stay
    set; its [catch] writes the three fields of the network. *)
Definition eth_init (ethNodeUrl ethMasterSk : string) : M eth_status :=
  let account := mkStatus Unknown VInfo NotVerified in
  let key := if truthy ethMasterSk then mkStatus (VStr (normalizeEthKey ethMasterSk)) VInfo VNull else bad Unknown in
  if truthy ethNodeUrl then
    let location := mkStatus (VStr (if truthy (eth_defaultChain (N := N)) then eth_defaultChain (N := N) else "local")) VInfo VNull in
    '(connection, lastBlock) ← eth_connection ethNodeUrl;
    '(account, key) ← eth_master ethMasterSk account key;
    catch
      (contracts ← eth_contracts_init None;
       catch close (fun _ => mret tt);;
       mret (mkEthStatus account key (Some location) (Some connection) (Some lastBlock) (Some contracts)))
      (fun _ => mret (mkEthStatus account key (Some (bad Unknown))
         (Some (mkStatus (VStr ethNodeUrl) VError Unreachable)) (Some (bad Unknown)) None))
  else mret (mkEthStatus account key (Some (bad Unknown)) (Some (bad Unknown)) (Some (bad Unknown)) None).

(** ** Services *)

(** A value that is added to a string. *)
Fixpoint text_of (v : jsval) : string :=
  match v with
  | VStr s => s
  | VNum z | VBN z => pretty z
  | VBool b => if b then "true" else "false"
  | VUndef => "undefined"
  | VNull => "null"
  | VArr l => join "," (map (fun x => match x with VUndef | VNull => "" | _ => text_of x end) l)
  | VBytes bs => String.string_of_list_ascii (map ascii_of_byte bs)
  | VObj _ => "[object Object]"
  end.

(** [processArgs(args)] *)
Fixpoint process_args (args : list jsval) : outcome (list string) :=
  match args with
  | x :: (y :: _) as rest =>
      match x with
      | VStr s =>
          more ← process_args rest;
          Ok (if startsWith "--" s then (substr_from 2 s +:+ "=" +:+ text_of y) :: more else more)
      | _ => Throw (TypeError "args[i].startsWith is not a function")
      end
  | _ => Ok []
  end.
Definition processArgs (args : list jsval) : outcome string := l ← process_args args; Ok (join ", " l).

(** [running(serviceName)] *)
Definition running (serviceName : string) : M status :=
  catch
    ('(err, process) ← describe serviceName;
     match err, process with
     | Some e, _ => throw e
     | None, None => throw (TypeError "Cannot read property 'length' of undefined")
     | None, Some [] => mret (mkStatus Unknown VError Unreachable)
     | None, Some (p :: _) => args ← lift (processArgs (pm2_args p)); mret (mkStatus Running VOk (VStr args))
     end)
    (fun _ => mret (mkStatus Unknown VError InternalError)).

Definition services_init : M services_status :=
  eth2nearRelay ← running "eth2near-relay";
  near2ethRelay ← running "near2eth-relay";
  watchdog ← running "bridge-watchdog";
  mret (mkServicesStatus eth2nearRelay near2ethRelay watchdog).

(** ** Output *)

Definition color (v : verdict) : string :=
  match v with
  | VOk => "[32m"
  | VInfo => "[39m"
  | VWarn => "[33m"
  | VError => "[35m"
  end.
Definition escape : string := String "027" EmptyString.
Definition NoColor : string := escape +:+ "[39m".

(** [while (line.length < n) line = line + ' '] *)
Definition pad (n : nat) (line : string) : string :=
  line +:+ String.string_of_list_ascii (replicate (n - String.length line) " "%char).

Definition line_of (fld : string) (s : option status) : list jsval :=
  let s := default (mkStatus Unknown VError RecordNotFound) s in
  let explanation := if js_truthy (st_explanation s) then "(" +:+ text_of (st_explanation s) +:+ ")" else "" in
  [VStr (pad 50 (fld +:+ ":")); VStr (escape +:+ color (st_verdict s) +:+ text_of (st_value s));
   VStr (explanation +:+ NoColor)].
Definition printLine (fld : string) (s : option status) : M unit := print (line_of fld s).
Definition printHeader (text : string) : M unit := print [VStr (escape +:+ "[33m" +:+ text +:+ NoColor)].
Definition printFooter : M unit := print [].

Fixpoint print_lines (lines : list (string * option status)) : M unit :=
  match lines with [] => mret tt | l :: lines => printLine l.1 l.2;; print_lines lines end.

(** The lines of the five sections. *)
Definition near_lines (s : near_status) : list (string * option status) :=
  [("Location", ns_networkLocation s); ("Connection", ns_networkConnection s);
   ("Latest block height", ns_networkLastBlock s); ("Bridge master account", ns_masterAccount s);
   ("Master account secret key", ns_masterKey s);
   ("Account used for Client contract deployment", ns_clientAccount s);
   ("Client account secret key", ns_clientKey s);
   ("Account used for Prover contract deployment", ns_proverAccount s);
   ("Prover account secret key", ns_proverKey s)].
Definition near_contract_lines (s : near_status) : list (string * option status) :=
  match ns_contracts s with
  | Some c => [("fungible token", nc_funToken c); ("client", nc_client c); ("prover", nc_prover c)]
  | None => [("Contracts", None)]
  end.
Definition eth_lines (s : eth_status) : list (string * option status) :=
  [("Location", es_networkLocation s); ("Connection", es_networkConnection s);
   ("Latest block height", es_networkLastBlock s); ("Bridge master account", Some (es_masterAccount s));
   ("Master account secret key", Some (es_masterKey s))].
Definition eth_contract_lines (s : eth_status) : list (string * option status) :=
  match es_contracts s with
  | Some c => [("ed25519", Some (ec_ed25519 c)); ("erc20", Some (ec_erc20 c)); ("locker", Some (ec_locker c));
               ("client", Some (ec_client c)); ("prover", Some (ec_prover c))]
  | None => [("Contracts", None)]
  end.
Definition service_lines (s : services_status) : list (string * option status) :=
  [("ETH-2-NEAR relay", Some (ss_eth2nearRelay s)); ("NEAR-2-ETH relay", Some (ss_near2ethRelay s));
   ("Bridge Watchdog", Some (ss_watchdog s))].

(** The output of the command, the footers being empty lines. *)
Definition print_report (nearStatus : near_status) (ethStatus : eth_status) (servicesStatus : services_status)
    : M unit :=
  printHeader "NEAR node status";; print_lines (near_lines nearStatus);; printFooter;;
  printHeader "NEAR contracts status";; print_lines (near_contract_lines nearStatus);; printFooter;;
  printHeader "ETH node status";; print_lines (eth_lines ethStatus);; printFooter;;
  printHeader "ETH contracts status";; print_lines (eth_contract_lines ethStatus);; printFooter;;
  printHeader "Services";; print_lines (service_lines servicesStatus).

(** [StatusCommand.execute] *)
Definition StatusCommand (a : near_args) (ethNodeUrl ethMasterSk : string) : M unit :=
  nearStatus ← near_init a;
  ethStatus ← eth_init ethNodeUrl ethMasterSk;
  servicesStatus ← services_init;
  print_report nearStatus ethStatus servicesStatus;;
  disconnect.
End status.
