(* ===== verification/StatusTheorems.v ===== *)
(** * Theorems about the status command *)

From Stdlib Require Import Ascii Strings.Byte.
From stdpp Require Import base list strings gmap pretty.
From Stdlib Require Import ZArith Lia.
From S2P Require Import Prelude Js Borsh Borshify Effects Robust NearTx Traces Accounts InitContracts.
From S2P Require Import TransferLog ToNear FromNear Adapter AdapterTheorems Processes ProcessesTheorems Status.
Local Open Scope Z_scope.

Section status.
Context {St N : Type} `{EthNode N} `{EthInfo N} `{Files N} `{Fetch N} `{ProcessManager N} `{BooCall N}.
Context `{KeyPairs} `{EthKeys} `{ContractLib} `{JsonText}.
Abbreviation M := (M St N event).
Variable imported : gmap string string -> string -> M bool.

(** The checks of an answering node end in the call without the second
    argument. *)
Lemma near_verify_never a s w w' s' : near_verify imported a s w <> (w', Ok s').
Proof.
  unfold near_verify. cbn zeta. intros Hr.
  do 6 (apply bind_ok in Hr as (? & ? & _ & Hr)). apply bind_ok in Hr as (c & wc & Hc & _). done.
Qed.

Lemma request_verdict url (w w' : world St N event) v e l : request url w = (w', Ok (v, e, l)) ->
  v = VOk \/ (v = VError /\ e = Unreachable /\ l = Unknown).
Proof.
  unfold request. intros [Hr|(x & w1 & _ & Hr)]%catch_ok.
  - do 3 (apply bind_ok in Hr as (? & ? & _ & Hr)). injection Hr as _ <- <- <-. by left.
  - injection Hr as _ <- <- <-. by right.
Qed.

Lemma near_init_unreachable a w w' s :
  truthy (na_nodeUrl a) = true -> truthy (na_masterAccount a) = true -> truthy (na_masterSk a) = true ->
  near_init imported a w = (w', Ok s) ->
  ns_networkConnection s = Some (mkStatus (VStr (na_nodeUrl a)) VError Unreachable) /\ ns_contracts s = None.
Proof.
  intros Hu Ha Hk. unfold near_init. rewrite Hu, Ha, Hk. intros ([[v e] l] & w1 & Hq & Hr)%bind_ok.
  destruct (request_verdict _ _ _ _ _ _ Hq) as [->|(-> & -> & ->)].
  - exfalso. by apply (near_verify_never _ _ _ _ _ Hr).
  - by injection Hr as _ <-.
Qed.

Lemma eth_init_unreachable url sk (w w' : world St N event) s : truthy url = true -> eth_init url sk w = (w', Ok s) ->
  es_networkConnection s = Some (mkStatus (VStr url) VError Unreachable) /\ es_contracts s = None.
Proof.
  intros Hu. unfold eth_init. rewrite Hu. intros ([c b] & w1 & _ & Hr)%bind_ok.
  apply bind_ok in Hr as ([acc key] & w2 & _ & Hr).
  apply catch_ok in Hr as [(x & w3 & Hc & _)%bind_ok|(e & w3 & _ & Hr)]; [done|]. by injection Hr as _ <-.
Qed.

(** ** The printed lines *)

Definition header_line (text : string) : list jsval := [VStr (escape +:+ "[33m" +:+ text +:+ NoColor)].
Definition section_lines (lines : list (string * option status)) : list (list jsval) :=
  map (fun l => line_of l.1 l.2) lines.
Definition report_lines (s : near_status) (e : eth_status) (v : services_status) : list (list jsval) :=
  [header_line "NEAR node status"] ++ section_lines (near_lines s) ++ [[]] ++
  [header_line "NEAR contracts status"] ++ section_lines (near_contract_lines s) ++ [[]] ++
  [header_line "ETH node status"] ++ section_lines (eth_lines e) ++ [[]] ++
  [header_line "ETH contracts status"] ++ section_lines (eth_contract_lines e) ++ [[]] ++
  [header_line "Services"] ++ section_lines (service_lines v).

(** A part of the output: it emits these lines and returns. *)
Definition outputs (m : M unit) (lines : list (list jsval)) : Prop :=
  forall w, m w = (mkWorld (store w) (net w) (trace w ++ map EvPrint lines), Ok tt).
Lemma outputs_seq m m' l l' : outputs m l -> outputs m' l' -> outputs (m;; m') (l ++ l').
Proof.
  intros Hm Hm' w. rewrite (bind_run _ _ _ _ _ (Hm w)), Hm'. simpl. by rewrite map_app, app_assoc.
Qed.
Lemma outputs_print line : outputs (print line) [line].
Proof. done. Qed.
Lemma outputs_header text : outputs (printHeader text) [header_line text].
Proof. apply outputs_print. Qed.
Lemma outputs_footer : outputs printFooter [[]].
Proof. apply outputs_print. Qed.
Lemma outputs_lines lines : outputs (print_lines lines) (map (fun l => line_of l.1 l.2) lines).
Proof.
  induction lines as [|l lines IH]; simpl; [intros [s n t]; simpl; by rewrite app_nil_r|].
  apply (outputs_seq _ _ [line_of l.1 l.2]); [apply outputs_print|done].
Qed.

Lemma outputs_report s e v : outputs (print_report s e v) (report_lines s e v).
Proof.
  unfold print_report, report_lines.
  do 4 (apply outputs_seq; [apply outputs_header|]; apply outputs_seq; [apply outputs_lines|];
        apply outputs_seq; [apply outputs_footer|]).
  apply outputs_seq; [apply outputs_header|apply outputs_lines].
Qed.
End status.

(** A status that is printed never shows a reachable node: when the address of
    the NEAR node, the master account with its key and the address of the
    Ethereum node are given, then the command, if it returns at all, prints both
    connections as unreachable and no contract, whatever the nodes answer and
    whatever the check of an account is; with a NEAR node that answers it does
    not return. *)
Theorem status_shows_unreachable {St N} `{EthNode N} `{EthInfo N} `{Files N} `{Fetch N} `{ProcessManager N}
    `{BooCall N} `{KeyPairs} `{EthKeys} `{ContractLib} `{JsonText}
    (imported : gmap string string -> string -> M St N event bool) (a : near_args) (ethNodeUrl ethMasterSk : string)
    (w w' : world St N event) :
  truthy (na_nodeUrl a) = true -> truthy (na_masterAccount a) = true -> truthy (na_masterSk a) = true ->
  truthy ethNodeUrl = true ->
  StatusCommand imported a ethNodeUrl ethMasterSk w = (w', Ok tt) ->
  exists (w1 : world St N event) s e v closed, trace w' = trace w1 ++ map EvPrint (report_lines s e v) ++ [EvProcess "disconnect" "" closed] /\
    ns_networkConnection s = Some (mkStatus (VStr (na_nodeUrl a)) VError Unreachable) /\
    es_networkConnection e = Some (mkStatus (VStr ethNodeUrl) VError Unreachable) /\
    near_contract_lines s = [("Contracts", None)] /\ eth_contract_lines e = [("Contracts", None)].
Proof.
  intros Hu Ha Hk He Hr. unfold StatusCommand in Hr.
  apply bind_ok in Hr as (s & w1 & Hs & Hr). apply bind_ok in Hr as (e & w2 & He' & Hr).
  apply bind_ok in Hr as (v & w3 & _ & Hr). rewrite (bind_run _ _ _ _ _ (outputs_report s e v w3)) in Hr.
  destruct (near_init_unreachable _ _ _ _ _ Hu Ha Hk Hs) as [Hc Hn].
  destruct (eth_init_unreachable _ _ _ _ _ He He') as [Hc' Hn'].
  match type of Hr with disconnect ?x = _ => destruct (disconnect_run x) as (n4 & o & b & Hd & _) end.
  rewrite Hd in Hr. injection Hr as <- _. exists w3, s, e, v, b.
  split; [cbn [trace]; apply (eq_sym (app_assoc _ _ _))|]. split; [exact Hc|]. split; [exact Hc'|].
  unfold near_contract_lines, eth_contract_lines. by rewrite Hn, Hn'.
Qed.

(** ** Services *)

(** The text of an option of a daemon. *)
Definition option_text (p : string * jsval) : string := p.1 +:+ "=" +:+ text_of p.2.

Lemma startsWith_dashes s : startsWith "--" ("--" +:+ s) = true.
Proof. unfold startsWith. simpl. by destruct s. Qed.

(** A string that is not an option is passed over. *)
Lemma process_args_skip s args : startsWith "--" s = false ->
  process_args (VStr s :: args) = process_args args.
Proof.
  intros Hs. destruct args as [|x args]; [done|].
  change (process_args (VStr s :: x :: args)) with
    (more ← process_args (x :: args);
     Ok (if startsWith "--" s then (substr_from 2 s +:+ "=" +:+ text_of x) :: more else more)).
  rewrite Hs. by destruct (process_args (x :: args)).
Qed.

Lemma process_args_named pairs :
  Forall (fun p => exists s, p.2 = VStr s /\ startsWith "--" s = false) pairs ->
  process_args (named_args pairs) = Ok (map option_text pairs).
Proof.
  induction 1 as [|[n v] pairs (s & Hv & Hs) Hp IH]; [done|]. simpl in Hv. subst v.
  change (process_args (named_args ((n, VStr s) :: pairs))) with
    (more ← process_args (VStr s :: named_args pairs);
     Ok (if startsWith "--" ("--" +:+ n)
         then (substr_from 2 ("--" +:+ n) +:+ "=" +:+ text_of (VStr s)) :: more else more)).
  rewrite (process_args_skip _ _ Hs), IH. cbn [mbind outcome_bind]. by rewrite startsWith_dashes.
Qed.

(** The status shows the options of a service: for a service that was started
    as a daemon, whose values are strings that do not look like options, it
    prints [running] with every option and its value, in the order of the
    arguments. *)
Theorem running_shows_options {St N} `{ProcessManager N} (service : string) (pairs : list (string * jsval))
    (rest : list managed) (w : world St N event) :
  (pm_describe service (net w)).2 =
    (None, Some (mkManaged (VStr "start" :: VStr service :: named_args pairs) :: rest)) ->
  startsWith "--" service = false ->
  Forall (fun p => exists s, p.2 = VStr s /\ startsWith "--" s = false) pairs ->
  (running service w).2 = Ok (mkStatus Running VOk (VStr (join ", " (map option_text pairs)))).
Proof.
  intros Hd Hs Hp. unfold running, catch, describe, mbind, M_bind.
  destruct (pm_describe service (net w)) as [n' r]. simpl in Hd. subst r. cbn [fst snd pm2_args].
  enough (Hargs : processArgs (VStr "start" :: VStr service :: named_args pairs) = Ok (join ", " (map option_text pairs)))
    by (unfold lift; by rewrite Hargs).
  unfold processArgs. by rewrite !process_args_skip, (process_args_named _ Hp).
Qed.

(** ** Witnesses: an unreachable NEAR node and a running watchdog *)

#[local] Instance quiet_eth : EthNode unit := {|
  eth_setProvider _ n := n;
  eth_close := Some id;
  eth_getBlockNumber n := (n, inr 7);
  eth_getBlock _ n := (n, inr VNull);
  eth_getTransactionReceipt _ n := (n, inr VNull);
  eth_getGasPrice n := (n, inr 1);
  eth_getTransactionCount _ n := (n, inr 0);
  eth_call _ n := (n, inr tt);
  eth_sendTransaction _ n := (n, None)
|}.
#[local] Instance quiet_info : EthInfo unit := {|
  eth_defaultChain := "";
  eth_getProtocolVersion n := (n, inr "0x41");
  eth_getAccounts n := (n, inr ["0x5e"])
|}.
#[local] Instance quiet_files : Files unit := fun _ n => (n, inr []).
#[local] Instance no_fetch : Fetch unit := fun _ _ n => (n, inl (Error "ECONNREFUSED")).
#[local] Instance no_boo : BooCall unit := fun _ _ n => (n, inl (Error "Contract method is not found")).
#[local] Instance quiet_pairs : KeyPairs := fun _ => inr "key".
#[local] Instance quiet_keys : EthKeys := {| privateKeyToAddress sk := inr sk; parse_abi _ := inr tt |}.
#[local] Instance quiet_lib : ContractLib := {|
  web3_contract _ address := inr (mkContract address (fun m _ => inr m) (fun _ => inr ("", VNull)));
  BN_of _ := inr 0
|}.
#[local] Instance quiet_text : JsonText := fun _ => "{}".
Definition watchdog_pairs : list (string * jsval) := [("eth-node-url", VStr "ws://node"); ("daemon", VStr "false")].
Definition watchdog_process : managed :=
  mkManaged (VStr "start" :: VStr "bridge-watchdog" :: named_args watchdog_pairs).
#[local] Instance quiet_manager : ProcessManager unit := {|
  pm_connect n := (n, None);
  pm_describe name n := (n, (None, Some (if String.eqb name "bridge-watchdog" then [watchdog_process] else [])));
  pm_start _ _ _ n := (n, None);
  pm_delete _ n := (n, inr tt);
  pm_killDaemon n := (n, None);
  pm_disconnect n := (n, inr tt);
  execSync _ n := (n, inr "")
|}.
Definition quiet_world : world unit unit event := mkWorld tt tt [].
Definition quiet_args : near_args := mkNearArgs "local" "http://near" "node0" "sk" "client" "" "prover" "".
Definition quiet_import : gmap string string -> string -> M unit unit event bool :=
  fun _ _ => undefined_function "verifyAccountGently".
Definition quiet_status : world unit unit event * outcome unit :=
  StatusCommand quiet_import quiet_args "ws://node" "5e" quiet_world.

Lemma status_shows_unreachable_witness :
  quiet_status.2 = Ok tt /\
  exists (w1 : world unit unit event) s e v closed, trace quiet_status.1 = trace w1 ++ map EvPrint (report_lines s e v) ++ [EvProcess "disconnect" "" closed] /\
    ns_networkConnection s = Some (mkStatus (VStr "http://near") VError Unreachable) /\
    es_networkConnection e = Some (mkStatus (VStr "ws://node") VError Unreachable) /\
    near_contract_lines s = [("Contracts", None)] /\ eth_contract_lines e = [("Contracts", None)].
Proof.
  split; [vm_compute; reflexivity|].
  apply (status_shows_unreachable quiet_import quiet_args "ws://node" "5e" quiet_world quiet_status.1).
  - reflexivity.
  - reflexivity.
  - reflexivity.
  - reflexivity.
  - vm_compute. reflexivity.
Defined.

Lemma running_shows_options_witness :
  (running "bridge-watchdog" quiet_world).2
  = Ok (mkStatus Running VOk (VStr (join ", " (map option_text watchdog_pairs)))).
Proof.
  apply (running_shows_options "bridge-watchdog" watchdog_pairs [] quiet_world).
  - vm_compute. reflexivity.
  - reflexivity.
  - repeat constructor; eexists; split; reflexivity.
Defined.
