(* ===== verification/Dump.v ===== *)
(** * The dump commands: [cli/commands/near-dump.js] and [eth-dump.js]

    They save blocks and proofs of one chain as files. *)

From Stdlib Require Import Ascii Strings.Byte.
From stdpp Require Import base list strings gmap pretty.
From Stdlib Require Import ZArith Lia.
From S2P Require Import Prelude Js Borsh Borshify Effects Schemas Robust NearTx Eth2NearRelay Accounts InitContracts Cli.
From S2P Require Import TransferLog ToNear FromNear Adapter Status.
Local Open Scope Z_scope.

(** [a > b]: two strings are compared as strings, everything else as numbers. *)
Definition js_gt (a b : jsval) : bool :=
  match a, b with
  | VStr x, VStr y => String.ltb y x
  | _, _ => num_gt (js_Number a) (js_Number b)
  end.

(** [v[0]] *)
Definition js_first (v : jsval) : outcome jsval :=
  match v with
  | VUndef | VNull => Throw (TypeError "Cannot read property '0'")
  | VArr l => Ok (js_at l 0)
  | _ => Ok VUndef
  end.

(** [buffer.toString('hex')] *)
Definition hex_char (z : Z) : ascii := ascii_of_nat (Z.to_nat (if z <? 10 then 48 + z else 87 + z)).
Fixpoint hex_text (bs : list byte) : string :=
  match bs with
  | [] => ""
  | b :: bs => String (hex_char (Z_of_byte b / 16)) (String (hex_char (Z_of_byte b mod 16)) (hex_text bs))
  end.
Definition hex_of (v : jsval) : outcome jsval :=
  match v with
  | VBytes bs => Ok (VStr (hex_text bs))
  | VUndef | VNull => Throw (TypeError "Cannot read property 'toString'")
  | _ => Throw (TypeError "toString() radix argument must be between 2 and 36")
  end.

(** The body of a request to a NEAR node. *)
Definition rpc_body (method : string) (params : jsval) : jsval :=
  VObj [("jsonrpc", VStr "2.0"); ("id", VStr "dontcare"); ("method", VStr method); ("params", params)].

(** [Path.join(path, name)]; the option [--path] may not be given. *)
Definition dump_file (path : option string) (name : string) : outcome string :=
  match path with
  | Some path => Ok (path_join [path; name])
  | None => Throw (TypeError "The path argument must be of type string. Received undefined")
  end.

Section near_dump.
Context {St N : Type} `{Fetch N} `{SaveFiles N}.
Variable nearNodeUrl : string.
Abbreviation M := (M St N event).

(** A request and the field [result] of its answer. *)
Definition near_request (method : string) (params : jsval) : M jsval :=
  data ← rpc (fetch_json nearNodeUrl (rpc_body method params)) (EvFetch nearNodeUrl (rpc_body method params));
  lift (js_get data "result").

Definition getLatestBlock : M jsval := near_request "block" (VObj [("finality", VStr "final")]).
Definition getBlockChunk (block : jsval) : M jsval :=
  chunk ← lift (chunks ← js_get block "chunks"; first ← js_first chunks; js_get first "chunk_hash");
  near_request "chunk" (VArr [chunk]).
Definition getReceiptProof (futureBlock receipt : jsval) : M jsval :=
  params ← lift
    (id ← js_get receipt "receipt_id"; receiver ← js_get receipt "receiver_id";
     head ← js_path futureBlock ["header"; "hash"];
     Ok (VObj [("type", VStr "receipt"); ("receipt_id", id); ("receiver_id", receiver); ("light_client_head", head)]));
  near_request "light_client_proof" params.
Definition getNextLightClientBlock (blockHash : jsval) : M jsval :=
  near_request "next_light_client_block" (VArr [blockHash]).

Definition saveFile (path : option string) (name : string) (content : jsval) : M unit :=
  file ← lift (dump_file path name);
  rpc (save_file file content) (EvSaveFile file content).
Definition saveBlock (i block : jsval) (path : option string) : M unit :=
  saveFile path (text_of i +:+ ".json") block.
Definition saveProof (blockI : jsval) (type : string) (i : nat) (proof : jsval) (path : option string) : M unit :=
  saveFile path (text_of blockI +:+ "_" +:+ type +:+ "_" +:+ pretty i +:+ ".json") proof.

Definition block_height (block : jsval) : outcome jsval := js_path block ["header"; "height"].

(** [do {...} while (!block)] *)
Fixpoint next_block (fuel : nat) (hash : jsval) : M jsval :=
  match fuel with
  | O => out_of_fuel
  | S fuel => block ← getNextLightClientBlock hash; if js_truthy block then mret block else next_block fuel hash
  end.

(** The loop of [dumpHeaders]; [numBlocks] is the count that is left. *)
Fixpoint dump_headers_loop (fuel : nat) (path : option string) (latestBlock : jsval) (numBlocks : Z) : M unit :=
  match fuel with
  | O => out_of_fuel
  | S fuel =>
      if 0 <? numBlocks then
        newLatestBlock ← getLatestBlock;
        newHeight ← lift (block_height newLatestBlock);
        height ← lift (block_height latestBlock);
        if js_gt newHeight height then
          hash ← lift (js_path newLatestBlock ["header"; "hash"]);
          block ← next_block fuel hash;
          i ← lift (js_path block ["inner_lite"; "height"]);
          saveBlock i block path;;
          dump_headers_loop fuel path newLatestBlock (numBlocks - 1)
        else dump_headers_loop fuel path latestBlock numBlocks
      else mret tt
  end.
Definition near_dumpHeaders (fuel : nat) (path : option string) (latestBlock : jsval) (numBlocks : Z) : M unit :=
  lift (block_height latestBlock);; dump_headers_loop fuel path latestBlock numBlocks.

(** [for (const i in chunk.receipts)] *)
Fixpoint save_proofs (i : nat) (receipts : list jsval) (futureBlock height : jsval) (path : option string) : M unit :=
  match receipts with
  | [] => mret tt
  | receipt :: receipts =>
      proof ← getReceiptProof futureBlock receipt;
      saveProof height "receipt" i proof path;;
      save_proofs (S i) receipts futureBlock height path
  end.

Fixpoint dump_proofs_loop (fuel : nat) (path : option string) (latestBlock : jsval) (numBlocks : Z) : M unit :=
  match fuel with
  | O => out_of_fuel
  | S fuel =>
      if 0 <? numBlocks then
        newLatestBlock ← getLatestBlock;
        newHeight ← lift (block_height newLatestBlock);
        height ← lift (block_height latestBlock);
        if js_gt newHeight height then
          chunk ← getBlockChunk latestBlock;
          lift (t ← js_get chunk "transactions"; js_length t);;
          receipts ← lift (js_get chunk "receipts");
          lift (js_length receipts);;
          save_proofs 0 (default [] (js_elems receipts)) newLatestBlock height path;;
          dump_proofs_loop fuel path newLatestBlock (numBlocks - 1)
        else dump_proofs_loop fuel path latestBlock numBlocks
      else mret tt
  end.
Definition near_dumpProofs (fuel : nat) (path : option string) (latestBlock : jsval) (numBlocks : Z) : M unit :=
  lift (block_height latestBlock);; dump_proofs_loop fuel path latestBlock numBlocks.

(** [NearDump.execute]: a count that is not a number dumps nothing. *)
Definition NearDump (fuel : nat) (kindOfData : string) (path numBlocks : option string) : M unit :=
  if negb (String.eqb kindOfData "headers") && negb (String.eqb kindOfData "proofs") then exit 2
  else
    let n := match numBlocks with
      | Some s => if truthy s then default 0 (decimal s) else 100
      | None => 100
      end in
    latestBlock ← getLatestBlock;
    if String.eqb kindOfData "headers" then near_dumpHeaders fuel path latestBlock n
    else near_dumpProofs fuel path latestBlock n.
End near_dump.

(** ** [eth-dump.js] *)

(** [Number(s)] for a string of digits that may have a sign; [None] is [NaN]. *)
Definition signed_decimal (s : string) : option Z :=
  match s with
  | String "-" s' => if truthy s' then Z.opp <$> decimal s' else None
  | _ => decimal s
  end.

(** The first block that is dumped; an option that is not given is [None] or the
    empty string. *)
Definition start_block (startBlock : option string) (endBlock : Z) : option Z :=
  match startBlock with
  | Some s =>
      if truthy s then
        n ← signed_decimal s;
        Some (if n <? 0 then Z.max 0 (endBlock + n + 1) else n)
      else Some (Z.max 0 (endBlock - 43000 + 1))
  | None => Some (Z.max 0 (endBlock - 43000 + 1))
  end.

(** [for (let b = endBlock; b >= startBlock; b--)]: the blocks in order *)
Definition dump_range (startBlock endBlock : Z) : list Z :=
  map (fun k => endBlock - Z.of_nat k) (seq 0 (Z.to_nat (endBlock - startBlock + 1))).

Section eth_dump.
Context {St N : Type} `{Clock N} `{EthNode N} `{Shell N} `{SaveFiles N}.
Context `{EthObjects} `{RelayLib} `{HexUtils}.
Variable ethNodeUrl : string.
Abbreviation M := (M St N event).

(** [ETHDump.dumpHeaders] *)
Definition eth_dumpHeaders (b : Z) (path : option string) : M unit :=
  block ← rpc (eth_getBlock (VNum b)) (EvGetBlock (VNum b));
  rlp ← lift (web3BlockToRlp block);
  unparsedBlock ← ethashproof ("./eth2near/ethashproof/cmd/relayer/relayer " +:+ bytesToHex rlp
    +:+ " | sed -e '1,/Json output/d'");
  block ← lift (JSON_parse unparsedBlock);
  saveBlock (VNum b) block path.

(** The arguments of the prover for one log of a receipt. *)
Definition dump_args (log proof receipt : jsval) (logIndex : nat) : outcome jsval :=
  receiptIndex ← js_get proof "txIndex";
  logEntryData ← of_sum (log_serialize log);
  receiptData ← of_sum (receipt_serialize receipt);
  headerData ← js_get proof "header_rlp";
  nodes ← (p ← js_get proof "receiptProof"; iterate p);
  encoded ← mapM_out (fun node => of_sum (rlp_encode node)) nodes;
  headerHex ← hex_of headerData;
  Ok (VObj [("log_index", VNum (Z.of_nat logIndex)); ("log_entry_data", VStr (hex_text logEntryData));
    ("receipt_index", receiptIndex); ("receipt_data", VStr (hex_text receiptData));
    ("header_data", headerHex); ("proof", VArr (map (fun p => VStr (hex_text p)) encoded));
    ("skip_bridge_call", VBool false)]).

Fixpoint dump_logs (b : Z) (logIndex : nat) (logs : list jsval) (proof receipt : jsval) (path : option string) : M unit :=
  match logs with
  | [] => mret tt
  | log :: logs =>
      args ← lift (dump_args log proof receipt logIndex);
      receiptIndex ← lift (js_get proof "txIndex");
      saveFile path (pretty b +:+ "_" +:+ text_of receiptIndex +:+ "_" +:+ pretty logIndex +:+ ".json") args;;
      dump_logs b (S logIndex) logs proof receipt path
  end.

Definition dump_transaction (b : Z) (path : option string) (txHash : jsval) : M unit :=
  receipt ← extractReceipt ethNodeUrl txHash;
  logs ← lift (js_get receipt "logs");
  n ← lift (js_length logs);
  if bool_decide (n = Some 0%nat) then mret tt
  else
    blockNumber ← lift (js_get receipt "blockNumber");
    block ← extractBlock ethNodeUrl blockNumber;
    tree ← buildTrie ethNodeUrl block;
    transactionIndex ← lift (js_get receipt "transactionIndex");
    proof ← extractProof block tree transactionIndex;
    l ← lift (iterate logs);
    dump_logs b 0 l proof receipt path.

(** [ETHDump.dumpProofs] *)
Definition eth_dumpProofs (b : Z) (path : option string) : M unit :=
  block ← rpc (eth_getBlock (VNum b)) (EvGetBlock (VNum b));
  transactions ← lift (t ← js_get block "transactions"; iterate t);
  mapM_M (dump_transaction b path) transactions;;
  mret tt.

(** The body of [ETHDump.execute] after the constructor of [web3]. *)
Definition eth_dump (kindOfData : string) (path startBlock endBlock : option string) : M unit :=
  if negb (String.eqb kindOfData "headers") && negb (String.eqb kindOfData "proofs") then exit 2
  else
    endBlock ←
      (if match endBlock with Some s => truthy s | None => false end
       then mret (signed_decimal (default "" endBlock))
       else n ← rpc eth_getBlockNumber EvGetBlockNumber; mret (Some n));
    let range := match endBlock with
      | Some e => match start_block startBlock e with Some s => dump_range s e | None => [] end
      | None => []
      end in
    mapM_M (fun b => if String.eqb kindOfData "headers" then eth_dumpHeaders b path else eth_dumpProofs b path) range;;
    catch close (fun _ => mret tt);;
    destroy.

(** [const Web3 = require('rainbow-bridge-utils')] is the object of everything
    that the package exports, not its [Web3]: [new Web3(ethNodeUrl)] throws. *)
Definition new_Web3 : M unit := throw (TypeError "Web3 is not a constructor").
Definition ETHDump (kindOfData : string) (path startBlock endBlock : option string) : M unit :=
  new_Web3;; eth_dump kindOfData path startBlock endBlock.
End eth_dump.
