(* ===== verification/DumpTheorems.v ===== *)
(** * Theorems about the dump commands *)

From Stdlib Require Import Ascii Strings.Byte.
From stdpp Require Import base list strings gmap pretty.
From Stdlib Require Import ZArith Lia.
From S2P Require Import Prelude Js Borsh Borshify Effects Schemas Robust NearTx Traces Eth2NearRelay Accounts InitContracts Cli.
From S2P Require Import TransferLog ToNear FromNear Adapter Status Dump.
Local Open Scope Z_scope.

(** ** The range of blocks *)

Lemma dump_range_elem s e b : b ∈ dump_range s e <-> s <= b <= e.
Proof.
  unfold dump_range. rewrite list_elem_of_fmap. split.
  - intros (k & -> & [_ Hk]%elem_of_seq). lia.
  - intros Hb. exists (Z.to_nat (e - b)). split; [lia|]. apply elem_of_seq. lia.
Qed.

(** The range of [eth-dump]: for a last block that is not negative, the blocks
    that are dumped are exactly those from the first to the last, none is
    negative, each is dumped once; without a first block there are at most 43000
    of them, and with a negative one, at most that many. *)
Theorem dump_range_bounds (startBlock : option string) (endBlock first : Z) :
  0 <= endBlock -> start_block startBlock endBlock = Some first ->
  NoDup (dump_range first endBlock) /\
  (forall b, b ∈ dump_range first endBlock <-> first <= b <= endBlock) /\
  0 <= first /\
  (default "" startBlock = "" -> Z.of_nat (length (dump_range first endBlock)) = Z.min (endBlock + 1) 43000) /\
  (forall n, signed_decimal (default "" startBlock) = Some n -> n < 0 ->
     Z.of_nat (length (dump_range first endBlock)) = Z.min (endBlock + 1) (- n)).
Proof.
  intros He Hs.
  assert (Hlen : Z.of_nat (length (dump_range first endBlock)) = Z.max 0 (endBlock - first + 1)).
  { unfold dump_range. rewrite length_map, length_seq. lia. }
  assert (Hfirst : 0 <= first /\ (default "" startBlock = "" -> first = Z.max 0 (endBlock - 43000 + 1)) /\
    (forall n, signed_decimal (default "" startBlock) = Some n -> n < 0 -> first = Z.max 0 (endBlock + n + 1))).
  { unfold start_block in Hs. destruct startBlock as [s|]; simpl in *.
    - destruct (truthy s) eqn:Et.
      + apply bind_Some in Hs as (n & Hn & [= <-]). rewrite Hn. split_and!.
        * destruct (Z.ltb_spec n 0); lia.
        * intros ->. done.
        * intros n' [= <-] Hneg. by rewrite (proj2 (Z.ltb_lt _ _) Hneg).
      + injection Hs as <-. apply negb_false_iff, String.eqb_eq in Et. subst s.
        split_and!; [lia|done|]. intros n [= <-]. lia.
    - injection Hs as <-. split_and!; [lia|done|]. intros n [= <-]. lia. }
  destruct Hfirst as (H0 & Hdef & Hneg). split_and!; [|apply dump_range_elem|done| |].
  - apply (NoDup_fmap_2_strong _ _); [|apply NoDup_seq]. intros x y _ _ Hxy. lia.
  - intros Hd. rewrite Hlen, (Hdef Hd). lia.
  - intros n Hn Hlt. rewrite Hlen, (Hneg n Hn Hlt). lia.
Qed.

Lemma dump_range_bounds_witness :
  start_block (Some "-3") 10 = Some 8 /\
  (NoDup (dump_range 8 10) /\
   (forall b, b ∈ dump_range 8 10 <-> 8 <= b <= 10) /\
   0 <= 8 /\
   (default "" (Some "-3") = "" -> Z.of_nat (length (dump_range 8 10)) = Z.min (10 + 1) 43000) /\
   (forall n, signed_decimal (default "" (Some "-3")) = Some n -> n < 0 ->
     Z.of_nat (length (dump_range 8 10)) = Z.min (10 + 1) (- n))).
Proof. split; [reflexivity|]. apply (dump_range_bounds (Some "-3") 10 8); [lia|reflexivity]. Defined.

(** ** The files of [near-dump] *)

(** The files that were saved. *)
Definition saves (tr : list event) : list (string * jsval) :=
  omap (fun ev => match ev with EvSaveFile f c (inr _) => Some (f, c) | _ => None end) tr.
(** The heights of the heads that the node answered with, in order. *)
Definition head_height (ev : event) : option jsval :=
  match ev with
  | EvFetch _ body (inr data) =>
      if strict_eq (field "method" body) (VStr "block") then
        match (r ← js_get data "result"; block_height r) with Ok h => Some h | _ => None end
      else None
  | _ => None
  end.

(** [climbs h tr]: from a head of height [h], every file is saved after the head
    has become higher than the one before the last file. *)
Fixpoint climbs (last : jsval) (seen : option jsval) (tr : list event) : Prop :=
  match tr with
  | [] => True
  | EvSaveFile _ _ (inr _) :: tr => exists h, seen = Some h /\ js_gt h last = true /\ climbs h None tr
  | ev :: tr => climbs last (match head_height ev with Some h => Some h | None => seen end) tr
  end.

(** Requests for something else than a head. *)
Definition dull (ev : event) : Prop :=
  match ev with EvFetch _ body _ => strict_eq (field "method" body) (VStr "block") = false | _ => False end.
Lemma climbs_dull last seen tr tr' : Forall dull tr -> climbs last seen tr' -> climbs last seen (tr ++ tr').
Proof.
  intros Htr Hc. induction Htr as [|ev tr Hev _ IH]; [done|].
  destruct ev; try done. simpl in Hev |- *. destruct r; [exact IH|]. rewrite Hev. exact IH.
Qed.
Lemma saves_dull tr : Forall dull tr -> saves tr = [].
Proof. induction 1 as [|ev tr Hev _ IH]; [done|]. by destruct ev. Qed.

Section near_dump.
Context {St N : Type} `{Fetch N} `{SaveFiles N}.
Variable url : string.
Abbreviation M := (M St N event).

Lemma request_ok method params (w w' : world St N event) r :
  near_request url method params w = (w', Ok r) ->
  exists data, trace w' = trace w ++ [EvFetch url (rpc_body method params) (inr data)] /\ js_get data "result" = Ok r.
Proof.
  unfold near_request. intros (data & w1 & [n ->]%rpc_ok & Hr)%bind_ok. injection Hr as <- Hr. by exists data.
Qed.

Lemma next_block_ok fuel hash : forall (w w' : world St N event) b, next_block url fuel hash w = (w', Ok b) ->
  js_truthy b = true /\ exists tr, trace w' = trace w ++ tr /\ Forall dull tr.
Proof.
  induction fuel as [|fuel IH]; intros w w' b; cbn [next_block]; [done|].
  intros (x & w1 & (data & Ht & _)%request_ok & Hr)%bind_ok. destruct (js_truthy x) eqn:Ex.
  - injection Hr as <- <-. split; [done|]. eexists. split; [exact Ht|]. by repeat constructor.
  - destruct (IH _ _ _ Hr) as (Hb & tr & Ht' & Hd). split; [done|]. eexists. split.
    + rewrite Ht', Ht, <- app_assoc. reflexivity.
    + by constructor.
Qed.

Lemma save_ok path name content (w w' : world St N event) : saveFile path name content w = (w', Ok tt) ->
  exists file, dump_file path name = Ok file /\ trace w' = trace w ++ [EvSaveFile file content (inr tt)].
Proof.
  unfold saveFile. intros (file & w1 & Hf & [n ->]%rpc_ok)%bind_ok. injection Hf as <- Hf. by exists file.
Qed.

Lemma dump_headers_ok path fuel : forall latest n last (w w' : world St N event),
  block_height latest = Ok last -> dump_headers_loop url fuel path latest n w = (w', Ok tt) ->
  exists tr, trace w' = trace w ++ tr /\ length (saves tr) = Z.to_nat n /\ forall seen, climbs last seen tr.
Proof.
  induction fuel as [|fuel IH]; intros latest n last w w' Hl; cbn [dump_headers_loop]; [done|].
  destruct (Z.ltb_spec 0 n) as [Hn|Hn].
  2:{ intros [= <-]. exists []. rewrite app_nil_r. split_and!; [done| |done]. simpl. lia. }
  intros (new & w1 & (data & Ht & Hd)%request_ok & Hr)%bind_ok.
  apply bind_ok in Hr as (h & w2 & Hh & Hr). injection Hh as <- Hh.
  rewrite Hl in Hr. apply bind_ok in Hr as (h' & w3 & Hh' & Hr). injection Hh' as <- <-.
  assert (Hseen : head_height (EvFetch url (rpc_body "block" (VObj [("finality", VStr "final")])) (inr data)) = Some h).
  { simpl. rewrite Hd. cbn [mbind outcome_bind]. by rewrite Hh. }
  destruct (js_gt h last) eqn:Eg.
  - apply bind_ok in Hr as (hash & w4 & Ha & Hr). injection Ha as <- _.
    apply bind_ok in Hr as (b & w5 & (_ & trb & Htb & Hdull)%next_block_ok & Hr).
    apply bind_ok in Hr as (i & w6 & Hi & Hr). injection Hi as <- _.
    apply bind_ok in Hr as ([] & w7 & (file & _ & Hts)%save_ok & Hr).
    destruct (IH _ _ _ _ _ Hh Hr) as (tr & Htr & Hlen & Hc).
    exists ([EvFetch url (rpc_body "block" (VObj [("finality", VStr "final")])) (inr data)] ++ trb ++
      [EvSaveFile file b (inr tt)] ++ tr). split_and!.
    + rewrite Htr, Hts, Htb, Ht, <- !app_assoc. done.
    + unfold saves in *. rewrite !omap_app, !length_app, Hlen.
      fold (saves trb). rewrite (saves_dull trb Hdull). simpl. lia.
    + intros seen. cbn [app climbs]. rewrite Hseen. apply climbs_dull; [done|]. by exists h.
  - destruct (IH _ _ _ _ _ Hl Hr) as (tr & Htr & Hlen & Hc).
    exists (EvFetch url (rpc_body "block" (VObj [("finality", VStr "final")])) (inr data) :: tr). split_and!.
    + by rewrite Htr, Ht, <- app_assoc.
    + done.
    + intros seen. cbn [climbs]. apply Hc.
Qed.
End near_dump.

(** When [near-dump headers] returns it has saved the number of blocks it was
    asked for, one hundred by default, and between two files the last final
    block of the node has become higher. *)
Theorem near_dump_headers_complete {St N} `{Fetch N} `{SaveFiles N} (nearNodeUrl : string) (fuel : nat)
    (path numBlocks : option string) (w w' : world St N event) :
  NearDump nearNodeUrl fuel "headers" path numBlocks w = (w', Ok tt) ->
  exists first last tr, trace w' = trace w ++ first :: tr /\ head_height first = Some last /\
    climbs last None tr /\
    (default "" numBlocks = "" -> length (saves tr) = 100%nat) /\
    (forall n, decimal (default "" numBlocks) = Some n -> default "" numBlocks <> "" -> length (saves tr) = Z.to_nat n).
Proof.
  unfold NearDump. cbn [String.eqb Ascii.eqb eqb negb andb].
  intros (latest & w1 & (data & Ht & Hd)%request_ok & Hr)%bind_ok. unfold near_dumpHeaders in Hr.
  apply bind_ok in Hr as (last & w2 & Hl & Hr). injection Hl as <- Hl.
  destruct (dump_headers_ok _ _ _ _ _ _ _ _ Hl Hr) as (tr & Htr & Hlen & Hc).
  eexists _, last, tr. split_and!.
  - rewrite Htr, Ht, <- app_assoc. reflexivity.
  - simpl. rewrite Hd. cbn [mbind outcome_bind]. by rewrite Hl.
  - apply Hc.
  - intros He. rewrite Hlen. destruct numBlocks as [s|]; simpl in *; [by subst s|done].
  - intros n Hn Hne. rewrite Hlen. destruct numBlocks as [s|]; simpl in *; [|done].
    unfold truthy. rewrite (proj2 (String.eqb_neq _ _) Hne). simpl. by rewrite Hn.
Qed.

(** *** The dump ends *)

(** A node whose head advances: [patience n last] bounds the number of requests
    until it answers with a head above [last]; it is at most [P] when [last] is
    the head that was just answered.  The node answers requests for a light
    client block at once, and files can be saved. *)
Record node_advances {N} `{Fetch N} `{SaveFiles N} (url : string) (patience : N -> Z -> nat) (P : nat) : Prop := {
  na_block n : exists n' data r h hash,
    fetch_json url (rpc_body "block" (VObj [("finality", VStr "final")])) n = (n', inr data) /\
    js_get data "result" = Ok r /\ block_height r = Ok (VNum h) /\ js_path r ["header"; "hash"] = Ok hash /\
    (patience n' h <= P)%nat /\ forall last, h <= last -> (patience n' last < patience n last)%nat;
  na_next n hash : exists n' data r i,
    fetch_json url (rpc_body "next_light_client_block" (VArr [hash])) n = (n', inr data) /\
    js_get data "result" = Ok r /\ js_truthy r = true /\ js_path r ["inner_lite"; "height"] = Ok i /\
    forall last, (patience n' last <= patience n last)%nat;
  na_save file content n : exists n', save_file file content n = (n', inr tt) /\
    forall last, (patience n' last <= patience n last)%nat
}.

Section returns.
Context {St N : Type} `{Fetch N} `{SaveFiles N}.
Variables (url path : string) (patience : N -> Z -> nat) (P : nat).
Hypothesis advances : node_advances url patience P.

Lemma request_run method params (w : world St N event) n' data r :
  fetch_json url (rpc_body method params) (net w) = (n', inr data) -> js_get data "result" = Ok r ->
  near_request url method params w =
    (mkWorld (store w) n' (trace w ++ [EvFetch url (rpc_body method params) (inr data)]), Ok r).
Proof.
  intros Hf Hr. unfold near_request. erewrite bind_run by (apply rpc_run; exact Hf). unfold lift. by rewrite Hr.
Qed.

Lemma next_block_returns fuel hash (w : world St N event) : (0 < fuel)%nat ->
  exists w' r i, next_block url fuel hash w = (w', Ok r) /\ js_path r ["inner_lite"; "height"] = Ok i /\
    forall last, (patience (net w') last <= patience (net w) last)%nat.
Proof.
  destruct fuel as [|fuel]; [lia|]. intros _.
  destruct (na_next _ _ _ advances (net w) hash) as (n' & data & r & i & Hf & Hr & Ht & Hi & Hp).
  cbn [next_block]. unfold getNextLightClientBlock. erewrite bind_run by (eapply request_run; [exact Hf|exact Hr]).
  rewrite Ht. by eexists _, r, i.
Qed.

Lemma saveBlock_returns i block (w : world St N event) : exists w',
  saveBlock i block (Some path) w = (w', Ok tt) /\ forall last, (patience (net w') last <= patience (net w) last)%nat.
Proof.
  unfold saveBlock, saveFile. erewrite bind_run by reflexivity.
  destruct (na_save _ _ _ advances (path_join [path; text_of i +:+ ".json"]) block (net w)) as (n' & Hs & Hp).
  eexists. split; [by apply rpc_run|done].
Qed.

(** One round: a file is saved, or the patience of the node gets less. *)
Lemma dump_round fuel latest last k (w : world St N event) :
  block_height latest = Ok (VNum last) -> 0 < k -> (0 < fuel)%nat ->
  (exists w1 new h, block_height new = Ok (VNum h) /\ (patience (net w1) h <= P)%nat /\
     dump_headers_loop url (S fuel) (Some path) latest k w = dump_headers_loop url fuel (Some path) new (k - 1) w1) \/
  (exists w1, (patience (net w1) last < patience (net w) last)%nat /\
     dump_headers_loop url (S fuel) (Some path) latest k w = dump_headers_loop url fuel (Some path) latest k w1).
Proof.
  intros Hl Hk Hfuel. cbn [dump_headers_loop]. rewrite (proj2 (Z.ltb_lt 0 k) Hk).
  destruct (na_block _ _ _ advances (net w)) as (n' & data & new & h & hash & Hf & Hr & Hh & Hhash & HP & Hp).
  unfold getLatestBlock. erewrite bind_run by (eapply request_run; [exact Hf|exact Hr]).
  erewrite bind_run by (unfold lift; by rewrite Hh). erewrite bind_run by (unfold lift; by rewrite Hl).
  change (js_gt (VNum h) (VNum last)) with (last <? h). destruct (Z.ltb_spec last h) as [Hlt|Hge].
  - left. erewrite bind_run by (unfold lift; by rewrite Hhash).
    match goal with |- context [(next_block url fuel hash ≫= _) ?w1] =>
      destruct (next_block_returns fuel hash w1 Hfuel) as (w2 & r & i & Hn & Hi & Hp2) end.
    erewrite bind_run by exact Hn. erewrite bind_run by (unfold lift; by rewrite Hi).
    destruct (saveBlock_returns i r w2) as (w3 & Hs & Hp3). exists w3, new, h. split; [done|].
    split; [specialize (Hp2 h); specialize (Hp3 h); simpl in Hp2; lia|]. by erewrite bind_run by exact Hs.
  - right. eexists. split; [|reflexivity]. by apply Hp.
Qed.

Lemma dump_headers_returns fuel : forall latest last k (w : world St N event),
  block_height latest = Ok (VNum last) ->
  (0 < fuel)%nat -> (0 < k -> (patience (net w) last + 2 + (Z.to_nat k - 1) * (P + 1) <= fuel)%nat) ->
  exists w', dump_headers_loop url fuel (Some path) latest k w = (w', Ok tt).
Proof.
  induction fuel as [|fuel IH]; intros latest last k w Hl Hf Hk; [lia|].
  destruct (Z.ltb_spec 0 k) as [Hpos|Hneg].
  2:{ cbn [dump_headers_loop]. rewrite (proj2 (Z.ltb_ge 0 k) Hneg). by eexists. }
  specialize (Hk Hpos). pose proof (Nat.le_0_l ((Z.to_nat k - 1) * (P + 1))) as Hnn.
  destruct (dump_round fuel latest last k w Hl Hpos ltac:(lia)) as [(w1 & new & h & Hh & HP & ->)|(w1 & Hp & ->)].
  - apply (IH new h); [done|lia|]. intros Hk'. clear Hnn.
    replace (Z.to_nat k - 1)%nat with (S (Z.to_nat (k - 1) - 1))%nat in Hk by lia.
    rewrite Nat.mul_succ_l in Hk. lia.
  - apply (IH latest last); [done|lia|]. intros _. lia.
Qed.
End returns.

(** [near-dump headers] ends.  When the node's head advances within [P]
    requests, the command returns after at most [P + 1] rounds for each block it
    was asked for; it has then saved exactly that number of light client blocks,
    and between two of them the last final block has become higher. *)
Theorem near_dump_headers_returns {St N} `{Fetch N} `{SaveFiles N} (nearNodeUrl path count : string)
    (patience : N -> Z -> nat) (P fuel : nat) (k : Z) (w : world St N event) :
  node_advances nearNodeUrl patience P -> count <> "" -> decimal count = Some k ->
  (Z.to_nat k * (P + 1) + 1 <= fuel)%nat ->
  exists w' first last tr, NearDump nearNodeUrl fuel "headers" (Some path) (Some count) w = (w', Ok tt) /\
    trace w' = trace w ++ first :: tr /\ head_height first = Some last /\
    length (saves tr) = Z.to_nat k /\ climbs last None tr.
Proof.
  intros Hadv Hne Hk Hfuel. unfold NearDump. cbn [String.eqb Ascii.eqb eqb negb andb].
  unfold truthy. rewrite (proj2 (String.eqb_neq _ _) Hne), Hk. simpl.
  destruct (na_block _ _ _ Hadv (net w)) as (n' & data & latest & h & hash & Hf & Hr & Hh & _ & HP & _).
  unfold getLatestBlock. erewrite bind_run by (eapply request_run; [exact Hf|exact Hr]).
  unfold near_dumpHeaders. erewrite bind_run by (unfold lift; by rewrite Hh).
  match goal with |- context [dump_headers_loop _ _ _ _ _ ?w1] =>
    destruct (dump_headers_returns nearNodeUrl path patience P Hadv fuel latest h k w1 Hh) as [w' Hrun] end.
  - lia.
  - intros Hpos. simpl. replace (Z.to_nat k) with (S (Z.to_nat k - 1))%nat in Hfuel by lia.
    rewrite Nat.mul_succ_l in Hfuel. lia.
  - destruct (dump_headers_ok _ _ _ _ _ _ _ _ Hh Hrun) as (tr & Htr & Hlen & Hc).
    eexists w', _, (VNum h), tr. split; [done|]. split; [rewrite Htr; simpl; rewrite <- app_assoc; reflexivity|].
    split_and!; [|done|done]. simpl. rewrite Hr. cbn [mbind outcome_bind]. by rewrite Hh.
Qed.

(** A node whose head climbs with every request. *)
#[local] Instance climbing_node : Fetch Z := fun _ body n =>
  if strict_eq (field "method" body) (VStr "block")
  then (n + 1, inr (VObj [("result", VObj [("header", VObj [("height", VNum n); ("hash", VStr "h")])])]))
  else (n, inr (VObj [("result", VObj [("inner_lite", VObj [("height", VNum n)])])])).
#[local] Instance open_disk : SaveFiles Z := fun _ _ n => (n, inr tt).
Definition climbing_world : world unit Z event := mkWorld tt 5 [].
Definition two_blocks : world unit Z event * outcome unit :=
  NearDump "http://near" 5 "headers" (Some "/tmp/dump") (Some "2") climbing_world.

Lemma near_dump_headers_complete_witness :
  saves (trace two_blocks.1) = [("/tmp/dump/7.json", VObj [("inner_lite", VObj [("height", VNum 7)])]);
                                ("/tmp/dump/8.json", VObj [("inner_lite", VObj [("height", VNum 8)])])] /\
  exists first last tr, trace two_blocks.1 = [] ++ first :: tr /\ head_height first = Some last /\
    climbs last None tr /\
    (default "" (Some "2") = "" -> length (saves tr) = 100%nat) /\
    (forall n, decimal (default "" (Some "2")) = Some n -> default "" (Some "2") <> "" -> length (saves tr) = Z.to_nat n).
Proof.
  split; [vm_compute; reflexivity|].
  apply (near_dump_headers_complete "http://near" 5 (Some "/tmp/dump") (Some "2") climbing_world two_blocks.1).
  vm_compute. reflexivity.
Defined.


(** This node needs as many requests as its head is behind. *)
Lemma climbing_advances : node_advances "http://near" (fun n last => Z.to_nat (last + 1 - n)) 1.
Proof.
  split.
  - intros n. eexists (n + 1), _, _, n, _. split_and!; try reflexivity; [lia|]. intros last Hl. lia.
  - intros n hash. eexists n, _, _, _. by split_and!.
  - intros file content n. by exists n.
Qed.

Lemma near_dump_headers_returns_witness :
  exists w' first last tr, NearDump "http://near" 5 "headers" (Some "/tmp/dump") (Some "2") climbing_world = (w', Ok tt) /\
    trace w' = [] ++ first :: tr /\ head_height first = Some last /\
    length (saves tr) = Z.to_nat 2 /\ climbs last None tr.
Proof.
  apply (near_dump_headers_returns "http://near" "/tmp/dump" "2" _ 1 5 2 climbing_world climbing_advances);
    [done|reflexivity|simpl; lia].
Defined.

(** ** The saved proofs of [eth-dump] *)

(** The argument of [deposit] with its byte strings in hexadecimal. *)
Definition hex_bytes (v : jsval) : jsval := match v with VBytes bs => VStr (hex_text bs) | _ => v end.
Definition hexed (pl : jsval) : jsval :=
  VObj [("log_index", field "log_index" pl); ("log_entry_data", hex_bytes (field "log_entry_data" pl));
    ("receipt_index", field "receipt_index" pl); ("receipt_data", hex_bytes (field "receipt_data" pl));
    ("header_data", hex_bytes (field "header_data" pl));
    ("proof", match field "proof" pl with VArr l => VArr (map hex_bytes l) | v => v end);
    ("skip_bridge_call", VBool false)].

Lemma hex_char_inj x y : 0 <= x < 16 -> 0 <= y < 16 -> hex_char x = hex_char y -> x = y.
Proof.
  intros Hx Hy Heq%(f_equal nat_of_ascii). unfold hex_char in Heq.
  rewrite !nat_ascii_embedding in Heq by (repeat case_match; lia). repeat case_match; lia.
Qed.
(** The hexadecimal text determines the bytes. *)
Lemma hex_text_inj bs bs' : hex_text bs = hex_text bs' -> bs = bs'.
Proof.
  revert bs'. induction bs as [|b bs IH]; intros [|b' bs']; try done.
  cbn [hex_text]. intros Heq. injection Heq as H1 H2 H3.
  pose proof (Z_of_byte_range b). pose proof (Z_of_byte_range b').
  apply hex_char_inj in H1; [|split; [apply Z.div_pos; lia|apply Z.div_lt_upper_bound; lia]..].
  apply hex_char_inj in H2; [|apply Z.mod_pos_bound; lia..].
  rewrite (IH _ H3). f_equal. rewrite <- (byte_of_Z_of_byte b), <- (byte_of_Z_of_byte b'). f_equal.
  rewrite (Z.div_mod (Z_of_byte b) 16), (Z.div_mod (Z_of_byte b') 16) by lia. congruence.
Qed.

(** The proof that [eth-dump proofs] saves for a log is the argument of
    [deposit] that a transfer makes for that log, with every byte string in
    hexadecimal. *)
Theorem dump_args_same_proof `{EthObjects} (log proof receipt : jsval) (logIndex : nat) (args : jsval) :
  dump_args log proof receipt logIndex = Ok args ->
  exists pl, proof_locker log proof receipt (VNum (Z.of_nat logIndex)) = Ok pl /\ args = hexed pl.
Proof.
  unfold dump_args, proof_locker.
  intros (ri & Hri & (le & Hle & (rd & Hrd & (hd & Hhd & Hr)%obind_ok)%obind_ok)%obind_ok)%obind_ok.
  apply obind_ok in Hr as (nodes & Hnodes & (enc & Henc & (hh & Hhh & Ha)%obind_ok)%obind_ok).
  injection Ha as <-. destruct hd as [| | | | | |bs| |]; try done. injection Hhh as <-.
  rewrite Hle, Hri, Hrd. cbn [mbind outcome_bind].
  rewrite Hhd. cbn [mbind outcome_bind]. rewrite Hnodes. cbn [mbind outcome_bind]. rewrite Henc. cbn [mbind outcome_bind].
  eexists. split; [reflexivity|]. unfold hexed. cbn. by rewrite map_map.
Qed.

#[local] Instance tiny_objects : EthObjects := {|
  receipt_serialize _ := inr [x0a];
  log_serialize _ := inr [x0b];
  header_serialize _ := inr [x0c];
  encode_index _ := inr [x00];
  trie_findPath _ _ := inr (VArr []);
  Proof_fromStack _ := inr (VArr [VBytes [x0d]]);
  rlp_encode v := match v with VBytes bs => inr bs | _ => inl (TypeError "rlp") end
|}.
Definition tiny_proof : jsval :=
  VObj [("header_rlp", VBytes [xf9; x0c]); ("receiptProof", VArr [VBytes [x0d]]); ("txIndex", VNum 0)].
Definition tiny_args : jsval :=
  VObj [("log_index", VNum 2); ("log_entry_data", VStr "0b"); ("receipt_index", VNum 0); ("receipt_data", VStr "0a");
        ("header_data", VStr "f90c"); ("proof", VArr [VStr "0d"]); ("skip_bridge_call", VBool false)].

Lemma dump_args_same_proof_witness :
  exists pl, proof_locker VNull tiny_proof VNull (VNum 2) = Ok pl /\ tiny_args = hexed pl.
Proof. apply (dump_args_same_proof VNull tiny_proof VNull 2 tiny_args). vm_compute. reflexivity. Defined.
