(* ===== verification/FromNearSpec.v ===== *)
(** * What a transfer from NEAR may do, and that it does only that

    An automaton over the events of a withdrawal.  It remembers the content of
    the log and the last answers of the two chains; it says which transaction may
    be signed or sent and which result may be recorded at which stage. *)

From Stdlib Require Import Ascii Strings.Byte.
From stdpp Require Import base list strings gmap.
From Stdlib Require Import ZArith Lia.
From S2P Require Import Prelude Js Borsh Borshify Effects Schemas Robust NearTx NearTxSpec Traces.
From S2P Require Import Near2EthRelay Accounts InitContracts TransferLog ToNear TransferSpec FromNear.
Local Open Scope Z_scope.

Record fnst := mkFn {
  fs_log : option jsval;
  (** the last successful NEAR transaction *)
  fs_tx : option txresult;
  (** the block of the receipt, with its hash, and the last final block *)
  fs_receipt : option (jsval * jsval);
  fs_final : option jsval;
  (** the last state of the light client, and the last hash it gave, with the
      height it was asked for *)
  fs_client : option jsval;
  fs_hash : option (list jsval * jsval);
  (** the last proof, with the parameters it was asked for *)
  fs_proof : option (jsval * jsval);
  (** what the prover contract accepted *)
  fs_proved : option (list jsval);
  fs_plain : bool;
  fs_done : bool
}.

(** Answers are remembered, errors are not. *)
Definition answer {A} (r : exn + A) : option A := match r with inr a => Some a | inl _ => None end.

Section spec.
Context {St N actions : Type} `{Clock N} `{EthNode N} `{EthContracts N} `{NearNode N actions} `{KeySlot St}.
Context `{NearAccounts N} `{NearQueries N} `{Files N} `{Disk N} `{LogSlot St} `{!LogLaws St} `{BNJson} `{JsonText}.
Context `{Web3Utils} `{KeyPairs} `{EthKeys} `{ContractLib} `{BNLib} `{EncLib} `{HashLib}.
Variable o : from_near_opts.
Abbreviation M := (M St N event).

(** The unlock of the tokens, sent from the master account. *)
Definition is_unlock (tx : ethtx) (args : list jsval) : Prop :=
  privateKeyToAddress (normalizeEthKey (fn_ethMasterSk o)) = inr (tx_from tx) /\
  exists abi c, web3_contract abi (fn_lockerAddress o) = inr c /\ tx_to tx = c_address c /\
    c_encodeABI c "unlockToken" args = inr (tx_data tx).

(** A call of a contract that the automaton remembers. *)
Definition asks (address method a m : string) : bool := String.eqb address a && String.eqb method m.

Definition fn_update (g : fnst) (ev : event) : fnst :=
  let '(mkFn log tx rc fb cl hs pf pd pl dn) := g in
  match ev with
  | EvWriteLog obj (inr _) => mkFn (Some (json_image obj)) None None None None None None None (pl && plain obj) dn
  | EvTxStatus _ (inr res) =>
      mkFn log (if bool_decide (SuccessValue res <> None) then Some res else tx) rc fb cl hs pf pd pl dn
  | EvNearHeader (Some h) r => mkFn log tx (b ← answer r; Some (h, b)) fb cl hs pf pd pl dn
  | EvNearHeader None r => mkFn log tx rc (answer r) cl hs pf pd pl dn
  | EvView address method args r =>
      if asks address method (fn_clientAddress o) "bridgeState" then
        mkFn log tx rc fb (answer r) hs pf pd pl dn
      else if asks address method (fn_clientAddress o) "blockHashes" then
        mkFn log tx rc fb cl (h ← answer r; Some (args, h)) pf pd pl dn
      else if asks address method (fn_proverAddress o) "proveOutcome" then
        mkFn log tx rc fb cl hs pf (answer r;; Some args) pl dn
      else g
  | EvLightClientProof params r => mkFn log tx rc fb cl hs (p ← answer r; Some (params, p)) pd pl dn
  | EvSend _ r => mkFn log tx rc fb cl hs pf pd pl (dn || bool_decide (answer r <> None))
  | _ => g
  end.

(** The result of a stage that may be recorded. *)
Definition withdrawn (g : fnst) (obj : jsval) : Prop :=
  exists res, fs_tx g = Some res /\ SuccessValue res <> None /\ field "txWithdraw" obj = tx_json res.

Definition outcome_found (g : fnst) (log obj : jsval) : Prop :=
  exists receiptBlock h h0,
    withdraw_receipt (field "txWithdraw" log) = Ok (field "txReceiptId" obj, field "txReceiptBlockHash" obj) /\
    fs_receipt g = Some (field "txReceiptBlockHash" obj, receiptBlock) /\
    fs_final g = Some (field "outcomeBlock" obj) /\
    header_height receiptBlock = Ok h0 /\ header_height (field "outcomeBlock" obj) = Ok h /\
    num_le h h0 = false /\ field "idType" obj = VStr "receipt".

Definition client_passed (g : fnst) (log obj : jsval) : Prop :=
  exists state h h0 v hash b,
    fs_client g = Some state /\ js_get state "currentHeight" = Ok v /\ js_Number v = Some h /\
    header_height (field "outcomeBlock" log) = Ok (Some h0) /\ h0 < h /\
    fs_hash g = Some ([VNum h], hash) /\ toBuffer hash = Ok b /\
    field "clientBlockHashB58" obj = VStr (bs58_encode b) /\ field "clientBlockHeight" obj = VNum h /\
    field "idType" obj = field "idType" log /\ field "txReceiptId" obj = field "txReceiptId" log.

Definition proof_obtained (g : fnst) (log obj : jsval) : Prop :=
  exists params,
    proof_params (field "idType" log) (field "txReceiptId" log) (field "clientBlockHashB58" log) (fn_sender o)
      = Ok params /\
    fs_proof g = Some (params, field "proofRes" obj) /\
    field "clientBlockHeight" obj = field "clientBlockHeight" log.

Definition fn_may_record (g : fnst) (obj : jsval) : Prop :=
  let log := read_log (fs_log g) in
  (field "finished" obj = VStr "withdraw" /\ finished VUndef log = true /\ withdrawn g obj) \/
  (field "finished" obj = VStr "find-withdraw" /\ finished (VStr "withdraw") log = true /\ outcome_found g log obj) \/
  (field "finished" obj = VStr "wait-block" /\ finished (VStr "find-withdraw") log = true /\ client_passed g log obj) \/
  (field "finished" obj = VStr "get-proof" /\ finished (VStr "wait-block") log = true /\ proof_obtained g log obj).

Definition fn_ok (g : fnst) (ev : event) : Prop :=
  let log := read_log (fs_log g) in
  match ev with
  | EvSign rcv _ _ => finished VUndef log = true /\ rcv = fn_nearErc20Account o
  | EvSend tx _ =>
      finished (VStr "get-proof") log = true /\
      exists args, unlock_args log = Ok args /\ fs_proved g = Some args /\ is_unlock tx args
  | EvWriteLog obj _ => fn_may_record g obj
  | EvContractSend _ _ _ _ _ | EvRawSend _ _ _ _ | EvDeployEth _ _ _ _ _ _ | EvNearChange _ _ _ _ _ _
  | EvCreateAccount _ _ _ _ _ | EvDeployNear _ _ _ | EvExec _ => False
  | _ => True
  end.

Abbreviation T := (striple (St := St) (N := N) fn_update fn_ok fs_log).

(** Events that are always allowed and change nothing. *)
Definition fn_silent (ev : event) : Prop :=
  match ev with
  | EvSend _ _ | EvWriteLog _ _ | EvSign _ _ _ | EvTxStatus _ _ | EvNearHeader _ _ | EvLightClientProof _ _
  | EvContractSend _ _ _ _ _ | EvRawSend _ _ _ _ | EvDeployEth _ _ _ _ _ _ | EvNearChange _ _ _ _ _ _
  | EvCreateAccount _ _ _ _ _ | EvDeployNear _ _ _ | EvExec _ => False
  | EvView _ method _ _ => method ∉ ["bridgeState"; "blockHashes"; "proveOutcome"]
  | _ => True
  end.
Lemma fn_silent_step g ev : fn_silent ev -> fn_ok g ev /\ fn_update g ev = g.
Proof.
  destruct g, ev; simpl; try done. intros Hm. split; [done|]. unfold asks.
  rewrite !not_elem_of_cons in Hm. destruct Hm as (H1' & H2' & H3' & _).
  rewrite (proj2 (String.eqb_neq _ _) H1'), (proj2 (String.eqb_neq _ _) H2'), (proj2 (String.eqb_neq _ _) H3').
  by rewrite !andb_false_r.
Qed.
Lemma U_silent (P E : fnst -> Prop) {A} (m : M A) :
  calm fn_silent m -> (forall g, P g -> E g) -> T P m (fun _ => P) E.
Proof.
  intros Hm HE. apply (striple_calm _ _ _ fn_silent); [|done|done]. intros g ev _. apply fn_silent_step.
Qed.

Definition fn_fresh (g : fnst) : Prop := fs_done g = false.
Abbreviation at_log := (at_log fs_log fs_plain fn_fresh).
Abbreviation recorded := (recorded fs_log fs_plain fn_fresh).

Lemma fn_write g obj u :
  fs_log (fn_update g (EvWriteLog obj (inr u))) = Some (json_image obj) /\
  fs_plain (fn_update g (EvWriteLog obj (inr u))) = (fs_plain g && plain obj) /\
  (fn_fresh g -> fn_fresh (fn_update g (EvWriteLog obj (inr u)))).
Proof. by destruct g. Qed.
Lemma fn_write_fails g obj e : fn_update g (EvWriteLog obj (inl e)) = g.
Proof. by destruct g. Qed.

Lemma U_record l b (P : fnst -> Prop) props :
  (forall g, P g -> at_log l b g /\ fn_may_record g (VObj props)) ->
  T P (recordTransferLog (VObj props)) (fun _ => recorded (field "finished" (VObj props)) b) (fun _ => True).
Proof. intros HP. apply (striple_recorded _ _ _ _ _ fn_write fn_write_fails l); auto. Qed.

(** Only writes and sends change what the stages rely on. *)
Definition keeps (ev : event) : Prop := match ev with EvWriteLog _ _ | EvSend _ _ => False | _ => True end.
Lemma fn_keeps g ev : keeps ev ->
  fs_log (fn_update g ev) = fs_log g /\ fs_plain (fn_update g ev) = fs_plain g /\
  fs_done (fn_update g ev) = fs_done g.
Proof. destruct g, ev; simpl; intros ?; repeat case_match; done. Qed.
Lemma at_keeps l b g ev : keeps ev -> at_log l b g -> at_log l b (fn_update g ev).
Proof.
  intros Hk (Hl & Hp & Hd). destruct (fn_keeps g ev Hk) as (El & Ep & Ed).
  repeat split; unfold fn_fresh in *; congruence.
Qed.

(** ** The stages *)

Section stages.
Variables (url : string) (fuel : nat) (l : option jsval) (b : bool).
Let log := read_log l.

Ltac silently := eapply striple_bind; [apply U_silent; [|done]|intros ?].

(** A request whose answer is remembered. *)
Lemma U_ask {A} (P : fnst -> Prop) (f : N -> N * (exn + A)) ev (Q : A -> fnst -> Prop) (E : fnst -> Prop) :
  (forall r, keeps (ev r)) -> (forall g r, fn_ok g (ev r)) ->
  (forall g a, P g -> Q a (fn_update g (ev (inr a)))) -> (forall g e, P g -> E (fn_update g (ev (inl e)))) ->
  T P (rpc f ev) Q E.
Proof.
  intros Hk Hok HQ HE. apply striple_rpc; [|done|done]. intros g r _. split; [done|]. by apply fn_keeps.
Qed.
Lemma calm_balance acct owner n : calm (St := St) fn_silent (backoff n (get_balance acct owner) DELAY BACKOFF).
Proof. apply calm_backoff; [done|]. by apply calm_rpc. Qed.

Lemma U_withdraw amount receiver : finished VUndef log = true ->
  T (at_log l b) (withdraw (fn_nearErc20Account o) (fn_sender o) amount receiver)
    (fun _ => recorded (VStr "withdraw") b) (fun _ => True).
Proof.
  intros Hst. unfold withdraw. eapply striple_catch; [|intros; apply striple_exit].
  eapply striple_bind; [apply (U_silent _ (fun _ => True)); [apply calm_balance|done]|intros ?].
  unfold nearJsonContractFunctionCall.
  apply (striple_bind _ _ _ _ _ _ (fun res g => at_log l b g /\ fs_tx g = Some res /\ SuccessValue res <> None)).
  - silently; [by apply calm_rpc|].
    apply striple_set_key.
    eapply striple_conseq; [..|apply (striple_signAndSend _ _ _ (at_log l b)
      (fun res g => at_log l b g /\ fs_tx g = Some res /\ SuccessValue res <> None))]; [done|done|done| |].
    + intros g ev Hg Hev. assert (Hk : keeps ev) by (by destruct ev). split_and!.
      * destruct Hg as (Hl & _). destruct ev; try done. simpl in *. by rewrite Hl.
      * by apply at_keeps.
      * by apply fn_keeps.
    + intros g h res Hg Hs. split_and!; [by apply at_keeps, at_keeps| |done].
      destruct g. simpl. by rewrite bool_decide_eq_true_2.
  - intros res. apply (U_record l b). intros g (Hg & Htx & Hs). split; [done|]. left.
    destruct Hg as (-> & _). split_and!; try done. by exists res.
Qed.

Lemma U_wait_final f receiptBlock h :
  T (fun g => at_log l b g /\ fs_receipt g = Some (h, receiptBlock)) (wait_final f receiptBlock)
    (fun block g => at_log l b g /\ fs_receipt g = Some (h, receiptBlock) /\ fs_final g = Some block /\
       exists k k0, header_height receiptBlock = Ok k0 /\ header_height block = Ok k /\ num_le k k0 = false)
    (fun g => at_log l b g /\ fs_receipt g = Some (h, receiptBlock)).
Proof.
  induction f as [|f IH]; cbn [wait_final]; [apply striple_out_of_fuel|].
  apply (striple_bind _ _ _ _ _ _
    (fun block g => (at_log l b g /\ fs_receipt g = Some (h, receiptBlock)) /\ fs_final g = Some block)).
  { apply U_ask; [done|done|..].
    - intros g block [Hg Hr]. split; [split; [by apply at_keeps|]|]; by destruct g.
    - intros g e [Hg Hr]. split; [by apply at_keeps|by destruct g]. }
  intros block.
  eapply striple_bind; [by apply striple_lift_ok; intros g [? _]|intros k]. apply striple_pure. intros Hk.
  eapply striple_bind; [by apply striple_lift_ok; intros g [? _]|intros k0]. apply striple_pure. intros Hk0.
  destruct (num_le k k0) eqn:Ele.
  - eapply striple_bind; [apply U_silent; [by apply calm_sleep|by intros g [? _]]|intros ?].
    eapply striple_conseq; [..|apply IH]; [by intros g [? _]|done|done].
  - apply striple_ret. intros g [[Hg Hr] Hf]. split_and!; try done. by exists k, k0.
Qed.

Lemma U_findWithdraw : finished (VStr "withdraw") log = true ->
  T (at_log l b) (findWithdrawInBlock fuel (field "txWithdraw" log))
    (fun _ => recorded (VStr "find-withdraw") b) (fun _ => True).
Proof.
  intros Hst. unfold findWithdrawInBlock. eapply striple_catch; [|intros; apply striple_exit].
  eapply striple_bind; [by apply (striple_lift_ok _ _ _ _ (fun _ => True))|intros [id h]].
  apply striple_pure. intros Hr.
  apply (striple_bind _ _ _ _ _ _ (fun rb g => at_log l b g /\ fs_receipt g = Some (h, rb))).
  { eapply striple_conseq; [..|apply (striple_backoff _ _ _ _ _ _ (fun rb g => at_log l b g /\ fs_receipt g = Some (h, rb)))];
      [done|done|done| |].
    { intros g d _. by apply fn_silent_step. }
    apply U_ask; [done|done|..].
    - intros g rb Hg. split; [by apply at_keeps|by destruct g].
    - intros g e Hg. by apply at_keeps. }
  intros rb. eapply striple_bind.
  { eapply striple_conseq; [| | |apply striple_backoff; [|apply U_wait_final]];
      [intros g Hg; exact Hg|intros x g Hg; exact Hg|done|]. intros g d _. by apply fn_silent_step. }
  intros ob. apply (U_record l b). intros g (Hg & Hrc & Hf & k & k0 & Hk0 & Hk & Hle). split; [done|].
  right. left. destruct Hg as (-> & _). split_and!; try done. by exists rb, k, k0.
Qed.

(** The head of the light client when the loop ends. *)
Definition client_head (h0 : option Z) (r : option Z * string) (g : fnst) : Prop :=
  exists state v hash bs h k, fs_client g = Some state /\ js_get state "currentHeight" = Ok v /\
    js_Number v = Some h /\ h0 = Some k /\ k < h /\ fs_hash g = Some ([VNum h], hash) /\
    toBuffer hash = Ok bs /\ r = (Some h, bs58_encode bs).

Lemma asks_hashes g args r : fn_update g (EvView (fn_clientAddress o) "blockHashes" args r) =
  mkFn (fs_log g) (fs_tx g) (fs_receipt g) (fs_final g) (fs_client g) (h ← answer r; Some (args, h))
    (fs_proof g) (fs_proved g) (fs_plain g) (fs_done g).
Proof. destruct g. simpl. unfold asks. by rewrite String.eqb_refl. Qed.
Lemma asks_state g args r : fn_update g (EvView (fn_clientAddress o) "bridgeState" args r) =
  mkFn (fs_log g) (fs_tx g) (fs_receipt g) (fs_final g) (answer r) (fs_hash g)
    (fs_proof g) (fs_proved g) (fs_plain g) (fs_done g).
Proof. destruct g. simpl. unfold asks. by rewrite String.eqb_refl. Qed.
Lemma asks_prover g args r : fn_update g (EvView (fn_proverAddress o) "proveOutcome" args r) =
  mkFn (fs_log g) (fs_tx g) (fs_receipt g) (fs_final g) (fs_client g) (fs_hash g)
    (fs_proof g) (answer r;; Some args) (fs_plain g) (fs_done g).
Proof. destruct g. simpl. unfold asks. by rewrite String.eqb_refl, !andb_false_r. Qed.

Lemma U_wait_client f h0 :
  T (at_log l b) (wait_client url f (fn_clientAddress o) h0)
    (fun r g => at_log l b g /\ client_head h0 r g) (fun _ => True).
Proof.
  induction f as [|f IH]; cbn [wait_client]; [apply striple_out_of_fuel|].
  apply (striple_bind _ _ _ _ _ _ (fun state g => at_log l b g /\ fs_client g = Some state)).
  { apply U_ask; [done|done| |done]. intros g state Hg. split; [by apply at_keeps|]. by rewrite asks_state. }
  intros state.
  eapply striple_bind; [by apply (striple_lift_ok _ _ _ _ (fun _ => True))|intros h]. apply striple_pure. intros (v & Hv & [= <-])%obind_ok.
  eapply striple_bind; [by apply (U_silent _ (fun _ => True)); [apply calm_lift|]|intros valid].
  apply (striple_bind _ _ _ _ _ _ (fun hash g => (at_log l b g /\ fs_client g = Some state) /\
    fs_hash g = Some ([number_value (js_Number v)], hash))).
  { apply U_ask; [done|done| |done]. intros g hash [Hg Hc]. split; [split; [by apply at_keeps|]|]; by rewrite asks_hashes. }
  intros hash.
  eapply striple_bind; [by apply (striple_lift_ok _ _ _ _ (fun _ => True))|intros bs]. apply striple_pure. intros Hbs.
  destruct (num_gt (js_Number v) h0) eqn:Egt.
  - apply striple_ret. intros g [[Hg Hc] Hh]. split; [done|].
    destruct (js_Number v) as [h|] eqn:Eh; [|done]. destruct h0 as [k|]; [|done]. simpl in Egt.
    exists state, v, hash, bs, h, k. split_and!; try done. by apply Z.ltb_lt.
  - eapply striple_bind.
    { apply (U_silent _ (fun _ => True)); [|done]. case_match; calm_auto.
      all: apply calm_rpc; intros r; simpl; compute_done. }
    intros d. eapply striple_bind; [by apply (U_silent _ (fun _ => True)); [apply calm_sleep|]|intros ?].
    eapply striple_conseq; [| | |apply IH]; [by intros g [[? _] _]|done|done].
Qed.

Lemma U_waitBlock : finished (VStr "find-withdraw") log = true ->
  T (at_log l b) (waitBlock url fuel (fn_clientAddress o) (fn_nearErc20Account o) (fn_sender o) log)
    (fun _ => recorded (VStr "wait-block") b) (fun _ => True).
Proof.
  intros Hst. unfold waitBlock. eapply striple_catch; [|intros; apply striple_exit].
  eapply striple_bind; [by apply (striple_lift_ok _ _ _ _ (fun _ => True))|intros h0].
  apply striple_pure. intros Hh0. eapply striple_bind; [apply U_wait_client|intros [h hs]].
  eapply striple_bind; [by apply (U_silent _ (fun _ => True)); [apply calm_balance|]|intros ?].
  apply (U_record l b). intros g (Hg & state & v & hash & bs & k & k0 & Hc & Hv & Hk & -> & Hlt & Hhs & Hb & [= -> ->]).
  split; [done|]. right. right. left. destruct Hg as (-> & _). split_and!; try done.
  by exists state, k, k0, v, hash, bs.
Qed.

Lemma U_getProof : finished (VStr "wait-block") log = true ->
  T (at_log l b) (getProof (fn_sender o) log) (fun _ => recorded (VStr "get-proof") b) (fun _ => True).
Proof.
  intros Hst. unfold getProof. eapply striple_catch; [|intros; apply striple_exit].
  eapply striple_bind; [by apply (striple_lift_ok _ _ _ _ (fun _ => True))|intros params].
  apply striple_pure. intros Hp.
  apply (striple_bind _ _ _ _ _ _ (fun res g => at_log l b g /\ fs_proof g = Some (params, res))).
  { apply U_ask; [done|done| |done]. intros g res Hg. split; [by apply at_keeps|by destruct g]. }
  intros res. apply (U_record l b). intros g (Hg & Hpr). split; [done|]. right. right. right.
  destruct Hg as (-> & _). split_and!; try done. by exists params.
Qed.

(** The unlock is sent after the prover accepted its arguments, and when the
    stage returns it was mined. *)
Lemma U_unlock master c abi : finished (VStr "get-proof") log = true ->
  privateKeyToAddress (normalizeEthKey (fn_ethMasterSk o)) = inr master ->
  web3_contract abi (fn_lockerAddress o) = inr c ->
  T (at_log l b) (unlock url fuel (fn_proverAddress o) (fn_erc20Address o) (remove0x (fn_receiver o)) c master
       (fn_gasMultiplier o) log)
    (fun _ g => fs_done g = true) (fun _ => True).
Proof.
  intros Hst Hm Hc. unfold unlock, erc20_balance, gas_price.
  eapply (striple_catch _ _ _ _ _ _ _ (fun _ => True)); [|intros; apply striple_exit].
  eapply striple_bind; [by apply (striple_lift_ok _ _ _ _ (fun _ => True))|intros args].
  apply striple_pure. intros Ha.
  apply (striple_bind _ _ _ _ _ _ (fun _ g => fs_log g = l /\ fs_proved g = Some args)).
  { apply U_ask; [done|done| |done]. intros g x (Hl & _). by rewrite asks_prover. }
  intros ?. eapply striple_bind.
  { apply (U_silent _ (fun _ => True)); [|done]. apply calm_rpc. intros r. simpl. compute_done. }
  intros ?. eapply striple_bind; [apply (U_silent _ (fun _ => True)); [calm_auto|done]|intros gp].
  apply (striple_bind _ _ _ _ _ _ (fun _ g => fs_done g = true)).
  - eapply striple_conseq; [| | |apply (striple_callContract _ _ _ (fun tx => is_unlock tx args)
      (fun g => fs_log g = l /\ fs_proved g = Some args)
      (fun g => (fs_log g = l /\ fs_proved g = Some args) /\ fs_done g = true))];
      [done|by intros ? g [_ ?]|done|..].
    + intros g ev _ Hev. apply fn_silent_step. destruct ev; done.
    + intros g tx r [Hl Hp] Htx. split; [|by destruct g]. simpl. rewrite Hl. split; [done|]. by exists args.
    + intros g tx u Hg _. destruct g. simpl in *. split; [done|]. by rewrite orb_true_r.
    + intros g tx e Hg _. by destruct g.
    + by intros g [? _].
    + intros gasPrice nonce data Hd. split; [done|]. by exists abi, c.
  - intros ?. eapply striple_bind; [apply (U_silent _ (fun _ => True)); [|done]|intros ?; by apply striple_ret].
    apply calm_rpc. intros r. simpl. compute_done.
Qed.
End stages.

(** ** The sequence of stages *)

Definition withdrawal_stages : list jsval :=
  [VUndef; VStr "withdraw"; VStr "find-withdraw"; VStr "wait-block"; VStr "get-proof"].
Lemma withdrawal_stages_eq : Forall (fun s => strict_eq s s = true) withdrawal_stages.
Proof. by repeat constructor. Qed.

Section sequence.
(** [R]: whether the log at the start is taken to be at one of the stages. *)
Variable R : Prop.
Abbreviation known := (known fs_log fs_plain fn_fresh withdrawal_stages R).

Lemma U_stage k name next log (body : jsval -> M unit) :
  withdrawal_stages !! k = Some name -> withdrawal_stages !! S k = Some next ->
  (forall l b, log = read_log l -> finished name log = true ->
     T (at_log l b) (body log) (fun _ => recorded next b) (fun _ => True)) ->
  T (known k log) (stage name log body) (fun log' => known (S k) log') (fun _ => True).
Proof. apply striple_stage, withdrawal_stages_eq. Qed.

Lemma U_stages url fuel master c abi log :
  privateKeyToAddress (normalizeEthKey (fn_ethMasterSk o)) = inr master ->
  web3_contract abi (fn_lockerAddress o) = inr c ->
  T (known 0 log) (withdraw_stages url fuel o master c log)
    (fun _ g => R -> fs_plain g = true -> fs_done g = true) (fun _ => True).
Proof.
  intros Hm Hc. unfold withdraw_stages.
  eapply striple_bind.
  { apply (U_stage 0 VUndef (VStr "withdraw")); [done|done|]. intros l b -> Hf. by apply U_withdraw. }
  intros log1. eapply striple_bind.
  { apply (U_stage 1 _ (VStr "find-withdraw")); [done|done|]. intros l b -> Hf. by apply U_findWithdraw. }
  intros log2. eapply striple_bind.
  { apply (U_stage 2 _ (VStr "wait-block")); [done|done|]. intros l b -> Hf. by apply U_waitBlock. }
  intros log3. eapply striple_bind.
  { apply (U_stage 3 _ (VStr "get-proof")); [done|done|]. intros l b -> Hf. by apply U_getProof. }
  intros log4. destruct (finished (VStr "get-proof") log4) eqn:Ef.
  - apply striple_at. intros g0 (Hlog & Hd & _). subst log4.
    eapply striple_conseq; [| | |apply (U_unlock url fuel (fs_log g0) (fs_plain g0) master c abi); done];
      [by intros g ->|done|done].
  - apply striple_ret. intros g Hk HR Hpl.
    pose proof (known_last _ _ _ _ withdrawal_stages_eq R 4 _ log4 g eq_refl eq_refl Hk HR Hpl). congruence.
Qed.

Definition fn_start (w : world St N event) : fnst :=
  mkFn (log_get (store w)) None None None None None None None true false.

Lemma U_open P path address :
  T P (open_contract path address) (fun c g => (exists abi, web3_contract abi address = inr c) /\ P g) (fun _ => True).
Proof.
  unfold open_contract. eapply striple_bind; [by apply (U_silent _ (fun _ => True)); [apply calm_rpc|]|intros abi].
  apply striple_lift; [|done]. intros g c Hg Hc%of_sum_ok. split; [by exists abi|done].
Qed.

Lemma U_execute url fuel l0 : R = (field "finished" (read_log l0) ∈ withdrawal_stages) ->
  T (fun g => g = mkFn l0 None None None None None None None true false) (execute url fuel o)
    (fun _ _ => True) (fun _ => True).
Proof.
  intros HR. unfold execute.
  eapply striple_bind; [by apply (U_silent _ (fun _ => True)); [apply calm_lift|]|intros ?].
  eapply striple_bind; [apply (U_silent _ (fun _ => True)); [|done]|intros ?].
  { eapply calm_weaken; [|apply calm_verifyAccount]. by intros []. }
  eapply striple_bind; [apply (U_silent _ (fun _ => True)); [|done]|intros ?].
  { eapply calm_weaken; [|apply calm_accessKeyInit]. by intros []. }
  eapply striple_bind; [by apply (striple_lift_ok _ _ _ _ (fun _ => True))|intros master].
  apply striple_pure. intros Hm%of_sum_ok.
  eapply striple_bind; [apply U_open|intros ?]. apply striple_pure. intros ?.
  eapply striple_bind; [apply U_open|intros ?]. apply striple_pure. intros ?.
  eapply striple_bind; [apply U_open|intros c]. apply striple_pure. intros [abi Hc].
  eapply striple_bind; [apply U_open|intros ?]. apply striple_pure. intros ?.
  apply (striple_bind _ _ _ _ _ _ (fun log => known 0 log)).
  { apply striple_load. intros g ->. split_and!; [done|done|]. by rewrite HR. }
  intros log. eapply striple_bind; [by eapply U_stages|intros ?; apply striple_exit].
Qed.
End sequence.

(** ** A resumed withdrawal *)

Definition no_sign (ev : event) : Prop := match ev with EvSign _ _ _ => False | _ => True end.

Ltac no_sign_step :=
  first [ apply emits_backoff; [done|] | apply emits_rpc; done | apply emits_sleep; done | emits_step ].

Lemma no_sign_record obj : emits (St := St) (N := N) no_sign (recordTransferLog obj).
Proof. unfold recordTransferLog. repeat no_sign_step. Qed.
Lemma no_sign_load : emits (St := St) (N := N) no_sign loadTransferLog.
Proof. unfold loadTransferLog. repeat no_sign_step. Qed.
Lemma no_sign_setProvider url : emits (St := St) (N := N) no_sign (setProvider url).
Proof. eapply emits_weaken; [|apply emits_setProvider]. by intros []. Qed.
#[local] Hint Resolve no_sign_record no_sign_load no_sign_setProvider : emits.

Lemma no_sign_wait_final f rb : emits (St := St) (N := N) no_sign (wait_final f rb).
Proof. induction f; cbn [wait_final]; repeat no_sign_step. Qed.
#[local] Hint Resolve no_sign_wait_final : emits.
Lemma no_sign_wait_client url f c h : emits (St := St) (N := N) no_sign (wait_client url f c h).
Proof. induction f; cbn [wait_client]; repeat no_sign_step. Qed.
Lemma no_sign_call url f c m args opts : emits (St := St) (N := N) no_sign (callContract url f c m args opts).
Proof.
  eapply emits_weaken; [|apply emits_callContract]. by intros [].
Qed.
#[local] Hint Resolve no_sign_wait_client no_sign_call : emits.

Lemma no_sign_stage name log body : (forall x, emits no_sign (body x)) ->
  emits (St := St) (N := N) no_sign (stage name log body).
Proof. intros Hb. unfold stage. repeat no_sign_step. Qed.

Lemma no_sign_later_stages url fuel master c log : finished VUndef log = false ->
  emits (St := St) (N := N) no_sign (withdraw_stages url fuel o master c log).
Proof.
  intros Hu. unfold withdraw_stages. rewrite (stage_skip VUndef log _ Hu).
  apply emits_bind; [apply emits_ret|intros log1].
  apply emits_bind; [apply no_sign_stage; intros; unfold findWithdrawInBlock; repeat no_sign_step|intros].
  apply emits_bind; [apply no_sign_stage; intros; unfold waitBlock; repeat no_sign_step|intros].
  apply emits_bind; [apply no_sign_stage; intros; unfold getProof; repeat no_sign_step|intros].
  unfold unlock. repeat no_sign_step.
Qed.

Lemma calm_open path address : calm (St := St) (N := N) no_sign (open_contract path address).
Proof. unfold open_contract. calm_auto. Qed.

Lemma emits_after_withdraw url fuel l0 : finished VUndef (read_log l0) = false ->
  emits_from (St := St) (N := N) l0 no_sign (execute url fuel o).
Proof.
  intros Hu. unfold execute.
  apply emits_from_calm; [apply calm_lift|intros ?].
  apply emits_from_calm; [eapply calm_weaken; [|apply calm_verifyAccount]; by intros []|intros ?].
  apply emits_from_calm; [eapply calm_weaken; [|apply calm_accessKeyInit]; by intros []|intros ?].
  apply emits_from_calm; [apply calm_lift|intros ?].
  do 4 (apply emits_from_calm; [apply calm_open|intros ?]).
  apply emits_from_load, emits_bind; [by apply no_sign_later_stages|intros ?; apply emits_exit].
Qed.

(** ** What the states of the automaton say about the events *)

Lemma fs_plain_fold tr g : Forall plain_write tr -> fs_plain (fold_left fn_update tr g) = fs_plain g.
Proof.
  intros Htr. revert g. induction Htr as [|ev tr Hev _ IH]; intros g; simpl; [done|]. rewrite IH.
  destruct g, ev; simpl; repeat case_match; try done. simpl in *. by rewrite Hev, andb_true_r.
Qed.

Lemma fs_done_fold tr g : fs_done g = false -> fs_done (fold_left fn_update tr g) = true ->
  exists tx u, EvSend tx (inr u) ∈ tr.
Proof.
  revert g. induction tr as [|ev tr IH]; intros g Hg; simpl; [congruence|].
  destruct (fs_done (fn_update g ev)) eqn:Ed.
  - intros _. destruct g, ev; simpl in *; subst; repeat case_match; simpl in Ed; try congruence.
    destruct r as [e|u]; [by apply bool_decide_eq_true_1 in Ed|]. exists tx, u. by left.
  - intros Hd. destruct (IH _ Ed Hd) as (tx & u & Hin). exists tx, u. by right.
Qed.
End spec.
