(* ===== verification/FromNearTheorems.v ===== *)
(** * Theorems about the transfer of tokens from NEAR *)

From Stdlib Require Import Ascii Strings.Byte.
From stdpp Require Import base list strings gmap pretty.
From Stdlib Require Import ZArith Lia.
From S2P Require Import Prelude Js Borsh Borshify Effects Schemas Instances Samples Robust NearTx NearTxSpec Traces.
From S2P Require Import Near2EthRelay Accounts InitContracts TransferLog ToNear TransferSpec FromNear FromNearSpec.
Local Open Scope Z_scope.

(** C23: whatever the nodes answer, a run of the withdrawal keeps to the order of
    its stages.  It signs NEAR transactions, for the token contract only, while the
    log records no stage (more than one, when answers are lost); each stage is recorded only with what the chains
    answered: the result of a successful withdrawal, the receipt it names with a
    final block above it, a head of the light client on Ethereum above that
    block with the hash the contract gave for it, the proof for that head; and
    the only transaction it sends to Ethereum is the unlock, from the master
    account, with the recorded proof, after the prover contract accepted the
    same arguments. *)
Theorem from_near_order {St N actions} `{Clock N} `{EthNode N} `{EthContracts N} `{NearNode N actions} `{KeySlot St}
    `{NearAccounts N} `{NearQueries N} `{Files N} `{Disk N} `{LogSlot St} `{!LogLaws St} `{BNJson} `{JsonText}
    `{Web3Utils} `{KeyPairs} `{EthKeys} `{ContractLib} `{BNLib} `{EncLib} `{HashLib}
    (ethNodeUrl : string) (fuel : nat) (o : from_near_opts) (w : world St N event) :
  exists tr, trace (execute ethNodeUrl fuel o w).1 = trace w ++ tr /\
    accepts (fn_update o) (fn_ok o) (fn_start w) tr.
Proof.
  destruct (U_execute o _ ethNodeUrl fuel (log_get (store w)) eq_refl w (fn_start w))
    as (tr & Ht & Hacc & _); [done..|]. by exists tr.
Qed.

(** When the stages of a withdrawal return, from a log at any stage, and what
    they recorded was plain data, then the tokens were unlocked: an Ethereum
    transaction was mined, and by the order of the stages it was the unlock with
    the recorded proof. *)
Theorem from_near_completes {St N actions} `{Clock N} `{EthNode N} `{EthContracts N} `{NearNode N actions} `{KeySlot St}
    `{NearAccounts N} `{NearQueries N} `{Files N} `{Disk N} `{LogSlot St} `{!LogLaws St} `{BNJson} `{JsonText}
    `{Web3Utils} `{KeyPairs} `{EthKeys} `{ContractLib} `{BNLib} `{EncLib} `{HashLib}
    (ethNodeUrl : string) (fuel : nat) (o : from_near_opts) (master : string) (abi : list byte) (locker : contract)
    (w w' : world St N event) :
  privateKeyToAddress (normalizeEthKey (fn_ethMasterSk o)) = inr master ->
  web3_contract abi (fn_lockerAddress o) = inr locker ->
  field "finished" (read_log (log_get (store w))) ∈ withdrawal_stages ->
  withdraw_stages ethNodeUrl fuel o master locker (read_log (log_get (store w))) w = (w', Ok tt) ->
  exists tr, trace w' = trace w ++ tr /\ accepts (fn_update o) (fn_ok o) (fn_start w) tr /\
    (Forall plain_write tr -> exists tx u, EvSend tx (inr u) ∈ tr).
Proof.
  intros Hm Hc Hst Hrun.
  destruct (U_stages o True ethNodeUrl fuel master locker abi (read_log (log_get (store w))) Hm Hc w (fn_start w))
    as (tr & Ht & Hacc & _ & Ho); [done|done|].
  rewrite Hrun in Ht, Ho. exists tr. split_and!; [done|done|]. intros Hpl.
  eapply fs_done_fold, Ho; [done|done|]. by rewrite fs_plain_fold.
Qed.

(** A withdrawal that is resumed from a log that records any stage signs no
    NEAR transaction: the tokens are not withdrawn again. *)
Theorem resumed_withdrawal_signs_nothing {St N actions} `{Clock N} `{EthNode N} `{EthContracts N}
    `{NearNode N actions} `{KeySlot St} `{NearAccounts N} `{NearQueries N} `{Files N} `{Disk N} `{LogSlot St}
    `{!LogLaws St} `{BNJson} `{JsonText} `{Web3Utils} `{KeyPairs} `{EthKeys} `{ContractLib} `{BNLib} `{EncLib}
    `{HashLib} (ethNodeUrl : string) (fuel : nat) (o : from_near_opts) (w : world St N event) :
  finished VUndef (read_log (log_get (store w))) = false ->
  exists tr, trace (execute ethNodeUrl fuel o w).1 = trace w ++ tr /\
    Forall (fun ev => match ev with EvSign _ _ _ => False | _ => True end) tr.
Proof. intros Hu. by apply (emits_after_withdraw o ethNodeUrl fuel _ Hu w). Qed.

(** ** Witnesses: a withdrawal between two small chains *)

#[local] Instance pond_clock : Clock unit := fun _ n => n.
#[local] Instance pond_key : KeySlot (option Z * option jsval) :=
  {| k_get s := s.1; k_set k s := (k, s.2); k_get_set k s := eq_refl |}.
#[local] Instance pond_slot : LogSlot (option Z * option jsval) :=
  {| log_get s := s.2; log_set j s := (s.1, Some j) |}.
#[local] Instance pond_slot_laws : LogLaws (option Z * option jsval).
Proof. by split. Qed.
#[local] Instance pond_json : BNJson := fun z => pretty z.
#[local] Instance pond_text : JsonText := fun _ => "{}".
#[local] Instance pond_web3 : Web3Utils := {| toHex z := pretty z; toHex_inj := _ |}.
#[local] Instance pond_eth : EthNode unit := {|
  eth_setProvider _ n := n;
  eth_close := None;
  eth_getBlockNumber n := (n, inr 7);
  eth_getBlock _ n := (n, inr (VObj [("timestamp", VNum 90)]));
  eth_getTransactionReceipt _ n := (n, inr VNull);
  eth_getGasPrice n := (n, inr 20000000000);
  eth_getTransactionCount _ n := (n, inr 5);
  eth_call _ n := (n, inr tt);
  eth_sendTransaction _ n := (n, Some (1000, inr (VObj [("logs", VArr [])])))
|}.
#[local] Instance pond_contracts : EthContracts unit := {|
  eth_view _ method _ n := (n, inr
    (if String.eqb method "bridgeState" then VObj [("currentHeight", VStr "12"); ("nextValidAt", VStr "0")]
     else if String.eqb method "blockHashes" then VBytes (replicate 32 x07) else VBool true));
  eth_contract_send _ _ _ _ n := (n, inr tt)
|}.

(** The withdrawal's result: one receipt, which made the receipt [r2]. *)
Definition pond_tx : jsval := VObj [
  ("transaction_outcome", VObj [("outcome", VObj [("receipt_ids", VArr [VStr "r1"])])]);
  ("receipts_outcome", VArr [
    VObj [("id", VStr "r1"); ("block_hash", VStr "b1");
      ("outcome", VObj [("status", VObj [("SuccessReceiptId", VStr "r2")])])];
    VObj [("id", VStr "r2"); ("block_hash", VStr "b2")]])].
#[local] Instance pond_near : NearNode unit (list byte) := {|
  near_status n := (n, inr "block");
  near_signTransaction _ _ _ _ _ n := (n, inr ("hash", [x01]));
  near_broadcast_tx_async _ n := (n, inr tt);
  near_txStatus _ _ n := (n, inr (mkTxResult (Some "") None [] [] pond_tx));
  near_query _ _ n := (n, inr (mkQueryResult None None));
  near_findAccessKey _ n := (n, inr (Some 4));
  near_base_decode _ := inr [];
  near_functionCall _ bytes _ _ := bytes
|}.
#[local] Instance pond_accounts : NearAccounts unit := {|
  near_fetchState _ n := (n, inr tt);
  near_createAccount _ _ _ _ n := (n, inr tt);
  near_deployContract _ _ n := (n, inr tt);
  near_getAccessKeys _ n := (n, inr ["key"]);
  near_change _ _ _ _ _ n := (n, inr tt)
|}.
Definition pond_header (height : Z) : jsval := VObj [("header", VObj [("height", VNum height)])].
Definition pond_hash : jsval := VStr (ones 32).
Definition pond_proof : jsval := VObj [
  ("outcome_proof", VObj [
    ("proof", VArr [VObj [("hash", pond_hash); ("direction", VStr "Left")]]);
    ("block_hash", pond_hash); ("id", pond_hash);
    ("outcome", VObj [("logs", VArr []); ("receipt_ids", VArr [pond_hash]); ("gas_burnt", VNum 5);
      ("tokens_burnt", VStr "7"); ("executor_id", VStr "token"); ("status", VObj [("SuccessValue", VStr "")])])]);
  ("block_header_lite", VObj [("prev_block_hash", pond_hash); ("inner_rest_hash", pond_hash);
    ("inner_lite", VObj [("height", VNum 11); ("epoch_id", pond_hash); ("next_epoch_id", pond_hash);
      ("prev_state_root", pond_hash); ("outcome_root", pond_hash); ("timestamp", VNum 3);
      ("timestamp_nanosec", VStr "3"); ("next_bp_hash", pond_hash); ("block_merkle_root", pond_hash)])]);
  ("block_proof", VArr [])].
#[local] Instance pond_queries : NearQueries unit := {|
  near_view _ _ _ n := (n, inr (VStr "0"));
  near_block id n := (n, inr (pond_header (match id with Some _ => 10 | None => 11 end)));
  near_light_client_proof _ n := (n, inr pond_proof)
|}.
#[local] Instance pond_files : Files unit := fun path n => (n, inr (utf8 path)).
#[local] Instance pond_disk : Disk unit := fun _ n => (n, inr tt).
#[local] Instance pond_pairs : KeyPairs := fun _ => inr "key".
#[local] Instance pond_keys : EthKeys := {| privateKeyToAddress sk := inr sk; parse_abi _ := inr tt |}.
#[local] Instance pond_hashes : HashLib := {|
  toBuffer v := match v with VBytes bs => Ok bs | _ => Throw (TypeError "toBuffer") end;
  bs58_encode _ := "head"
|}.
Definition pond_contract (address : string) : contract :=
  mkContract address (fun m _ => inr m) (fun _ => inr ("Unlocked", VNull)).
#[local] Instance pond_lib : ContractLib := {|
  web3_contract _ address := inr (pond_contract address);
  BN_of s := match decimal s with Some z => inr z | None => inl (Error "Assertion failed") end
|}.
Definition pond_opts : from_near_opts := mkFromNearOpts "10" "alice" "0xab" "sk" "token" "5e"
  "client.abi" "0xc1" "prover.abi" "0xd2" "locker.abi" "0x1c" "erc20.abi" "0xe2" 1.
Definition pond_world (log : option jsval) : world (option Z * option jsval) unit event :=
  mkWorld (Some 4, log) tt [].

Lemma from_near_order_witness :
  (execute "http://node" 3 pond_opts (pond_world None)).2 = Exit 0 /\
  exists tr, trace (execute "http://node" 3 pond_opts (pond_world None)).1 = [] ++ tr /\
    accepts (fn_update pond_opts) (fn_ok pond_opts) (fn_start (pond_world None)) tr.
Proof.
  split; [vm_compute; reflexivity|].
  apply (from_near_order "http://node" 3 pond_opts (pond_world None)).
Defined.

Definition pond_run : world (option Z * option jsval) unit event * outcome unit :=
  withdraw_stages "http://node" 3 pond_opts "0x5e" (pond_contract "0x1c")
    (read_log (log_get (store (pond_world None)))) (pond_world None).

Lemma from_near_completes_witness :
  pond_run.2 = Ok tt /\
  exists tr, trace pond_run.1 = [] ++ tr /\
    accepts (fn_update pond_opts) (fn_ok pond_opts) (fn_start (pond_world None)) tr /\
    (Forall plain_write tr -> exists tx u, EvSend tx (inr u) ∈ tr).
Proof.
  split; [vm_compute; reflexivity|].
  apply (from_near_completes "http://node" 3 pond_opts "0x5e" [] (pond_contract "0x1c") (pond_world None) pond_run.1).
  - reflexivity.
  - reflexivity.
  - left.
  - vm_compute. reflexivity.
Defined.

(** The objects that this run records are plain, and it sends one transaction. *)
Lemma pond_run_plain : Forall plain_write (trace pond_run.1).
Proof. vm_compute. repeat constructor. Qed.

Definition withdrawn_log : jsval := VObj [("finished", VStr "withdraw"); ("txWithdraw", pond_tx)].
Lemma resumed_withdrawal_signs_nothing_witness :
  finished VUndef (read_log (Some withdrawn_log)) = false /\
  exists tr, trace (execute "http://node" 3 pond_opts (pond_world (Some withdrawn_log))).1 = [] ++ tr /\
    Forall (fun ev => match ev with EvSign _ _ _ => False | _ => True end) tr.
Proof.
  split; [reflexivity|].
  apply (resumed_withdrawal_signs_nothing "http://node" 3 pond_opts (pond_world (Some withdrawn_log))); reflexivity.
Defined.
