(* ===== verification/FromNearLiveness.v ===== *)
(** * Progress of a withdrawal

    The stage [waitBlock] polls the light client on Ethereum in a loop without a
    bound.  When the relay brings the client past the block of the outcome at
    some time, the stage ends and records its result: the number of rounds is
    bounded by the seconds until then. *)

From Stdlib Require Import Ascii Strings.Byte.
From stdpp Require Import base list strings gmap pretty.
From Stdlib Require Import ZArith Lia.
From S2P Require Import Prelude Js Borsh Borshify Effects Schemas Instances Robust RobustSpec NearTx Traces.
From S2P Require Import Near2EthRelay Accounts InitContracts TransferLog ToNear FromNear.
Local Open Scope Z_scope.

(** The longest time that a timer of Node takes, in milliseconds; a longer one
    fires at once. *)
Definition MAX_TIMER : Z := 2 ^ 31 - 1.

Section progress.
Context {St N : Type} `{Clock N} `{EthNode N} `{EthContracts N} `{NearQueries N} `{Disk N}.
Context `{LogSlot St} `{BNJson} `{HashLib}.
Variable now : N -> Z.
Abbreviation M := (M St N event).

(** [m] returns a value with [Q], leaves the store alone, and time does not go
    back. *)
Definition returns {A} (m : M A) (Q : A -> Prop) : Prop := forall w,
  exists w' a, m w = (w', Ok a) /\ now (net w) <= now (net w') /\ store w' = store w /\ Q a.

Lemma returns_ret {A} (a : A) (Q : A -> Prop) : Q a -> returns (mret a) Q.
Proof. intros Ha w. exists w, a. by split_and!. Qed.
Lemma returns_bind {A B} (m : M A) (f : A -> M B) (P : A -> Prop) (Q : B -> Prop) :
  returns m P -> (forall a, P a -> returns (f a) Q) -> returns (m ≫= f) Q.
Proof.
  intros Hm Hf w. destruct (Hm w) as (w1 & a & E1 & Ht1 & Hs1 & Ha). destruct (Hf a Ha w1) as (w2 & b & E2 & Ht2 & Hs2 & Hb).
  exists w2, b. rewrite (bind_run _ _ _ _ _ E1). split_and!; [done|lia|congruence|done].
Qed.
Lemma returns_lift {A} (o : outcome A) (Q : A -> Prop) : (exists a, o = Ok a /\ Q a) -> returns (lift o) Q.
Proof. intros (a & -> & Ha) w. exists w, a. by split_and!. Qed.
Lemma returns_rpc {A} (f : N -> N * (exn + A)) ev (Q : A -> Prop) :
  (forall n, exists n' a, f n = (n', inr a) /\ now n <= now n' /\ Q a) -> returns (rpc f ev) Q.
Proof.
  intros Hf w. destruct (Hf (net w)) as (n' & a & E & Ht & Ha). eexists _, a.
  split; [by apply rpc_run|]. by split_and!.
Qed.
Lemma returns_catch {A} (m : M A) h (Q : A -> Prop) : returns m Q -> returns (catch m h) Q.
Proof. intros Hm w. destruct (Hm w) as (w' & a & E & HQ). exists w', a. unfold catch. by rewrite E. Qed.
Lemma returns_backoff {A} n (m : M A) d b (Q : A -> Prop) : returns m Q -> returns (backoff n m d b) Q.
Proof. intros Hm. destruct n; simpl; by apply returns_catch. Qed.

(** What the clock, the light client and the Ethereum node are taken to do: they
    answer with values of the right form, a timer waits at least as long as it
    was told to, and from the time [T] on the head of the client is above the
    height [h0].  [validAt] bounds the times from which heads are valid. *)
Record client_follows (client : string) (h0 T validAt : Z) : Prop := {
  cf_sleep z n : 1 <= z -> z * 1000 <= MAX_TIMER -> now n + z * 1000 <= now (pass (f_of_Z (z * 1000)) n);
  cf_state n : exists n' state v v' h a, eth_view client "bridgeState" [] n = (n', inr state) /\ now n <= now n' /\
    js_get state "currentHeight" = Ok v /\ js_Number v = Some h /\ (T <= now n -> h0 < h) /\
    js_get state "nextValidAt" = Ok v' /\ js_Number v' = Some a /\ a <= validAt;
  cf_hash n h : exists n' v b, eth_view client "blockHashes" [VNum h] n = (n', inr v) /\ now n <= now n' /\
    toBuffer v = Ok b;
  cf_lock n : exists n' v d, eth_view client "lockDuration" [] n = (n', inr v) /\ now n <= now n' /\
    js_Number v = Some d /\ d * 1000 <= MAX_TIMER;
  cf_latest n : exists n' block v ts, eth_getBlock (VStr "latest") n = (n', inr block) /\ now n <= now n' /\
    block <> VNull /\ js_get block "timestamp" = Ok v /\ js_Number v = Some ts /\
    (validAt - ts) * 1000 <= MAX_TIMER
}.

Section client.
Variables (url client : string) (h0 T validAt : Z).
Hypothesis follows : client_follows client h0 T validAt.

Definition short (d : option Z) : Prop := exists z, d = Some z /\ z * 1000 <= MAX_TIMER.

Lemma returns_latest : returns (getBlock url (VStr "latest"))
  (fun block => exists v ts, js_get block "timestamp" = Ok v /\ js_Number v = Some ts /\ (validAt - ts) * 1000 <= MAX_TIMER).
Proof.
  apply returns_backoff, returns_catch. eapply returns_bind; [apply returns_rpc; intros n|].
  - destruct (cf_latest _ _ _ _ follows n) as (n' & block & v & ts & E & Ht & Hb & Hv & Hts & Hmax).
    exists n', block. split_and!; [done|done|]. exact (conj Hb (ex_intro _ v (ex_intro _ ts (conj Hv (conj Hts Hmax))))).
  - intros block [Hb Hts]. apply returns_lift. exists block. by destruct block.
Qed.

(** The delay of a round is a number that a timer takes. *)
Lemma returns_delay a : a <= validAt ->
  returns (if bool_decide (Some a = Some 0)
           then d ← client_call client "lockDuration" []; mret (js_Number d)
           else latest ← getBlock url (VStr "latest"); ts ← lift (js_get latest "timestamp");
                mret (x ← Some a; y ← js_Number ts; Some (x - y))) short.
Proof.
  intros Ha. case_bool_decide.
  - eapply returns_bind; [apply returns_rpc; intros n|].
    + destruct (cf_lock _ _ _ _ follows n) as (n' & v & d & E & Ht & Hd & Hmax). exists n', v.
      split_and!; [done|done|]. exact (ex_intro (fun d => js_Number v = Some d /\ d * 1000 <= MAX_TIMER) d (conj Hd Hmax)).
    + intros v (d & Hd & Hmax). apply returns_ret. by exists d.
  - eapply returns_bind; [apply returns_latest|]. intros block (v & ts & Hv & Hts & Hmax).
    eapply returns_bind; [apply (returns_lift _ (fun x => x = v)); by exists v|]. intros ? ->.
    apply returns_ret. rewrite Hts. exists (a - ts). split; [done|lia].
Qed.

Lemma sleep_passes d (w : world St N event) : short d ->
  exists w', sleep (delay_ms d) w = (w', Ok tt) /\ now (net w) + 1000 <= now (net w') /\ store w' = store w.
Proof.
  intros (z & -> & Hz). eexists. split; [done|]. simpl. split; [|done].
  pose proof (cf_sleep _ _ _ _ follows (Z.max z 1) (net w) ltac:(lia)) as Hs.
  unfold MAX_TIMER in *. specialize (Hs ltac:(lia)). lia.
Qed.

(** A round returns the head of the client, or it was before [T] and at least a
    second passes. *)
Lemma wait_client_round k (w : world St N event) :
  (exists w' h b, wait_client url (S k) client (Some h0) w = (w', Ok (Some h, bs58_encode b)) /\
     now (net w) <= now (net w') /\ store w' = store w /\ h0 < h) \/
  (now (net w) < T /\ exists w', now (net w) + 1000 <= now (net w') /\ store w' = store w /\
     wait_client url (S k) client (Some h0) w = wait_client url k client (Some h0) w').
Proof.
  cbn [wait_client].
  destruct (cf_state _ _ _ _ follows (net w)) as (n1 & state & v & v' & h & a & E1 & Ht1 & Hv & Hh & Hpast & Hv' & Ha & Hmax).
  erewrite bind_run by (by apply rpc_run).
  erewrite bind_run by (unfold lift; by rewrite Hv). rewrite Hh.
  erewrite bind_run by (unfold lift; by rewrite Hv'). rewrite Ha.
  destruct (cf_hash _ _ _ _ follows n1 h) as (n2 & hash & b & E2 & Ht2 & Hb).
  erewrite bind_run by (by apply rpc_run). erewrite bind_run by (unfold lift; by rewrite Hb).
  change (num_gt (Some h) (Some h0)) with (h0 <? h). destruct (Z.ltb_spec h0 h) as [Hlt|Hge].
  - left. eexists _, h, b. split; [done|]. simpl. split_and!; [lia|done|done].
  - right. set (w2 := mkWorld _ n2 _).
    destruct (returns_delay a Hmax w2) as (w3 & d & E3 & Ht3 & Hs3 & Hd). erewrite bind_run by exact E3.
    destruct (sleep_passes d w3 Hd) as (w4 & E4 & Ht4 & Hs4). simpl in Ht3, Hs3.
    split; [destruct (Z.le_gt_cases T (now (net w))) as [Hle|]; [specialize (Hpast Hle)|]; lia|].
    exists w4. split_and!; [lia|congruence|]. by erewrite bind_run by exact E4.
Qed.

Lemma wait_client_returns fuel : forall w : world St N event,
  T - now (net w) <= 1000 * Z.of_nat fuel ->
  exists w' h b, wait_client url (S fuel) client (Some h0) w = (w', Ok (Some h, bs58_encode b)) /\
    now (net w) <= now (net w') /\ store w' = store w /\ h0 < h.
Proof.
  induction fuel as [|fuel IH]; intros w Hf.
  { destruct (wait_client_round 0 w) as [Hr|(Hlt & _)]; [exact Hr|lia]. }
  destruct (wait_client_round (S fuel) w) as [Hr|(Hlt & w1 & Ht & Hs & ->)]; [exact Hr|].
  destruct (IH w1 ltac:(lia)) as (w' & h & b & -> & Ht' & Hs' & Hh). exists w', h, b.
  split_and!; [done|lia|congruence|done].
Qed.
End client.
End progress.

(** C29: the stage that waits for the light client makes progress.  When the
    client on Ethereum is above the outcome's block from the time [T] on, the
    nodes answer and the log can be written, the stage returns after at most as
    many rounds as there are seconds until [T], and one more; what it records is
    a head of the client above the block of the outcome. *)
Theorem waitBlock_progress {St N} `{Clock N} `{EthNode N} `{EthContracts N} `{NearQueries N} `{Disk N} `{LogSlot St}
    `{BNJson} `{HashLib} (now : N -> Z) (url client token sender : string) (h0 T validAt : Z) (fuel : nat)
    (log : jsval) (w : world St N event) :
  client_follows now client h0 T validAt ->
  (forall owner n, exists n' v, near_view token "get_balance" owner n = (n', inr v) /\ now n <= now n') ->
  (forall obj n, exists n', disk_write obj n = (n', inr tt)) ->
  header_height (field "outcomeBlock" log) = Ok (Some h0) ->
  T - now (net w) <= 1000 * Z.of_nat fuel ->
  exists w' h hash, waitBlock url (S fuel) client token sender log w = (w', Ok tt) /\ h0 < h /\
    store w' = log_set (json_image (VObj [("finished", VStr "wait-block"); ("clientBlockHashB58", VStr hash);
      ("idType", field "idType" log); ("txReceiptId", field "txReceiptId" log); ("clientBlockHeight", VNum h)])) (store w).
Proof.
  intros Hc Hbal Hdisk Hh0 Hf. unfold waitBlock, catch.
  erewrite bind_run by (unfold lift; by rewrite Hh0).
  destruct (wait_client_returns now url client h0 T validAt Hc fuel w Hf) as (w1 & h & b & E1 & _ & Hs1 & Hh).
  erewrite bind_run by exact E1. cbn beta iota.
  destruct (returns_backoff now (St := St) 10 (get_balance token (VStr sender)) DELAY BACKOFF (fun _ => True)) with (w := w1)
    as (w2 & bal & E2 & _ & Hs2 & _).
  { apply returns_rpc. intros n. destruct (Hbal (VObj [("owner_id", VStr sender)]) n) as (n' & v & E & Ht). by exists n', v. }
  erewrite bind_run by exact E2. unfold recordTransferLog.
  destruct (Hdisk (VObj [("finished", VStr "wait-block"); ("clientBlockHashB58", VStr (bs58_encode b));
    ("idType", field "idType" log); ("txReceiptId", field "txReceiptId" log); ("clientBlockHeight", VNum h)]) (net w2))
    as [n3 E3].
  erewrite bind_run by (by apply rpc_run). eexists _, h, (bs58_encode b). split_and!; [reflexivity|done|].
  simpl. by rewrite Hs2, Hs1.
Qed.

(** ** Witness: the state of the outside is the time in milliseconds *)

#[local] Instance day_clock : Clock Z := fun _ n => n + 2 ^ 31.
#[local] Instance day_eth : EthNode Z := {|
  eth_setProvider _ n := n;
  eth_close := None;
  eth_getBlockNumber n := (n, inr 7);
  eth_getBlock _ n := (n, inr (VObj [("timestamp", VNum 90)]));
  eth_getTransactionReceipt _ n := (n, inr VNull);
  eth_getGasPrice n := (n, inr 1);
  eth_getTransactionCount _ n := (n, inr 0);
  eth_call _ n := (n, inr tt);
  eth_sendTransaction _ n := (n, None)
|}.
#[local] Instance day_contracts : EthContracts Z := {|
  eth_view _ method _ n := (n, inr
    (if String.eqb method "bridgeState" then
       VObj [("currentHeight", VNum (if 4000 <=? n then 12 else 10)); ("nextValidAt", VNum 100)]
     else if String.eqb method "blockHashes" then VBytes [x07] else VNum 30));
  eth_contract_send _ _ _ _ n := (n, inr tt)
|}.
#[local] Instance day_queries : NearQueries Z := {|
  near_view _ _ _ n := (n, inr (VStr "0"));
  near_block _ n := (n, inr VNull);
  near_light_client_proof _ n := (n, inr VNull)
|}.
#[local] Instance day_disk : Disk Z := fun _ n => (n, inr tt).
#[local] Instance day_slot : LogSlot (option jsval) := {| log_get s := s; log_set j _ := Some j |}.
#[local] Instance day_json : BNJson := fun z => pretty z.
#[local] Instance day_hashes : HashLib := {|
  toBuffer v := match v with VBytes bs => Ok bs | _ => Throw (TypeError "toBuffer") end;
  bs58_encode _ := "head"
|}.
Definition day_log : jsval := VObj [("finished", VStr "find-withdraw");
  ("outcomeBlock", VObj [("header", VObj [("height", VNum 11)])]); ("idType", VStr "receipt"); ("txReceiptId", VStr "r2")].
Lemma day_follows : client_follows (fun n : Z => n) "0xc1" 11 4000 100.
Proof.
  split.
  - unfold MAX_TIMER, pass, day_clock. lia.
  - intros n. eexists n, _, _, _, _, 100. simpl. split_and!; try reflexivity. intros Hn. apply Z.leb_le in Hn. by rewrite Hn.
  - intros n h. by eexists n, _, _.
  - intros n. by eexists n, _, 30.
  - intros n. eexists n, _, _, 90. by split_and!.
Qed.

Lemma waitBlock_progress_witness :
  exists w' h hash,
    waitBlock "http://node" 5 "0xc1" "token" "alice" day_log (mkWorld (Some day_log) 0 []) = (w', Ok tt) /\ 11 < h /\
    store w' = log_set (json_image (VObj [("finished", VStr "wait-block"); ("clientBlockHashB58", VStr hash);
      ("idType", field "idType" day_log); ("txReceiptId", field "txReceiptId" day_log); ("clientBlockHeight", VNum h)]))
      (Some day_log).
Proof.
  apply (waitBlock_progress (fun n : Z => n) "http://node" "0xc1" "token" "alice" 11 4000 100 4 day_log
    (mkWorld (Some day_log) 0 [])).
  - apply day_follows.
  - intros owner n. by exists n, (VStr "0").
  - intros obj n. by exists n.
  - reflexivity.
  - simpl. lia.
Defined.
