(* ===== verification/MintableToken.v ===== *)
(** * The contract [MintableFungibleToken]

    [contracts/near/mintable-fungible-token/src/lib.rs]: the token on NEAR that is
    minted for tokens locked on Ethereum and burnt to unlock them.  A method takes
    the state and answers the new one with what it does besides: the log lines and
    the transfers of refunds.  A panic is a thrown error and leaves the state as
    it was.  Balances have 128 bits and storage sizes 64; operations that leave
    them panic.  [storage_usage], the number of bytes that the host charges the
    contract for, is a parameter, as are the crates [hex] and [ethabi] and the
    host's check of account names. *)

From Stdlib Require Import Strings.Byte.
From stdpp Require Import base list strings gmap pretty.
From Stdlib Require Import ZArith Lia.
From S2P Require Import Prelude Js EthClient EthProver.
Local Open Scope Z_scope.

Definition u128_add (a b : Z) : outcome Z := checked 128 (a + b).
Definition u128_sub (a b : Z) : outcome Z := checked 128 (a - b).
Definition u128_mul (a b : Z) : outcome Z := checked 128 (a * b).
Definition saturating_add (a b : Z) : Z := Z.min (a + b) (2 ^ 128 - 1).
Definition saturating_sub (a b : Z) : Z := Z.max (a - b) 0.
(** [U256::as_u128] *)
Definition as_u128 (z : Z) : outcome Z :=
  if z <? 2 ^ 128 then Ok z else panic "Integer overflow when casting to u128".

Definition STORAGE_PRICE_PER_BYTE : Z := 100000000000000000000.

(** ** Data *)

Record Account := mkAccount {
  balance : Z;
  allowances : gmap (list byte) Z
}.
Record MintableFungibleToken := mkToken {
  token_accounts : gmap (list byte) Account;
  total_supply : Z;
  prover_account : string;
  locker_address : list byte;
  used_events : gset (list byte)
}.
Record EthProof := mkProof {
  pf_log_index : Z;
  pf_log_entry_data : list byte;
  pf_receipt_index : Z;
  pf_receipt_data : list byte;
  pf_header_data : list byte;
  pf_proof : list (list byte)
}.
Record EthEventData := mkEventData {
  ev_locker_address : list byte;
  ev_token : string;
  ev_sender : string;
  ev_amount : Z;
  ev_recipient : string
}.

(** The types of [ethabi] that the contract uses. *)
Inductive ParamType := PTAddress | PTUint (bits : Z) | PTString.
Record EventParam := mkEventParam { ep_name : string; ep_kind : ParamType; ep_indexed : bool }.
Record Event := mkEvent { e_name : string; e_inputs : list EventParam; e_anonymous : bool }.
Inductive Token := TAddress (a : list byte) | TUint (z : Z) | TString (s : string).

Definition to_address (t : Token) : option (list byte) := match t with TAddress a => Some a | _ => None end.
Definition to_uint (t : Token) : option Z := match t with TUint z => Some z | _ => None end.
Definition to_string (t : Token) : option string := match t with TString s => Some s | _ => None end.

(** The call: the contract's own account, the caller, the signer of the
    transaction and the attached deposit. *)
Record near_ctx := mkNearCtx {
  current_account_id : string;
  predecessor_account_id : string;
  signer_account_id : string;
  attached_deposit : Z
}.
Inductive token_effect :=
| ELog (text : string)
| ETransfer (account : string) (amount : Z).

Class TokenLibs := {
  storage_usage : MintableFungibleToken -> Z;
  is_valid_account_id : list byte -> bool;
  hex_decode : string -> outcome (list byte);
  hex_encode : list byte -> string;
  parse_log : Event -> list (list byte) -> list byte -> outcome (list Token)
}.

Definition as_bytes (s : string) : list byte := String.list_byte_of_string s.

Section token.
Context `{EthLibs} `{RlpLists} `{TokenLibs}.

(** ** Accounts *)

Definition Account_new : Account := mkAccount 0 ∅.

Definition Account_set_allowance (a : Account) (escrow_account_id : string) (allowance : Z) : Account :=
  let escrow_hash := near_sha256 (as_bytes escrow_account_id) in
  mkAccount (balance a)
    (if 0 <? allowance then <[escrow_hash := allowance]> (allowances a) else delete escrow_hash (allowances a)).

Definition Account_get_allowance (a : Account) (escrow_account_id : string) : Z :=
  default 0 (allowances a !! near_sha256 (as_bytes escrow_account_id)).

Definition with_balance (b : Z) (a : Account) : Account := mkAccount b (allowances a).
Definition with_accounts (accounts : gmap (list byte) Account) (t : MintableFungibleToken) : MintableFungibleToken :=
  mkToken accounts (total_supply t) (prover_account t) (locker_address t) (used_events t).
Definition with_supply (supply : Z) (t : MintableFungibleToken) : MintableFungibleToken :=
  mkToken (token_accounts t) supply (prover_account t) (locker_address t) (used_events t).
Definition with_events (events : gset (list byte)) (t : MintableFungibleToken) : MintableFungibleToken :=
  mkToken (token_accounts t) (total_supply t) (prover_account t) (locker_address t) events.

Definition get_account (t : MintableFungibleToken) (owner_id : string) : outcome Account :=
  assert (is_valid_account_id (as_bytes owner_id)) "Owner's account ID is invalid";;
  Ok (default Account_new (token_accounts t !! near_sha256 (as_bytes owner_id))).

Definition set_account (t : MintableFungibleToken) (owner_id : string) (account : Account) : MintableFungibleToken :=
  let account_hash := near_sha256 (as_bytes owner_id) in
  if (0 <? balance account) || negb (bool_decide (allowances account = ∅))
  then with_accounts (<[account_hash := account]> (token_accounts t)) t
  else with_accounts (delete account_hash (token_accounts t)) t.

(** [initial] is the storage at the start of the call and [t] the state now. *)
Definition refund_storage (c : near_ctx) (initial_storage : Z) (t : MintableFungibleToken)
    : outcome (list token_effect) :=
  let current_storage := storage_usage t in
  refund_amount ←
    (if initial_storage <? current_storage then
       bytes ← u64_sub current_storage initial_storage;
       required_deposit ← u128_mul bytes STORAGE_PRICE_PER_BYTE;
       assert (required_deposit <=? attached_deposit c)
         ("The required attached deposit is " +:+ pretty required_deposit +:+
          ", but the given attached deposit is is " +:+ pretty (attached_deposit c));;
       u128_sub (attached_deposit c) required_deposit
     else
       bytes ← u64_sub initial_storage current_storage;
       released ← u128_mul bytes STORAGE_PRICE_PER_BYTE;
       u128_add (attached_deposit c) released);
  Ok (if 0 <? refund_amount then
        [ELog ("Refunding " +:+ pretty refund_amount +:+ " tokens for storage to " +:+ signer_account_id c);
         ETransfer (signer_account_id c) refund_amount]
      else []).

(** ** Methods *)

Definition token_new (state_exists : bool) (prover_account locker_address : string) : outcome MintableFungibleToken :=
  data ← hex_decode locker_address;
  assert (length data =? 20)%nat "`locker_address` should be 20 bytes long";;
  assert (negb state_exists) "Already initialized";;
  Ok (mkToken ∅ 0 prover_account data ∅).

Definition inc_allowance (c : near_ctx) (t : MintableFungibleToken) (escrow_account_id : string) (amount : Z)
    : outcome (MintableFungibleToken * list token_effect) :=
  let initial_storage := storage_usage t in
  assert (is_valid_account_id (as_bytes escrow_account_id)) "Escrow account ID is invalid";;
  let owner_id := predecessor_account_id c in
  if bool_decide (escrow_account_id = owner_id) then panic "Can not increment allowance for yourself"
  else
    account ← get_account t owner_id;
    let current_allowance := Account_get_allowance account escrow_account_id in
    let account := Account_set_allowance account escrow_account_id (saturating_add current_allowance amount) in
    let t := set_account t owner_id account in
    effects ← refund_storage c initial_storage t;
    Ok (t, effects).

Definition dec_allowance (c : near_ctx) (t : MintableFungibleToken) (escrow_account_id : string) (amount : Z)
    : outcome (MintableFungibleToken * list token_effect) :=
  let initial_storage := storage_usage t in
  assert (is_valid_account_id (as_bytes escrow_account_id)) "Escrow account ID is invalid";;
  let owner_id := predecessor_account_id c in
  if bool_decide (escrow_account_id = owner_id) then panic "Can not decrement allowance for yourself"
  else
    account ← get_account t owner_id;
    let current_allowance := Account_get_allowance account escrow_account_id in
    let account := Account_set_allowance account escrow_account_id (saturating_sub current_allowance amount) in
    let t := set_account t owner_id account in
    effects ← refund_storage c initial_storage t;
    Ok (t, effects).

Definition transfer_from (c : near_ctx) (t : MintableFungibleToken) (owner_id new_owner_id : string) (amount : Z)
    : outcome (MintableFungibleToken * list token_effect) :=
  let initial_storage := storage_usage t in
  assert (is_valid_account_id (as_bytes new_owner_id)) "New owner's account ID is invalid";;
  if amount =? 0 then panic "Can't transfer 0 tokens" else
  assert (negb (bool_decide (owner_id = new_owner_id))) "The new owner should be different from the current owner";;
  account ← get_account t owner_id;
  if balance account <? amount then panic "Not enough balance" else
  rest ← u128_sub (balance account) amount;
  let account := with_balance rest account in
  let escrow_account_id := predecessor_account_id c in
  account ←
    (if negb (bool_decide (escrow_account_id = owner_id)) then
       let allowance := Account_get_allowance account escrow_account_id in
       if allowance <? amount then panic "Not enough allowance"
       else left_ ← u128_sub allowance amount; Ok (Account_set_allowance account escrow_account_id left_)
     else Ok account);
  let t := set_account t owner_id account in
  new_account ← get_account t new_owner_id;
  sum ← u128_add (balance new_account) amount;
  let t := set_account t new_owner_id (with_balance sum new_account) in
  effects ← refund_storage c initial_storage t;
  Ok (t, effects).

Definition token_transfer (c : near_ctx) (t : MintableFungibleToken) (new_owner_id : string) (amount : Z)
    : outcome (MintableFungibleToken * list token_effect) :=
  transfer_from c t (predecessor_account_id c) new_owner_id amount.

Definition get_total_supply (t : MintableFungibleToken) : Z := total_supply t.
Definition token_balance (t : MintableFungibleToken) (owner_id : string) : outcome Z :=
  account ← get_account t owner_id; Ok (balance account).
Definition get_allowance (t : MintableFungibleToken) (owner_id escrow_account_id : string) : outcome Z :=
  assert (is_valid_account_id (as_bytes escrow_account_id)) "Escrow account ID is invalid";;
  account ← get_account t owner_id; Ok (Account_get_allowance account escrow_account_id).

(** ** Minting *)

Definition locked_event : Event :=
  mkEvent "Locked"
    [mkEventParam "token" PTAddress true; mkEventParam "sender" PTAddress true;
     mkEventParam "amount" (PTUint 256) false; mkEventParam "accountId" PTString false] false.

Definition from_log_entry_data (data : list byte) : outcome EthEventData :=
  let none := "called `Option::unwrap()` on a `None` value" in
  log_entry ← decode_log data;
  params ← parse_log locked_event (le_topics log_entry) (le_data log_entry);
  p0 ← at_index params 0; token ← unwrap (to_address p0) none;
  p1 ← at_index params 1; sender ← unwrap (to_address p1) none;
  p2 ← at_index params 2; amount ← unwrap (to_uint p2) none; amount ← as_u128 amount;
  p3 ← at_index params 3; recipient ← unwrap (to_string p3) none;
  Ok (mkEventData (le_address log_entry) (hex_encode token) (hex_encode sender) amount recipient).

Definition event_to_string (e : EthEventData) : string :=
  "token: " +:+ ev_token e +:+ "; sender: " +:+ ev_sender e +:+ "; amount: " +:+ pretty (ev_amount e) +:+
  "; recipient: " +:+ ev_recipient e.

Definition proof_key (proof : EthProof) : list byte :=
  near_sha256 (le_bytes 8 (pf_log_index proof) ++ le_bytes 8 (pf_receipt_index proof) ++ pf_header_data proof).

Definition record_proof (t : MintableFungibleToken) (proof : EthProof) : outcome MintableFungibleToken :=
  let key := proof_key proof in
  assert (negb (bool_decide (key ∈ used_events t))) "Event cannot be reused for minting.";;
  Ok (with_events ({[ key ]} ∪ used_events t) t).

(** The promise that [mint] returns: a call of the prover with the proof, and then
    of [finish_mint] with the recipient, the amount and the deposit. *)
Record mint_promise := mkMintPromise {
  mp_proof : EthProof;
  mp_recipient : string;
  mp_amount : Z;
  mp_deposit : Z
}.

Definition mint (c : near_ctx) (t : MintableFungibleToken) (proof : EthProof)
    : outcome (MintableFungibleToken * list token_effect * mint_promise) :=
  let initial_storage := storage_usage t in
  t ← record_proof t proof;
  let current_storage := storage_usage t in
  bytes ← u64_sub current_storage initial_storage;
  required_deposit ← u128_mul bytes STORAGE_PRICE_PER_BYTE;
  leftover_deposit ← u128_sub (attached_deposit c) required_deposit;
  event ← from_log_entry_data (pf_log_entry_data proof);
  assert (bool_decide (ev_locker_address event = locker_address t))
    ("Event's address " +:+ hex_encode (ev_locker_address event) +:+
     " does not match locker address of this token " +:+ hex_encode (locker_address t));;
  Ok (t, [ELog (event_to_string event)],
      mkMintPromise proof (ev_recipient event) (ev_amount event) leftover_deposit).

Definition finish_mint (c : near_ctx) (t : MintableFungibleToken) (verification_success : bool)
    (new_owner_id : string) (amount : Z) : outcome (MintableFungibleToken * list token_effect) :=
  let initial_storage := storage_usage t in
  assert (bool_decide (predecessor_account_id c = current_account_id c))
    "Finish transfer is only allowed to be called by the contract itself";;
  assert verification_success "Failed to verify the proof";;
  account ← get_account t new_owner_id;
  sum ← u128_add (balance account) amount;
  supply ← u128_add (total_supply t) amount;
  let t := set_account (with_supply supply t) new_owner_id (with_balance sum account) in
  effects ← refund_storage c initial_storage t;
  Ok (t, effects).

Definition burn (c : near_ctx) (t : MintableFungibleToken) (amount : Z) (recipient : string)
    : outcome (MintableFungibleToken * (Z * list byte)) :=
  let owner := predecessor_account_id c in
  account ← get_account t owner;
  assert (amount <=? balance account) "Not enough balance";;
  rest ← u128_sub (balance account) amount;
  supply ← u128_sub (total_supply t) amount;
  let t := set_account (with_supply supply t) owner (with_balance rest account) in
  recipient ← hex_decode recipient;
  assert (length recipient =? 20)%nat "Recipient should be a 20-bytes long address";;
  Ok (t, (amount, recipient)).
End token.

(** ** Calls *)

(** The calls of other accounts that change the state. *)
Inductive token_call :=
| CallIncAllowance (escrow_account_id : string) (amount : Z)
| CallDecAllowance (escrow_account_id : string) (amount : Z)
| CallTransferFrom (owner_id new_owner_id : string) (amount : Z)
| CallTransfer (new_owner_id : string) (amount : Z).

Definition token_exec `{EthLibs} `{TokenLibs} (c : near_ctx) (t : MintableFungibleToken) (call : token_call)
    : outcome (MintableFungibleToken * list token_effect) :=
  match call with
  | CallIncAllowance e a => inc_allowance c t e a
  | CallDecAllowance e a => dec_allowance c t e a
  | CallTransferFrom o n a => transfer_from c t o n a
  | CallTransfer n a => token_transfer c t n a
  end.
