(* ===== verification/MintableSpec.v ===== *)
(** * Accounts of [MintableFungibleToken]

    The sum of all balances, and what each method does to it, to the supply and
    to the used events. *)

From Stdlib Require Import Strings.Byte.
From stdpp Require Import base list strings gmap pretty.
From Stdlib Require Import ZArith Lia.
From S2P Require Import Prelude Js EthClient EthClientSpec EthProver MintableToken.
Local Open Scope Z_scope.

(** ** The sum of the balances *)

Definition sum_balances (m : gmap (list byte) Account) : Z := map_fold (fun _ a s => balance a + s) 0 m.

Definition account_at (m : gmap (list byte) Account) (h : list byte) : Account := default Account_new (m !! h).

Lemma sum_insert_fresh (m : gmap (list byte) Account) (h : list byte) a :
  m !! h = None -> sum_balances (<[h := a]> m) = balance a + sum_balances m.
Proof. intros Hh. unfold sum_balances. rewrite map_fold_insert_L; [done| |done]. intros; lia. Qed.

Lemma sum_delete (m : gmap (list byte) Account) (h : list byte) :
  sum_balances (delete h m) = sum_balances m - balance (account_at m h).
Proof.
  unfold account_at. destruct (m !! h) as [a|] eqn:E; simpl.
  - rewrite <- (insert_delete_id m h a) at 2 by done.
    rewrite sum_insert_fresh by apply lookup_delete_eq. lia.
  - rewrite delete_id by done. lia.
Qed.

Lemma sum_insert (m : gmap (list byte) Account) (h : list byte) a :
  sum_balances (<[h := a]> m) = sum_balances m - balance (account_at m h) + balance a.
Proof.
  rewrite <- insert_delete_eq, sum_insert_fresh, sum_delete by apply lookup_delete_eq. lia.
Qed.

Lemma sum_nonneg (m : gmap (list byte) Account) :
  (forall h a, m !! h = Some a -> 0 <= balance a) -> 0 <= sum_balances m.
Proof.
  induction m as [|h a m Hm IH] using map_ind; intros Hall; [done|].
  rewrite sum_insert_fresh by done. pose proof (Hall h a (lookup_insert_eq _ _ _)).
  enough (0 <= sum_balances m) by lia. apply IH. intros h' a' Ha'. apply (Hall h').
  rewrite lookup_insert_ne; [done|]. intros ->. congruence.
Qed.

Lemma balance_le_total (m : gmap (list byte) Account) (h : list byte) :
  (forall h a, m !! h = Some a -> 0 <= balance a) -> 0 <= balance (account_at m h) <= sum_balances m.
Proof.
  intros Hall. unfold account_at. destruct (m !! h) as [a|] eqn:E; simpl; [|split; [done|by apply sum_nonneg]].
  split; [by eapply Hall|]. pose proof (sum_delete m h) as Hd. unfold account_at in Hd. rewrite E in Hd. simpl in Hd.
  enough (0 <= sum_balances (delete h m)) by lia. apply sum_nonneg.
  intros h' a' [_ Ha']%lookup_delete_Some. by eapply Hall.
Qed.

(** ** The invariant *)

Record token_ok (t : MintableFungibleToken) : Prop := {
  ok_balance h a : token_accounts t !! h = Some a -> 0 <= balance a;
  ok_supply : total_supply t = sum_balances (token_accounts t)
}.

Section methods.
Context `{EthLibs} `{RlpLists} `{TokenLibs}.

Definition balance_of (t : MintableFungibleToken) (owner : string) : Z :=
  balance (account_at (token_accounts t) (near_sha256 (as_bytes owner))).

Lemma get_account_ok t owner a : get_account t owner = Ok a ->
  a = account_at (token_accounts t) (near_sha256 (as_bytes owner)) /\ is_valid_account_id (as_bytes owner) = true.
Proof. unfold get_account. intros Hg. rust_step Hg. by injection Hg as <-. Qed.

(** What [set_account] leaves at the owner's hash has the account's balance. *)
Lemma set_account_balance t owner a h : 0 <= balance a ->
  balance (account_at (token_accounts (set_account t owner a)) h) =
  if decide (h = near_sha256 (as_bytes owner)) then balance a else balance (account_at (token_accounts t) h).
Proof.
  intros Ha. unfold set_account, account_at. destruct (Z.ltb_spec 0 (balance a)); simpl; [|destruct (bool_decide _); simpl];
    destruct (decide (h = near_sha256 (as_bytes owner))) as [->|Hne];
    rewrite ?lookup_insert_eq, ?lookup_delete_eq, ?lookup_insert_ne, ?lookup_delete_ne by done; simpl; try done; lia.
Qed.

Lemma set_account_allowance t owner a h :
  allowances (account_at (token_accounts (set_account t owner a)) h) =
  if decide (h = near_sha256 (as_bytes owner)) then allowances a else allowances (account_at (token_accounts t) h).
Proof.
  unfold set_account, account_at. destruct (0 <? balance a); simpl; [|case_bool_decide; simpl];
    destruct (decide (h = near_sha256 (as_bytes owner))) as [->|Hne];
    by rewrite ?lookup_insert_eq, ?lookup_delete_eq, ?lookup_insert_ne, ?lookup_delete_ne by done.
Qed.

Lemma set_account_sum t owner a : 0 <= balance a ->
  sum_balances (token_accounts (set_account t owner a)) =
  sum_balances (token_accounts t) - balance_of t owner + balance a.
Proof.
  intros Ha. unfold set_account, balance_of. destruct (Z.ltb_spec 0 (balance a)); simpl;
    [by rewrite sum_insert|destruct (bool_decide _); simpl; rewrite ?sum_insert, ?sum_delete; lia].
Qed.

Lemma set_account_nonneg t owner a : 0 <= balance a ->
  (forall h a, token_accounts t !! h = Some a -> 0 <= balance a) ->
  forall h a', token_accounts (set_account t owner a) !! h = Some a' -> 0 <= balance a'.
Proof.
  intros Ha Hall h a' Hl. unfold set_account in Hl. destruct (_ || _); simpl in Hl.
  - apply lookup_insert_Some in Hl as [[_ <-]|[_ Hl]]; [done|by eapply Hall].
  - apply lookup_delete_Some in Hl as [_ Hl]. by eapply Hall.
Qed.

(** What every method keeps: the addresses, and the used events but in [mint]. *)
Definition same_config (t t' : MintableFungibleToken) : Prop :=
  prover_account t' = prover_account t /\ locker_address t' = locker_address t /\ used_events t' = used_events t.
#[global] Instance same_config_preorder : PreOrder same_config.
Proof. split; [by intros t|]. intros t1 t2 t3 (? & ? & ?) (? & ? & ?). repeat split; congruence. Qed.

Lemma set_account_config t owner a : same_config t (set_account t owner a).
Proof. unfold set_account. by destruct (_ || _). Qed.
Lemma set_account_supply t owner a : total_supply (set_account t owner a) = total_supply t.
Proof. unfold set_account. by destruct (_ || _). Qed.

Lemma token_ok_set t owner a : token_ok t -> 0 <= balance a ->
  total_supply t - balance_of t owner + balance a = total_supply t -> token_ok (set_account t owner a).
Proof.
  intros [Hb Hs] Ha Hd. split; [by apply set_account_nonneg|].
  rewrite set_account_supply, set_account_sum by done. lia.
Qed.

(** ** Allowances *)

Lemma inc_allowance_ok c t escrow amount t' effects : token_ok t ->
  inc_allowance c t escrow amount = Ok (t', effects) ->
  token_ok t' /\ same_config t t' /\ total_supply t' = total_supply t.
Proof.
  intros Hok Hrun. unfold inc_allowance in Hrun. rust_step Hrun. case_bool_decide; [done|].
  rust_step Hrun. apply get_account_ok in E0 as [-> _]. rust_step Hrun. injection Hrun as <- _.
  pose proof (balance_le_total _ (near_sha256 (as_bytes (predecessor_account_id c))) (ok_balance _ Hok)).
  split_and!; [apply token_ok_set; [done|simpl; lia|unfold balance_of; simpl; lia]
    |apply set_account_config|apply set_account_supply].
Qed.

Lemma dec_allowance_ok c t escrow amount t' effects : token_ok t ->
  dec_allowance c t escrow amount = Ok (t', effects) ->
  token_ok t' /\ same_config t t' /\ total_supply t' = total_supply t.
Proof.
  intros Hok Hrun. unfold dec_allowance in Hrun. rust_step Hrun. case_bool_decide; [done|].
  rust_step Hrun. apply get_account_ok in E0 as [-> _]. rust_step Hrun. injection Hrun as <- _.
  pose proof (balance_le_total _ (near_sha256 (as_bytes (predecessor_account_id c))) (ok_balance _ Hok)).
  split_and!; [apply token_ok_set; [done|simpl; lia|unfold balance_of; simpl; lia]
    |apply set_account_config|apply set_account_supply].
Qed.

(** ** Transfers *)

(** What a transfer does, step by step: [owner] is left with [acc]. *)
Lemma transfer_from_run c t owner new_owner amount t' effects :
  transfer_from c t owner new_owner amount = Ok (t', effects) ->
  let h := near_sha256 (as_bytes owner) in
  exists acc t1, balance acc = balance_of t owner - amount /\ t1 = set_account t owner acc /\
    t' = set_account t1 new_owner (with_balance (balance_of t1 new_owner + amount)
           (account_at (token_accounts t1) (near_sha256 (as_bytes new_owner)))) /\
    amount <> 0 /\ owner <> new_owner /\ amount <= balance_of t owner /\ balance_of t1 new_owner + amount < 2 ^ 128 /\
    (predecessor_account_id c <> owner ->
       amount <= Account_get_allowance (account_at (token_accounts t) h) (predecessor_account_id c) /\
       acc = Account_set_allowance (with_balance (balance_of t owner - amount) (account_at (token_accounts t) h))
               (predecessor_account_id c)
               (Account_get_allowance (account_at (token_accounts t) h) (predecessor_account_id c) - amount)).
Proof.
  intros Hrun h. unfold transfer_from in Hrun. rust_step Hrun. destruct (Z.eqb_spec amount 0); [done|].
  rust_step Hrun. apply negb_true_iff, bool_decide_eq_false in E0. rust_step Hrun.
  apply get_account_ok in E1 as [-> _]. fold h in Hrun. destruct (Z.ltb_spec (balance (account_at (token_accounts t) h)) amount); [done|].
  unfold u128_sub in Hrun. rust_step Hrun. rename E1 into Hrest.
  apply obind_ok in Hrun as (acc & Hacc & Hrun). cbn beta zeta in Hrun. rust_step Hrun.
  apply get_account_ok in E1 as [-> _]. unfold u128_add in Hrun. rust_step Hrun. rust_step Hrun. injection Hrun as <- _.
  exists acc, (set_account t owner acc). unfold balance_of at 1. fold h.
  destruct (bool_decide_reflect (predecessor_account_id c = owner)) as [Hp|Hp]; simpl in Hacc.
  - injection Hacc as <-. split_and!; try done; unfold balance_of; fold h; simpl; lia.
  - destruct (Z.ltb_spec (Account_get_allowance (with_balance (balance (account_at (token_accounts t) h) - amount)
      (account_at (token_accounts t) h)) (predecessor_account_id c)) amount); [done|].
    rust_step Hacc. injection Hacc as <-. split_and!; try done; unfold balance_of; fold h; simpl; lia.
Qed.

Lemma transfer_from_ok c t owner new_owner amount t' effects : token_ok t -> 0 <= amount ->
  transfer_from c t owner new_owner amount = Ok (t', effects) ->
  token_ok t' /\ same_config t t' /\ total_supply t' = total_supply t.
Proof.
  intros [Hb Hs] Hamt Hrun. apply transfer_from_run in Hrun as (acc & t1 & Hacc & -> & -> & Hne & _ & Hle & _).
  assert (0 <= balance acc) as Hacc0 by lia.
  pose proof (set_account_nonneg t owner acc Hacc0 Hb) as Hb1.
  pose proof (balance_le_total _ (near_sha256 (as_bytes new_owner)) Hb1) as Hn. fold (balance_of (set_account t owner acc) new_owner) in Hn.
  split_and!.
  - split; [apply set_account_nonneg; [simpl; lia|done]|]. rewrite !set_account_supply, set_account_sum by (simpl; lia).
    rewrite set_account_sum by done. simpl. lia.
  - etransitivity; apply set_account_config.
  - by rewrite !set_account_supply.
Qed.

Lemma token_exec_ok c t call t' effects : token_ok t ->
  (match call with
   | CallIncAllowance _ a | CallDecAllowance _ a | CallTransferFrom _ _ a | CallTransfer _ a => 0 <= a
   end) ->
  token_exec c t call = Ok (t', effects) ->
  token_ok t' /\ same_config t t' /\ total_supply t' = total_supply t.
Proof.
  intros Hok Ha Hrun. destruct call; simpl in *.
  - by eapply inc_allowance_ok.
  - by eapply dec_allowance_ok.
  - by eapply transfer_from_ok.
  - by eapply transfer_from_ok.
Qed.

(** ** Minting and burning *)

Lemma mint_ok c t proof t' effects p : mint c t proof = Ok (t', effects, p) ->
  t' = with_events ({[ proof_key proof ]} ∪ used_events t) t /\ (proof_key proof ∉ used_events t) /\
  mp_proof p = proof /\
  exists event, from_log_entry_data (pf_log_entry_data proof) = Ok event /\
    ev_locker_address event = locker_address t /\ mp_recipient p = ev_recipient event /\ mp_amount p = ev_amount event.
Proof.
  unfold mint. intros Hrun. rust_step Hrun. unfold record_proof in E. rust_step E. injection E as <-.
  apply negb_true_iff, bool_decide_eq_false in E0. unfold u64_sub, u128_mul, u128_sub in Hrun. do 3 rust_step Hrun.
  apply obind_ok in Hrun as (event & Hev & Hrun). cbn beta in Hrun.
  apply obind_ok in Hrun as (? & Hlock%assert_ok%bool_decide_eq_true & Hrun). injection Hrun as <- _ <-.
  split_and!; try done. exists event. by split_and!.
Qed.

Lemma finish_mint_ok c t b owner amount t' effects : token_ok t -> 0 <= amount ->
  finish_mint c t b owner amount = Ok (t', effects) ->
  b = true /\ predecessor_account_id c = current_account_id c /\ token_ok t' /\ same_config t t' /\
  total_supply t' = total_supply t + amount /\
  (forall h, balance (account_at (token_accounts t') h) =
     balance (account_at (token_accounts t) h) + if decide (h = near_sha256 (as_bytes owner)) then amount else 0).
Proof.
  intros [Hb Hs] Ha Hrun. unfold finish_mint in Hrun. rust_step Hrun. apply bool_decide_eq_true in E.
  rust_step Hrun. rust_step Hrun. apply get_account_ok in E1 as [-> _]. unfold u128_add in Hrun.
  do 2 rust_step Hrun. rust_step Hrun. injection Hrun as <- _.
  pose proof (balance_le_total _ (near_sha256 (as_bytes owner)) Hb) as Hn.
  split_and!; try done.
  - split; [apply set_account_nonneg; [simpl; lia|done]|].
    rewrite set_account_supply, set_account_sum by (simpl; lia). unfold balance_of. simpl. lia.
  - etransitivity; [|apply set_account_config]. done.
  - by rewrite set_account_supply.
  - intros h. rewrite set_account_balance by (simpl; lia). simpl. destruct (decide _) as [->|]; lia.
Qed.

Lemma burn_ok c t amount recipient t' r : token_ok t -> 0 <= amount ->
  burn c t amount recipient = Ok (t', r) ->
  token_ok t' /\ same_config t t' /\ total_supply t' = total_supply t - amount /\ r.1 = amount /\
  (forall h, balance (account_at (token_accounts t') h) =
     balance (account_at (token_accounts t) h) -
     if decide (h = near_sha256 (as_bytes (predecessor_account_id c))) then amount else 0).
Proof.
  intros [Hb Hs] Ha Hrun. unfold burn in Hrun. rust_step Hrun. apply get_account_ok in E as [-> _].
  rust_step Hrun. apply Z.leb_le in E. unfold u128_sub in Hrun. do 2 rust_step Hrun. do 2 rust_step Hrun.
  injection Hrun as <- <-. pose proof (balance_le_total _ (near_sha256 (as_bytes (predecessor_account_id c))) Hb) as Hn.
  split_and!; try done.
  - split; [apply set_account_nonneg; [simpl; lia|done]|].
    rewrite set_account_supply, set_account_sum by (simpl; lia). unfold balance_of. simpl. lia.
  - etransitivity; [|apply set_account_config]. done.
  - by rewrite set_account_supply.
  - intros h. rewrite set_account_balance by (simpl; lia). simpl. destruct (decide _) as [->|]; lia.
Qed.

Lemma from_log_entry_amount data event : (forall e ts d ps z i, parse_log e ts d = Ok ps -> ps !! i = Some (TUint z) -> 0 <= z) ->
  from_log_entry_data data = Ok event -> 0 <= ev_amount event.
Proof.
  intros Hpos Hrun. unfold from_log_entry_data in Hrun. do 2 rust_step Hrun. do 4 rust_step Hrun.
  apply obind_ok in Hrun as (p2 & Hp2%unwrap_ok & Hrun). rust_step Hrun.
  apply obind_ok in Hrun as (am & Ham & Hrun). do 2 rust_step Hrun. injection Hrun as <-. simpl.
  unfold as_u128 in Ham. destruct (_ <? _); [|done]. injection Ham as <-.
  destruct p2; try done. injection E5 as ->. by eapply Hpos.
Qed.
End methods.
