(* ===== verification/MintableWorld.v ===== *)
(** * The token, the prover and the client together

    The contracts of the NEAR side and the promises between them: [mint] schedules
    [verify_log_entry] of the prover, that one [block_hash_safe] of the client and
    [on_block_hash], and the answer goes to [finish_mint].  Other calls happen in
    between.  Ghost state: the proofs that were minted for and the results of the
    calls of [burn]. *)

From Stdlib Require Import Strings.Byte.
From stdpp Require Import base list strings gmap relations.
From Stdlib Require Import ZArith Lia.
From S2P Require Import Prelude Js EthClient EthClientSpec EthClientInv EthClientTheorems EthProver.
From S2P Require Import EthProverTheorems MintableToken MintableSpec.
Local Open Scope Z_scope.

Inductive mint_stage :=
| Verifying
| Asking (number : Z) (hash : list byte)
| Answered (answer : option bool).

Record pending_mint := mkPending {
  pd_promise : mint_promise;
  pd_signer : string;
  pd_stage : mint_stage
}.
Definition pd_proof (p : pending_mint) : EthProof := mp_proof (pd_promise p).

Record near_world := mkNearWorld {
  nw_token : MintableFungibleToken;
  nw_client : EthClient;
  nw_pending : list pending_mint;
  nw_minted : list EthProof;
  nw_unlocked : list (Z * list byte)
}.

Section world.
Context `{EthLibs} `{RlpLists} `{TokenLibs} (eth : BlockHeader -> Prop) (token_id prover_id : string).

(** The prover's part: the answer of [verify_log_entry], or its failure. *)
Definition verify_stage (p : EthProof) : mint_stage :=
  match verify_log_entry (pf_log_index p) (pf_log_entry_data p) (pf_receipt_index p) (pf_receipt_data p)
          (pf_header_data p) (pf_proof p) false with
  | Ok (PValue b) => Answered (Some b)
  | Ok (PBlockHash number hash) => Asking number hash
  | _ => Answered None
  end.

(** The client's part and the prover's comparison. *)
Definition answer_stage (client : EthClient) (number : Z) (hash : list byte) : mint_stage :=
  match resolve prover_id client (PBlockHash number hash) with
  | Ok b => Answered (Some b)
  | _ => Answered None
  end.

(** The token's callback; a failed promise makes it fail before it starts. *)
Definition finish_stage (t : MintableFungibleToken) (p : pending_mint) (answer : option bool)
    : outcome (MintableFungibleToken * list token_effect) :=
  b ← unwrap answer "Callback computation was not successful";
  finish_mint (mkNearCtx token_id token_id (pd_signer p) (mp_deposit (pd_promise p))) t b
    (mp_recipient (pd_promise p)) (mp_amount (pd_promise p)).

Definition call_amount (call : token_call) : Z :=
  match call with
  | CallIncAllowance _ a | CallDecAllowance _ a | CallTransferFrom _ _ a | CallTransfer _ a => a
  end.

Inductive near_step : near_world -> near_world -> Prop :=
| step_call t cl ps ms us c call t' effects :
    0 <= call_amount call < 2 ^ 128 -> token_exec c t call = Ok (t', effects) ->
    near_step (mkNearWorld t cl ps ms us) (mkNearWorld t' cl ps ms us)
| step_burn t cl ps ms us c amount recipient t' r :
    0 <= amount < 2 ^ 128 -> burn c t amount recipient = Ok (t', r) ->
    near_step (mkNearWorld t cl ps ms us) (mkNearWorld t' cl ps ms (r :: us))
| step_mint t cl ps ms us c proof t' effects promise :
    mint c t proof = Ok (t', effects, promise) ->
    near_step (mkNearWorld t cl ps ms us)
      (mkNearWorld t' cl (mkPending promise (signer_account_id c) Verifying :: ps) ms us)
| step_client t cl ps ms us signer data header nodes cl' :
    decode_header data = Ok header -> eth header -> add_block_header cl signer data nodes = Ok cl' ->
    near_step (mkNearWorld t cl ps ms us) (mkNearWorld t cl' ps ms us)
| step_verify t cl ps1 p ps2 ms us :
    pd_stage p = Verifying ->
    near_step (mkNearWorld t cl (ps1 ++ p :: ps2) ms us)
      (mkNearWorld t cl (ps1 ++ mkPending (pd_promise p) (pd_signer p) (verify_stage (pd_proof p)) :: ps2) ms us)
| step_answer t cl ps1 p ps2 ms us number hash :
    pd_stage p = Asking number hash ->
    near_step (mkNearWorld t cl (ps1 ++ p :: ps2) ms us)
      (mkNearWorld t cl (ps1 ++ mkPending (pd_promise p) (pd_signer p) (answer_stage cl number hash) :: ps2) ms us)
| step_finish t cl ps1 p ps2 ms us answer t' effects :
    pd_stage p = Answered answer -> finish_stage t p answer = Ok (t', effects) ->
    near_step (mkNearWorld t cl (ps1 ++ p :: ps2) ms us) (mkNearWorld t' cl (ps1 ++ ps2) (pd_proof p :: ms) us)
| step_fail t cl ps1 p ps2 ms us answer :
    pd_stage p = Answered answer -> is_ok (finish_stage t p answer) = false ->
    near_step (mkNearWorld t cl (ps1 ++ p :: ps2) ms us) (mkNearWorld t cl (ps1 ++ ps2) ms us).

Inductive near_start : near_world -> Prop :=
| init_world prover locker t cl :
    token_new false prover locker = Ok t -> client_reach eth cl -> near_start (mkNearWorld t cl [] [] []).
Definition near_reach (w : near_world) : Prop := exists w0, near_start w0 /\ rtc near_step w0 w.

(** ** What the states have in common *)

Definition event_amount (p : EthProof) : Z :=
  match from_log_entry_data (pf_log_entry_data p) with Ok e => ev_amount e | _ => 0 end.
Definition sum_minted (ms : list EthProof) : Z := foldr (fun p s => event_amount p + s) 0 ms.
Definition sum_unlocked (us : list (Z * list byte)) : Z := foldr (fun u s => u.1 + s) 0 us.

(** A log entry of the locker, proved at some state of the client. *)
Definition proved_event (p : EthProof) : Prop :=
  exists client, client_reach eth client /\
    verified_log client (pf_log_index p) (pf_log_entry_data p) (pf_receipt_index p) (pf_receipt_data p)
      (pf_header_data p) (pf_proof p).
Definition locker_event (t : MintableFungibleToken) (p : EthProof) : Prop :=
  exists event, from_log_entry_data (pf_log_entry_data p) = Ok event /\ ev_locker_address event = locker_address t.

Record promise_ok (t : MintableFungibleToken) (p : pending_mint) : Prop := {
  pr_event : exists event, from_log_entry_data (pf_log_entry_data (pd_proof p)) = Ok event /\
    ev_locker_address event = locker_address t /\ mp_recipient (pd_promise p) = ev_recipient event /\
    mp_amount (pd_promise p) = ev_amount event;
  pr_asking number hash : pd_stage p = Asking number hash -> verify_stage (pd_proof p) = Asking number hash;
  pr_proved : pd_stage p = Answered (Some true) -> proved_event (pd_proof p)
}.

Record world_ok (w : near_world) : Prop := {
  wo_token : token_ok (nw_token w);
  wo_client : client_reach eth (nw_client w);
  wo_supply : total_supply (nw_token w) + sum_unlocked (nw_unlocked w) = sum_minted (nw_minted w);
  wo_fresh : NoDup (map proof_key (nw_minted w ++ map pd_proof (nw_pending w)));
  wo_used p : p ∈ nw_minted w ++ map pd_proof (nw_pending w) -> proof_key p ∈ used_events (nw_token w);
  wo_pending : Forall (promise_ok (nw_token w)) (nw_pending w);
  wo_minted : Forall (fun p => proved_event p /\ locker_event (nw_token w) p) (nw_minted w)
}.

(** A state with the same addresses and used events has the same promises. *)
Lemma promise_ok_config t t' p : locker_address t' = locker_address t -> promise_ok t p -> promise_ok t' p.
Proof. intros E [He Ha Hp]. split; [by rewrite E|done|done]. Qed.
Lemma promises_config t t' ps : locker_address t' = locker_address t ->
  Forall (promise_ok t) ps -> Forall (promise_ok t') ps.
Proof. intros E Hf. apply (Forall_impl _ _ _ Hf). intros p. by apply promise_ok_config. Qed.
Lemma minted_config t t' ms : locker_address t' = locker_address t ->
  Forall (fun p => proved_event p /\ locker_event t p) ms -> Forall (fun p => proved_event p /\ locker_event t' p) ms.
Proof. intros E Hf. apply (Forall_impl _ _ _ Hf). intros p. unfold locker_event. by rewrite E. Qed.

Lemma world_ok_token w t' : world_ok w -> token_ok t' -> same_config (nw_token w) t' ->
  total_supply t' = total_supply (nw_token w) ->
  world_ok (mkNearWorld t' (nw_client w) (nw_pending w) (nw_minted w) (nw_unlocked w)).
Proof.
  intros [Ht Hc Hs Hf Hu Hp Hm] Ht' (_ & Hl & Hev) Hsup. split; simpl; try done.
  - by rewrite Hsup.
  - rewrite Hev. done.
  - by eapply promises_config.
  - by eapply minted_config.
Qed.

(** A promise that changes its stage. *)
Lemma world_ok_stage t cl ps1 p ps2 ms us st :
  world_ok (mkNearWorld t cl (ps1 ++ p :: ps2) ms us) ->
  let p' := mkPending (pd_promise p) (pd_signer p) st in
  (promise_ok t p -> promise_ok t p') -> world_ok (mkNearWorld t cl (ps1 ++ p' :: ps2) ms us).
Proof.
  intros [Ht Hc Hs Hf Hu Hp Hm] p' Hp'. simpl in *.
  assert (map pd_proof (ps1 ++ p' :: ps2) = map pd_proof (ps1 ++ p :: ps2)) as E by (by rewrite !map_app).
  split; simpl; rewrite ?E; try done. rewrite Forall_app, Forall_cons in *. tauto.
Qed.

(** A promise that ends; the proof may be minted for. *)
Lemma pending_permutation (ms : list EthProof) ps1 p ps2 :
  ms ++ map pd_proof (ps1 ++ p :: ps2) ≡ₚ pd_proof p :: ms ++ map pd_proof (ps1 ++ ps2).
Proof. rewrite !map_app. simpl. solve_Permutation. Qed.

Hypothesis empty_not_rlp : forall i b, rlp_bool_at [] i <> Ok b.
Hypothesis uints_nonneg : forall e ts d ps z i, parse_log e ts d = Ok ps -> ps !! i = Some (TUint z) -> 0 <= z.

Lemma verify_resolved cl (p : EthProof) pv :
  client_reach eth cl ->
  verify_log_entry (pf_log_index p) (pf_log_entry_data p) (pf_receipt_index p) (pf_receipt_data p)
    (pf_header_data p) (pf_proof p) false = Ok pv ->
  resolve prover_id cl pv = Ok true -> proved_event p.
Proof.
  intros Hc Hv Hr. exists cl. split; [done|].
  edestruct (verify_log_entry_sound prover_id) as (header & Hin & Hcl); [|exact Hv|exact Hr|].
  { intros He. rewrite He in Hv. unfold verify_log_entry in Hv. apply obind_ok in Hv as (log & _ & Hv).
    apply obind_ok in Hv as (rc & Hrc & _). unfold decode_receipt in Hrc. apply obind_ok in Hrc as (b & Hb & _).
    by apply empty_not_rlp in Hb. }
  destruct (Hcl eq_refl) as (hash & Hh & Hs). by exists header, hash.
Qed.

Lemma verify_stage_ok t p : client_reach eth (nw_client (mkNearWorld t p [] [] [])) -> forall q,
  promise_ok t q -> promise_ok t (mkPending (pd_promise q) (pd_signer q) (verify_stage (pd_proof q))).
Proof.
  simpl. intros Hc q [He _ _]. split; [done|by intros number hash|].
  intros Hst. unfold pd_proof in *. simpl in *. unfold verify_stage in Hst.
  destruct (verify_log_entry _ _ _ _ _ _ _) as [[b|n h]| | |] eqn:Ev; try done. injection Hst as ->.
  by apply (verify_resolved p _ (PValue true)).
Qed.

Lemma answer_stage_ok t cl q number hash : client_reach eth cl -> pd_stage q = Asking number hash ->
  promise_ok t q -> promise_ok t (mkPending (pd_promise q) (pd_signer q) (answer_stage cl number hash)).
Proof.
  intros Hc Hst [He Ha _]. split; [done| |].
  - intros n h. simpl. unfold answer_stage. by destruct (resolve _ _ _).
  - intros Hans. simpl in Hans. specialize (Ha _ _ Hst). unfold verify_stage in Ha. unfold answer_stage in Hans.
    destruct (verify_log_entry _ _ _ _ _ _ _) as [[b|n h]| | |] eqn:Ev; try done. injection Ha as -> ->.
    destruct (resolve _ _ _) as [b| | |] eqn:Er; try done. injection Hans as ->.
    by apply (verify_resolved cl _ (PBlockHash number hash)).
Qed.

(** A new claim: the key of the event was not used. *)
Lemma world_ok_mint t cl ps ms us c proof t' effects promise :
  world_ok (mkNearWorld t cl ps ms us) -> mint c t proof = Ok (t', effects, promise) ->
  world_ok (mkNearWorld t' cl (mkPending promise (signer_account_id c) Verifying :: ps) ms us).
Proof.
  intros Hok Hrun.
  destruct Hok as [Ht Hc Hs Hf Hu Hp Hm]. simpl in *.
  apply mint_ok in Hrun as (-> & Hfr & Hpp & event & He & Hl & Hr & Ham).
  assert (pd_proof (mkPending promise (signer_account_id c) Verifying) = proof) as Hpd by done.
  split; simpl; rewrite ?Hpd; try done.
  - by destruct Ht; split.
  - rewrite <- Permutation_middle. simpl. apply NoDup_cons. split; [|done].
    intros (q & Hq & Hin)%list_elem_of_fmap. apply Hfr. rewrite Hq. by apply Hu.
  - intros q. rewrite <- Permutation_middle, elem_of_cons. intros [->|Hin]; [by apply elem_of_union_l, elem_of_singleton|].
    apply elem_of_union_r. by apply Hu.
  - constructor; [|by apply (promises_config t)]. split; simpl; [|done|done]. exists event. by rewrite Hpd.
Qed.

(** A mint that is finished. *)
Lemma world_ok_finish t cl ps1 p ps2 ms us answer t' effects :
  world_ok (mkNearWorld t cl (ps1 ++ p :: ps2) ms us) -> pd_stage p = Answered answer ->
  finish_stage t p answer = Ok (t', effects) ->
  world_ok (mkNearWorld t' cl (ps1 ++ ps2) (pd_proof p :: ms) us).
Proof.
  intros Hok Hst Hrun.
  destruct Hok as [Ht Hc Hs Hf Hu Hp Hm]. simpl in *. rewrite pending_permutation in Hf.
  apply Forall_app in Hp as [Hp1 [Hpp Hp2]%Forall_cons].
  destruct (pr_event _ _ Hpp) as (event & He & Hl & Hr & Ham).
  unfold finish_stage in Hrun. destruct answer as [b|]; [|done]. cbn [unwrap mbind outcome_bind] in Hrun.
  apply finish_mint_ok in Hrun as (-> & _ & Ht' & (_ & Hl' & Hev) & Hsup & _);
    [|done|rewrite Ham; by eapply from_log_entry_amount].
  split; simpl; try done.
  - rewrite Hsup. unfold event_amount. rewrite He. lia.
  - intros q Hq. rewrite Hev. apply Hu. by rewrite pending_permutation.
  - eapply promises_config; [done|]. by apply Forall_app.
  - eapply minted_config; [done|]. constructor; [|done]. split; [by apply (pr_proved _ _ Hpp)|]. by exists event.
Qed.

Lemma step_ok w w' : world_ok w -> near_step w w' -> world_ok w'.
Proof.
  intros Hok Hstep.
  destruct Hstep as [t cl ps ms us c call t' effects Ha Hrun|t cl ps ms us c amount recipient t' r Ha Hrun
    |t cl ps ms us c proof t' effects promise Hrun|t cl ps ms us signer data header nodes cl' Hd He Hrun
    |t cl ps1 p ps2 ms us Hst|t cl ps1 p ps2 ms us number hash Hst
    |t cl ps1 p ps2 ms us answer t' effects Hst Hrun|t cl ps1 p ps2 ms us answer Hst Hrun].
  - apply token_exec_ok in Hrun as (Ht & Hc & Hs); [|apply Hok|destruct call; simpl in *; lia].
    by apply (world_ok_token _ t' Hok).
  - destruct Hok as [Ht Hc Hs Hf Hu Hp Hm]. simpl in *.
    apply burn_ok in Hrun as (Ht' & (_ & Hl & Hev) & Hsup & Hr & _); [|done|lia]. split; simpl; try done.
    + lia.
    + by rewrite Hev.
    + by eapply promises_config.
    + by eapply minted_config.
  - by eapply world_ok_mint.
  - destruct Hok as [Ht Hc Hs Hf Hu Hp Hm]. simpl in *. split; simpl; try done. by eapply reach_add.
  - apply world_ok_stage; [done|]. eapply (verify_stage_ok t cl). apply Hok.
  - apply world_ok_stage; [done|]. eapply answer_stage_ok; [|done]. apply Hok.
  - by eapply world_ok_finish.
  - destruct Hok as [Ht Hc Hs Hf Hu Hp Hm]. simpl in *. rewrite pending_permutation in Hf. split; simpl; try done.
    + by apply NoDup_cons in Hf as [_ Hf].
    + intros q Hq. apply Hu. rewrite pending_permutation. by right.
    + rewrite Forall_app, Forall_cons in *. tauto.
Qed.

Lemma steps_ok w w' : world_ok w -> rtc near_step w w' -> world_ok w'.
Proof. intros Hok Hsteps. induction Hsteps as [|w w1 w' Hstep _ IH]; [done|]. apply IH. by eapply step_ok. Qed.

Lemma near_reach_ok w : near_reach w -> world_ok w.
Proof.
  intros (w0 & Hinit & Hsteps). apply (steps_ok w0); [|done].
  destruct Hinit as [prover locker t cl Hnew Hcl]. unfold token_new in Hnew. do 3 rust_step Hnew.
  injection Hnew as <-. split; simpl; try done.
  all: try by constructor.
  intros p Hp. by apply elem_of_nil in Hp.
Qed.
End world.
