(* ===== verification/MintableTheorems.v ===== *)
(** * Theorems about the token and the contracts it relies on *)

From Stdlib Require Import Strings.Byte.
From stdpp Require Import base list strings gmap relations.
From Stdlib Require Import ZArith Lia.
From S2P Require Import Prelude Js EthClient EthClientSpec EthClientInv EthClientTheorems EthProver.
From S2P Require Import EthProverTheorems MintableToken MintableSpec MintableWorld.
Local Open Scope Z_scope.

(** ** Backing *)

Definition claim_of (p : EthProof) : Z * Z * list byte := (pf_log_index p, pf_receipt_index p, pf_header_data p).
(** The log entry that a claim is for: the prover reads the lower 32 bits of the
    log index. *)
Definition entry_of (p : EthProof) : Z * Z * list byte :=
  (as_usize (pf_log_index p), pf_receipt_index p, pf_header_data p).
Definition narrow (p : EthProof) : Prop := 0 <= pf_log_index p < 2 ^ 32.
#[local] Instance narrow_dec p : Decision (narrow p).
Proof. unfold narrow. apply _. Defined.

Lemma NoDup_map_weaken {A B C} (f : A -> B) (g : A -> C) (l : list A) :
  (forall x y, x ∈ l -> y ∈ l -> g x = g y -> f x = f y) -> NoDup (map f l) -> NoDup (map g l).
Proof.
  induction l as [|x l IH]; simpl; intros Hfg Hf; [constructor|]. apply NoDup_cons in Hf as [Hx Hf].
  apply NoDup_cons. split; [|apply IH; [|done]; intros y z Hy Hz; apply Hfg; by right].
  intros (y & Hy & Hin)%list_elem_of_fmap. apply Hx, list_elem_of_fmap. exists y. split; [|done].
  apply Hfg; [by left|by right|done].
Qed.


(** ** Transfers *)

(** C35: a transfer that succeeds moves the amount from the owner to the new owner
    and leaves all other balances; an escrow account needs an allowance of the
    amount, which is reduced by it. *)
Theorem transfer_from_effect `{EthLibs} `{TokenLibs} (c : near_ctx) (t : MintableFungibleToken)
    (owner new_owner : string) (amount : Z) (t' : MintableFungibleToken) (effects : list token_effect) :
  token_ok t -> 0 <= amount -> near_sha256 (as_bytes owner) <> near_sha256 (as_bytes new_owner) ->
  transfer_from c t owner new_owner amount = Ok (t', effects) ->
  0 < amount <= balance_of t owner /\
  balance_of t' owner = balance_of t owner - amount /\
  balance_of t' new_owner = balance_of t new_owner + amount /\
  (forall h, h <> near_sha256 (as_bytes owner) -> h <> near_sha256 (as_bytes new_owner) ->
     balance (account_at (token_accounts t') h) = balance (account_at (token_accounts t) h)) /\
  (predecessor_account_id c <> owner -> exists allowance,
     allowances (account_at (token_accounts t) (near_sha256 (as_bytes owner)))
       !! near_sha256 (as_bytes (predecessor_account_id c)) = Some allowance /\ amount <= allowance /\
     Account_get_allowance (account_at (token_accounts t') (near_sha256 (as_bytes owner))) (predecessor_account_id c)
       = allowance - amount).
Proof.
  intros [Hb _] Ha Hne Hrun. apply transfer_from_run in Hrun as (acc & t1 & Hacc & -> & -> & H0' & _ & Hle & _ & Hal).
  set (ho := near_sha256 (as_bytes owner)) in *. set (hn := near_sha256 (as_bytes new_owner)) in *.
  assert (0 <= balance acc) as Hacc0 by lia.
  assert (balance_of (set_account t owner acc) new_owner = balance_of t new_owner) as Hbn.
  { unfold balance_of at 1. rewrite set_account_balance by done. fold hn ho. by rewrite decide_False. }
  assert (0 <= balance_of t new_owner) as Hn by apply (balance_le_total _ _ Hb).
  assert (0 <= balance_of (set_account t owner acc) new_owner + amount) as Hge by lia.
  split_and!; try lia.
  - unfold balance_of. rewrite set_account_balance by exact Hge. fold hn ho. rewrite decide_False by done.
    rewrite set_account_balance by done. fold ho. rewrite decide_True by done. unfold balance_of in Hacc. fold ho in Hacc. lia.
  - unfold balance_of at 1. rewrite set_account_balance by exact Hge. fold hn. rewrite decide_True by done. simpl. lia.
  - intros h Hho Hhn. rewrite set_account_balance by exact Hge. fold hn. rewrite decide_False by done.
    rewrite set_account_balance by done. fold ho. by rewrite decide_False.
  - intros Hp. destruct (Hal Hp) as [Hall Hset]. unfold Account_get_allowance in Hall at 1.
    destruct (allowances (account_at (token_accounts t) ho) !! _) as [al|] eqn:Eal; [|simpl in Hall; lia].
    exists al. split_and!; [done|done|]. simpl in Hall.
    assert (Account_get_allowance (account_at (token_accounts t) ho) (predecessor_account_id c) = al) as Eg
      by (unfold Account_get_allowance; by rewrite Eal).
    unfold Account_get_allowance at 1. rewrite !set_account_allowance. fold ho hn.
    rewrite decide_False, decide_True, Hset, Eg by done. unfold Account_set_allowance. simpl.
    destruct (Z.ltb_spec 0 (al - amount)); [by rewrite lookup_insert_eq|]. rewrite lookup_delete_eq. simpl. lia.
Qed.

(** ** A mint from start to end *)

Section full.
Context `{EthLibs} `{RlpLists} `{TokenLibs} (eth : BlockHeader -> Prop) (token_id prover_id : string).

(** The answer that the callback gets when nothing happens in between. *)
Definition settled (cl : EthClient) (p : EthProof) : option bool :=
  match verify_stage p with
  | Verifying => None
  | Asking number hash => match answer_stage prover_id cl number hash with Answered a => a | _ => None end
  | Answered a => a
  end.

Definition full_mint (c : near_ctx) (w : near_world) (p : EthProof) : outcome near_world :=
  '(t1, _, promise) ← mint c (nw_token w) p;
  '(t2, _) ← finish_stage token_id t1 (mkPending promise (signer_account_id c) Verifying) (settled (nw_client w) p);
  Ok (mkNearWorld t2 (nw_client w) (nw_pending w) (p :: nw_minted w) (nw_unlocked w)).

Lemma verify_stage_started p : verify_stage p <> Verifying.
Proof. unfold verify_stage. by destruct (verify_log_entry _ _ _ _ _ _ _) as [[]| | |]. Qed.

(** The promise of a proof gets its answer. *)
Lemma settled_steps t cl promise signer ps ms us :
  rtc (near_step eth token_id prover_id) (mkNearWorld t cl (mkPending promise signer Verifying :: ps) ms us)
    (mkNearWorld t cl (mkPending promise signer (Answered (settled cl (mp_proof promise))) :: ps) ms us).
Proof.
  eapply rtc_l; [apply (step_verify _ _ _ t cl [] (mkPending promise signer Verifying) ps ms us); done|].
  unfold settled, pd_proof. simpl. destruct (verify_stage (mp_proof promise)) as [|n h|a] eqn:Ev; [|..|done].
  - by apply verify_stage_started in Ev.
  - eapply rtc_l; [by apply (step_answer _ _ _ t cl [] (mkPending promise signer (Asking n h)) ps ms us n h)|].
    simpl. unfold answer_stage. by destruct (resolve _ _ _).
Qed.

Lemma full_mint_steps c w p w' : full_mint c w p = Ok w' -> rtc (near_step eth token_id prover_id) w w'.
Proof.
  destruct w as [t cl ps ms us]. unfold full_mint. simpl. intros Hrun.
  apply obind_ok in Hrun as ([[t1 effects] promise] & Hmint & Hrun).
  apply obind_ok in Hrun as ([t2 effects'] & Hfin & Hrun). injection Hrun as <-.
  eapply rtc_l; [by eapply step_mint|]. etransitivity; [apply settled_steps|].
  apply mint_ok in Hmint as (_ & _ & Hp & _). rewrite Hp. apply rtc_once.
  pose proof (step_finish eth token_id prover_id t1 cl []
    (mkPending promise (signer_account_id c) (Answered (settled cl p))) ps ms us _ t2 effects' eq_refl Hfin) as Hs.
  unfold pd_proof in Hs. simpl in Hs. by rewrite Hp in Hs.
Qed.

(** Used events stay used. *)
Lemma step_used w w' k : world_ok eth w -> near_step eth token_id prover_id w w' ->
  (forall e ts d ps z i, parse_log e ts d = Ok ps -> ps !! i = Some (TUint z) -> 0 <= z) ->
  k ∈ used_events (nw_token w) -> k ∈ used_events (nw_token w').
Proof.
  intros Hok Hstep Hpos. destruct Hstep; simpl; try done.
  - apply token_exec_ok in H3 as (_ & (_ & _ & ->) & _); [done|apply Hok|destruct call; simpl in *; lia].
  - apply burn_ok in H3 as (_ & (_ & _ & ->) & _); [done|apply Hok|lia].
  - apply mint_ok in H2 as (-> & _). apply elem_of_union_r.
  - pose proof (wo_pending _ _ Hok) as Hp. simpl in Hp. apply Forall_app in Hp as [_ [Hp _]%Forall_cons].
    destruct (pr_event _ _ _ Hp) as (event & He & _ & _ & Ham). unfold finish_stage in H3.
    destruct answer as [b|]; [|done]. cbn [unwrap mbind outcome_bind] in H3.
    apply finish_mint_ok in H3 as (_ & _ & _ & (_ & _ & ->) & _); [done|apply Hok|].
    rewrite Ham. by eapply from_log_entry_amount.
Qed.

Lemma steps_used w w' k : (forall i b, rlp_bool_at [] i <> Ok b) ->
  (forall e ts d ps z i, parse_log e ts d = Ok ps -> ps !! i = Some (TUint z) -> 0 <= z) ->
  world_ok eth w -> rtc (near_step eth token_id prover_id) w w' ->
  k ∈ used_events (nw_token w) -> k ∈ used_events (nw_token w').
Proof.
  intros Hrlp Hpos Hok Hsteps. induction Hsteps as [|w w1 w' Hstep _ IH]; [done|]. intros Hk.
  apply IH; [by eapply step_ok|by eapply step_used].
Qed.

Lemma mint_used c t p : proof_key p ∈ used_events t ->
  mint c t p = Throw (Error "Event cannot be reused for minting.").
Proof. intros Hk. unfold mint, record_proof. by rewrite bool_decide_true. Qed.

(** The empty proof proves nothing. *)
Definition without_proof (p : EthProof) : EthProof :=
  mkProof (pf_log_index p) (pf_log_entry_data p) (pf_receipt_index p) (pf_receipt_data p) (pf_header_data p) [].
Lemma verify_stage_empty p : verify_stage (without_proof p) = Answered None.
Proof.
  unfold verify_stage. destruct (verify_log_entry _ _ _ _ _ _ _) as [r| | |] eqn:Ev; try done. exfalso.
  unfold verify_log_entry in Ev. do 3 (apply obind_ok in Ev as (? & _ & Ev)).
  apply obind_ok in Ev as (? & _ & Ev). apply obind_ok in Ev as (? & _ & Ev). apply obind_ok in Ev as (? & Ht & _).
  by unfold verify_trie_proof in Ht.
Qed.

Lemma failed_promise_steps t cl p promise signer ps ms us : mp_proof promise = without_proof p ->
  rtc (near_step eth token_id prover_id) (mkNearWorld t cl (mkPending promise signer Verifying :: ps) ms us)
    (mkNearWorld t cl ps ms us).
Proof.
  intros Hp. etransitivity; [apply settled_steps|]. unfold settled. rewrite Hp, verify_stage_empty.
  apply rtc_once. by apply (step_fail _ _ _ t cl [] (mkPending promise signer (Answered None)) ps ms us None).
Qed.
End full.

(** C12: an event can be blocked by anyone, forever: a call of [mint] with the
    event's log index, receipt index and header but an empty proof records the
    event as used before anything is verified.  The verification then fails and
    mints nothing, and from then on [mint] with the real proof panics in every
    state. *)
Theorem failed_mint_blocks_event `{EthLibs} `{RlpLists} `{TokenLibs} (eth : BlockHeader -> Prop)
    (token_id prover_id : string) (w : near_world) (c : near_ctx) (p : EthProof) (t' : MintableFungibleToken)
    (effects : list token_effect) (promise : mint_promise) :
  (forall i b, rlp_bool_at [] i <> Ok b) ->
  (forall e ts d ps z i, parse_log e ts d = Ok ps -> ps !! i = Some (TUint z) -> 0 <= z) ->
  near_reach eth token_id prover_id w ->
  mint c (nw_token w) (without_proof p) = Ok (t', effects, promise) ->
  exists w1, rtc (near_step eth token_id prover_id) w w1 /\
    nw_minted w1 = nw_minted w /\ token_accounts (nw_token w1) = token_accounts (nw_token w) /\
    (forall w2 c', rtc (near_step eth token_id prover_id) w1 w2 ->
       mint c' (nw_token w2) p = Throw (Error "Event cannot be reused for minting.")).
Proof.
  intros Hrlp Hpos Hr Hmint. destruct w as [t cl ps ms us]. simpl in *.
  pose proof Hmint as (Ht & _ & Hp & _)%mint_ok.
  assert (rtc (near_step eth token_id prover_id) (mkNearWorld t cl ps ms us) (mkNearWorld t' cl ps ms us)) as Hsteps.
  { eapply rtc_l; [by eapply step_mint|]. by eapply failed_promise_steps. }
  exists (mkNearWorld t' cl ps ms us). split_and!; [done|done|by rewrite Ht|].
  intros w2 c' Hw2. apply mint_used. eapply (steps_used eth token_id prover_id (mkNearWorld t' cl ps ms us)); try done.
  - eapply steps_ok; try done. by eapply near_reach_ok.
  - simpl. rewrite Ht. apply elem_of_union_l. by apply elem_of_singleton.
Qed.

(** ** Mints that succeed *)

Section succeeds.
Context `{EthLibs} `{RlpLists} `{TokenLibs} (token_id prover_id : string).

Definition claimed (p : EthProof) (t : MintableFungibleToken) : MintableFungibleToken :=
  with_events ({[ proof_key p ]} ∪ used_events t) t.
Definition credited (owner : string) (amount : Z) (t : MintableFungibleToken) : MintableFungibleToken :=
  set_account (with_supply (total_supply t + amount) t) owner
    (with_balance (balance_of t owner + amount) (account_at (token_accounts t) (near_sha256 (as_bytes owner)))).
Definition claim_cost (p : EthProof) (t : MintableFungibleToken) : Z :=
  (storage_usage (claimed p t) - storage_usage t) * STORAGE_PRICE_PER_BYTE.

(** What a call of [mint] needs for the storage: the deposit covers the record of
    the event, and what is left of it the recipient's account. *)
Record covered (c : near_ctx) (t : MintableFungibleToken) (p : EthProof) (event : EthEventData) : Prop := {
  cov_bytes : 0 <= storage_usage (claimed p t) - storage_usage t < 2 ^ 64;
  cov_deposit : claim_cost p t <= attached_deposit c < 2 ^ 128;
  cov_refund : is_ok (refund_storage (mkNearCtx token_id token_id (signer_account_id c)
      (attached_deposit c - claim_cost p t)) (storage_usage (claimed p t))
      (credited (ev_recipient event) (ev_amount event) (claimed p t))) = true
}.

Lemma mint_run c t p event : (proof_key p ∉ used_events t) ->
  from_log_entry_data (pf_log_entry_data p) = Ok event -> ev_locker_address event = locker_address t ->
  covered c t p event ->
  mint c t p = Ok (claimed p t, [ELog (event_to_string event)],
    mkMintPromise p (ev_recipient event) (ev_amount event) (attached_deposit c - claim_cost p t)).
Proof.
  intros Hfr Hev Hl [Hb Hd _]. unfold mint, record_proof. rewrite bool_decide_false by done. cbn [negb assert mbind outcome_bind].
  change (with_events ({[proof_key p]} ∪ used_events t) t) with (claimed p t).
  unfold claim_cost, STORAGE_PRICE_PER_BYTE in *. unfold u64_sub, u128_mul, u128_sub, STORAGE_PRICE_PER_BYTE.
  rewrite !checked_run by lia. cbn [mbind outcome_bind]. rewrite checked_run by lia. cbn [mbind outcome_bind].
  rewrite checked_run by lia. cbn [mbind outcome_bind]. rewrite Hev. cbn [mbind outcome_bind].
  rewrite bool_decide_true by done. done.
Qed.

Lemma finish_mint_run c t owner amount : token_ok t -> 0 <= amount ->
  predecessor_account_id c = current_account_id c -> is_valid_account_id (as_bytes owner) = true ->
  total_supply t + amount < 2 ^ 128 ->
  is_ok (refund_storage c (storage_usage t) (credited owner amount t)) = true ->
  exists effects, finish_mint c t true owner amount = Ok (credited owner amount t, effects).
Proof.
  intros [Hb Hs] Ha Hc Hv Hmax Href. pose proof (balance_le_total _ (near_sha256 (as_bytes owner)) Hb) as Hn.
  unfold finish_mint. rewrite bool_decide_true by done. cbn [assert mbind outcome_bind].
  unfold get_account. rewrite Hv. cbn [assert mbind outcome_bind]. fold (account_at (token_accounts t) (near_sha256 (as_bytes owner))).
  unfold u128_add. rewrite !checked_run by lia. cbn [mbind outcome_bind]. fold (balance_of t owner).
  fold (credited owner amount t). apply (from_ok_spec []) in Href. rewrite Href. by eexists.
Qed.

Lemma full_mint_run c w p event : token_ok (nw_token w) -> (proof_key p ∉ used_events (nw_token w)) ->
  from_log_entry_data (pf_log_entry_data p) = Ok event -> ev_locker_address event = locker_address (nw_token w) ->
  0 <= ev_amount event -> total_supply (nw_token w) + ev_amount event < 2 ^ 128 ->
  is_valid_account_id (as_bytes (ev_recipient event)) = true -> covered c (nw_token w) p event ->
  settled prover_id (nw_client w) p = Some true ->
  full_mint token_id prover_id c w p =
  Ok (mkNearWorld (credited (ev_recipient event) (ev_amount event) (claimed p (nw_token w))) (nw_client w)
        (nw_pending w) (p :: nw_minted w) (nw_unlocked w)).
Proof.
  intros Hok Hfr Hev Hl Ha Hmax Hv Hcov Hset. unfold full_mint. rewrite (mint_run c _ p event) by done.
  cbn [mbind outcome_bind]. rewrite Hset. unfold finish_stage. cbn [unwrap mbind outcome_bind pd_signer pd_promise mp_deposit mp_recipient mp_amount].
  destruct (finish_mint_run (mkNearCtx token_id token_id (signer_account_id c) (attached_deposit c - claim_cost p (nw_token w)))
    (claimed p (nw_token w)) (ev_recipient event) (ev_amount event)) as [effects ->]; try done.
  - by destruct Hok; split.
  - apply Hcov.
Qed.

Lemma credited_balance owner amount t : token_ok t -> 0 <= amount -> forall h,
  balance (account_at (token_accounts (credited owner amount t)) h) =
  balance (account_at (token_accounts t) h) + if decide (h = near_sha256 (as_bytes owner)) then amount else 0.
Proof.
  intros [Hb _] Ha h. pose proof (balance_le_total _ (near_sha256 (as_bytes owner)) Hb) as Hn.
  unfold credited. rewrite set_account_balance by (unfold balance_of; simpl; lia).
  simpl. destruct (decide _) as [->|]; [done|lia].
Qed.

(** The prover's part for an honest proof. *)
Lemma verify_stage_honest p log receipt header b hash :
  decode_log (pf_log_entry_data p) = Ok log -> decode_receipt (pf_receipt_data p) = Ok receipt ->
  decode_header (pf_header_data p) = Ok header ->
  rc_logs receipt !! Z.to_nat (as_usize (pf_log_index p)) = Some log ->
  rlp_encode_u64 (pf_receipt_index p) = [b] ->
  honest_path (pf_receipt_data p) (bh_receipts_root header) [Z_of_byte b / 16; Z_of_byte b mod 16] (pf_proof p) ->
  bh_hash header = Some hash -> verify_stage p = Asking (bh_number header) hash.
Proof.
  intros Hl Hr Hh Hat Hb Hp Hhash. unfold verify_stage, verify_log_entry. rewrite Hl, Hr, Hh. cbn [mbind outcome_bind].
  unfold at_index. rewrite Hat. cbn [unwrap mbind outcome_bind]. rewrite bool_decide_true by done. cbn [assert mbind outcome_bind].
  rewrite Hb, (verify_honest _ _ b) by done. cbn [mbind outcome_bind andb negb]. by rewrite Hhash.
Qed.

Lemma settled_safe cl p number hash : verify_stage p = Asking number hash ->
  block_hash_safe cl number = Ok (Some hash) -> settled prover_id cl p = Some true.
Proof.
  intros Hv Hs. unfold settled. rewrite Hv. unfold answer_stage. cbn [resolve]. rewrite Hs. cbn [mbind outcome_bind].
  unfold on_block_hash. rewrite String.eqb_refl. cbn [assert mbind outcome_bind]. by rewrite bool_decide_true.
Qed.

(** The same proof with a log index that the prover truncates to the same one. *)
Definition wide_log_index (p : EthProof) : EthProof :=
  mkProof (pf_log_index p + 2 ^ 32) (pf_log_entry_data p) (pf_receipt_index p) (pf_receipt_data p)
    (pf_header_data p) (pf_proof p).
Lemma as_usize_wide z : as_usize (z + 2 ^ 32) = as_usize z.
Proof. unfold as_usize. rewrite <- (Z_mod_plus_full z 1 (2 ^ 32)). f_equal; lia. Qed.
Lemma verify_stage_wide p : verify_stage (wide_log_index p) = verify_stage p.
Proof.
  unfold verify_stage, verify_log_entry, wide_log_index.
  cbn [pf_log_index pf_log_entry_data pf_receipt_index pf_receipt_data pf_header_data pf_proof].
  by rewrite as_usize_wide.
Qed.
Lemma settled_wide cl p : settled prover_id cl (wide_log_index p) = settled prover_id cl p.
Proof. unfold settled. by rewrite verify_stage_wide. Qed.
End succeeds.

(** C10: tokens locked on Ethereum can be minted, for a log entry of the locker in a
    receipt whose index has a key of one byte, with a proof whose nodes are
    branches, extensions by one nibble and the leaf, each of at least 32 bytes, in
    a header that the client gives as safe: if the event was not claimed before,
    the recipient's name is valid, the supply does not overflow and the deposit
    covers the storage, then [mint] and the calls it schedules credit the amount
    to the recipient and to the supply, and to nobody else. *)
Theorem honest_mint_completes `{EthLibs} `{RlpLists} `{TokenLibs} (eth : BlockHeader -> Prop)
    (token_id prover_id : string) (w : near_world) (c : near_ctx) (p : EthProof) (event : EthEventData)
    (log : LogEntry) (receipt : Receipt) (header : BlockHeader) (b : byte) (hash : list byte) :
  (forall i b, rlp_bool_at [] i <> Ok b) ->
  (forall e ts d ps z i, parse_log e ts d = Ok ps -> ps !! i = Some (TUint z) -> 0 <= z) ->
  near_reach eth token_id prover_id w ->
  decode_log (pf_log_entry_data p) = Ok log -> decode_receipt (pf_receipt_data p) = Ok receipt ->
  decode_header (pf_header_data p) = Ok header ->
  rc_logs receipt !! Z.to_nat (as_usize (pf_log_index p)) = Some log ->
  rlp_encode_u64 (pf_receipt_index p) = [b] ->
  honest_path (pf_receipt_data p) (bh_receipts_root header) [Z_of_byte b / 16; Z_of_byte b mod 16] (pf_proof p) ->
  bh_hash header = Some hash -> block_hash_safe (nw_client w) (bh_number header) = Ok (Some hash) ->
  from_log_entry_data (pf_log_entry_data p) = Ok event -> ev_locker_address event = locker_address (nw_token w) ->
  is_valid_account_id (as_bytes (ev_recipient event)) = true ->
  (proof_key p ∉ used_events (nw_token w)) ->
  total_supply (nw_token w) + ev_amount event < 2 ^ 128 -> covered token_id c (nw_token w) p event ->
  exists w', rtc (near_step eth token_id prover_id) w w' /\ nw_minted w' = p :: nw_minted w /\
    total_supply (nw_token w') = total_supply (nw_token w) + ev_amount event /\
    (forall h, balance (account_at (token_accounts (nw_token w')) h) =
       balance (account_at (token_accounts (nw_token w)) h) +
       if decide (h = near_sha256 (as_bytes (ev_recipient event))) then ev_amount event else 0).
Proof.
  intros Hrlp Hpos Hr Hl Hrec Hh Hat Hb Hp Hhash Hsafe Hev Hlock Hv Hfr Hmax Hcov.
  pose proof (wo_token _ _ (near_reach_ok _ _ _ Hrlp Hpos _ Hr)) as Hok.
  pose proof (from_log_entry_amount _ _ Hpos Hev) as Ha.
  pose proof (full_mint_run token_id prover_id c w p event Hok Hfr Hev Hlock Ha Hmax Hv Hcov) as Hrun.
  specialize (Hrun (settled_safe _ _ _ _ _ (verify_stage_honest _ _ _ _ _ _ Hl Hrec Hh Hat Hb Hp Hhash) Hsafe)).
  eexists. split; [by eapply full_mint_steps|]. split_and!; [done| |].
  - simpl. unfold credited. by rewrite set_account_supply.
  - simpl. intros h. rewrite credited_balance; [done|by destruct Hok; split|done].
Qed.

(** C11: one event can be minted for twice: the prover reads the log index modulo
    [2 ^ 32], the used events are recorded with all 64 bits of it.  After a mint
    the same proof with [2 ^ 32] added to the log index is accepted again, for
    the same log entry, and the recipient is credited twice. *)
Theorem wide_log_index_mints_twice `{EthLibs} `{RlpLists} `{TokenLibs} (eth : BlockHeader -> Prop)
    (token_id prover_id : string) (w w1 : near_world) (c c' : near_ctx) (p : EthProof) (event : EthEventData) :
  (forall i b, rlp_bool_at [] i <> Ok b) ->
  (forall e ts d ps z i, parse_log e ts d = Ok ps -> ps !! i = Some (TUint z) -> 0 <= z) ->
  near_reach eth token_id prover_id w -> full_mint token_id prover_id c w p = Ok w1 ->
  from_log_entry_data (pf_log_entry_data p) = Ok event ->
  (proof_key (wide_log_index p) ∉ used_events (nw_token w1)) ->
  total_supply (nw_token w1) + ev_amount event < 2 ^ 128 ->
  covered token_id c' (nw_token w1) (wide_log_index p) event ->
  exists w2, rtc (near_step eth token_id prover_id) w w2 /\
    nw_minted w2 = wide_log_index p :: p :: nw_minted w /\
    total_supply (nw_token w2) = total_supply (nw_token w) + 2 * ev_amount event /\
    balance_of (nw_token w2) (ev_recipient event) = balance_of (nw_token w) (ev_recipient event) + 2 * ev_amount event.
Proof.
  intros Hrlp Hpos Hr Hfull Hev Hfr Hmax Hcov. pose proof (near_reach_ok _ _ _ Hrlp Hpos _ Hr) as Hok.
  pose proof (from_log_entry_amount _ _ Hpos Hev) as Ha.
  pose proof (full_mint_steps eth _ _ _ _ _ _ Hfull) as Hsteps.
  pose proof (wo_token _ _ (steps_ok _ _ _ Hrlp Hpos _ _ Hok Hsteps)) as Hok1.
  unfold full_mint in Hfull. apply obind_ok in Hfull as ([[t1 effects] promise] & Hmint & Hfull).
  apply obind_ok in Hfull as ([t2 effects'] & Hfin & Hfull). injection Hfull as <-. simpl in *.
  apply mint_ok in Hmint as (Ht1 & _ & Hp & event' & Hev' & Hlock & Hrecip & Hamount).
  rewrite Hev in Hev'. injection Hev' as <-. unfold finish_stage in Hfin.
  destruct (settled prover_id (nw_client w) p) as [ok|] eqn:Hset; [|done]. cbn [unwrap mbind outcome_bind] in Hfin.
  simpl in Hfin. rewrite Hrecip, Hamount in Hfin. pose proof Hfin as Hfin'.
  unfold finish_mint in Hfin'. do 3 rust_step Hfin'. apply get_account_ok in E1 as [_ Hvalid]. clear Hfin'.
  assert (token_ok t1) as Hokt by (rewrite Ht1; by destruct (wo_token _ _ Hok); split).
  apply finish_mint_ok in Hfin as (-> & _ & _ & (_ & Hl2 & _) & Hsup & Hbal); [|done|done].
  pose proof (full_mint_run token_id prover_id c' (mkNearWorld t2 (nw_client w) (nw_pending w) (p :: nw_minted w) (nw_unlocked w))
    (wide_log_index p) event Hok1 Hfr Hev) as Hrun. simpl in Hrun. rewrite settled_wide in Hrun.
  specialize (Hrun ltac:(by rewrite Hl2, Ht1) Ha Hmax Hvalid Hcov Hset).
  eexists. split; [etransitivity; [exact Hsteps|by eapply full_mint_steps]|]. simpl. split_and!; [done| |].
  - unfold credited. rewrite set_account_supply. simpl. rewrite Hsup, Ht1. simpl. lia.
  - unfold balance_of. rewrite credited_balance; [|by destruct Hok1; split|done]. simpl.
    rewrite Hbal, decide_True by done. rewrite Ht1. simpl. lia.
Qed.

(** ** Witnesses *)

(** A token without storage costs; events lock 7 tokens for "alice.near". *)
#[local] Existing Instance toy_rlp_lists.
#[local] Existing Instance toy_eth_libs.
#[local] Instance toy_token_libs : TokenLibs := {|
  storage_usage t := 0;
  is_valid_account_id bs := true;
  hex_decode s := Ok (take 20 (toy_header_hash x00 x00));
  hex_encode bs := ""%string;
  parse_log e ts d := Ok [TAddress []; TAddress []; TUint 7; TString "alice.near"]
|}.
Definition toy_ctx : near_ctx := mkNearCtx "token.near" "bob.near" "bob.near" 0.
Definition toy_proof : EthProof := mkProof 0 [x01; x02] 0 toy_receipt [x05; x00; x09; x04; x00] [toy_leaf].
Definition empty_token : MintableFungibleToken := mkToken ∅ 0 "" [] ∅.
Definition toy_token : MintableFungibleToken := from_ok empty_token (token_new false "prover.near" "00").
Definition toy_world : near_world := mkNearWorld toy_token toy_client_3 [] [] [].
Definition toy_minted : near_world := from_ok toy_world (full_mint "token.near" "prover.near" toy_ctx toy_world toy_proof).

Lemma toy_rlp_strict : forall i b, rlp_bool_at [] i <> Ok b.
Proof. done. Qed.
Lemma toy_uints : forall e ts d ps z i, parse_log e ts d = Ok ps -> ps !! i = Some (TUint z) -> 0 <= z.
Proof.
  intros e ts d ps z i [= <-] Hi. do 4 (destruct i as [|i]; [by simplify_eq/=|]). done.
Qed.

Lemma toy_near_init : near_start toy_eth_headers toy_world.
Proof.
  apply (init_world _ "prover.near" "00"); [|apply toy_reach_3].
  apply (from_ok_spec empty_token). vm_compute. reflexivity.
Qed.
Lemma toy_near_reach : near_reach toy_eth_headers "token.near" "prover.near" toy_world.
Proof. exists toy_world. split; [apply toy_near_init|done]. Qed.
Lemma toy_full_mint : full_mint "token.near" "prover.near" toy_ctx toy_world toy_proof = Ok toy_minted.
Proof. apply (from_ok_spec toy_world). vm_compute. reflexivity. Qed.
Lemma toy_minted_reach : near_reach toy_eth_headers "token.near" "prover.near" toy_minted.
Proof. exists toy_world. split; [apply toy_near_init|]. eapply full_mint_steps, toy_full_mint. Qed.
Definition toy_event : EthEventData := mkEventData (take 20 (toy_header_hash x00 x00)) "" "" 7 "alice.near".
Lemma toy_covered t p : covered "token.near" toy_ctx t p toy_event.
Proof. split; unfold claim_cost; simpl; [lia|lia|done]. Qed.

Example toy_minted_supply : total_supply (nw_token toy_minted) = 7 /\ nw_minted toy_minted = [toy_proof].
Proof. split; vm_compute; reflexivity. Qed.

Lemma transfer_from_effect_witness :
  exists t', transfer_from (mkNearCtx "token.near" "alice.near" "alice.near" 0) (nw_token toy_minted)
      "alice.near" "bob.near" 3 = Ok (t', []) /\
    balance_of t' "alice.near" = 4 /\ balance_of t' "bob.near" = 3.
Proof.
  set (run := transfer_from (mkNearCtx "token.near" "alice.near" "alice.near" 0) (nw_token toy_minted)
    "alice.near" "bob.near" 3).
  assert (exists t', run = Ok (t', [])) as [t' Hrun].
  { exists (from_ok empty_token ('(t, _) ← run; Ok t)). vm_compute. reflexivity. }
  exists t'. split; [exact Hrun|].
  destruct (transfer_from_effect (mkNearCtx "token.near" "alice.near" "alice.near" 0) (nw_token toy_minted)
    "alice.near" "bob.near" 3 t' []) as (_ & -> & -> & _).
  - exact (wo_token _ _ (near_reach_ok _ _ _ toy_rlp_strict toy_uints _ toy_minted_reach)).
  - lia.
  - vm_compute. congruence.
  - exact Hrun.
  - split; vm_compute; reflexivity.
Defined.

Lemma failed_mint_blocks_event_witness :
  exists w1, rtc (near_step toy_eth_headers "token.near" "prover.near") toy_world w1 /\
    nw_minted w1 = [] /\ token_accounts (nw_token w1) = ∅ /\
    (forall w2 c', rtc (near_step toy_eth_headers "token.near" "prover.near") w1 w2 ->
       mint c' (nw_token w2) toy_proof = Throw (Error "Event cannot be reused for minting.")).
Proof.
  eapply (failed_mint_blocks_event toy_eth_headers "token.near" "prover.near" toy_world toy_ctx toy_proof).
  - apply toy_rlp_strict.
  - apply toy_uints.
  - apply toy_near_reach.
  - apply (mint_run "token.near" toy_ctx toy_token (without_proof toy_proof) toy_event).
    + apply not_elem_of_empty.
    + vm_compute. reflexivity.
    + vm_compute. reflexivity.
    + apply toy_covered.
Defined.

Lemma honest_mint_completes_witness :
  exists w', rtc (near_step toy_eth_headers "token.near" "prover.near") toy_world w' /\
    nw_minted w' = [toy_proof] /\ total_supply (nw_token w') = 7 /\
    (forall h, balance (account_at (token_accounts (nw_token w')) h) =
       balance (account_at (token_accounts (nw_token toy_world)) h) +
       if decide (h = near_sha256 (as_bytes "alice.near")) then 7 else 0).
Proof.
  apply (honest_mint_completes toy_eth_headers "token.near" "prover.near" toy_world toy_ctx toy_proof toy_event
    (mkLogEntry (take 20 (toy_header_hash x00 x00)) [] []) 
    (mkReceipt true 0 (replicate 256 x00) [mkLogEntry (take 20 (toy_header_hash x00 x00)) [] []])
    (toy_header 0) x80 (toy_header_hash x05 x00)).
  - apply toy_rlp_strict.
  - apply toy_uints.
  - apply toy_near_reach.
  - vm_compute. reflexivity.
  - vm_compute. reflexivity.
  - vm_compute. reflexivity.
  - vm_compute. reflexivity.
  - reflexivity.
  - change (bh_receipts_root (toy_header 0)) with (near_keccak256 toy_leaf).
    apply (honest_leaf_even toy_receipt toy_leaf [x20; x80]); try (vm_compute; reflexivity). vm_compute. lia.
  - vm_compute. reflexivity.
  - vm_compute. reflexivity.
  - vm_compute. reflexivity.
  - vm_compute. reflexivity.
  - reflexivity.
  - apply not_elem_of_empty.
  - vm_compute. reflexivity.
  - apply toy_covered.
Defined.

Lemma wide_log_index_mints_twice_witness :
  exists w2, rtc (near_step toy_eth_headers "token.near" "prover.near") toy_world w2 /\
    nw_minted w2 = [wide_log_index toy_proof; toy_proof] /\ total_supply (nw_token w2) = 14 /\
    balance_of (nw_token w2) "alice.near" = 14.
Proof.
  apply (wide_log_index_mints_twice toy_eth_headers "token.near" "prover.near" toy_world toy_minted toy_ctx toy_ctx
    toy_proof toy_event).
  - apply toy_rlp_strict.
  - apply toy_uints.
  - apply toy_near_reach.
  - apply toy_full_mint.
  - vm_compute. reflexivity.
  - apply (bool_decide_unpack _). vm_compute. exact I.
  - vm_compute. reflexivity.
  - apply toy_covered.
Defined.
