(* ===== verification/Modules.v ===== *)
(** * The modules of the program

    The CommonJS modules of the JavaScript sources: what each one requires and
    exports, and the loader that links them.  A module is entered into the cache
    with no exports before it runs; a module that is required while it still runs
    gives the exports it has so far.  A name that the required module does not
    export is bound to [undefined] without an error.  [import]s of other packages
    are taken as they are. *)

From stdpp Require Import base list strings gmap.
From Stdlib Require Import Ascii ZArith Lia.
From S2P Require Import Prelude.

(** ** Modules *)

(** [const { names } = require(from)], [const name = require(from)] and
    [const name = require(from).member]. *)
Inductive import_stmt :=
| IDestructure (names : list string) (from : string)
| IWhole (name from : string)
| IMember (name from member : string).

Inductive export_val :=
| ELocal (name : string)
| EField (name field : string).

(** The path, the imports, the exported names that the module declares itself, and
    the exports. *)
Record js_module := mkModule {
  m_path : string;
  m_imports : list import_stmt;
  m_declares : list string;
  m_exports : list (string * export_val)
}.

(** What a name is bound to: a declaration of a module, the exports of a module, a
    package or a part of it, or nothing. *)
Inductive js_binding :=
| BDecl (module name : string)
| BModule (path : string)
| BPackage (package : string) (part : list string)
| BUndefined.
#[export] Instance js_binding_eq_dec : EqDecision js_binding.
Proof. solve_decision. Defined.

(** ** Resolution of paths *)

Fixpoint path_segments (s : string) (acc : string) : list string :=
  match s with
  | EmptyString => [acc]
  | String c s => if Ascii.eqb c "/"%char then acc :: path_segments s "" else path_segments s (acc +:+ String c EmptyString)
  end.
Fixpoint join_slash (l : list string) : string :=
  match l with
  | [] => ""
  | [x] => x
  | x :: l => x +:+ "/" +:+ join_slash l
  end.

(** The segments of a relative path from a directory. *)
Fixpoint walk (dir : list string) (segments : list string) : list string :=
  match segments with
  | [] => dir
  | s :: segments =>
      if String.eqb s "." then walk dir segments
      else if String.eqb s ".." then walk (removelast dir) segments
      else walk (dir ++ [s]) segments
  end.

Definition is_relative (from : string) : bool :=
  match path_segments from "" with s :: _ => String.eqb s "." || String.eqb s ".." | [] => false end.

(** The packages of the workspace and the directories that hold them. *)
Definition workspaces : list (string * string) :=
  [("rainbow-bridge-cli", "cli");
   ("rainbow-bridge-eth2near-block-relay", "eth2near/eth2near-block-relay");
   ("rainbow-bridge-near2eth-block-relay", "near2eth/near2eth-block-relay");
   ("rainbow-bridge-watchdog", "near2eth/watchdog");
   ("rainbow-bridge-testing", "testing");
   ("rainbow-bridge-utils", "utils")].

Definition lookup_name {A} (k : string) (l : list (string * A)) : option A :=
  snd <$> List.find (fun e => String.eqb (fst e) k) l.

Definition find_module (program : list js_module) (path : string) : option js_module :=
  List.find (fun m => String.eqb (m_path m) path) program.

(** The file itself, with [.js], or the [index.js] of the directory. *)
Definition candidates (path : string) : list string := [path; path +:+ ".js"; path +:+ "/index.js"].

(** The module that [require(from)] gives in the file [path], unless [from] is
    another package. *)
Definition resolve_from (program : list js_module) (path from : string) : option string :=
  let target :=
    if is_relative from
    then Some (join_slash (walk (removelast (path_segments path "")) (path_segments from "")))
    else lookup_name from workspaces in
  t ← target; m_path <$> List.find (fun m => existsb (String.eqb (m_path m)) (candidates t)) program.

(** ** The loader *)

Abbreviation env := (list (string * js_binding)) (only parsing).

(** What loading reports: an import that the module does not export, and a module
    that is required while it runs. *)
Inductive load_report :=
| RUndefined (path name from : string)
| RPartial (path from : string).

Record loader := mkLoader {
  cache : list (string * env);
  running : list string;
  reports : list load_report
}.

Definition local_binding (path : string) (m : js_module) (e : env) (name : string) : js_binding :=
  match lookup_name name e with
  | Some b => b
  | None => if existsb (String.eqb name) (m_declares m) then BDecl path name else BUndefined
  end.

(** The value of an export; a field of [undefined] throws. *)
Definition eval_export (path : string) (m : js_module) (e : env) (v : export_val) : outcome js_binding :=
  match v with
  | ELocal name => Ok (local_binding path m e name)
  | EField name field =>
      match local_binding path m e name with
      | BPackage package part => Ok (BPackage package (part ++ [field]))
      | BUndefined => Throw (TypeError ("Cannot read property '" +:+ field +:+ "' of undefined"))
      | _ => Ok BUndefined
      end
  end.

Definition run_exports (path : string) (m : js_module) (e : env) : outcome env :=
  mapM_out (fun ev : string * export_val => b ← eval_export path m e ev.2; Ok (ev.1, b)) (m_exports m).

(** The names that an import binds, given the exports of the module it requires. *)
Definition bind_names (exports : option env) (stmt : import_stmt) : env :=
  match stmt, exports with
  | IDestructure names from, Some ex => map (fun n => (n, default BUndefined (lookup_name n ex))) names
  | IDestructure names from, None => map (fun n => (n, BPackage from [n])) names
  | IWhole name from, Some ex => [(name, BModule from)]
  | IWhole name from, None => [(name, BPackage from [])]
  | IMember name from member, Some ex => [(name, default BUndefined (lookup_name member ex))]
  | IMember name from member, None => [(name, BPackage from [member])]
  end.

Definition import_from (stmt : import_stmt) : string :=
  match stmt with IDestructure _ from | IWhole _ from | IMember _ from _ => from end.

Definition undefined_names (path from : string) (bound : env) : list load_report :=
  flat_map (fun nb : string * js_binding => if decide (nb.2 = BUndefined) then [RUndefined path nb.1 from] else []) bound.

Section load.
Context (program : list js_module).

(** The imports of a module, one after the other; [load] loads a module. *)
Fixpoint run_imports (load : string -> loader -> outcome loader) (path : string) (stmts : list import_stmt)
    (e : env) (l : loader) : outcome (env * loader) :=
  match stmts with
  | [] => Ok (e, l)
  | stmt :: stmts =>
      match resolve_from program path (import_from stmt) with
      | None => run_imports load path stmts (e ++ bind_names None stmt) l
      | Some target =>
          let partial := if existsb (String.eqb target) (running l) then [RPartial path (import_from stmt)] else [] in
          l ← load target l;
          let bound := bind_names (Some (default [] (lookup_name target (cache l)))) stmt in
          run_imports load path stmts (e ++ bound)
            (mkLoader (cache l) (running l) (reports l ++ partial ++ undefined_names path (import_from stmt) bound))
      end
  end.

Fixpoint load (fuel : nat) (path : string) (l : loader) : outcome loader :=
  match fuel with
  | O => OutOfFuel
  | S fuel =>
      match lookup_name path (cache l) with
      | Some _ => Ok l
      | None =>
          match find_module program path with
          | None => Throw (Error ("Cannot find module '" +:+ path +:+ "'"))
          | Some m =>
              '(e, l) ← run_imports (load fuel) path (m_imports m) []
                          (mkLoader ((path, []) :: cache l) (path :: running l) (reports l));
              ex ← run_exports path m e;
              Ok (mkLoader ((path, ex) :: cache l) (tail (running l)) (reports l))
          end
      end
  end.
End load.

Definition start_loader : loader := mkLoader [] [] [].
(** Each module is entered once, so that the depth is at most their number. *)
Definition run_program (program : list js_module) (main : string) : outcome loader :=
  load program (S (length program)) main start_loader.

(** ** The sources *)

(** [utils/robust.js] *)
Definition utils_robust_imports : list import_stmt :=
  [ IWhole "Web3" "web3"; IWhole "_" "lodash"; IWhole "nearAPI" "near-api-js" ].
Definition utils_robust_exports : list (string * export_val) :=
  [ ("retry", ELocal "retry"); ("sleep", ELocal "sleep"); ("backoff", ELocal "backoff");
    ("Web3", ELocal "Web3"); ("RobustWeb3", ELocal "RobustWeb3");
    ("normalizeEthKey", ELocal "normalizeEthKey");
    ("promiseWithTimeout", ELocal "promiseWithTimeout");
    ("nearJsonContractFunctionCall", ELocal "nearJsonContractFunctionCall");
    ("signAndSendTransaction", ELocal "signAndSendTransaction"); ("nearAPI", ELocal "nearAPI") ].
Definition utils_robust : js_module :=
  mkModule "utils/robust.js" utils_robust_imports
    ["retry"; "sleep"; "backoff"; "RobustWeb3"; "normalizeEthKey"; "promiseWithTimeout";
     "nearJsonContractFunctionCall"; "signAndSendTransaction"] utils_robust_exports.

(** [utils/config/index.js] *)
Definition utils_config_index_imports : list import_stmt :=
  [ IWhole "Configstore" "configstore"; IWhole "path" "path"; IMember "homedir" "os" "homedir()";
    IWhole "changeCase" "change-case" ].
Definition utils_config_index_exports : list (string * export_val) :=
  [ ("RainbowConfig", ELocal "RainbowConfig") ].
Definition utils_config_index : js_module :=
  mkModule "utils/config/index.js" utils_config_index_imports
    ["RainbowConfig"] utils_config_index_exports.

(** [utils/borshify-proof.js] *)
Definition utils_borshify_proof_imports : list import_stmt :=
  [ IDestructure ["Web3"] "./robust"; IWhole "bs58" "bs58" ].
Definition utils_borshify_proof_exports : list (string * export_val) :=
  [ ("borshifyOutcomeProof", ELocal "borshifyOutcomeProof") ].
Definition utils_borshify_proof : js_module :=
  mkModule "utils/borshify-proof.js" utils_borshify_proof_imports
    ["borshifyOutcomeProof"] utils_borshify_proof_exports.

(** [utils/borsh.js] *)
Definition utils_borsh_imports : list import_stmt :=
  [ IWhole "bs58" "bs58"; IWhole "BN" "bn.js"; IDestructure ["TextDecoder"] "util";
    IDestructure ["borshifyOutcomeProof"] "./borshify-proof";
    IDestructure ["Web3"; "nearAPI"; "sleep"; "backoff"; "signAndSendTransaction"] "./robust" ].
Definition utils_borsh_exports : list (string * export_val) :=
  [ ("BorshContract", ELocal "BorshContract"); ("hexToBuffer", ELocal "hexToBuffer");
    ("readerToHex", ELocal "readerToHex"); ("borshifyOutcomeProof", ELocal "borshifyOutcomeProof");
    ("txnStatus", ELocal "txnStatus"); ("borshify", ELocal "borshify");
    ("borshifyInitialValidators", ELocal "borshifyInitialValidators");
    ("signAndSendTransaction", ELocal "signAndSendTransaction"); ("serialize", ELocal "serialize") ].
Definition utils_borsh : js_module :=
  mkModule "utils/borsh.js" utils_borsh_imports
    ["serialize"; "txnStatus"; "BorshContract"; "borshify"; "borshifyInitialValidators";
     "hexToBuffer"; "readerToHex"] utils_borsh_exports.

(** [utils/utils.js] *)
Definition utils_utils_imports : list import_stmt :=
  [ IMember "homedir" "os" "homedir()"; IWhole "path" "path"; IWhole "fs" "fs";
    IWhole "assert" "bsert"; IDestructure ["nearAPI"; "Web3"] "./robust" ].
Definition utils_utils_exports : list (string * export_val) :=
  [ ("setupEthNear", ELocal "setupEthNear"); ("accountExists", ELocal "accountExists");
    ("remove0x", ELocal "remove0x"); ("createLocalKeyStore", ELocal "createLocalKeyStore");
    ("getWeb3", ELocal "getWeb3"); ("getEthContract", ELocal "getEthContract");
    ("addSecretKey", ELocal "addSecretKey"); ("fromWei", EField "Web3" "utils.fromWei");
    ("toWei", EField "Web3" "utils.toWei"); ("ethCallContract", ELocal "ethCallContract") ].
Definition utils_utils : js_module :=
  mkModule "utils/utils.js" utils_utils_imports
    ["setupEthNear"; "remove0x"; "accountExists"; "createLocalKeyStore"; "getWeb3";
     "getEthContract"; "addSecretKey"; "ethCallContract"] utils_utils_exports.

(** [utils/helpers.js] *)
Definition utils_helpers_imports : list import_stmt :=
  [ IDestructure ["nearAPI"] "./robust"; IWhole "fs" "fs"; IWhole "BN" "bn.js" ].
Definition utils_helpers_exports : list (string * export_val) :=
  [ ("maybeCreateAccount", ELocal "maybeCreateAccount"); ("accountExists", ELocal "accountExists");
    ("accountHasTheKey", ELocal "accountHasTheKey"); ("verifyAccount", ELocal "verifyAccount");
    ("verifyAccountGently", ELocal "verifyAccountGently") ].
Definition utils_helpers : js_module :=
  mkModule "utils/helpers.js" utils_helpers_imports
    ["maybeCreateAccount"; "accountExists"; "accountHasTheKey"; "verifyAccount";
     "verifyAccountGently"] utils_helpers_exports.

(** [utils/index.js] *)
Definition utils_index_imports : list import_stmt :=
  [ IDestructure ["nearAPI"; "Web3"; "RobustWeb3"; "normalizeEthKey"; "sleep"; "backoff"; "nearJsonContractFunctionCall"] "./robust";
    IDestructure ["RainbowConfig"] "./config";
    IDestructure ["txnStatus"; "BorshContract"; "hexToBuffer"; "readerToHex"; "borshifyInitialValidators"; "borshifyOutcomeProof"; "borshify"] "./borsh";
    IDestructure ["setupEthNear"; "accountExists"; "remove0x"; "createLocalKeyStore"; "getWeb3"; "getEthContract"; "addSecretKey"; "fromWei"; "toWei"; "ethCallContract"] "./utils";
    IDestructure ["maybeCreateAccount"; "verifyAccount"] "./helpers"; IWhole "path" "path" ].
Definition utils_index_exports : list (string * export_val) :=
  [ ("getScript", ELocal "getScript"); ("backoff", ELocal "backoff"); ("nearAPI", ELocal "nearAPI");
    ("JSONreplacer", ELocal "JSONreplacer"); ("Web3", ELocal "Web3"); ("sleep", ELocal "sleep");
    ("RobustWeb3", ELocal "RobustWeb3"); ("setupEthNear", ELocal "setupEthNear");
    ("normalizeEthKey", ELocal "normalizeEthKey"); ("accountExists", ELocal "accountExists");
    ("remove0x", ELocal "remove0x"); ("createLocalKeyStore", ELocal "createLocalKeyStore");
    ("getWeb3", ELocal "getWeb3"); ("getEthContract", ELocal "getEthContract");
    ("addSecretKey", ELocal "addSecretKey"); ("fromWei", ELocal "fromWei");
    ("toWei", ELocal "toWei"); ("txnStatus", ELocal "txnStatus");
    ("ethCallContract", ELocal "ethCallContract"); ("BorshContract", ELocal "BorshContract");
    ("hexToBuffer", ELocal "hexToBuffer"); ("readerToHex", ELocal "readerToHex");
    ("maybeCreateAccount", ELocal "maybeCreateAccount"); ("verifyAccount", ELocal "verifyAccount");
    ("RainbowConfig", ELocal "RainbowConfig");
    ("nearJsonContractFunctionCall", ELocal "nearJsonContractFunctionCall");
    ("borshifyInitialValidators", ELocal "borshifyInitialValidators");
    ("borshifyOutcomeProof", ELocal "borshifyOutcomeProof"); ("borshify", ELocal "borshify") ].
Definition utils_index : js_module :=
  mkModule "utils/index.js" utils_index_imports
    ["getScript"; "JSONreplacer"] utils_index_exports.

(** [eth2near/eth2near-block-relay/eth-on-near-client.js] *)
Definition eth2near_eth2near_block_relay_eth_on_near_client_imports : list import_stmt :=
  [ IWhole "BN" "bn.js"; IWhole "blockFromRpc" "ethereumjs-block/from-rpc";
    IWhole "utils" "ethereumjs-util";
    IDestructure ["Web3"; "BorshContract"; "hexToBuffer"; "readerToHex"] "rainbow-bridge-utils";
    IWhole "roots" "./dag_merkle_roots.json" ].
Definition eth2near_eth2near_block_relay_eth_on_near_client_exports : list (string * export_val) :=
  [ ("EthOnNearClientContract", ELocal "EthOnNearClientContract");
    ("web3BlockToRlp", ELocal "web3BlockToRlp") ].
Definition eth2near_eth2near_block_relay_eth_on_near_client : js_module :=
  mkModule "eth2near/eth2near-block-relay/eth-on-near-client.js" eth2near_eth2near_block_relay_eth_on_near_client_imports
    ["web3BlockToRlp"; "EthOnNearClientContract"] eth2near_eth2near_block_relay_eth_on_near_client_exports.

(** [eth2near/eth2near-block-relay/eth-on-near-prover.js] *)
Definition eth2near_eth2near_block_relay_eth_on_near_prover_imports : list import_stmt :=
  [ IDestructure ["BorshContract"; "hexToBuffer"; "readerToHex"] "rainbow-bridge-utils" ].
Definition eth2near_eth2near_block_relay_eth_on_near_prover_exports : list (string * export_val) :=
  [ ("EthOnNearProverContract", ELocal "EthOnNearProverContract");
    ("borshSchema", ELocal "borshSchema") ].
Definition eth2near_eth2near_block_relay_eth_on_near_prover : js_module :=
  mkModule "eth2near/eth2near-block-relay/eth-on-near-prover.js" eth2near_eth2near_block_relay_eth_on_near_prover_imports
    ["borshSchema"; "EthOnNearProverContract"] eth2near_eth2near_block_relay_eth_on_near_prover_exports.

(** [eth2near/eth2near-block-relay/eth-proof-extractor.js] *)
Definition eth2near_eth2near_block_relay_eth_proof_extractor_imports : list import_stmt :=
  [ IWhole "Tree" "merkle-patricia-tree";
    IDestructure ["Header"; "Proof"; "Receipt"; "Log"] "eth-object";
    IWhole "utils" "ethereumjs-util"; IDestructure ["encode"] "eth-util-lite";
    IDestructure ["promisfy"] "promisfy";
    IDestructure ["RobustWeb3"; "JSONreplacer"] "rainbow-bridge-utils" ].
Definition eth2near_eth2near_block_relay_eth_proof_extractor_exports : list (string * export_val) :=
  [ ("EthProofExtractor", ELocal "EthProofExtractor");
    ("receiptFromWeb3", ELocal "receiptFromWeb3"); ("logFromWeb3", ELocal "logFromWeb3");
    ("ethToNearFindProof", ELocal "ethToNearFindProof") ].
Definition eth2near_eth2near_block_relay_eth_proof_extractor : js_module :=
  mkModule "eth2near/eth2near-block-relay/eth-proof-extractor.js" eth2near_eth2near_block_relay_eth_proof_extractor_imports
    ["receiptFromWeb3"; "logFromWeb3"; "EthProofExtractor"; "ethToNearFindProof"] eth2near_eth2near_block_relay_eth_proof_extractor_exports.

(** [eth2near/eth2near-block-relay/index.js] *)
Definition eth2near_eth2near_block_relay_index_imports : list import_stmt :=
  [ IWhole "path" "path"; IMember "exec" "child_process" "exec"; IWhole "BN" "bn.js";
    IDestructure ["RobustWeb3"; "sleep"; "txnStatus"] "rainbow-bridge-utils";
    IDestructure ["web3BlockToRlp"; "EthOnNearClientContract"] "./eth-on-near-client";
    IDestructure ["EthOnNearProverContract"] "./eth-on-near-prover";
    IDestructure ["EthProofExtractor"; "logFromWeb3"; "receiptFromWeb3"; "ethToNearFindProof"] "./eth-proof-extractor" ].
Definition eth2near_eth2near_block_relay_index_exports : list (string * export_val) :=
  [ ("Eth2NearRelay", ELocal "Eth2NearRelay"); ("EthProofExtractor", ELocal "EthProofExtractor");
    ("ethashproof", ELocal "ethashproof");
    ("EthOnNearClientContract", ELocal "EthOnNearClientContract");
    ("EthOnNearProverContract", ELocal "EthOnNearProverContract");
    ("logFromWeb3", ELocal "logFromWeb3"); ("receiptFromWeb3", ELocal "receiptFromWeb3");
    ("ethToNearFindProof", ELocal "ethToNearFindProof") ].
Definition eth2near_eth2near_block_relay_index : js_module :=
  mkModule "eth2near/eth2near-block-relay/index.js" eth2near_eth2near_block_relay_index_imports
    ["ethashproof"; "Eth2NearRelay"] eth2near_eth2near_block_relay_index_exports.

(** [near2eth/near2eth-block-relay/index.js] *)
Definition near2eth_near2eth_block_relay_index_imports : list import_stmt :=
  [ IWhole "fs" "fs"; IWhole "bs58" "bs58"; IDestructure ["toBuffer"] "eth-util-lite";
    IDestructure ["BN"] "ethereumjs-util";
    IDestructure ["sleep"; "RobustWeb3"; "normalizeEthKey"; "borshify"; "borshifyInitialValidators"; "nearAPI"] "rainbow-bridge-utils" ].
Definition near2eth_near2eth_block_relay_index_exports : list (string * export_val) :=
  [ ("Near2EthRelay", ELocal "Near2EthRelay"); ("borshify", ELocal "borshify") ].
Definition near2eth_near2eth_block_relay_index : js_module :=
  mkModule "near2eth/near2eth-block-relay/index.js" near2eth_near2eth_block_relay_index_imports
    ["Near2EthRelay"] near2eth_near2eth_block_relay_index_exports.

(** [near2eth/watchdog/index.js] *)
Definition near2eth_watchdog_index_imports : list import_stmt :=
  [ IWhole "fs" "fs";
    IDestructure ["sleep"; "Web3"; "RobustWeb3"; "normalizeEthKey"; "promiseWithTimeout"] "rainbow-bridge-utils";
    IMember "Tx" "ethereumjs-tx" "Transaction" ].
Definition near2eth_watchdog_index_exports : list (string * export_val) :=
  [ ("Watchdog", ELocal "Watchdog") ].
Definition near2eth_watchdog_index : js_module :=
  mkModule "near2eth/watchdog/index.js" near2eth_watchdog_index_imports
    ["Watchdog"] near2eth_watchdog_index_exports.

(** [testing/transfer-eth-erc20/near-mintable-token.js] *)
Definition testing_transfer_eth_erc20_near_mintable_token_imports : list import_stmt :=
  [ IDestructure ["Web3"; "BorshContract"; "readerToHex"] "rainbow-bridge-utils" ].
Definition testing_transfer_eth_erc20_near_mintable_token_exports : list (string * export_val) :=
  [ ("NearMintableToken", ELocal "NearMintableToken") ].
Definition testing_transfer_eth_erc20_near_mintable_token : js_module :=
  mkModule "testing/transfer-eth-erc20/near-mintable-token.js" testing_transfer_eth_erc20_near_mintable_token_imports
    ["NearMintableToken"] testing_transfer_eth_erc20_near_mintable_token_exports.

(** [testing/transfer-eth-erc20/to-near.js] *)
Definition testing_transfer_eth_erc20_to_near_imports : list import_stmt :=
  [ IWhole "utils" "ethereumjs-util"; IWhole "BN" "bn.js"; IWhole "fs" "fs";
    IWhole "crypto" "crypto";
    IDestructure ["nearAPI"; "sleep"; "RobustWeb3"; "normalizeEthKey"; "verifyAccount"] "rainbow-bridge-utils";
    IDestructure ["EthProofExtractor"; "EthOnNearClientContract"; "receiptFromWeb3"; "logFromWeb3"] "rainbow-bridge-eth2near-block-relay";
    IDestructure ["NearMintableToken"] "./near-mintable-token" ].
Definition testing_transfer_eth_erc20_to_near_exports : list (string * export_val) :=
  [ ("TransferETHERC20ToNear", ELocal "TransferETHERC20ToNear") ].
Definition testing_transfer_eth_erc20_to_near : js_module :=
  mkModule "testing/transfer-eth-erc20/to-near.js" testing_transfer_eth_erc20_to_near_imports
    ["TransferETHERC20ToNear"] testing_transfer_eth_erc20_to_near_exports.

(** [testing/transfer-eth-erc20/from-near.js] *)
Definition testing_transfer_eth_erc20_from_near_imports : list import_stmt :=
  [ IWhole "BN" "bn.js"; IWhole "fs" "fs"; IWhole "bs58" "bs58"; IWhole "crypto" "crypto";
    IDestructure ["toBuffer"] "eth-util-lite";
    IDestructure ["nearAPI"; "verifyAccount"; "borshifyOutcomeProof"; "sleep"; "RobustWeb3"; "remove0x"; "normalizeEthKey"; "backoff"; "nearJsonContractFunctionCall"] "rainbow-bridge-utils";
    IDestructure ["NearMintableToken"] "./near-mintable-token" ].
Definition testing_transfer_eth_erc20_from_near_exports : list (string * export_val) :=
  [ ("TransferEthERC20FromNear", ELocal "TransferEthERC20FromNear") ].
Definition testing_transfer_eth_erc20_from_near : js_module :=
  mkModule "testing/transfer-eth-erc20/from-near.js" testing_transfer_eth_erc20_from_near_imports
    ["TransferEthERC20FromNear"] testing_transfer_eth_erc20_from_near_exports.

(** [testing/transfer-eth-erc20/deploy-token.js] *)
Definition testing_transfer_eth_erc20_deploy_token_imports : list import_stmt :=
  [ IDestructure ["nearAPI"; "remove0x"; "verifyAccount"] "rainbow-bridge-utils";
    IDestructure ["BN"] "ethereumjs-util" ].
Definition testing_transfer_eth_erc20_deploy_token_exports : list (string * export_val) :=
  [ ("DeployToken", ELocal "DeployToken") ].
Definition testing_transfer_eth_erc20_deploy_token : js_module :=
  mkModule "testing/transfer-eth-erc20/deploy-token.js" testing_transfer_eth_erc20_deploy_token_imports
    ["DeployToken"] testing_transfer_eth_erc20_deploy_token_exports.

(** [testing/transfer-eth-erc20/index.js] *)
Definition testing_transfer_eth_erc20_index_imports : list import_stmt :=
  [ IDestructure ["TransferETHERC20ToNear"] "./to-near";
    IDestructure ["TransferEthERC20FromNear"] "./from-near";
    IDestructure ["DeployToken"] "./deploy-token" ].
Definition testing_transfer_eth_erc20_index_exports : list (string * export_val) :=
  [ ("TransferETHERC20ToNear", ELocal "TransferETHERC20ToNear");
    ("TransferEthERC20FromNear", ELocal "TransferEthERC20FromNear");
    ("DeployToken", ELocal "DeployToken") ].
Definition testing_transfer_eth_erc20_index : js_module :=
  mkModule "testing/transfer-eth-erc20/index.js" testing_transfer_eth_erc20_index_imports
    [] testing_transfer_eth_erc20_index_exports.

(** [testing/adapter/index.js] *)
Definition testing_adapter_index_imports : list import_stmt :=
  [ IWhole "fs" "fs"; IWhole "bs58" "bs58"; IDestructure ["toBuffer"] "eth-util-lite";
    IDestructure ["RobustWeb3"; "remove0x"; "normalizeEthKey"; "JSONreplacer"; "borshifyOutcomeProof"] "rainbow-bridge-utils";
    IDestructure ["exit"] "process" ].
Definition testing_adapter_index_exports : list (string * export_val) :=
  [ ("ethToNearApprove", ELocal "ethToNearApprove"); ("ethToNearLock", ELocal "ethToNearLock");
    ("nearToEthUnlock", ELocal "nearToEthUnlock"); ("mintErc20", ELocal "mintErc20");
    ("getErc20Balance", ELocal "getErc20Balance");
    ("getAddressBySecretKey", ELocal "getAddressBySecretKey");
    ("getClientBlockHeightHash", ELocal "getClientBlockHeightHash") ].
Definition testing_adapter_index : js_module :=
  mkModule "testing/adapter/index.js" testing_adapter_index_imports
    ["mintErc20"; "getAddressBySecretKey"; "getErc20Balance"; "ethToNearApprove"; "ethToNearLock";
     "getClientBlockHeightHash"; "nearToEthUnlock"] testing_adapter_index_exports.

(** [testing/index.js] *)
Definition testing_index_imports : list import_stmt :=
  [ IDestructure ["TransferETHERC20ToNear"; "TransferEthERC20FromNear"; "DeployToken"] "./transfer-eth-erc20";
    IDestructure ["mintErc20"; "getErc20Balance"; "getClientBlockHeightHash"; "getAddressBySecretKey"; "ethToNearApprove"; "ethToNearLock"; "nearToEthUnlock"] "./adapter" ].
Definition testing_index_exports : list (string * export_val) :=
  [ ("TransferETHERC20ToNear", ELocal "TransferETHERC20ToNear");
    ("TransferEthERC20FromNear", ELocal "TransferEthERC20FromNear");
    ("DeployToken", ELocal "DeployToken"); ("mintErc20", ELocal "mintErc20");
    ("getErc20Balance", ELocal "getErc20Balance");
    ("getClientBlockHeightHash", ELocal "getClientBlockHeightHash");
    ("getAddressBySecretKey", ELocal "getAddressBySecretKey");
    ("ethToNearApprove", ELocal "ethToNearApprove"); ("ethToNearLock", ELocal "ethToNearLock");
    ("nearToEthUnlock", ELocal "nearToEthUnlock") ].
Definition testing_index : js_module :=
  mkModule "testing/index.js" testing_index_imports
    [] testing_index_exports.

(** [cli/init/eth-contracts.js] *)
Definition cli_init_eth_contracts_imports : list import_stmt :=
  [ IWhole "BN" "bn.js"; IWhole "fs" "fs";
    IDestructure ["Web3"; "normalizeEthKey"] "rainbow-bridge-utils" ].
Definition cli_init_eth_contracts_exports : list (string * export_val) :=
  [ ("InitEthEd25519", ELocal "InitEthEd25519"); ("InitEthErc20", ELocal "InitEthErc20");
    ("InitEthLocker", ELocal "InitEthLocker"); ("InitEthClient", ELocal "InitEthClient");
    ("InitEthProver", ELocal "InitEthProver") ].
Definition cli_init_eth_contracts : js_module :=
  mkModule "cli/init/eth-contracts.js" cli_init_eth_contracts_imports
    ["InitEthEd25519"; "InitEthErc20"; "InitEthLocker"; "InitEthClient"; "InitEthProver"] cli_init_eth_contracts_exports.

(** [cli/init/near-contracts.js] *)
Definition cli_init_near_contracts_imports : list import_stmt :=
  [ IDestructure ["RobustWeb3"; "nearAPI"; "maybeCreateAccount"; "verifyAccount"] "rainbow-bridge-utils";
    IDestructure ["EthOnNearClientContract"; "EthOnNearProverContract"] "rainbow-bridge-eth2near-block-relay" ].
Definition cli_init_near_contracts_exports : list (string * export_val) :=
  [ ("InitNearContracts", ELocal "InitNearContracts") ].
Definition cli_init_near_contracts : js_module :=
  mkModule "cli/init/near-contracts.js" cli_init_near_contracts_imports
    ["InitNearContracts"] cli_init_near_contracts_exports.

(** [cli/init/near-token-factory.js] *)
Definition cli_init_near_token_factory_imports : list import_stmt :=
  [ IDestructure ["nearAPI"; "maybeCreateAccount"; "verifyAccount"] "rainbow-bridge-utils";
    IDestructure ["BN"] "ethereumjs-util"; IDestructure ["DeployToken"] "rainbow-bridge-testing" ].
Definition cli_init_near_token_factory_exports : list (string * export_val) :=
  [ ("InitNearTokenFactory", ELocal "InitNearTokenFactory") ].
Definition cli_init_near_token_factory : js_module :=
  mkModule "cli/init/near-token-factory.js" cli_init_near_token_factory_imports
    ["InitNearTokenFactory"] cli_init_near_token_factory_exports.

(** [cli/init/index.js] *)
Definition cli_init_index_imports : list import_stmt :=
  [ IDestructure ["InitEthClient"; "InitEthEd25519"; "InitEthErc20"; "InitEthLocker"; "InitEthProver"] "./eth-contracts";
    IDestructure ["InitNearContracts"] "./near-contracts";
    IDestructure ["InitNearTokenFactory"] "./near-token-factory" ].
Definition cli_init_index_exports : list (string * export_val) :=
  [ ("InitEthEd25519", ELocal "InitEthEd25519"); ("InitEthErc20", ELocal "InitEthErc20");
    ("InitEthLocker", ELocal "InitEthLocker"); ("InitEthClient", ELocal "InitEthClient");
    ("InitEthProver", ELocal "InitEthProver"); ("InitNearContracts", ELocal "InitNearContracts");
    ("InitNearTokenFactory", ELocal "InitNearTokenFactory") ].
Definition cli_init_index : js_module :=
  mkModule "cli/init/index.js" cli_init_index_imports
    [] cli_init_index_exports.

(** [cli/commands/clean.js] *)
Definition cli_commands_clean_imports : list import_stmt :=
  [ IDestructure ["execSync"] "child_process"; IWhole "ProcessManager" "pm2" ].
Definition cli_commands_clean_exports : list (string * export_val) :=
  [ ("CleanCommand", ELocal "CleanCommand") ].
Definition cli_commands_clean : js_module :=
  mkModule "cli/commands/clean.js" cli_commands_clean_imports
    ["CleanCommand"] cli_commands_clean_exports.

(** [cli/commands/prepare.js] *)
Definition cli_commands_prepare_imports : list import_stmt :=
  [ IDestructure ["exec"] "child_process"; IWhole "path" "path";
    IDestructure ["getScript"] "rainbow-bridge-utils" ].
Definition cli_commands_prepare_exports : list (string * export_val) :=
  [ ("PrepareCommand", ELocal "PrepareCommand") ].
Definition cli_commands_prepare : js_module :=
  mkModule "cli/commands/prepare.js" cli_commands_prepare_imports
    ["PrepareCommand"] cli_commands_prepare_exports.

(** [cli/commands/status.js] *)
Definition cli_commands_status_imports : list import_stmt :=
  [ IWhole "fetch" "node-fetch"; IWhole "fs" "fs"; IWhole "ProcessManager" "pm2-promise";
    IDestructure ["Web3"; "nearAPI"; "verifyAccountGently"; "normalizeEthKey"] "rainbow-bridge-utils" ].
Definition cli_commands_status_exports : list (string * export_val) :=
  [ ("StatusCommand", ELocal "StatusCommand") ].
Definition cli_commands_status : js_module :=
  mkModule "cli/commands/status.js" cli_commands_status_imports
    ["StatusCommand"] cli_commands_status_exports.

(** [cli/commands/start/helpers.js] *)
Definition cli_commands_start_helpers_imports : list import_stmt :=
  [ IWhole "ProcessManager" "pm2"; IWhole "util" "util" ].
Definition cli_commands_start_helpers_exports : list (string * export_val) :=
  [ ("NEAR_PORT", ELocal "NEAR_PORT"); ("GANACHE_PORT", ELocal "GANACHE_PORT");
    ("spawnProcess", ELocal "spawnProcess"); ("getLocalNearNodeURL", ELocal "getLocalNearNodeURL");
    ("getLocalGanacheNodeURL", ELocal "getLocalGanacheNodeURL") ].
Definition cli_commands_start_helpers : js_module :=
  mkModule "cli/commands/start/helpers.js" cli_commands_start_helpers_imports
    ["NEAR_PORT"; "GANACHE_PORT"; "spawnProcess"; "getLocalNearNodeURL"; "getLocalGanacheNodeURL"] cli_commands_start_helpers_exports.

(** [cli/commands/start/eth2near-relay.js] *)
Definition cli_commands_start_eth2near_relay_imports : list import_stmt :=
  [ IWhole "ProcessManager" "pm2"; IDestructure ["spawnProcess"] "./helpers";
    IDestructure ["EthOnNearClientContract"; "Eth2NearRelay"] "rainbow-bridge-eth2near-block-relay";
    IDestructure ["nearAPI"] "rainbow-bridge-utils"; IWhole "path" "path" ].
Definition cli_commands_start_eth2near_relay_exports : list (string * export_val) :=
  [ ("StartEth2NearRelayCommand", ELocal "StartEth2NearRelayCommand") ].
Definition cli_commands_start_eth2near_relay : js_module :=
  mkModule "cli/commands/start/eth2near-relay.js" cli_commands_start_eth2near_relay_imports
    ["StartEth2NearRelayCommand"] cli_commands_start_eth2near_relay_exports.

(** [cli/commands/start/near2eth-relay.js] *)
Definition cli_commands_start_near2eth_relay_imports : list import_stmt :=
  [ IWhole "ProcessManager" "pm2"; IDestructure ["spawnProcess"] "./helpers";
    IDestructure ["Near2EthRelay"] "rainbow-bridge-near2eth-block-relay"; IWhole "path" "path" ].
Definition cli_commands_start_near2eth_relay_exports : list (string * export_val) :=
  [ ("StartNear2EthRelayCommand", ELocal "StartNear2EthRelayCommand") ].
Definition cli_commands_start_near2eth_relay : js_module :=
  mkModule "cli/commands/start/near2eth-relay.js" cli_commands_start_near2eth_relay_imports
    ["StartNear2EthRelayCommand"] cli_commands_start_near2eth_relay_exports.

(** [cli/commands/start/watchdog.js] *)
Definition cli_commands_start_watchdog_imports : list import_stmt :=
  [ IWhole "ProcessManager" "pm2"; IDestructure ["spawnProcess"] "./helpers";
    IDestructure ["Watchdog"] "rainbow-bridge-watchdog"; IWhole "path" "path" ].
Definition cli_commands_start_watchdog_exports : list (string * export_val) :=
  [ ("StartWatchdogCommand", ELocal "StartWatchdogCommand") ].
Definition cli_commands_start_watchdog : js_module :=
  mkModule "cli/commands/start/watchdog.js" cli_commands_start_watchdog_imports
    ["StartWatchdogCommand"] cli_commands_start_watchdog_exports.

(** [cli/commands/start/ganache.js] *)
Definition cli_commands_start_ganache_imports : list import_stmt :=
  [ IWhole "ProcessManager" "pm2"; IDestructure ["spawnProcess"] "./helpers";
    IDestructure ["getScript"] "rainbow-bridge-utils" ].
Definition cli_commands_start_ganache_exports : list (string * export_val) :=
  [ ("StartGanacheNodeCommand", ELocal "StartGanacheNodeCommand") ].
Definition cli_commands_start_ganache : js_module :=
  mkModule "cli/commands/start/ganache.js" cli_commands_start_ganache_imports
    ["StartGanacheNodeCommand"] cli_commands_start_ganache_exports.

(** [cli/commands/start/near.js] *)
Definition cli_commands_start_near_imports : list import_stmt :=
  [ IWhole "util" "util"; IDestructure ["execSync"] "child_process"; IWhole "request" "request";
    IDestructure ["getLocalNearNodeURL"] "./helpers" ].
Definition cli_commands_start_near_exports : list (string * export_val) :=
  [ ("StartLocalNearNodeCommand", ELocal "StartLocalNearNodeCommand") ].
Definition cli_commands_start_near : js_module :=
  mkModule "cli/commands/start/near.js" cli_commands_start_near_imports
    ["StartLocalNearNodeCommand"] cli_commands_start_near_exports.

(** [cli/commands/stop/process.js] *)
Definition cli_commands_stop_process_imports : list import_stmt :=
  [ IWhole "ProcessManager" "pm2-promise"; IDestructure ["execSync"] "child_process" ].
Definition cli_commands_stop_process_exports : list (string * export_val) :=
  [ ("StopManagedProcessCommand", ELocal "StopManagedProcessCommand") ].
Definition cli_commands_stop_process : js_module :=
  mkModule "cli/commands/stop/process.js" cli_commands_stop_process_imports
    ["StopManagedProcessCommand"] cli_commands_stop_process_exports.

(** [cli/commands/danger-submit-invalid-near-block.js] *)
Definition cli_commands_danger_submit_invalid_near_block_imports : list import_stmt :=
  [ IDestructure ["Near2EthRelay"] "rainbow-bridge-near2eth-block-relay" ].
Definition cli_commands_danger_submit_invalid_near_block_exports : list (string * export_val) :=
  [ ("DangerSubmitInvalidNearBlock", ELocal "DangerSubmitInvalidNearBlock") ].
Definition cli_commands_danger_submit_invalid_near_block : js_module :=
  mkModule "cli/commands/danger-submit-invalid-near-block.js" cli_commands_danger_submit_invalid_near_block_imports
    ["DangerSubmitInvalidNearBlock"] cli_commands_danger_submit_invalid_near_block_exports.

(** [cli/commands/danger-deploy-myerc20.js] *)
Definition cli_commands_danger_deploy_myerc20_imports : list import_stmt :=
  [ IDestructure ["Web3"; "normalizeEthKey"] "rainbow-bridge-utils";
    IDestructure ["BN"] "ethereumjs-util"; IWhole "fs" "fs" ].
Definition cli_commands_danger_deploy_myerc20_exports : list (string * export_val) :=
  [ ("DangerDeployMyERC20", ELocal "DangerDeployMyERC20") ].
Definition cli_commands_danger_deploy_myerc20 : js_module :=
  mkModule "cli/commands/danger-deploy-myerc20.js" cli_commands_danger_deploy_myerc20_imports
    ["DangerDeployMyERC20"] cli_commands_danger_deploy_myerc20_exports.

(** [cli/commands/eth-dump.js] *)
Definition cli_commands_eth_dump_imports : list import_stmt :=
  [ IWhole "Web3" "rainbow-bridge-utils"; IWhole "Path" "path"; IMember "fs" "fs" "promises";
    IDestructure ["EthProofExtractor"; "ethashproof"; "web3BlockToRlp"; "receiptFromWeb3"; "logFromWeb3"] "rainbow-bridge-eth2near-block-relay";
    IWhole "utils" "ethereumjs-util" ].
Definition cli_commands_eth_dump_exports : list (string * export_val) :=
  [ ("ETHDump", ELocal "ETHDump") ].
Definition cli_commands_eth_dump : js_module :=
  mkModule "cli/commands/eth-dump.js" cli_commands_eth_dump_imports
    ["ETHDump"] cli_commands_eth_dump_exports.

(** [cli/commands/near-dump.js] *)
Definition cli_commands_near_dump_imports : list import_stmt :=
  [ IMember "fs" "fs" "promises"; IWhole "Path" "path"; IWhole "fetch" "node-fetch" ].
Definition cli_commands_near_dump_exports : list (string * export_val) :=
  [ ("NearDump", ELocal "NearDump") ].
Definition cli_commands_near_dump : js_module :=
  mkModule "cli/commands/near-dump.js" cli_commands_near_dump_imports
    ["NearDump"] cli_commands_near_dump_exports.

(** [cli/index.js] *)
Definition cli_index_imports : list import_stmt :=
  [ IWhole "path" "path"; IWhole "changeCase" "change-case"; IDestructure ["program"] "commander";
    IDestructure ["CleanCommand"] "./commands/clean";
    IDestructure ["PrepareCommand"] "./commands/prepare";
    IDestructure ["StatusCommand"] "./commands/status";
    IDestructure ["StartEth2NearRelayCommand"] "./commands/start/eth2near-relay.js";
    IDestructure ["StartNear2EthRelayCommand"] "./commands/start/near2eth-relay.js";
    IDestructure ["StartWatchdogCommand"] "./commands/start/watchdog.js";
    IDestructure ["StartGanacheNodeCommand"] "./commands/start/ganache.js";
    IDestructure ["StartLocalNearNodeCommand"] "./commands/start/near.js";
    IDestructure ["StopManagedProcessCommand"] "./commands/stop/process.js";
    IDestructure ["DangerSubmitInvalidNearBlock"] "./commands/danger-submit-invalid-near-block";
    IDestructure ["DangerDeployMyERC20"] "./commands/danger-deploy-myerc20";
    IDestructure ["TransferETHERC20ToNear"; "TransferEthERC20FromNear"; "DeployToken"; "mintErc20"; "getErc20Balance"; "getClientBlockHeightHash"; "getAddressBySecretKey"; "ethToNearApprove"; "ethToNearLock"; "nearToEthUnlock"] "rainbow-bridge-testing";
    IDestructure ["ETHDump"] "./commands/eth-dump";
    IDestructure ["NearDump"] "./commands/near-dump";
    IDestructure ["ethToNearFindProof"] "rainbow-bridge-eth2near-block-relay";
    IDestructure ["RainbowConfig"] "rainbow-bridge-utils";
    IDestructure ["InitNearContracts"; "InitNearTokenFactory"; "InitEthEd25519"; "InitEthErc20"; "InitEthLocker"; "InitEthClient"; "InitEthProver"] "./init" ].
Definition cli_index : js_module :=
  mkModule "cli/index.js" cli_index_imports
    [] [].

Definition program : list js_module :=
  [utils_robust; utils_config_index; utils_borshify_proof; utils_borsh; utils_utils; utils_helpers;
   utils_index; eth2near_eth2near_block_relay_eth_on_near_client;
   eth2near_eth2near_block_relay_eth_on_near_prover;
   eth2near_eth2near_block_relay_eth_proof_extractor; eth2near_eth2near_block_relay_index;
   near2eth_near2eth_block_relay_index; near2eth_watchdog_index;
   testing_transfer_eth_erc20_near_mintable_token; testing_transfer_eth_erc20_to_near;
   testing_transfer_eth_erc20_from_near; testing_transfer_eth_erc20_deploy_token;
   testing_transfer_eth_erc20_index; testing_adapter_index; testing_index; cli_init_eth_contracts;
   cli_init_near_contracts; cli_init_near_token_factory; cli_init_index; cli_commands_clean;
   cli_commands_prepare; cli_commands_status; cli_commands_start_helpers;
   cli_commands_start_eth2near_relay; cli_commands_start_near2eth_relay;
   cli_commands_start_watchdog; cli_commands_start_ganache; cli_commands_start_near;
   cli_commands_stop_process; cli_commands_danger_submit_invalid_near_block;
   cli_commands_danger_deploy_myerc20; cli_commands_eth_dump; cli_commands_near_dump; cli_index].
