(* ===== verification/ModulesTheorems.v ===== *)
(** * Theorems about the modules of the program *)

From stdpp Require Import base list strings gmap.
From Stdlib Require Import ZArith Lia.
From S2P Require Import Prelude Modules.

(** ** Termination of the loader *)

(** The modules that are not in the cache. *)
Definition unloaded (program : list js_module) (l : loader) : nat :=
  length (List.filter (fun m => negb (bool_decide (is_Some (lookup_name (m_path m) (cache l))))) program).

Definition cached_in (l l' : loader) : Prop :=
  forall path, is_Some (lookup_name path (cache l)) -> is_Some (lookup_name path (cache l')).
#[export] Instance cached_in_preorder : PreOrder cached_in.
Proof. split; [by intros l p|]. intros l1 l2 l3 H12 H23 p Hp. by apply H23, H12. Qed.

Lemma lookup_name_cons {A} k k' (v : A) l : lookup_name k ((k', v) :: l) = if String.eqb k' k then Some v else lookup_name k l.
Proof. unfold lookup_name. simpl. by destruct (String.eqb k' k). Qed.

Lemma filter_length_mono {A} (f g : A -> bool) l : (forall x, f x = true -> g x = true) ->
  length (List.filter f l) <= length (List.filter g l).
Proof.
  intros Hfg. induction l as [|x l IH]; [done|]. simpl. destruct (f x) eqn:Ef.
  - rewrite (Hfg x Ef). simpl. lia.
  - destruct (g x); simpl; lia.
Qed.
Lemma filter_length_lt {A} (f g : A -> bool) l x : (forall x, f x = true -> g x = true) ->
  In x l -> f x = false -> g x = true -> length (List.filter f l) < length (List.filter g l).
Proof.
  intros Hfg Hin Hf Hg. induction l as [|y l IH]; [done|]. pose proof (filter_length_mono f g l Hfg).
  destruct Hin as [->|Hin].
  - simpl. rewrite Hf, Hg. simpl. lia.
  - specialize (IH Hin). simpl. destruct (f y) eqn:Ef; [rewrite (Hfg y Ef); simpl; lia|]. destruct (g y); simpl; lia.
Qed.

Lemma unloaded_mono program l l' : cached_in l l' -> unloaded program l' <= unloaded program l.
Proof.
  intros Hc. apply filter_length_mono. intros m. rewrite !negb_true_iff, !bool_decide_eq_false. eauto.
Qed.

Lemma unloaded_enter program l path m r rs : find_module program path = Some m -> lookup_name path (cache l) = None ->
  unloaded program (mkLoader ((path, []) :: cache l) r rs) < unloaded program l.
Proof.
  intros Hm Hnone. apply List.find_some in Hm as [Hin Hp%String.eqb_eq]. subst path.
  apply (filter_length_lt _ _ _ m); [|done| |].
  - intros x. rewrite !negb_true_iff, !bool_decide_eq_false. cbn [cache]. rewrite lookup_name_cons.
    intros Hx Hs. apply Hx. by destruct (String.eqb (m_path m) (m_path x)).
  - cbn [cache]. by rewrite lookup_name_cons, String.eqb_refl, bool_decide_true.
  - rewrite Hnone. by rewrite bool_decide_false.
Qed.

(** What the loader promises for caches with at most [k] modules missing. *)
Definition loads (program : list js_module) (k : nat) (load : string -> loader -> outcome loader) : Prop :=
  forall path l, unloaded program l <= k ->
    load path l <> OutOfFuel /\ forall l', load path l = Ok l' -> cached_in l l'.

Lemma run_imports_loads program k ld path stmts : loads program k ld -> forall e l,
  unloaded program l <= k ->
  run_imports program ld path stmts e l <> OutOfFuel /\
  forall e' l', run_imports program ld path stmts e l = Ok (e', l') -> cached_in l l'.
Proof.
  intros Hld. induction stmts as [|stmt stmts IH]; intros e l Hk; cbn [run_imports].
  - split; [done|]. by intros e' l' [= _ <-].
  - destruct (resolve_from program path (import_from stmt)) as [target|]; [|by apply IH].
    destruct (Hld target l Hk) as [Hno Hmono]. destruct (ld target l) as [l1| | |] eqn:E1; try done.
    cbn [mbind outcome_bind]. specialize (Hmono l1 eq_refl). pose proof (unloaded_mono program _ _ Hmono) as Hle.
    match goal with |- run_imports _ _ _ _ ?e1 ?l2 <> _ /\ _ => destruct (IH e1 l2) as [Hn Hm] end;
      [unfold unloaded in *; cbn [cache] in *; lia|].
    split; [done|]. intros e' l' Hr. etransitivity; [exact Hmono|]. exact (Hm _ _ Hr).
Qed.

Lemma cached_in_enter path l r rs : cached_in l (mkLoader ((path, []) :: cache l) r rs).
Proof. intros q Hq. cbn [cache]. rewrite lookup_name_cons. by destruct (String.eqb path q). Qed.
Lemma cached_in_leave path l l' ex r rs : cached_in l l' -> cached_in l (mkLoader ((path, ex) :: cache l') r rs).
Proof. intros Hc q Hq. cbn [cache]. rewrite lookup_name_cons. destruct (String.eqb path q); [done|auto]. Qed.

Lemma run_exports_ends path m e : run_exports path m e <> OutOfFuel.
Proof.
  unfold run_exports. induction (m_exports m) as [|[n v] exs IH]; [done|]. cbn [mapM_out].
  unfold eval_export. destruct v as [name|name field]; simpl.
  - by destruct (mapM_out _ exs).
  - destruct (local_binding path m e name); simpl; try done; by destruct (mapM_out _ exs).
Qed.

Lemma load_loads program fuel : loads program fuel (load program (S fuel)).
Proof.
  induction fuel as [|fuel IH]; intros path l Hk; cbn [load];
    destruct (lookup_name path (cache l)) as [ex|] eqn:Ec; try (split; [done|by intros l' [= <-]]);
    destruct (find_module program path) as [m|] eqn:Em; try done;
    pose proof (unloaded_enter program l path m (path :: running l) (reports l) Em Ec) as Hlt; [lia|].
  destruct (run_imports_loads program fuel (load program (S fuel)) path (m_imports m) IH []
    (mkLoader ((path, []) :: cache l) (path :: running l) (reports l)) ltac:(lia)) as [Hno Hmono].
  change (fix load (fuel0 : nat) (path0 : string) (l0 : loader) {struct fuel0} : outcome loader := _) with (load program) in *.
  destruct (run_imports _ _ _ _ _ _) as [[e l1]| | |] eqn:Er; try done. cbn [mbind outcome_bind].
  specialize (Hmono _ _ eq_refl). pose proof (run_exports_ends path m e) as Hne. destruct (run_exports path m e) as [ex| | |]; try done.
  cbn [mbind outcome_bind]. split; [done|]. intros l' [= <-].
  apply cached_in_leave. etransitivity; [|exact Hmono]. apply cached_in_enter.
Qed.

(** The loader ends for every program and every module: each module is entered
    at most once, so that the depth of nested loads is at most the number of
    modules. *)
Theorem run_program_terminates (program : list js_module) (main : string) :
  run_program program main <> OutOfFuel.
Proof.
  apply (load_loads program (length program) main start_loader).
  unfold unloaded. generalize (fun m => negb (bool_decide (is_Some (lookup_name (m_path m) (cache start_loader))))).
  intros f. induction program as [|m ms IH]; [done|]. simpl. destruct (f m); simpl; lia.
Qed.

(** ** The command line program *)

Definition defined_exports (l : loader) : bool :=
  forallb (fun pe : string * list (string * js_binding) =>
    forallb (fun nb : string * js_binding => negb (bool_decide (nb.2 = BUndefined))) pe.2) (cache l).
Definition all_loaded (program : list js_module) (l : loader) : bool :=
  forallb (fun m => match lookup_name (m_path m) (cache l) with Some _ => true | None => false end) program.

(** Running [cli/index.js] loads every module of the program, none of them
    while it still runs, and no module exports an undefined name; three imports
    are undefined: [verifyAccountGently] in the status command,
    [promiseWithTimeout] in the watchdog and [web3BlockToRlp] in the dump. *)
Lemma cli_links :
  exists l, run_program program "cli/index.js" = Ok l /\ all_loaded program l = true /\
    defined_exports l = true /\
    reports l = [RUndefined "cli/commands/status.js" "verifyAccountGently" "rainbow-bridge-utils";
                 RUndefined "near2eth/watchdog/index.js" "promiseWithTimeout" "rainbow-bridge-utils";
                 RUndefined "cli/commands/eth-dump.js" "web3BlockToRlp" "rainbow-bridge-eth2near-block-relay"].
Proof.
  exists (from_ok start_loader (run_program program "cli/index.js")).
  split; [apply from_ok_spec; vm_compute; reflexivity|]. split_and!; vm_compute; reflexivity.
Qed.
