(* ===== verification/SolBorsh.v ===== *)
(** * The other readers of [Borsh.sol]

    Signed integers, booleans and byte strings of 20 bytes, which no contract of
    the repository uses.  A signed integer of Solidity is the integer itself; a
    conversion or a shift that leaves the type wraps around. *)

From Stdlib Require Import Strings.Byte.
From stdpp Require Import base list strings.
From Stdlib Require Import ZArith Lia.
From S2P Require Import Prelude Js Borsh BorshSpec NearDecoder BorshifySpec.
Local Open Scope Z_scope.

(** [intN(z)] *)
Definition int_of (bits z : Z) : Z :=
  let m := z mod 2 ^ bits in if m <? 2 ^ (bits - 1) then m else m - 2 ^ bits.

Definition decodeI8 : R Z := bs ← shift_read 1; mret (int_of 8 (Z_of_le bs)).

(** The lower half, and then the upper half shifted and joined by [|=]. *)
Definition join_signed (bits lo hi : Z) : Z :=
  Z.lor lo (int_of bits (Z.shiftl hi (bits / 2))).
Definition decodeI16 : R Z := lo ← decodeI8; hi ← decodeI8; mret (join_signed 16 lo hi).
Definition decodeI32 : R Z := lo ← decodeI16; hi ← decodeI16; mret (join_signed 32 lo hi).
Definition decodeI64 : R Z := lo ← decodeI32; hi ← decodeI32; mret (join_signed 64 lo hi).
Definition decodeI128 : R Z := lo ← decodeI64; hi ← decodeI64; mret (join_signed 128 lo hi).
Definition decodeI256 : R Z := lo ← decodeI128; hi ← decodeI128; mret (join_signed 256 lo hi).

Definition decodeBool : R bool := v ← decodeU8; mret (negb (v =? 0)).
Definition decodeBytes20 : R (list byte) := zs ← read_times 20 decodeU8; mret (map byte_of_Z zs).

(** [peekKeccak256(length)], for a hash function of the machine. *)
Definition peekKeccak256 (keccak256 : list byte -> list byte) (length : nat) : R (list byte) := fun data =>
  Ok (keccak256 (slice (r_offset data) (r_offset data + length) (r_buf data)), data).

(** ** Signed integers are not read back *)

(** What two bytes are read as, and what they stand for. *)
Definition read_pair (lo hi : byte) : Z := join_signed 16 (int_of 8 (Z_of_byte lo)) (int_of 8 (Z_of_byte hi)).
Definition meant_pair (lo hi : byte) : Z := int_of 16 (Z_of_byte lo + 256 * Z_of_byte hi).

(** A byte of the low half and a multiple of 256. *)
Lemma int8_byte b : int_of 8 (Z_of_byte b) = if Z_of_byte b <? 128 then Z_of_byte b else Z_of_byte b - 256.
Proof. unfold int_of. pose proof (Z_of_byte_range b). by rewrite Z.mod_small. Qed.
Lemma shifted_byte b : int_of 16 (Z.shiftl (int_of 8 (Z_of_byte b)) 8) = Z.shiftl (int_of 8 (Z_of_byte b)) 8.
Proof. by destruct b. Qed.
Lemma land_low a h : 0 <= a < 2 ^ 8 -> Z.land a (Z.shiftl h 8) = 0.
Proof.
  intros Ha. apply Z.bits_inj'. intros n Hn. rewrite Z.land_spec, Z.bits_0.
  destruct (Z.lt_ge_cases n 8); [rewrite Z.shiftl_spec_low by done; apply andb_false_r|].
  replace (Z.testbit a n) with false; [done|]. symmetry.
  destruct (decide (a = 0)) as [->|]; [apply Z.bits_0|]. apply Z.bits_above_log2; [lia|].
  apply Z.lt_le_trans with 8; [|done]. apply Z.log2_lt_pow2; lia.
Qed.

Lemma read_pair_spec lo hi :
  read_pair lo hi = if Z_of_byte lo <? 128 then meant_pair lo hi else Z_of_byte lo - 256.
Proof.
  unfold read_pair, join_signed, meant_pair. change (16 / 2) with 8. rewrite shifted_byte, int8_byte.
  pose proof (Z_of_byte_range lo). pose proof (Z_of_byte_range hi). destruct (Z.ltb_spec (Z_of_byte lo) 128).
  - rewrite <- Z.add_nocarry_lor by (apply land_low; lia). rewrite Z.shiftl_mul_pow2, int8_byte by lia.
    unfold int_of. rewrite Z.mod_small by lia. change (2 ^ (16 - 1)) with 32768. change (2 ^ 16) with 65536.
    change (2 ^ 8) with 256. destruct (Z.ltb_spec (Z_of_byte hi) 128), (Z.ltb_spec (Z_of_byte lo + 256 * Z_of_byte hi) 32768); lia.
  - set (h := int_of 8 (Z_of_byte hi)). replace (Z_of_byte lo - 256) with (Z.lnot (255 - Z_of_byte lo)) by (unfold Z.lnot; lia).
    apply Z.bits_inj'. intros n Hn. rewrite Z.lor_spec, Z.lnot_spec by done.
    assert (Z.testbit (255 - Z_of_byte lo) n && Z.testbit (Z.shiftl h 8) n = false) as Hd.
    { rewrite <- Z.land_spec, land_low by lia. apply Z.bits_0. }
    by destruct (Z.testbit (255 - Z_of_byte lo) n), (Z.testbit (Z.shiftl h 8) n).
Qed.

(** [decodeI16] reads two bytes as the integer they stand for when the low byte is
    below 128, and otherwise drops the high byte: the sign of the low byte fills
    the upper half. *)
Lemma decodeI16_reads lo hi :
  reads_at decodeI16 [lo; hi] (if Z_of_byte lo <? 128 then meant_pair lo hi else Z_of_byte lo - 256).
Proof.
  assert (forall b, reads_at decodeI8 [b] (int_of 8 (Z_of_byte b))) as H8.
  { intros b. replace (Z_of_byte b) with (Z_of_le [b]) by (simpl; lia).
    apply (reads_at_map _ (fun bs => int_of 8 (Z_of_le bs))). by apply reads_at_shift'. }
  rewrite <- read_pair_spec.
  apply (reads_at_bind _ _ [lo] [hi] _ _ (H8 lo)).
  apply (reads_at_map decodeI8 (join_signed 16 (int_of 8 (Z_of_byte lo)))), H8.
Qed.

Lemma decodeI16_drops_high_byte hi : reads_at decodeI16 (xc8 :: [hi]) (-56) /\ meant_pair xc8 x00 = 200.
Proof. split; [exact (decodeI16_reads xc8 hi)|reflexivity]. Qed.
