(* ===== verification/EthDag.v ===== *)
(** * The Merkle proofs of the ethash data set

    The nodes that a submitted header brings along are checked against the Merkle
    root of the data set of its epoch.  The reference is the tree itself: its
    leaves are pairs of nodes of 64 bytes, its hashes SHA-256 cut to the last 16
    bytes.  The theorems assume that no two different strings among those that are
    hashed in the tree and by the client have the same hash. *)

From Stdlib Require Import Strings.Byte.
From stdpp Require Import base list strings gmap.
From Stdlib Require Import ZArith Lia.
From S2P Require Import Prelude Js EthClient EthClientSpec.
Local Open Scope Z_scope.

Inductive dag_tree :=
| DLeaf (n0 n1 : list byte)
| DNode (l r : dag_tree).

Section dag.
Context `{EthLibs}.

Definition cut_hash (bs : list byte) : list byte := truncate_to_h128 (near_sha256 bs).

Fixpoint dag_root (t : dag_tree) : list byte :=
  match t with
  | DLeaf n0 n1 => cut_hash (n0 ++ n1)
  | DNode l r => hash_h128 (dag_root l) (dag_root r)
  end.

(** All leaves at the same depth, with nodes of 64 bytes, and hashes of 16. *)
Inductive perfect : nat -> dag_tree -> Prop :=
| perfect_leaf n0 n1 :
    length n0 = 64%nat -> length n1 = 64%nat -> length (dag_root (DLeaf n0 n1)) = 16%nat -> perfect 0 (DLeaf n0 n1)
| perfect_node d l r :
    perfect d l -> perfect d r -> length (dag_root (DNode l r)) = 16%nat -> perfect (S d) (DNode l r).

(** The leaf at an index: the highest bit chooses at the root. *)
Fixpoint dag_leaf (t : dag_tree) (d : nat) (index : Z) : list byte * list byte :=
  match t, d with
  | DLeaf n0 n1, _ => (n0, n1)
  | DNode l r, S d => if Z.shiftr index (Z.of_nat d) mod 2 =? 0 then dag_leaf l d index else dag_leaf r d index
  | DNode l r, O => dag_leaf l O index
  end.

(** The hashes beside the way up from a leaf. *)
Fixpoint dag_path (t : dag_tree) (d : nat) (index : Z) : list (list byte) :=
  match t, d with
  | DNode l r, S d =>
      if Z.shiftr index (Z.of_nat d) mod 2 =? 0 then dag_path l d index ++ [dag_root r]
      else dag_path r d index ++ [dag_root l]
  | _, _ => []
  end.

(** What is hashed for two children. *)
Definition pair_string (l r : list byte) : list byte := replicate 16 x00 ++ l ++ replicate 16 x00 ++ r.
Lemma hash_h128_cut l r : hash_h128 l r = cut_hash (pair_string l r).
Proof. done. Qed.

(** The strings that are hashed in the tree. *)
Fixpoint dag_hashed (t : dag_tree) : list (list byte) :=
  match t with
  | DLeaf n0 n1 => [n0 ++ n1]
  | DNode l r => pair_string (dag_root l) (dag_root r) :: dag_hashed l ++ dag_hashed r
  end.

(** One step of the client on the way up, the value it comes to and the strings
    that it hashes. *)
Definition step_string (index : Z) (i : nat) (leaf p : list byte) : list byte :=
  if Z.shiftr index (Z.of_nat i) mod 2 =? 0 then pair_string leaf p else pair_string p leaf.
Fixpoint climb_value (index : Z) (proof : list (list byte)) (i : nat) (leaf : list byte) : list byte :=
  match proof with
  | [] => leaf
  | p :: proof => climb_value index proof (S i) (cut_hash (step_string index i leaf p))
  end.
Fixpoint climb_strings (index : Z) (proof : list (list byte)) (i : nat) (leaf : list byte) : list (list byte) :=
  match proof with
  | [] => []
  | p :: proof => step_string index i leaf p :: climb_strings index proof (S i) (cut_hash (step_string index i leaf p))
  end.
(** All strings that are hashed to check a node. *)
Definition node_strings (index : Z) (n0 n1 : list byte) (proof : list (list byte)) : list (list byte) :=
  (n0 ++ n1) :: climb_strings index proof 0 (cut_hash (n0 ++ n1)).

Definition no_cut_collision (l k : list (list byte)) : Prop :=
  forall x y, x ∈ l -> y ∈ k -> cut_hash x = cut_hash y -> x = y.

Lemma step_hash index i leaf p : cut_hash (step_string index i leaf p) =
  if Z.shiftr index (Z.of_nat i) mod 2 =? 0 then hash_h128 leaf p else hash_h128 p leaf.
Proof. unfold step_string. by destruct (_ =? 0). Qed.

Lemma merkle_loop_value index proof : forall (i : nat) leaf,
  merkle_loop index proof (Z.of_nat i) leaf =
  if decide (proof = [] \/ i + length proof <= 64)%nat then Ok (climb_value index proof i leaf)
  else panic "attempt to shift right with overflow".
Proof.
  induction proof as [|p proof IH]; intros i leaf; cbn [merkle_loop climb_value length].
  - by rewrite decide_True by (by left).
  - destruct (Z.ltb_spec (Z.of_nat i) 64) as [Hi|Hi].
    + replace (Z.of_nat i + 1) with (Z.of_nat (S i)) by lia. rewrite IH, step_hash.
      destruct (decide (proof = [] \/ _)) as [[->|H1]|H1]; destruct (decide (_ \/ _)) as [[?|H2]|H2]; try done; exfalso;
        first [apply H2|apply H1]; simpl in *; first [lia|right; lia].
    + rewrite decide_False; [done|]. intros [?|?]; [done|lia].
Qed.

Lemma climb_value_app index proof p : forall i leaf, climb_value index (proof ++ [p]) i leaf =
  cut_hash (step_string index (i + length proof) (climb_value index proof i leaf) p).
Proof.
  induction proof as [|q proof IH]; intros i leaf; cbn [app climb_value length]; [by rewrite Nat.add_0_r|].
  by rewrite IH, Nat.add_succ_r.
Qed.
Lemma climb_strings_app index proof p : forall i leaf, climb_strings index (proof ++ [p]) i leaf =
  climb_strings index proof i leaf ++ [step_string index (i + length proof) (climb_value index proof i leaf) p].
Proof.
  induction proof as [|q proof IH]; intros i leaf; cbn [app climb_strings climb_value length]; [by rewrite Nat.add_0_r|].
  by rewrite IH, Nat.add_succ_r.
Qed.

(** ** Strings *)

Lemma pair_string_inj l r l' r' : length l = 16%nat -> length l' = 16%nat ->
  pair_string l r = pair_string l' r' -> l = l' /\ r = r'.
Proof.
  intros Hl Hl' E. apply app_inj_1 in E as [_ E]; [|done]. apply app_inj_1 in E as [-> E]; [|congruence].
  by apply app_inj_1 in E as [_ ->].
Qed.
Lemma pair_string_not_leaf l r n0 n1 : length l = 16%nat -> length r = 16%nat ->
  length n0 = 64%nat -> length n1 = 64%nat -> pair_string l r <> n0 ++ n1.
Proof.
  intros Hl Hr H0 H1 E%(f_equal length). unfold pair_string in E. rewrite !length_app, !length_replicate in E. lia.
Qed.

Lemma perfect_length d t : perfect d t -> length (dag_root t) = 16%nat.
Proof. by destruct 1. Qed.

(** Every step of a proof gives 16 bytes, as the host's hash does. *)
Section sound.
Hypothesis sha_length : forall bs, length (near_sha256 bs) = 32%nat.
Lemma cut_hash_length bs : length (cut_hash bs) = 16%nat.
Proof. unfold cut_hash, truncate_to_h128. rewrite length_drop, sha_length. done. Qed.

Lemma climb_value_length index proof : forall i leaf, length leaf = 16%nat ->
  length (climb_value index proof i leaf) = 16%nat.
Proof. induction proof as [|p proof IH]; intros i leaf Hl; cbn [climb_value]; [done|]. apply IH, cut_hash_length. Qed.

(** ** Soundness *)

Lemma climb_sound index proof : Forall (fun p => length p = 16%nat) proof -> forall d t n0 n1,
  perfect d t -> length n0 = 64%nat -> length n1 = 64%nat ->
  no_cut_collision (node_strings index n0 n1 proof) (dag_hashed t) ->
  climb_value index proof 0 (cut_hash (n0 ++ n1)) = dag_root t ->
  dag_leaf t d index = (n0, n1) /\ length proof = d.
Proof.
  unfold node_strings. induction proof as [|p proof IH] using rev_ind; intros Hlens d t n0 n1 Hp H0 H1 Hc E.
  - cbn in E. destruct Hp as [m0 m1 Hm0 Hm1 _|d l r Hl Hr _]; cbn [dag_root] in E.
    + apply Hc in E; [|by left|by left]. by apply app_inj_1 in E as [-> ->]; [|congruence].
    + rewrite hash_h128_cut in E. apply Hc in E; [|by left|by left]. symmetry in E.
      apply pair_string_not_leaf in E; [done| | |done|done]; by eapply perfect_length.
  - rewrite Forall_app, Forall_singleton in Hlens. destruct Hlens as [Hlens Hpl].
    rewrite climb_value_app in E. rewrite climb_strings_app in Hc. cbn [Nat.add] in E, Hc.
    set (h := climb_value index proof 0 (cut_hash (n0 ++ n1))) in *.
    assert (length h = 16%nat) as Hhl by apply climb_value_length, cut_hash_length.
    destruct Hp as [m0 m1 Hm0 Hm1 _|d l r Hl Hr _]; cbn [dag_root] in E.
    { apply Hc in E; [|set_solver|by left]. unfold step_string in E. destruct (_ =? 0); by apply pair_string_not_leaf in E. }
    pose proof (perfect_length _ _ Hl). pose proof (perfect_length _ _ Hr).
    rewrite hash_h128_cut in E. apply Hc in E; [|set_solver|by left]. cbn [dag_leaf]. unfold step_string in E.
    assert (forall t0, dag_hashed t0 ⊆ dag_hashed (DNode l r) ->
      no_cut_collision ((n0 ++ n1) :: climb_strings index proof 0 (cut_hash (n0 ++ n1))) (dag_hashed t0)) as Hsub
      by (intros t0 Hin x y Hx Hy; apply Hc; set_solver).
    rewrite length_app, Nat.add_1_r.
    destruct (Z.shiftr index (Z.of_nat (length proof)) mod 2 =? 0) eqn:Eb; apply pair_string_inj in E as [E1 E2]; try done.
    + destruct (IH Hlens d l n0 n1) as [Hleaf <-]; try done; [apply Hsub; set_solver|]. by rewrite Eb.
    + destruct (IH Hlens d r n0 n1) as [Hleaf <-]; try done; [apply Hsub; set_solver|]. by rewrite Eb.
Qed.
End sound.

(** ** Completeness *)

Lemma dag_path_length d t index : perfect d t -> length (dag_path t d index) = d.
Proof.
  induction 1 as [|d l r _ IHl _ IHr _]; [done|]. cbn [dag_path]. destruct (_ =? 0); rewrite length_app; simpl; lia.
Qed.

Lemma climb_complete d t index : perfect d t ->
  climb_value index (dag_path t d index) 0 (let '(n0, n1) := dag_leaf t d index in cut_hash (n0 ++ n1)) = dag_root t.
Proof.
  intros Hp. induction Hp as [n0 n1|d l r Hl IHl Hr IHr _]; [done|]. cbn [dag_path dag_leaf dag_root].
  destruct (Z.shiftr index (Z.of_nat d) mod 2 =? 0) eqn:Eb; rewrite climb_value_app, step_hash, dag_path_length by done;
    rewrite Nat.add_0_l, Eb; congruence.
Qed.

Lemma merkle_complete d t index : perfect d t -> (d <= 64)%nat ->
  merkle_loop index (dag_path t d index) 0 (let '(n0, n1) := dag_leaf t d index in cut_hash (n0 ++ n1)) = Ok (dag_root t).
Proof.
  intros Hp Hd. change 0 with (Z.of_nat 0). rewrite merkle_loop_value, climb_complete by done.
  rewrite decide_True; [done|]. right. by rewrite dag_path_length.
Qed.
End dag.

(** ** The lookups of [hashimoto] *)

(** A node as [H512] and [H128] make it. *)
Definition node_typed (node : DoubleNodeWithMerkleProof) : Prop :=
  (exists n0 n1, dag_nodes node = [n0; n1] /\ length n0 = 64%nat /\ length n1 = 64%nat) /\
  Forall (fun p => length p = 16%nat) (dag_proof node).

(** The order of bytes that ethash wants. *)
Definition ethash_word (data : list byte) : list byte := reverse (take 32 data) ++ reverse (drop 32 data).

(** The strings that are hashed to check the node at place [m] of a header. *)
Definition looked_up_strings `{EthLibs} (nodes : list DoubleNodeWithMerkleProof) (m : nat) (offset : Z)
    : list (list byte) :=
  match nodes !! m with
  | Some (mkDoubleNode [n0; n1] proof) => node_strings (offset / 2) n0 n1 proof
  | _ => []
  end.

(** C20: the words that the proof of work is computed from are those of the data
    set.  Let the Merkle root of the epoch be the root of a tree, and let none of
    the strings that the client hashes for a node have the same hash as a
    different string of the tree.  When the lookup at an even place and the one
    after it succeed, they give the two nodes of the leaf at half the offset;
    the length of the proof need not be checked. *)
Theorem dag_lookup_sound `{EthLibs} (c : EthClient) (nodes : list DoubleNodeWithMerkleProof) (d : nat)
    (t : dag_tree) (offset offset' : Z) (m : nat) (w0 w1 : list byte) (i1 i2 : nat) :
  (forall bs, length (near_sha256 bs) = 32%nat) -> perfect d t -> Forall node_typed nodes ->
  no_cut_collision (looked_up_strings nodes m offset) (dag_hashed t) -> validate_ethash c = true ->
  lookup_node c nodes (dag_root t) offset (2 * m) = Ok (w0, i1) ->
  lookup_node c nodes (dag_root t) offset' i1 = Ok (w1, i2) ->
  exists n0 n1, dag_leaf t d (offset / 2) = (n0, n1) /\ w0 = ethash_word n0 /\ w1 = ethash_word n1.
Proof.
  intros Hsha Hp Hnodes Hcol Hval Hl0 Hl1. unfold lookup_node in Hl0, Hl1.
  apply obind_ok in Hl0 as (node & Hn%unwrap_ok & Hl0). replace (2 * m)%nat with (m * 2)%nat in * by lia.
  rewrite Nat.div_mul in Hn by lia. rewrite Nat.Div0.mod_mul, Hval in Hl0. cbn [Nat.eqb andb] in Hl0.
  apply obind_ok in Hl0 as (u & Hck & Hl0). apply obind_ok in Hl0 as (n0 & Hn0%unwrap_ok & Hl0). injection Hl0 as <- <-.
  apply obind_ok in Hl1 as (node' & Hn'%unwrap_ok & Hl1). replace (S (m * 2)) with (1 + m * 2)%nat in * by lia.
  rewrite Nat.div_add in Hn' by lia. change (1 / 2 + m)%nat with m in Hn'. rewrite Hn in Hn'. injection Hn' as <-.
  rewrite Nat.Div0.mod_add in Hl1. change (1 mod 2)%nat with 1%nat in Hl1. cbn [Nat.eqb andb mbind outcome_bind] in Hl1.
  apply obind_ok in Hl1 as (n1 & Hn1%unwrap_ok & Hl1). injection Hl1 as <- _.
  rewrite Forall_lookup in Hnodes. destruct (Hnodes _ _ Hn) as [(a & b & Hab & Ha & Hb) Hpf].
  destruct node as [dn pf]. simpl in Hab, Hpf. subst dn. unfold looked_up_strings in Hcol. rewrite Hn in Hcol.
  unfold apply_merkle_proof in Hck. cbn in Hn0, Hn1. injection Hn0 as <-. injection Hn1 as <-.
  cbn [lookup list_lookup unwrap mbind outcome_bind dag_nodes dag_proof] in Hck.
  apply obind_ok in Hck as (r & Hr & Hck%assert_ok%bool_decide_eq_true). subst r.
  change 0 with (Z.of_nat 0) in Hr. rewrite merkle_loop_value in Hr. destruct (decide _); [|done]. injection Hr as Hr.
  destruct (climb_sound Hsha _ _ Hpf d t a b Hp Ha Hb Hcol Hr) as [Hleaf _]. by exists a, b.
Qed.

(** The nodes and paths of the tree pass. *)
Lemma dag_lookup_honest `{EthLibs} (c : EthClient) (nodes : list DoubleNodeWithMerkleProof) (d : nat)
    (t : dag_tree) (offset : Z) (m : nat) (n0 n1 : list byte) :
  perfect d t -> (d <= 64)%nat -> dag_leaf t d (offset / 2) = (n0, n1) ->
  nodes !! m = Some (mkDoubleNode [n0; n1] (dag_path t d (offset / 2))) ->
  lookup_node c nodes (dag_root t) offset (2 * m) = Ok (ethash_word n0, S (2 * m)).
Proof.
  intros Hp Hd Hleaf Hn. unfold lookup_node. replace (2 * m)%nat with (m * 2)%nat by lia.
  rewrite Nat.div_mul, Hn, Nat.Div0.mod_mul by lia. cbn [unwrap mbind outcome_bind Nat.eqb andb].
  pose proof (merkle_complete d t (offset / 2) Hp Hd) as Hr. rewrite Hleaf in Hr.
  unfold apply_merkle_proof. cbn. unfold cut_hash in Hr. rewrite Hr. cbn [mbind outcome_bind].
  rewrite bool_decide_true by done. by destruct (validate_ethash c).
Qed.

(** ** Witness *)

(** A tree of two leaves, under a hash of 32 bytes. *)
#[local] Instance toy_dag_libs : EthLibs := {|
  near_sha256 bs := take 32 (drop 16 bs ++ replicate 32 x00);
  near_keccak256 bs := bs;
  rlp_hash_at n d i := Ok [];
  rlp_vec_at d i := Ok [];
  rlp_uint_at bits d i := Ok 0;
  rlp_stream items := [];
  cross_boundary z := z;
  get_full_size z := z;
  hashimoto_with_hasher S h n size lookup s := Ok (([], []), s)
|}.
Definition toy_dag : dag_tree :=
  DNode (DLeaf (replicate 64 x01) (replicate 64 x02)) (DLeaf (replicate 64 x03) (replicate 64 x04)).
Definition toy_dag_nodes : list DoubleNodeWithMerkleProof :=
  [mkDoubleNode [replicate 64 x03; replicate 64 x04] (dag_path toy_dag 1 1)].
Definition toy_dag_client : EthClient := mkEthClient true 0 [dag_root toy_dag] [] 0 0 0 ∅ ∅ ∅ ∅ None.

Lemma no_cut_collision_check `{EthLibs} l k :
  forallb (fun x => forallb (fun y => bool_decide (cut_hash x <> cut_hash y) || bool_decide (x = y)) k) l = true ->
  no_cut_collision l k.
Proof.
  rewrite forallb_forall. intros Hall x y Hx Hy Hxy. apply list_elem_of_In in Hx, Hy. specialize (Hall x Hx).
  rewrite forallb_forall in Hall. specialize (Hall y Hy). apply orb_true_iff in Hall as [Hne|He].
  - by apply bool_decide_eq_true in Hne.
  - by apply bool_decide_eq_true in He.
Qed.

Lemma dag_lookup_sound_witness :
  exists n0 n1, dag_leaf toy_dag 1 (2 / 2) = (n0, n1) /\ replicate 64 x03 = ethash_word n0 /\
    replicate 64 x04 = ethash_word n1.
Proof.
  apply (dag_lookup_sound toy_dag_client toy_dag_nodes 1 toy_dag 2 3 0 (replicate 64 x03) (replicate 64 x04) 1 2).
  - intros bs. cbn [near_sha256 toy_dag_libs]. rewrite length_take, length_app, length_replicate. lia.
  - repeat constructor.
  - repeat constructor. by exists (replicate 64 x03), (replicate 64 x04).
  - apply no_cut_collision_check. vm_compute. reflexivity.
  - reflexivity.
  - vm_compute. reflexivity.
  - vm_compute. reflexivity.
Defined.
